(* ===== verification/_CoqProject ===== *)
-Q . S2P
Prelude.v
CppString.v
Config.v
Http.v
Json.v
Channel.v
Socket.v
Framing.v
Connection.v
WritePath.v
ReadPath.v
Lifetime.v
Waiting.v
Limiter.v
ThreadPool.v
Interfaces.v
Redis.v
RedisThreads.v
Mysql.v
Handlers.v
Accounts.v
NoRedis.v
Interleaved.v
Atomic.v
Service.v
Linear.v
Progress.v
Server.v
ServerLife.v
Boot.v
Process.v
Answers.v
SlowAnswers.v
Buffer.v
Client.v
Log.v
