(* ===== verification/Prelude.v ===== *)
(** * MyFirstCPPServer: a verification library

    The program is an HTTP server on epoll. The main reactor accepts connections
    and hands each to one of several sub-reactors, by descriptor; a sub-reactor
    reads, frames and answers requests on its own thread and gives the routes
    that need a database ([/register], [/login], [/profile], [/logout]) to a pool
    of database threads, which talk to MySQL and Redis through connection pools
    and write their answers to the client's descriptor themselves.

    ** Files

    - [Prelude]: byte strings, machine integers with their wrap-around,
      automation and list facts shared by all files.
    - [CppString]: what the program uses of [std::string], [tolower], [strtol] and
      [std::to_string].
    - [Config] (include/Config.h): the settings, read from an environment that is
      a parameter, and the constants.
    - [Http] (Connection.cpp): [parseMethod], [parseUrl], [parseBody],
      [findHeader], [parseBearerToken], [requestContentLength], [wantKeepAlive],
      [buildHttpResponse]; with a line-based reference of header blocks.
    - [Json] (Connection.cpp): [getJsonValue] and [jsonEscape]; with a reference
      reader of JSON strings.
    - [Channel] (Channel.cpp, Epoll.cpp): event masks, callbacks and the
      [epoll_ctl] calls of [updateChannel], over a kernel given by the class
      [EpollKernel].
    - [Socket] (Socket.cpp, InetAddress.cpp, util.cpp, Acceptor.cpp): the sockets
      of the process, [errif], and the constructor and the loop of the acceptor.
    - [Framing] (Connection.cpp, [processRequests]): how one request is cut off
      the input buffer.
    - [Connection] (Connection.cpp): the state of a connection and every member
      function that runs on its reactor, in a monad whose results are a value,
      [UseAfterFree] (a member was used after [deleteConnectionCallback_]
      destroyed the object) or [NoFuel].
    - [WritePath] and [ReadPath]: specifications and theorems of [Connection].
    - [Lifetime]: a connection from its construction through any sequence of
      events to its destruction.
    - [Waiting]: what one readable event does when the client has asked for one
      thing and the connection has nothing left to send, on any socket.
    - [Limiter] (Connection.cpp, [allowRequest]): calls one after the other, and calls
      of several reactors, access by access.
    - [ThreadPool] (ThreadPool.cpp, ThreadPool.h): queue, workers, [add] and the
      destructor as steps of a transition system.
    - [Interfaces]: the classes [SessionStore], [RedisServer] and [MysqlServer],
      what the database tasks and the Redis pool rely on, each with an instance.
    - [Redis] (RedisPool.cpp): the pool and its commands, its clients as a
      transition system, and the proof that it is a [SessionStore].
    - [RedisThreads] (RedisPool.cpp): [get], [setex] and [del] step by step, by
      threads that share the pool.
    - [Mysql] (MysqlPool.cpp): the pool and its clients.
    - [Handlers] (Connection.cpp): the closures that run on the database threads,
      with [runDbTask], [MysqlGuard] and [generateToken], against the interfaces.
    - [Accounts]: the account service as an abstract state machine of users and
      sessions, and the refinement of it by the tasks of [Handlers], alone and
      together with the reactor that submits them.
    - [NoRedis] (Connection.cpp): the code of the build without [USE_REDIS].
    - [Interleaved]: the tasks of [Handlers] as programs of atomic calls, run side
      by side on one back end; [exec_task] shows that alone they are the tasks of
      [Handlers].
    - [Atomic]: the account service with races and a scarce connection pool, and the
      proof that each program of [Interleaved] takes effect at one of its calls.
    - [Service] (ThreadPool.cpp, Connection.cpp): the database pool at work, threads
      of [ThreadPool] that run the programs of [Interleaved]; [Linear] and
      [Progress] hold its theorems.
    - [Server] (Server.cpp, EventLoop.cpp, Epoll.cpp, test/server.cpp): event
      loop, main callback, and the connection table shared by all threads as a
      transition system.
    - [ServerLife] (Server.h, Server.cpp): the start of the reactors on their
      pool, and the destruction of the server while they finish, over two
      [ThreadPool]s.
    - [Boot] (test/server.cpp, EventLoop.h, EventLoop.cpp, Server.cpp): [main] from
      its first system call to the end of its loop, with the constructors of
      [EventLoop] and [Server].
    - [Process] (Server.cpp, Connection.cpp, ThreadPool.cpp): reactors, connections
      and database pool together, under every interleaving of their effects;
      [Answers] holds what clients get from it, [SlowAnswers] what they get on
      sockets that push back.
    - [Buffer] and [Client] (Buffer.cpp, test/client.cpp): the demo client.
    - [Log] (Log.cpp): the adapter over spdlog.

    ** What the theorems show

    Parsing and building text: [request_roundtrip], [response_framing],
    [findHeader_reference], [bearer_token_roundtrip], [bearer_token_capped],
    [jsonEscape_roundtrip], [credentials_roundtrip], [envOrInt_roundtrip] relate
    each routine to a reference or to its inverse. [frame_sound] says what a
    request is, [framing_chunk_independent] that the cutting of the stream by TCP
    does not matter.

    The connection: [handleMessage_refines_serve] shows that a readable event does
    what an abstract server, a function from buffered bytes to output, tasks and
    rest, says; [pipelined_requests_served] spells this out for pipelined
    requests; [handleMessage_safe] excludes use after free as long as no write
    fails hard, and [life_safe] does so for the whole life of a connection;
    [life_well_typed] holds without any such condition: it keeps the members in
    the range of their types and says that nothing is destroyed twice, and
    [life_isolated] that a connection touches no descriptor but its own.
    [writeFromBuffer_refines] and [pending_output_delivered] show that
    output is a stream of which each write event sends a prefix and which is
    delivered in full; [write_event_rearms] and [interest_tracks_channel] that
    edge-triggered events are not lost on the way.

    Threads and pools: [tasks_started_fifo_run_once], [no_lost_wakeup],
    [join_drains_queue] and [destructor_terminates] for the thread pool;
    [redis_connections_exclusive] and [mysql_connections_conserved] for the
    connection pools; [connections_own_descriptors] and [sweep_shuts_down_idle] for
    the connection table; [rate_limit_interleaved] for the limiter ([n] reactors let
    through at most [n] limits in a second, one reactor exactly one).
    [new_Acceptor_outcomes] and [acceptConnection_hands_over] for the acceptor;
    [main_starts] and [main_until_signal] for the main thread, from the calls that
    may end the process at its start to the signal that ends its loop;
    [reactors_all_started], [shutdown_terminates] and [only_db_pool_dangles] for
    the start of the reactors and the end of the server.

    Redis commands side by side ([command_alone] checks that the steps of a command
    are its function in [Redis]): [redis_threads_exclusive] shows that the threads
    in them are clients of the pool, so that no connection is in two hands, whatever
    breaks; [redis_commands_linearizable] that to a server that is up the commands
    of all threads take effect at once and none fails. With the last one, a
    command may be one call where [Interleaved] runs the tasks side by side.

    Database tasks: [submitted_task_answers_once] (no throw, no overrun, one
    answer, the connection returned, on any back end), [register_outcomes],
    [login_outcomes] and [session_lifecycle]. [tasks_refine_accounts] puts them
    together: any sequence of tasks behaves as the abstract service, cache and
    expiry included; [profile_names_logged_in_user] is what this means for
    sessions, and [exchange_refines] extends it to a readable event from the bytes
    read to the bytes written. These three are about requests without NUL bytes
    (see [nul_name_takes_over]) and tasks that run one after the other. For tasks
    that interleave call by call, [interleaved_tasks_answered_once] shows that each
    is answered once and gives its connection back, [one_registration_wins] that a
    name is registered once, and [race_answers] how the loser of a race is answered.
    [login_without_redis] relates the two builds.

    The database pool: [service_answers_all] bounds the steps of its threads on any
    back end and shows that at rest every task was answered once.
    [service_linearizable] lifts the account service to threads that interleave
    call by call while entries expire: every task takes effect at one moment of
    its run; [service_sessions_authentic] is what this means for sessions. Both are
    about a working back end and, as [tasks_refine_accounts], about plain requests.

    The process: [process_safe] lifts the safety of one life to all connections of
    a process, whatever its threads do in between, as long as registrations with
    epoll succeed and no write fails hard. [process_answers_all] composes reactors
    and database pool. In every interleaving each connection gets the bytes the
    abstract server writes for what it read, ends of file and read errors included
    (an event that comes to one is not answered), and each task one response, on
    the right descriptor; [process_linearizable] says that these responses are
    those of the account service, for plain requests and a working back end. These
    two are about sockets that take what is written and a server that is not being
    shut down. [slow_clients_lose_nothing] is about sockets that push back, for
    clients that wait for an answer before they ask again: what is on the wire and
    what the connection has still to send are together what the abstract server
    writes. Without the waiting it is false, by [sendResponse_discards_pending];
    and it leaves out answers that a handler writes itself on a socket that does
    not take them, which are cut ([direct_answer_cut]). [db_answer_splits_page]
    shows what the two before do not promise: the order of a reactor's and a
    database thread's bytes on one socket.

    Behaviour that is not what comments or intent say is stated as theorems too:
    [keepalive_write_error_use_after_free], [sendResponse_discards_pending],
    [direct_answer_cut],
    [nul_name_takes_over], [db_answer_destination], [redis_outage_is_permanent],
    [late_request_uses_dead_pool],
    [db_route_never_closes], [header_limit_bypassed], [json_value_truncated],
    [failed_add_is_permanent], [envOrInt_truncates].

    ** Choices

    System calls that can return many things are answered by scripts: lists of
    what successive calls return; every finite run of the program is the run on
    some script. Loops whose length the data bounds recurse on fuel taken from
    that bound: [processRequests] on the length of the input buffer plus one
    (every turn that goes on removes at least four bytes, which
    [handleMessage_refines_serve] uses to exclude [NoFuel]), [findHeader] on the length
    of the block, the accept loop on the number of answers, [to_string] on the
    logarithm of the number. Concurrent code is a
    step function on labels, and a theorem quantifies over every list of labels;
    a step is a critical section, or one call on a condition variable. Third-party
    code (the kernel's epoll table, MySQL, Redis, hiredis, the random generator,
    the file system) is a parameter with the documented behaviour the program
    relies on as laws, and each set of laws has an instance.

    In [Process] the handler of an event runs at once on its connection, which no
    other thread touches, and its effects on the outside come about one by one;
    in [Service] a step is one call of a task on MySQL, the store or the socket.
    The budget of a task is eight steps, the longest path through a login.

    The program is modelled as its build file builds it, with USE_REDIS ([NoRedis]
    has the rest) and for 64-bit Linux.

    ** Not modelled

    spdlog, and the log lines inside other functions; the C++ memory model below
    the level of critical sections and single atomic accesses (the relaxed order of
    the limiter and of [lastActiveSec_]); memory exhaustion; the lines [main] logs before it starts;
    the getters of [Channel], [Socket] and [InetAddress], which are the fields of
    their records, and the constants of the class declarations. [Process]
    leaves out the idle sweep, the moment between the registration of a new
    connection and its entry in the table, and the shutdown, which [Server],
    [Boot] and [ServerLife] have. The page under static/ is content.

    ** State of the development

    Every component of the program is modelled. Three compositions are left as
    they are. In the interleaved tasks a Redis command is one call; the steps
    inside it and the reason this is sound are in [RedisThreads], and the two are
    not one transition system. The sweep is not a step of [Process]: it only
    makes the kernel deliver an end of file, and any event may come there at any
    time. And what a client that does not wait gets on a socket that pushes back
    has no theorem but [sendResponse_discards_pending] and [direct_answer_cut], as
    the code loses output there. In [Process] a call of [allowRequest] runs at
    once; with the shipped limit of 0 it does nothing. *)

From stdpp Require Export base numbers list strings option sets gmap.
From Stdlib Require Export Ascii.
From Stdlib Require Export ZArith Lia.

#[global] Open Scope Z_scope.

(** ** Byte strings

    A [std::string], a C string and a socket's byte stream are all lists of
    8-bit characters. *)

Abbreviation bytes := (list ascii).

(** A source literal as bytes. *)
Definition bs (s : string) : bytes := String.list_ascii_of_string s.

Definition CR : ascii := "013"%char.
Definition LF : ascii := "010"%char.
Definition SP : ascii := " "%char.
Definition HT : ascii := "009"%char.
Definition NUL : ascii := "000"%char.
Definition COLON : ascii := ":"%char.
Definition DQUOTE : ascii := "034"%char.
Definition BACKSLASH : ascii := "092"%char.
Definition CRLF : bytes := [CR; LF].
Definition CRLF2 : bytes := [CR; LF; CR; LF].

(** The text of a source literal between double quotes. *)
Definition quoted (s : bytes) : bytes := DQUOTE :: s ++ [DQUOTE].

(** [std::string::size()] as the unsigned machine integer it is. *)
Definition str_size (s : bytes) : Z := Z.of_nat (length s).

(** The value of a byte read as [unsigned char]. *)
Definition code (c : ascii) : Z := Z.of_nat (nat_of_ascii c).

(** ** Machine integers (the LP64 widths the program is compiled for) *)

Definition INT_MAX : Z := 2 ^ 31 - 1.
Definition LONG_MAX : Z := 2 ^ 63 - 1.
Definition LONG_MIN : Z := - 2 ^ 63.

Definition wrap_u (w z : Z) : Z := z mod 2 ^ w.
Definition wrap_s (w z : Z) : Z := (z + 2 ^ (w - 1)) mod 2 ^ w - 2 ^ (w - 1).

(** Conversion of a [long] to [int], to [unsigned int] and to [uint16_t]; and
    arithmetic on [size_t]. *)
Definition to_int (z : Z) : Z := wrap_s 32 z.
Definition to_uint (z : Z) : Z := wrap_u 32 z.
Definition to_u16 (z : Z) : Z := wrap_u 16 z.
Definition to_size_t (z : Z) : Z := wrap_u 64 z.

Lemma wrap_u_small w z : 0 <= z < 2 ^ w -> wrap_u w z = z.
Proof. intros H. by apply Z.mod_small. Qed.

Lemma wrap_s_small w z : 0 < w -> - 2 ^ (w - 1) <= z < 2 ^ (w - 1) -> wrap_s w z = z.
Proof.
  intros Hw H. unfold wrap_s.
  assert (2 ^ w = 2 * 2 ^ (w - 1)) as E.
  { rewrite <- Z.pow_succ_r by lia. f_equal; lia. }
  rewrite Z.mod_small; lia.
Qed.

Lemma wrap_u_range w z : 0 <= w -> 0 <= wrap_u w z < 2 ^ w.
Proof. intros Hw. apply Z.mod_pos_bound. by apply Z.pow_pos_nonneg. Qed.

Lemma wrap_s_range w z : 0 < w -> - 2 ^ (w - 1) <= wrap_s w z < 2 ^ (w - 1).
Proof.
  intros Hw. unfold wrap_s.
  assert (2 ^ w = 2 * 2 ^ (w - 1)) as E.
  { rewrite <- Z.pow_succ_r by lia. f_equal; lia. }
  pose proof (Z.mod_pos_bound (z + 2 ^ (w - 1)) (2 ^ w)) as B.
  assert (0 < 2 ^ w) by (apply Z.pow_pos_nonneg; lia). lia.
Qed.

(** ** Automation *)

(** [bytes_norm] normalises the append structure of byte strings; the
    database [bytes] holds the length equations and [cpp] the facts on the
    modelled library calls. *)
Create HintDb cpp.
Create Rewrite HintDb bytes.

#[export] Hint Rewrite @length_app @length_take @length_drop @length_fmap : bytes.

Ltac bytes_norm := cbn [app]; repeat (rewrite <- app_assoc; cbn [app]).

(** Split every conjunction and existential of the context. *)
Ltac destruct_ex :=
  repeat match goal with
         | H : exists _, _ |- _ => destruct H
         | H : _ /\ _ |- _ => destruct H
         end.

(** Case on the scrutinee of an [if] or [match] of the goal, keeping the
    equation. *)
Ltac case_on :=
  match goal with
  | |- context [match ?x with _ => _ end] => destruct x eqn:?
  end.

(** Prove a decidable closed proposition by running its decision procedure. *)
Ltac by_decide := apply (bool_decide_unpack _); vm_compute; exact I.

(** Turn boolean tests on integers into propositions. *)
Ltac bool_lia :=
  repeat match goal with
         | H : _ && _ = true |- _ => apply andb_true_iff in H as [? ?]
         | H : _ && _ = false |- _ => apply andb_false_iff in H
         | H : _ || _ = false |- _ => apply orb_false_iff in H as [? ?]
         | H : (_ <? _) = true |- _ => apply Z.ltb_lt in H
         | H : (_ <? _) = false |- _ => apply Z.ltb_ge in H
         | H : (_ <=? _) = true |- _ => apply Z.leb_le in H
         | H : (_ <=? _) = false |- _ => apply Z.leb_gt in H
         | H : (_ =? _) = true |- _ => apply Z.eqb_eq in H
         | H : (_ =? _) = false |- _ => apply Z.eqb_neq in H
         end; try lia.

(** ** Lists *)

Lemma take_app_length_plus {A} (l k : list A) n :
  take (length l + n)%nat (l ++ k) = l ++ take n k.
Proof. induction l; simpl; [done | by f_equal]. Qed.

Lemma drop_app_length_plus {A} (l k : list A) n :
  drop (length l + n)%nat (l ++ k) = drop n k.
Proof. by induction l. Qed.

Lemma drop_add {A} (l : list A) n m : drop (n + m)%nat l = drop m (drop n l).
Proof. by rewrite drop_drop. Qed.

Lemma take_all_app {A} (l k : list A) n : n = length l -> take n (l ++ k) = l.
Proof. intros ->. apply take_app_length. Qed.

Lemma drop_all_app {A} (l k : list A) n : n = length l -> drop n (l ++ k) = k.
Proof. intros ->. apply drop_app_length. Qed.

(** The list without the first occurrence of an element. *)
Fixpoint without (c : nat) (l : list nat) : option (list nat) :=
  match l with
  | [] => None
  | d :: l => if decide (c = d) then Some l else cons d <$> without c l
  end.

(** A sum over a list, when one element is replaced. *)
Lemma sum_insert {A} (f : A -> nat) l i x y :
  l !! i = Some x -> (sum_list_with f (<[i:=y]> l) + f x = sum_list_with f l + f y)%nat.
Proof.
  intros (l1 & l2 & -> & ->)%list_elem_of_split_length.
  rewrite insert_app_r_alt, Nat.sub_diag by lia. cbn [insert list_insert]. rewrite !sum_list_with_app. simpl. lia.
Qed.

Lemma without_perm c l l' : without c l = Some l' -> l ≡ₚ c :: l'.
Proof.
  revert l'. induction l as [|d l IH]; intros l'; simpl; [done|]. case_decide; [by intros [= <-]; subst|].
  destruct (without c l) eqn:E; simpl; [|done]. intros [= <-]. rewrite (IH l0) by done. constructor.
Qed.

#[export] Instance ascii_inhabited : Inhabited ascii := populate NUL.
