(* ===== verification/CppString.v ===== *)
(** * The [std::string] and C-library calls the server makes

    [find], [substr], [tolower], [find_first_not_of], [find_last_not_of],
    [c_str], [strtol] and [to_string] as the standards describe them, with the
    lemmas every parser of the server is verified with. *)

From S2P Require Import Prelude.

(** ** Searching *)

Fixpoint starts_with (p s : bytes) : bool :=
  match p, s with
  | [], _ => true
  | _, [] => false
  | a :: p', b :: s' => if decide (a = b) then starts_with p' s' else false
  end.

(** [s.find(p)]: the least position at which [p] occurs; [None] is [npos]. *)
Fixpoint find (p s : bytes) : option nat :=
  if starts_with p s then Some 0%nat
  else match s with
       | [] => None
       | _ :: s' => S <$> find p s'
       end.

(** [s.find(p, from)]. *)
Definition find_from (p s : bytes) (from : nat) : option nat :=
  if decide (from <= length s)%nat then Nat.add from <$> find p (drop from s) else None.

(** [s.substr(pos, n)] and [s.substr(pos)]. The C++ call throws when [pos] is
    past the end; every call of the server takes [pos] from a successful
    search, and [find_bound] keeps it within the string. *)
Definition substr (s : bytes) (pos n : nat) : bytes := take n (drop pos s).
Definition substr_from (s : bytes) (pos : nat) : bytes := drop pos s.

Definition contains (p s : bytes) : bool :=
  match find p s with Some _ => true | None => false end.

(** ** Characters *)

(** [std::tolower] in the C locale. *)
Definition tolower (c : ascii) : ascii :=
  if (code "A" <=? code c) && (code c <=? code "Z")
  then ascii_of_nat (nat_of_ascii c + 32) else c.

Definition lower (s : bytes) : bytes := tolower <$> s.

(** Space or horizontal tab: the set passed to [find_first_not_of],
    [find_last_not_of] and the trimming loop. *)
Definition is_blank (c : ascii) : bool :=
  if decide (c = SP) then true else if decide (c = HT) then true else false.

Fixpoint drop_while (f : ascii -> bool) (s : bytes) : bytes :=
  match s with
  | [] => []
  | c :: s' => if f c then drop_while f s' else s
  end.

(** [find_first_not_of] with the blank set. *)
Fixpoint find_first_not_blank (s : bytes) : option nat :=
  match s with
  | [] => None
  | c :: s' => if is_blank c then S <$> find_first_not_blank s' else Some 0%nat
  end.

(** [find_last_not_of] with the blank set. *)
Fixpoint find_last_not_blank (s : bytes) : option nat :=
  match s with
  | [] => None
  | c :: s' =>
      match find_last_not_blank s' with
      | Some i => Some (S i)
      | None => if is_blank c then None else Some 0%nat
      end
  end.

(** [while (!s.empty() && blank(s.back())) s.pop_back();] *)
Definition trim_right (s : bytes) : bytes := reverse (drop_while is_blank (reverse s)).

(** The C string a [std::string] is seen as through [c_str()]: it ends at the
    first NUL. *)
Fixpoint c_str (s : bytes) : bytes :=
  match s with
  | [] => []
  | c :: s' => if decide (c = NUL) then [] else c :: c_str s'
  end.

(** ** Numbers *)

Definition is_digit (c : ascii) : bool := (code "0" <=? code c) && (code c <=? code "9").
Definition digit_val (c : ascii) : Z := code c - code "0".
Definition digit_char (d : Z) : ascii := ascii_of_nat (Z.to_nat (code "0" + d)).

(** [isspace] in the C locale: space, and HT, LF, VT, FF, CR. *)
Definition is_space (c : ascii) : bool :=
  (code c =? 32) || ((9 <=? code c) && (code c <=? 13)).

(** The value of the longest digit prefix, and what follows it. *)
Fixpoint read_digits (acc : Z) (s : bytes) : Z * bytes :=
  match s with
  | c :: s' => if is_digit c then read_digits (10 * acc + digit_val c) s' else (acc, s)
  | [] => (acc, [])
  end.

(** An optional sign: whether it is negative, and what follows it. *)
Definition read_sign (t : bytes) : bool * bytes :=
  match t with
  | c :: t' => if decide (c = "-"%char) then (true, t')
               else if decide (c = "+"%char) then (false, t') else (false, t)
  | [] => (false, [])
  end.

Definition clamp_long (z : Z) : Z := Z.max LONG_MIN (Z.min LONG_MAX z).

(** [strtol(s, &end, 10)]: the value, saturated at the limits of [long], and
    the text [end] points to. With no digits the value is 0 and [end] is
    [s]. *)
Definition strtol (s : bytes) : Z * bytes :=
  let '(neg, u) := read_sign (drop_while is_space s) in
  match u with
  | c :: _ => if is_digit c
              then let '(v, e) := read_digits 0 u in
                   (clamp_long (if neg : bool then - v else v), e)
              else (0, s)
  | [] => (0, s)
  end.

(** [std::to_string] of a non-negative integer: its decimal digits. One digit
    is written per unit of fuel, and a number has no more digits than bits. *)
Fixpoint dec_digits (fuel : nat) (n : Z) (acc : bytes) : bytes :=
  match fuel with
  | O => acc
  | S f => let acc' := digit_char (n mod 10) :: acc in
           if n <? 10 then acc' else dec_digits f (n / 10) acc'
  end.

Definition to_string (n : Z) : bytes := dec_digits (S (Z.to_nat (Z.log2 n))) n [].

(** ** Lemmas: searching *)

Lemma starts_with_app p t : starts_with p (p ++ t) = true.
Proof. induction p; simpl; [done|]. by rewrite decide_True. Qed.

Lemma starts_with_true p s : starts_with p s = true -> exists t, s = p ++ t.
Proof.
  revert s. induction p as [|a p IH]; intros [|b s] H; simpl in *; eauto; try done.
  destruct (decide (a = b)) as [->|]; [|done].
  apply IH in H as [t ->]. by exists t.
Qed.

Lemma starts_with_extend p s t :
  (length p <= length s)%nat -> starts_with p (s ++ t) = starts_with p s.
Proof.
  revert s. induction p as [|a p IH]; intros [|b s] H; simpl in *; try done; try lia.
  destruct (decide (a = b)); [apply IH; lia | done].
Qed.

Lemma find_cons p c s :
  find p (c :: s) = if starts_with p (c :: s) then Some 0%nat else S <$> find p s.
Proof. done. Qed.

Lemma starts_with_ne a p b s : a <> b -> starts_with (a :: p) (b :: s) = false.
Proof. intros H. simpl. by rewrite decide_False. Qed.

Lemma find_nil_pat s : find [] s = Some 0%nat.
Proof. by destruct s. Qed.

Lemma find_Some p s i :
  find p s = Some i ->
  exists a b, s = a ++ p ++ b /\ length a = i.
Proof.
  revert i. induction s as [|c s IH]; intros i; simpl.
  - destruct p; simpl; [|done]. intros [= <-]. by exists [], [].
  - destruct (starts_with p (c :: s)) eqn:E.
    + intros [= <-]. apply starts_with_true in E as [t E]. exists [], t. by rewrite E.
    + destruct (find p s) as [j|] eqn:F; [|done]. intros [= <-].
      destruct (IH _ eq_refl) as (a & b & -> & <-). by exists (c :: a), b.
Qed.

(** A hit lies within the string: no [substr] of the server can throw. *)
Lemma find_bound p s i : find p s = Some i -> (i + length p <= length s)%nat.
Proof. intros (a & b & -> & <-)%find_Some. rewrite !length_app. lia. Qed.

Lemma find_from_bound p s from i :
  find_from p s from = Some i -> (from <= i /\ i + length p <= length s)%nat.
Proof.
  unfold find_from. case_decide; [|done].
  destruct (find p (drop from s)) as [j|] eqn:F; [|done]. intros [= <-].
  apply find_bound in F. rewrite length_drop in F. lia.
Qed.

(** The hit is the first one: an occurrence is never before it. *)
Lemma find_first p a b i : find p (a ++ p ++ b) = Some i -> (i <= length a)%nat.
Proof.
  revert i. induction a as [|c a IH]; intros i.
  - simpl. destruct (p ++ b) eqn:E; simpl; rewrite <- E, starts_with_app; by intros [= <-].
  - simpl. destruct (starts_with p (c :: a ++ p ++ b)).
    + intros [= <-]. lia.
    + destruct (find p (a ++ p ++ b)) as [j|] eqn:F; [|done].
      intros [= <-]. specialize (IH _ eq_refl). lia.
Qed.

Lemma find_app_Some p a b : exists i, find p (a ++ p ++ b) = Some i.
Proof.
  induction a as [|c a [i IH]]; simpl.
  - exists 0%nat. destruct (p ++ b) eqn:E; simpl; by rewrite <- E, starts_with_app.
  - destruct (starts_with p _); [eauto|]. rewrite IH. by eexists.
Qed.

Lemma find_None p s : find p s = None <-> forall a b, s <> a ++ p ++ b.
Proof.
  split.
  - intros H a b ->. destruct (find_app_Some p a b) as [i E]. congruence.
  - intros H. destruct (find p s) eqn:F; [|done].
    apply find_Some in F as (a & b & -> & _). by destruct (H a b).
Qed.

(** A hit does not move when more bytes arrive. *)
Lemma find_extend p s t i : find p s = Some i -> find p (s ++ t) = Some i.
Proof.
  revert i. induction s as [|c s IH]; intros i; simpl.
  - destruct p; [|done]. intros [= <-]. apply find_nil_pat.
  - destruct (starts_with p (c :: s)) eqn:E.
    + intros [= <-]. apply starts_with_true in E as [u E].
      change (c :: s ++ t) with ((c :: s) ++ t).
      by rewrite E, <- app_assoc, starts_with_app.
    + destruct (find p s) as [j|] eqn:F; [|done]. intros [= <-].
      pose proof (find_bound _ _ _ F) as B.
      change (c :: s ++ t) with ((c :: s) ++ t).
      rewrite starts_with_extend, E by (simpl; lia). by rewrite (IH _ eq_refl).
Qed.

(** A one-character search stops at the first occurrence of the character. *)
Lemma find_char c a b : c ∉ a -> find [c] (a ++ c :: b) = Some (length a).
Proof.
  induction a as [|d a IH]; intros H; simpl.
  - by rewrite decide_True.
  - rewrite decide_False by set_solver. rewrite IH by set_solver. done.
Qed.

Lemma find_char_None c s : find [c] s = None <-> c ∉ s.
Proof.
  induction s as [|d s IH]; simpl.
  - split; [set_solver | done].
  - destruct (decide (c = d)) as [->|Hne].
    + split; [done | set_solver].
    + destruct (find [c] s); simpl; set_solver.
Qed.

Lemma find_char_Some c s i :
  find [c] s = Some i -> exists a b, s = a ++ c :: b /\ length a = i /\ c ∉ a.
Proof.
  revert i. induction s as [|d s IH]; intros i; simpl; [done|].
  destruct (decide (c = d)) as [->|Hne].
  - intros [= <-]. exists [], s. set_solver.
  - destruct (find [c] s) as [j|]; [|done]. intros [= <-].
    destruct (IH _ eq_refl) as (a & b & -> & <- & Ha).
    exists (d :: a), b. set_solver.
Qed.

(** A pattern whose first character occurs nowhere before it is found where
    it stands. *)
Lemma find_fresh c p a b : c ∉ a -> find (c :: p) (a ++ (c :: p) ++ b) = Some (length a).
Proof.
  intros H. induction a as [|d a IH]; simpl.
  - rewrite decide_True by done. by rewrite starts_with_app.
  - rewrite decide_False by set_solver. change (c :: p ++ b) with ((c :: p) ++ b).
    rewrite IH by set_solver. done.
Qed.

Lemma contains_spec p s : contains p s = true <-> exists a b, s = a ++ p ++ b.
Proof.
  unfold contains. destruct (find p s) eqn:F.
  - split; [|done]. intros _. apply find_Some in F as (a & b & -> & _). eauto.
  - split; [done|]. intros (a & b & E). by destruct (proj1 (find_None p s) F a b).
Qed.

(** ** Lemmas: characters and trimming *)

Lemma tolower_idem c : tolower (tolower c) = tolower c.
Proof. by destruct c as [[] [] [] [] [] [] [] []]. Qed.

Lemma lower_idem s : lower (lower s) = lower s.
Proof.
  unfold lower. rewrite <- list_fmap_compose. apply list_fmap_ext.
  intros ? c _. apply tolower_idem.
Qed.

Lemma lower_app a b : lower (a ++ b) = lower a ++ lower b.
Proof. apply fmap_app. Qed.

Lemma is_blank_true c : is_blank c = true <-> c = SP \/ c = HT.
Proof. unfold is_blank. repeat case_decide; naive_solver. Qed.

Lemma drop_while_all f s : Forall (fun c => f c = true) s -> drop_while f s = [].
Proof. induction 1; simpl; [done|]. by rewrite H. Qed.

Lemma drop_while_app f s t :
  Forall (fun c => f c = true) s -> drop_while f (s ++ t) = drop_while f t.
Proof. induction 1; simpl; [done|]. by rewrite H. Qed.

Lemma drop_while_stop f c s : f c = false -> drop_while f (c :: s) = c :: s.
Proof. intros H. simpl. by rewrite H. Qed.

(** Trimming removes trailing blanks and nothing else. *)
Lemma trim_right_blanks s t :
  Forall (fun c => is_blank c = true) t -> trim_right (s ++ t) = trim_right s.
Proof.
  intros H. unfold trim_right. rewrite reverse_app, drop_while_app; [done|].
  by apply Forall_reverse.
Qed.

Lemma trim_right_stop s c : is_blank c = false -> trim_right (s ++ [c]) = s ++ [c].
Proof.
  intros H. unfold trim_right. rewrite reverse_snoc, drop_while_stop by done.
  by rewrite <- reverse_snoc, reverse_involutive.
Qed.

Lemma trim_right_none s :
  Forall (fun c => is_blank c = false) s -> trim_right s = s.
Proof.
  destruct s as [|c s _] using rev_ind; [done|].
  intros [_ H]%Forall_app. apply trim_right_stop. by inversion H.
Qed.

Lemma find_first_not_blank_spec s :
  match find_first_not_blank s with
  | Some i => exists a c b, s = a ++ c :: b /\ length a = i /\
                Forall (fun d => is_blank d = true) a /\ is_blank c = false
  | None => Forall (fun d => is_blank d = true) s
  end.
Proof.
  induction s as [|c s IH]; simpl; [constructor|].
  destruct (is_blank c) eqn:E.
  - destruct (find_first_not_blank s) as [i|]; simpl.
    + destruct IH as (a & d & b & -> & <- & Ha & Hd).
      exists (c :: a), d, b. repeat split; auto.
    + by constructor.
  - exists [], c, s. repeat split; auto.
Qed.

Lemma find_last_not_blank_spec s :
  match find_last_not_blank s with
  | Some i => exists a c b, s = a ++ c :: b /\ length a = i /\
                Forall (fun d => is_blank d = true) b /\ is_blank c = false
  | None => Forall (fun d => is_blank d = true) s
  end.
Proof.
  induction s as [|c s IH]; simpl; [constructor|].
  destruct (find_last_not_blank s) as [i|].
  - destruct IH as (a & d & b & -> & <- & Hb & Hd). by exists (c :: a), d, b.
  - destruct (is_blank c) eqn:E; [by constructor|]. by exists [], c, s.
Qed.

Lemma find_last_not_blank_snoc s c :
  is_blank c = false -> find_last_not_blank (s ++ [c]) = Some (length s).
Proof. intros H. induction s as [|d s IH]; simpl; by rewrite ?H, ?IH. Qed.

Lemma c_str_no_nul s : NUL ∉ s -> c_str s = s.
Proof.
  induction s as [|c s IH]; intros H; simpl; [done|].
  rewrite decide_False by set_solver. f_equal. apply IH. set_solver.
Qed.

Lemma c_str_prefix s : exists t, s = c_str s ++ t.
Proof.
  induction s as [|c s [t IH]]; simpl; [by exists []|].
  case_decide as E; [by exists (c :: s) | exists t; simpl; congruence].
Qed.

Lemma c_str_idem s : c_str (c_str s) = c_str s.
Proof. induction s as [|c s IH]; simpl; [done|]. case_decide as E; simpl; [done|]. by rewrite decide_False, IH. Qed.

Lemma c_str_app_nul s t : NUL ∉ s -> c_str (s ++ NUL :: t) = s.
Proof.
  induction s as [|c s IH]; intros H; [done|]. cbn [app c_str].
  rewrite decide_False by set_solver. f_equal. apply IH. set_solver.
Qed.

(** ** Lemmas: decimal numbers *)

Lemma digit_cases (P : Z -> Prop) :
  P 0 -> P 1 -> P 2 -> P 3 -> P 4 -> P 5 -> P 6 -> P 7 -> P 8 -> P 9 ->
  forall d, 0 <= d < 10 -> P d.
Proof.
  intros. assert (d = 0 \/ d = 1 \/ d = 2 \/ d = 3 \/ d = 4 \/
                  d = 5 \/ d = 6 \/ d = 7 \/ d = 8 \/ d = 9) as C by lia.
  naive_solver.
Qed.

Lemma digit_val_char d : 0 <= d < 10 -> digit_val (digit_char d) = d.
Proof. revert d. by apply digit_cases. Qed.

Lemma is_digit_char d : 0 <= d < 10 -> is_digit (digit_char d) = true.
Proof. revert d. by apply digit_cases. Qed.

Lemma is_digit_not_space c : is_digit c = true -> is_space c = false.
Proof. unfold is_digit, is_space. intros H. bool_lia. repeat (rewrite ?orb_false_iff, ?andb_false_iff, ?Z.eqb_neq, ?Z.leb_gt). change (code "0") with 48 in *. lia. Qed.

(** The digits written for [n] are digits, at least one, and reading them back
    gives [n]. *)
Lemma dec_digits_read f n acc :
  0 <= n < 10 ^ Z.of_nat f -> (0 < f)%nat ->
  exists ds, dec_digits f n acc = ds ++ acc /\ ds <> [] /\
    Forall (fun c => is_digit c = true) ds /\
    forall v r, read_digits v (ds ++ r) =
                read_digits (v * 10 ^ Z.of_nat (length ds) + n) r.
Proof.
  revert n acc. induction f as [|f IH]; intros n acc Hn Hf; [lia|]. simpl.
  assert (0 <= n mod 10 < 10) as Hd by (apply Z.mod_pos_bound; lia).
  destruct (n <? 10) eqn:E; bool_lia.
  - exists [digit_char (n mod 10)]. rewrite Z.mod_small by lia.
    split; [done|]. split; [done|]. split.
    { constructor; [apply is_digit_char; lia | constructor]. }
    intros v r. cbn [app read_digits]. rewrite is_digit_char, digit_val_char by lia.
    f_equal. simpl. lia.
  - destruct f as [|f]; [change (10 ^ Z.of_nat 1) with 10 in Hn; lia|].
    destruct (IH (n / 10) (digit_char (n mod 10) :: acc)) as (ds & E1 & Hne & Hds & Hr).
    { split; [apply Z.div_pos; lia|]. apply Z.div_lt_upper_bound; [lia|].
      rewrite Nat2Z.inj_succ, Z.pow_succ_r in Hn by lia. lia. }
    { lia. }
    exists (ds ++ [digit_char (n mod 10)]). rewrite E1, <- app_assoc.
    split; [done|]. split; [by destruct ds|]. split.
    { apply Forall_app. split; [done|]. constructor; [by apply is_digit_char | constructor]. }
    intros v r. rewrite <- app_assoc, Hr. cbn [app read_digits].
    rewrite is_digit_char, digit_val_char by done. f_equal.
    rewrite length_app. simpl length. rewrite Nat2Z.inj_add, Z.pow_add_r by lia.
    change (10 ^ Z.of_nat 1) with 10. pose proof (Z.div_mod n 10). lia.
Qed.

Lemma to_string_fuel n : 0 <= n -> n < 10 ^ Z.of_nat (S (Z.to_nat (Z.log2 n))).
Proof.
  intros Hn. rewrite Nat2Z.inj_succ, Z2Nat.id by apply Z.log2_nonneg.
  destruct (Z.eq_dec n 0) as [->|Hz]; [done|].
  apply Z.lt_le_trans with (2 ^ Z.succ (Z.log2 n)).
  - apply Z.log2_spec. lia.
  - apply Z.pow_le_mono_l. lia.
Qed.

Lemma to_string_read n :
  0 <= n ->
  to_string n <> [] /\ Forall (fun c => is_digit c = true) (to_string n) /\
  forall v r, read_digits v (to_string n ++ r) =
              read_digits (v * 10 ^ Z.of_nat (length (to_string n)) + n) r.
Proof.
  intros Hn. pose proof (to_string_fuel n Hn).
  destruct (dec_digits_read (S (Z.to_nat (Z.log2 n))) n []) as (ds & E & ? & ? & ?);
    [done | lia |]. unfold to_string. by rewrite E, app_nil_r.
Qed.

(** [strtol] reads back, after any white space, what [to_string] wrote. *)
Lemma strtol_to_string n sp r :
  0 <= n <= LONG_MAX -> Forall (fun c => is_space c = true) sp ->
  match r with c :: _ => is_digit c = false | [] => True end ->
  strtol (sp ++ to_string n ++ r) = (n, r).
Proof.
  intros Hn Hsp Hr. destruct (to_string_read n) as (Hne & Hd & Hread); [lia|].
  unfold strtol. rewrite drop_while_app by done.
  specialize (Hread 0 r). destruct (to_string n) as [|c ds]; [done|].
  inversion Hd as [|?? Hc Hds]; subst. simpl app.
  rewrite drop_while_stop by (by apply is_digit_not_space).
  unfold read_sign. rewrite !decide_False by (intros ->; discriminate).
  rewrite Hc. change ((c :: ds) ++ r) with (c :: ds ++ r) in Hread. rewrite Hread.
  replace (0 * 10 ^ Z.of_nat (length (c :: ds)) + n) with n by lia.
  assert (read_digits n r = (n, r)) as ->.
  { destruct r as [|d r]; simpl; [done|]. by rewrite Hr. }
  f_equal. unfold clamp_long, LONG_MIN, LONG_MAX in *. lia.
Qed.

Lemma strtol_range s : LONG_MIN <= fst (strtol s) <= LONG_MAX.
Proof.
  unfold strtol.
  assert (forall z, LONG_MIN <= clamp_long z <= LONG_MAX) as C
    by (intros; unfold clamp_long, LONG_MIN, LONG_MAX; lia).
  assert (LONG_MIN <= 0 <= LONG_MAX) as C0 by done.
  destruct (read_sign _) as [neg u].
  destruct u as [|c u]; [done|]. destruct (is_digit c); [|done].
  destruct (read_digits 0 (c :: u)). apply C.
Qed.
