(* ===== verification/Config.v ===== *)
(** * Configuration (src/include/Config.h)

    The environment lookups [envOr] and [envOrInt] and the compile-time
    limits. The environment is what [std::getenv] answers: a partial map from
    names to C strings, that is byte strings with no NUL. *)

From S2P Require Import Prelude CppString.

(** [std::getenv]. *)
Definition environment : Type := string -> option bytes.

Definition envOr (env : environment) (name : string) (defval : bytes) : bytes :=
  match env name with
  | Some v => match v with [] => defval | _ => v end
  | None => defval
  end.

Definition envOrInt (env : environment) (name : string) (defval : Z) : Z :=
  match env name with
  | None => defval
  | Some [] => defval
  | Some v =>
      let '(n, rest) := strtol v in
      if negb (bool_decide (rest = [])) || (n <=? 0)
      then defval
      else to_int n
  end.

(** ** Settings read from the environment *)

Section Settings.
Context (env : environment).

Definition serverHost : bytes := envOr env "MYSERVER_HOST" (bs "127.0.0.1").
Definition serverPort : Z := envOrInt env "MYSERVER_PORT" 8888.
Definition staticDir : bytes := envOr env "MYSERVER_STATIC_DIR" (bs "../static").
Definition dbHost : bytes := envOr env "MYSERVER_DB_HOST" (bs "127.0.0.1").
Definition dbUser : bytes := envOr env "MYSERVER_DB_USER" (bs "root").
Definition dbPasswd : bytes := envOr env "MYSERVER_DB_PASSWD" (bs "admin").
Definition dbName : bytes := envOr env "MYSERVER_DB_NAME" (bs "myserver").
Definition dbPort : Z := to_uint (envOrInt env "MYSERVER_DB_PORT" 3306).
Definition redisHost : bytes := envOr env "MYSERVER_REDIS_HOST" (bs "127.0.0.1").
Definition redisPort : Z := to_uint (envOrInt env "MYSERVER_REDIS_PORT" 6379).

End Settings.

(** ** Compile-time constants *)

Definition kDbThreads : Z := 4.
Definition kDbMaxConn : Z := 8.
Definition kRedisMaxConn : Z := 8.
Definition kRedisConnectTimeoutMs : Z := 1500.
Definition kPoolAcquireTimeoutSec : Z := 5.
Definition kMaxUsernameLen : Z := 64.
Definition kMaxPasswordLen : Z := 128.
Definition kUserCacheTtlSec : Z := 300.
Definition kSessionTtlSec : Z := 3600.
Definition kTokenLen : Z := 32.
Definition kIdleTimeoutSec : Z := 60.
Definition kMaxHeaderBytes : Z := 16 * 1024.
Definition kMaxBodyBytes : Z := 1 * 1024 * 1024.
Definition kRateLimitQps : Z := 0.

(** ** Lemmas *)

Lemma envOrInt_valid env name d n :
  env name = Some (to_string n) -> 0 < n <= LONG_MAX -> envOrInt env name d = to_int n.
Proof.
  intros E Hn. unfold envOrInt. rewrite E.
  destruct (to_string_read n) as (Hne & _); [lia|].
  assert (strtol (to_string n) = (n, [])) as S1.
  { pose proof (strtol_to_string n [] [] ltac:(lia) ltac:(constructor) I) as S.
    by rewrite app_nil_r in S. }
  destruct (to_string n) eqn:T; [done|]. rewrite S1.
  rewrite bool_decide_true by done. simpl.
  destruct (n <=? 0) eqn:L; [bool_lia | done].
Qed.

(** ** Properties *)

(** An integer setting written in decimal and within [int] is read back
    exactly, whatever the default. *)
Theorem envOrInt_roundtrip env name d n :
  env name = Some (to_string n) -> 0 < n <= INT_MAX -> envOrInt env name d = n.
Proof.
  intros E Hn. unfold INT_MAX in Hn.
  rewrite (envOrInt_valid _ _ _ n E) by (unfold LONG_MAX; lia).
  apply wrap_s_small; lia.
Qed.

Lemma envOrInt_roundtrip_witness :
  envOrInt (fun _ => Some (to_string 9000)) "MYSERVER_PORT" 8888 = 9000.
Proof. apply envOrInt_roundtrip; [reflexivity | by vm_compute]. Defined.

(** Whatever the environment holds, the result is the default or the low
    32 bits of a positive [long] spelled by the whole value: text that is not a
    positive number never gets past the check. *)
Theorem envOrInt_validated env name d :
  envOrInt env name d = d \/
  exists v n, env name = Some v /\ strtol v = (n, []) /\ 0 < n <= LONG_MAX /\
              envOrInt env name d = to_int n.
Proof.
  unfold envOrInt. destruct (env name) as [[|c v]|] eqn:E; auto.
  pose proof (strtol_range (c :: v)) as R.
  destruct (strtol (c :: v)) as [n rest] eqn:S1.
  destruct (negb _ || _) eqn:B; auto. right. exists (c :: v), n.
  apply orb_false_iff in B as [B1 B2]. apply negb_false_iff, bool_decide_eq_true in B1 as ->.
  simpl in R. bool_lia. repeat split; auto; lia.
Qed.

(** The check runs before the conversion to [int], so a positive value
    past [INT_MAX] is neither kept nor rejected: every multiple of [2^32] up to
    [LONG_MAX] configures 0 (a port the kernel picks at random). *)
Theorem envOrInt_truncates env name d k :
  0 < k < 2 ^ 31 -> env name = Some (to_string (k * 2 ^ 32)) ->
  envOrInt env name d = 0.
Proof.
  intros Hk E. rewrite (envOrInt_valid _ _ _ _ E) by (unfold LONG_MAX; lia).
  unfold to_int, wrap_s. rewrite Z.add_comm, Z_mod_plus_full. done.
Qed.

Lemma envOrInt_truncates_witness :
  serverPort (fun n => if String.eqb n "MYSERVER_PORT"
                       then Some (bs "4294967296") else None) = 0.
Proof. apply (envOrInt_truncates _ _ _ 1); [lia | reflexivity]. Defined.
