(* ===== verification/Http.v ===== *)
(** * HTTP parsing and responses (src/Connection.cpp)

    The pure part of [Connection]: splitting a request into method, URL, body
    and header fields, and building a response. The executable definitions
    mirror the source index for index; [crlf_split], [header_lookup] and
    [header_block] are the reference view of a header block as a list of
    lines, and the equivalence of the two is what the theorems on framing,
    tokens and responses are proved with. *)

From S2P Require Import Prelude CppString Config.

(** ** Request line and body *)

Definition parseMethod (request : bytes) : bytes :=
  match find [SP] request with
  | None => bs "GET"
  | Some pos => substr request 0 pos
  end.

Definition parseUrl (request : bytes) : bytes :=
  match find [SP] request with
  | None => bs "/"
  | Some pos1 =>
      match find_from [SP] request (pos1 + 1)%nat with
      | None => bs "/"
      | Some pos2 => substr request (pos1 + 1)%nat (pos2 - pos1 - 1)%nat
      end
  end.

Definition parseBody (request : bytes) : bytes :=
  match find CRLF2 request with
  | None => []
  | Some pos => substr_from request (pos + 4)%nat
  end.

(** ** Header fields *)

(** The loop of [findHeader] from position [p]; each turn moves [p] past the
    line it read. *)
Fixpoint findHeader_loop (fuel : nat) (headers lowerName : bytes) (p : nat) : bytes :=
  match fuel with
  | O => []
  | S f =>
      if decide (p < length headers)%nat then
        let e := match find_from CRLF headers p with
                 | Some e => e
                 | None => length headers
                 end in
        let line := substr headers p (e - p)%nat in
        match find [COLON] line with
        | None => findHeader_loop f headers lowerName (e + 2)%nat
        | Some colon =>
            let name := trim_right (lower (substr line 0 colon)) in
            if decide (name = lowerName) then substr_from line (colon + 1)%nat
            else findHeader_loop f headers lowerName (e + 2)%nat
        end
      else []
  end.

Definition findHeader (headers lowerName : bytes) : bytes :=
  findHeader_loop (S (length headers)) headers lowerName 0.

Definition parseBearerToken (request : bytes) : bytes :=
  let headers := match find CRLF2 request with
                 | None => request
                 | Some headerEnd => substr request 0 headerEnd
                 end in
  let value := findHeader headers (bs "authorization") in
  match find_first_not_blank value with
  | None => []
  | Some b =>
      let value := substr_from value b in
      let scheme := bs "bearer " in
      if decide (length value < length scheme)%nat then []
      else
        let prefix := lower (substr value 0 (length scheme)) in
        if decide (prefix <> scheme) then []
        else
          let token := substr_from value (length scheme) in
          match find_last_not_blank token with
          | None => []
          | Some e =>
              let token := substr token 0 (e + 1)%nat in
              if str_size token >? kTokenLen * 2 then [] else token
          end
  end.

Definition requestContentLength (headers : bytes) : Z :=
  let value := findHeader headers (bs "content-length") in
  match value with
  | [] => 0
  | _ => let v := fst (strtol (c_str value)) in
         if v >? 0 then to_size_t v else 0
  end.

Definition wantKeepAlive (request headers : bytes) : bool :=
  let connVal := lower (findHeader headers (bs "connection")) in
  if contains (bs "close") connVal then false
  else if contains (bs "keep-alive") connVal then true
  else contains (bs "HTTP/1.1") request.

(** ** Responses *)

Definition getResponse (url : bytes) : bytes :=
  if decide (url = bs "/") then
    bs "<html><body><h1>Welcome to My HTTP Server</h1>" ++
    bs "<p>This is a simple HTTP server built with epoll reactor pattern.</p>" ++
    bs "<p>Try: <a href=" ++ quoted (bs "/hello") ++ bs ">/hello</a></p>" ++
    bs "<p>API: POST /register, POST /login, GET /profile, POST /logout</p>" ++
    bs "</body></html>"
  else if decide (url = bs "/hello") then
    bs "<html><body><h1>Hello!</h1></body></html>"
  else
    bs "<html><body><h1>404 Not Found</h1></body></html>".

Definition statusText (statusCode : Z) : bytes :=
  match statusCode with
  | 200 => bs "OK"
  | 400 => bs "Bad Request"
  | 401 => bs "Unauthorized"
  | 409 => bs "Conflict"
  | 413 => bs "Payload Too Large"
  | 429 => bs "Too Many Requests"
  | 500 => bs "Internal Server Error"
  | 503 => bs "Service Unavailable"
  | _ => bs "Not Found"
  end.

Definition connection_value (keepAlive : bool) : bytes :=
  if keepAlive then bs "keep-alive" else bs "close".

Definition buildHttpResponse (statusCode : Z) (contentType body : bytes) (keepAlive : bool) : bytes :=
  bs "HTTP/1.1 " ++ to_string statusCode ++ bs " " ++ statusText statusCode ++ CRLF ++
  bs "Content-Type: " ++ contentType ++ CRLF ++
  bs "Content-Length: " ++ to_string (str_size body) ++ CRLF ++
  bs "Connection: " ++ connection_value keepAlive ++ CRLF2 ++ body.

(** ** Reference view: a header block is a list of lines *)

Fixpoint crlf_split (s : bytes) : list bytes :=
  match s with
  | [] => [[]]
  | c :: s' =>
      match s' with
      | d :: s'' =>
          if decide (c = CR /\ d = LF) then [] :: crlf_split s''
          else match crlf_split s' with
               | l :: ls => (c :: l) :: ls
               | [] => [[c]]
               end
      | [] => [[c]]
      end
  end.

Definition header_field (line : bytes) : option (bytes * bytes) :=
  match find [COLON] line with
  | None => None
  | Some colon => Some (trim_right (lower (take colon line)), drop (S colon) line)
  end.

Fixpoint header_lookup (name : bytes) (ls : list bytes) : bytes :=
  match ls with
  | [] => []
  | l :: ls' =>
      match header_field l with
      | Some (n, v) => if decide (n = name) then v else header_lookup name ls'
      | None => header_lookup name ls'
      end
  end.

(** The text of a header block: its lines joined by CRLF. *)
Fixpoint header_block (ls : list bytes) : bytes :=
  match ls with
  | [] => []
  | [l] => l
  | l :: ls' => l ++ CRLF ++ header_block ls'
  end.

(** A line that can stand in a header block: not empty and with no CR. *)
Definition wf_line (l : bytes) : Prop := l <> [] /\ CR ∉ l.

#[export] Instance wf_line_dec l : Decision (wf_line l).
Proof. unfold wf_line. apply _. Defined.

(** The request whose header lines are [ls] and whose body is [body]. *)
Definition message (ls : list bytes) (body : bytes) : bytes := header_block ls ++ CRLF2 ++ body.

(** ** Lemmas: lines *)

Lemma starts_with_crlf s :
  starts_with CRLF s = true <-> exists t, s = CR :: LF :: t.
Proof.
  split.
  - intros [t ->]%starts_with_true. by exists t.
  - intros [t ->]. done.
Qed.

Lemma crlf_split_find s :
  crlf_split s = match find CRLF s with
                 | Some e => take e s :: crlf_split (drop (e + 2) s)
                 | None => [s]
                 end.
Proof.
  induction s as [|c s IH]; [done|]. destruct s as [|d s].
  { simpl. by destruct (decide (CR = c)). }
  cbn [crlf_split]. case_decide as E.
  - destruct E as [-> ->]. done.
  - cbn [find]. destruct (starts_with CRLF (c :: d :: s)) eqn:S1.
    { apply starts_with_crlf in S1 as [t [= -> -> _]]. tauto. }
    change (if starts_with CRLF (d :: s) then Some 0%nat
            else S <$> find CRLF s) with (find CRLF (d :: s)).
    change (match s with [] => [[d]] | _ :: _ => _ end) with (crlf_split (d :: s)).
    change (match s with
            | [] => [[d]]
            | d0 :: s'' => _ end) with (crlf_split (d :: s)).
    rewrite IH. by destruct (find CRLF (d :: s)).
Qed.

Lemma findHeader_loop_lookup fuel headers name p :
  (length headers - p < fuel)%nat ->
  findHeader_loop fuel headers name p = header_lookup name (crlf_split (drop p headers)).
Proof.
  revert p. induction fuel as [|f IH]; intros p Hf; [lia|].
  cbn [findHeader_loop]. case_decide as Hp.
  2: { rewrite drop_ge by lia. done. }
  rewrite crlf_split_find. unfold find_from. rewrite decide_True by lia.
  destruct (find CRLF (drop p headers)) as [e|] eqn:F; cbn [fmap option_fmap option_map].
  - apply find_bound in F. rewrite length_drop in F. simpl in F.
    unfold substr. replace (p + e - p)%nat with e by lia.
    rewrite IH by lia. rewrite drop_drop. replace (p + (e + 2))%nat with (p + e + 2)%nat by lia.
    cbn [header_lookup]. unfold header_field, substr_from.
    destruct (find [COLON] (take e (drop p headers))) as [k|]; [|done].
    rewrite drop_0. by replace (k + 1)%nat with (S k) by lia.
  - unfold substr. rewrite take_ge by (rewrite length_drop; lia).
    rewrite IH by lia. rewrite (drop_ge headers (length headers + 2)) by lia. cbn [header_lookup crlf_split].
    unfold header_field, substr_from.
    destruct (find [COLON] (drop p headers)) as [k|]; [|done].
    rewrite drop_0. by replace (k + 1)%nat with (S k) by lia.
Qed.

(** The indexed scan of [findHeader] is the lookup in the list of lines: the
    fuel [S (length headers)] is always enough. *)
Lemma findHeader_lookup headers name :
  findHeader headers name = header_lookup name (crlf_split headers).
Proof. unfold findHeader. rewrite findHeader_loop_lookup by lia. by rewrite drop_0. Qed.

Lemma crlf_split_no_cr l : CR ∉ l -> crlf_split l = [l].
Proof.
  intros H. rewrite crlf_split_find.
  assert (find CRLF l = None) as ->; [|done].
  apply find_None. intros a b ->. set_solver.
Qed.

Lemma crlf_split_line l s : CR ∉ l -> crlf_split (l ++ CRLF ++ s) = l :: crlf_split s.
Proof.
  intros H. rewrite crlf_split_find.
  assert (find CRLF (l ++ CRLF ++ s) = Some (length l)) as -> by by apply find_fresh.
  rewrite take_app_length. f_equal.
  by rewrite drop_app_length_plus.
Qed.

Lemma header_block_cons l l' ls :
  header_block (l :: l' :: ls) = l ++ CRLF ++ header_block (l' :: ls).
Proof. done. Qed.

Lemma crlf_split_block ls :
  ls <> [] -> Forall wf_line ls -> crlf_split (header_block ls) = ls.
Proof.
  intros Hne H. induction H as [|l ls [_ Hl] Hls IH]; [done|].
  destruct ls as [|l' ls]; [by apply crlf_split_no_cr|].
  rewrite header_block_cons, crlf_split_line by done. by rewrite IH.
Qed.

Lemma find_crlf2_line l s c :
  CR ∉ l -> c <> CR ->
  find CRLF2 (l ++ CRLF ++ c :: s) = Nat.add (length l + 2) <$> find CRLF2 (c :: s).
Proof.
  intros Hl Hc. induction l as [|d l IH].
  - change ([] ++ CRLF ++ c :: s) with (CR :: LF :: c :: s).
    rewrite (find_cons _ CR), (find_cons _ LF). simpl starts_with.
    rewrite (decide_False (P := CR = c)) by done. by destruct (find CRLF2 (c :: s)).
  - change ((d :: l) ++ CRLF ++ c :: s) with (d :: (l ++ CRLF ++ c :: s)).
    rewrite find_cons, IH by set_solver.
    assert (starts_with CRLF2 (d :: l ++ CRLF ++ c :: s) = false) as ->
      by (apply starts_with_ne; set_solver).
    by destruct (find CRLF2 (c :: s)).
Qed.

(** The blank line found first is the one that ends the header block. *)
Lemma find_crlf2_block ls s :
  ls <> [] -> Forall wf_line ls ->
  find CRLF2 (header_block ls ++ CRLF2 ++ s) = Some (length (header_block ls)).
Proof.
  intros Hne H. induction H as [|l ls [_ Hl] Hls IH]; [done|].
  destruct ls as [|l' ls]; [by apply find_fresh|].
  rewrite header_block_cons. repeat rewrite <- app_assoc.
  specialize (IH ltac:(done)). inversion Hls as [|?? [Hl'ne Hl'] _]; subst.
  assert (exists c t, header_block (l' :: ls) = c :: t /\ c <> CR) as (c & t & E & Hc).
  { destruct l' as [|c l']; [done|]. exists c. destruct ls; eexists; split; try done; set_solver. }
  rewrite E in *. simpl app in *. change (CR :: LF :: ?x) with (CRLF ++ x).
  rewrite find_crlf2_line, IH by done. simpl. f_equal. rewrite !length_app. simpl. lia.
Qed.

(** The header part and the body of a well-formed message. *)
Lemma message_split ls body :
  ls <> [] -> Forall wf_line ls ->
  find CRLF2 (message ls body) = Some (length (header_block ls)) /\
  take (length (header_block ls)) (message ls body) = header_block ls /\
  drop (length (header_block ls) + 4) (message ls body) = body.
Proof.
  intros Hne Hls. unfold message. rewrite find_crlf2_block, take_app_length by done.
  by rewrite drop_app_length_plus.
Qed.

Lemma findHeader_block ls name :
  ls <> [] -> Forall wf_line ls ->
  findHeader (header_block ls) name = header_lookup name ls.
Proof. intros. by rewrite findHeader_lookup, crlf_split_block. Qed.

Lemma header_field_intro n v : COLON ∉ n -> header_field (n ++ COLON :: v) = Some (trim_right (lower n), v).
Proof.
  intros H. unfold header_field. rewrite find_char by done.
  rewrite take_app_length. f_equal. f_equal.
  replace (S (length n)) with (length n + 1)%nat by lia. by rewrite drop_app_length_plus.
Qed.

#[export] Hint Resolve findHeader_lookup crlf_split_block find_crlf2_block : cpp.

(** A reference HTTP/1.1 client: it cuts one response off a byte stream by the
    blank line and the Content-Length field, and gives the status line, the
    Content-Type and the Connection field, the body and the rest of the stream. *)
Definition read_response (s : bytes) : option (bytes * bytes * bytes * bytes * bytes) :=
  match find CRLF2 s with
  | None => None
  | Some h =>
      let ls := crlf_split (take h s) in
      let n := Z.to_nat (fst (strtol (header_lookup (bs "content-length") ls))) in
      let rest := drop (h + 4) s in
      if decide (length rest < n)%nat then None
      else Some (default [] (head ls), header_lookup (bs "content-type") ls, header_lookup (bs "connection") ls,
             take n rest, drop n rest)
  end.

(** ** Lemmas: responses *)

Lemma Forall_digit_not_in c s :
  is_digit c = false -> Forall (fun c => is_digit c = true) s -> c ∉ s.
Proof. intros Hc H Hin. rewrite Forall_forall in H. specialize (H _ Hin). congruence. Qed.

Lemma to_string_not_in c n : 0 <= n -> is_digit c = false -> c ∉ to_string n.
Proof. intros Hn Hc. apply Forall_digit_not_in; [done|]. by apply to_string_read. Qed.

Lemma statusText_plain c k : c = CR \/ c = COLON -> c ∉ statusText k.
Proof.
  intros H. unfold statusText.
  repeat case_match; destruct H as [-> | ->]; by_decide.
Qed.

Definition status_line (k : Z) : bytes := bs "HTTP/1.1 " ++ to_string k ++ bs " " ++ statusText k.

Definition response_lines (k : Z) (contentType body : bytes) (keepAlive : bool) : list bytes :=
  [ status_line k;
    bs "Content-Type" ++ COLON :: SP :: contentType;
    bs "Content-Length" ++ COLON :: SP :: to_string (str_size body);
    bs "Connection" ++ COLON :: SP :: connection_value keepAlive ].

Lemma buildHttpResponse_message k ct body ka :
  buildHttpResponse k ct body ka = message (response_lines k ct body ka) body.
Proof.
  unfold buildHttpResponse, message, response_lines, status_line. cbn [header_block].
  by bytes_norm.
Qed.

Lemma not_elem_of_prefix (c : ascii) (l k : bytes) :
  bool_decide (c ∈ l) = false -> c ∉ k -> c ∉ l ++ k.
Proof. intros H%bool_decide_eq_false Hk. rewrite elem_of_app. tauto. Qed.

Lemma status_line_plain c k : 0 <= k -> c = CR \/ c = COLON -> c ∉ status_line k.
Proof.
  intros Hk H. unfold status_line.
  apply not_elem_of_prefix; [by destruct H as [-> | ->]|].
  rewrite !elem_of_app. intros [E | [E | E]].
  - revert E. apply to_string_not_in; [done|]. by destruct H as [-> | ->].
  - revert E. apply (not_elem_of_prefix c (bs " ") []); [by destruct H as [-> | ->] | set_solver].
  - revert E. by apply statusText_plain.
Qed.

Lemma response_lines_wf k ct body ka :
  0 <= k -> CR ∉ ct -> Forall wf_line (response_lines k ct body ka).
Proof.
  intros Hk Hct. repeat (apply Forall_cons; split; [split; [done|]|]); [| | | |constructor].
  - apply status_line_plain; auto.
  - apply not_elem_of_prefix; [done|]. set_solver.
  - apply not_elem_of_prefix; [done|].
    pose proof (to_string_not_in CR (str_size body)). unfold str_size in *. set_solver by lia.
  - apply not_elem_of_prefix; [done|]. by destruct ka; apply (bool_decide_unpack _).
Qed.

(** The status line is no field. *)
Lemma status_no_field k : 0 <= k -> header_field (status_line k) = None.
Proof.
  intros Hk. unfold header_field. rewrite (proj2 (find_char_None _ _)); [done|]. apply status_line_plain; auto.
Qed.

Lemma response_lookups k ct body ka :
  0 <= k ->
  header_lookup (bs "content-type") (response_lines k ct body ka) = SP :: ct /\
  header_lookup (bs "content-length") (response_lines k ct body ka) = SP :: to_string (str_size body) /\
  header_lookup (bs "connection") (response_lines k ct body ka) = SP :: connection_value ka.
Proof.
  intros Hk. unfold response_lines. cbn [header_lookup]. rewrite status_no_field by done.
  by rewrite !header_field_intro by by_decide.
Qed.

(** ** Properties *)

(** C29: the reference client recovers from a response exactly the status line,
    the content type, the negotiated Connection value and the body, and stops at
    the first byte after the response, whatever follows it on the connection; for
    codes that are not negative and content types without a carriage return. *)
Theorem response_framing k ct body ka rest :
  0 <= k -> CR ∉ ct -> str_size body <= LONG_MAX ->
  read_response (buildHttpResponse k ct body ka ++ rest) =
  Some (status_line k, SP :: ct, SP :: connection_value ka, body, rest).
Proof.
  intros Hk Hct Hb.
  assert (buildHttpResponse k ct body ka ++ rest = message (response_lines k ct body ka) (body ++ rest)) as ->.
  { rewrite buildHttpResponse_message. unfold message. by rewrite <- !app_assoc. }
  destruct (message_split (response_lines k ct body ka) (body ++ rest)) as (F & T & D);
    [done | by apply response_lines_wf |].
  unfold read_response. rewrite F, T, D.
  rewrite crlf_split_block by (done || by apply response_lines_wf).
  destruct (response_lookups k ct body ka Hk) as (-> & -> & ->).
  assert (strtol (SP :: to_string (str_size body)) = (str_size body, [])) as ->.
  { pose proof (strtol_to_string (str_size body) [SP] []) as S1. rewrite app_nil_r in S1.
    apply S1; [unfold str_size in *; lia | by repeat constructor | done]. }
  simpl fst. unfold str_size. rewrite Nat2Z.id, length_app, decide_False by lia.
  by rewrite take_app_length, drop_app_length.
Qed.

Lemma response_framing_witness :
  read_response (buildHttpResponse 200 (bs "text/html") (bs "hi") true ++ bs "HTTP/1.1 404") =
  Some (bs "HTTP/1.1 200 OK", bs " text/html", bs " keep-alive", bs "hi", bs "HTTP/1.1 404").
Proof. apply response_framing; [lia | by_decide | by vm_compute]. Defined.

(** A well-formed request is taken apart into the method, the URL and the
    body it was written with. *)
Theorem request_roundtrip m u v fields body :
  SP ∉ m -> SP ∉ u -> Forall wf_line ((m ++ SP :: u ++ SP :: v) :: fields) ->
  let request := message ((m ++ SP :: u ++ SP :: v) :: fields) body in
  parseMethod request = m /\ parseUrl request = u /\ parseBody request = body.
Proof.
  intros Hm Hu Hls request.
  destruct (message_split _ body (ltac:(done) : (m ++ SP :: u ++ SP :: v) :: fields <> []) Hls)
    as (F & _ & D).
  assert (exists t, request = m ++ SP :: (u ++ SP :: t)) as [t E].
  { subst request. unfold message. destruct fields; cbn [header_block];
      bytes_norm; by eexists. }
  split; [|split].
  - unfold parseMethod. rewrite E, find_char by done. unfold substr. by rewrite drop_0, take_app_length.
  - unfold parseUrl. rewrite E, find_char by done. unfold find_from, substr.
    rewrite decide_True by (rewrite length_app; simpl; lia).
    rewrite drop_app_length_plus. simpl drop. rewrite drop_0, find_char by done. simpl.
    replace (length m + 1 + length u - length m - 1)%nat with (length u) by lia.
    by rewrite take_app_length.
  - unfold parseBody. fold request in F, D. by rewrite F.
Qed.

Lemma request_roundtrip_witness :
  let request := message [bs "POST /login HTTP/1.1"; bs "Content-Length: 2"] (bs "{}") in
  parseMethod request = bs "POST" /\ parseUrl request = bs "/login" /\ parseBody request = bs "{}".
Proof.
  apply (request_roundtrip (bs "POST") (bs "/login") (bs "HTTP/1.1") [bs "Content-Length: 2"]);
    by_decide.
Defined.

(** C27: [findHeader] is the case-insensitive lookup of the first matching field
    in the block's lines: its index arithmetic and its termination agree with
    the reference on every input. *)
Theorem findHeader_reference headers name :
  findHeader headers name = header_lookup name (crlf_split headers).
Proof. apply findHeader_lookup. Qed.

(** ** Lemmas: tokens *)

Lemma header_lookup_skip name l ls :
  (forall v, header_field l <> Some (name, v)) ->
  header_lookup name (l :: ls) = header_lookup name ls.
Proof.
  intros H. simpl. destruct (header_field l) as [[n v]|]; [|done].
  case_decide; [subst; by destruct (H v) | done].
Qed.

Lemma header_lookup_app name ls l ls' n v :
  Forall (fun l => forall v, header_field l <> Some (name, v)) ls ->
  header_field l = Some (n, v) -> n = name ->
  header_lookup name (ls ++ l :: ls') = v.
Proof.
  intros H Hl ->. induction H as [|x xs Hx _ IH]; simpl app.
  - simpl. by rewrite Hl, decide_True.
  - by rewrite header_lookup_skip.
Qed.

Lemma find_first_not_blank_intro a c b :
  Forall (fun d => is_blank d = true) a -> is_blank c = false ->
  find_first_not_blank (a ++ c :: b) = Some (length a).
Proof. intros H Hc. induction H as [|d a Hd _ IH]; simpl; by rewrite ?Hc, ?Hd, ?IH. Qed.

Lemma find_last_not_blank_intro a c b :
  Forall (fun d => is_blank d = true) b -> is_blank c = false ->
  find_last_not_blank (a ++ c :: b) = Some (length a).
Proof.
  intros H Hc. induction a as [|d a IH]; simpl; [|by rewrite IH].
  assert (find_last_not_blank b = None) as ->; [|by rewrite Hc].
  induction H as [|d b Hd _ IH]; simpl; [done|]. by rewrite IH, Hd.
Qed.

Lemma lower_length s : length (lower s) = length s.
Proof. apply length_fmap. Qed.

(** Case on the letter shows that only the blanks lower to blanks. *)
Lemma lower_blank_head (c : ascii) : tolower c = "b"%char -> is_blank c = false.
Proof. by destruct c as [[] [] [] [] [] [] [] []]. Qed.

(** A request that carries "Authorization: Bearer <token>" in any letter
    case, with any blanks around the value, yields exactly the token, provided
    the field is the first of its name and the token has no blank at its end
    and at most twice the length of a generated token. *)
Theorem bearer_token_roundtrip before name sp scheme tok c sp' after body :
  let line := name ++ COLON :: sp ++ scheme ++ (tok ++ [c]) ++ sp' in
  Forall wf_line (before ++ line :: after) ->
  Forall (fun l => forall v, header_field l <> Some (bs "authorization", v)) before ->
  COLON ∉ name -> trim_right (lower name) = bs "authorization" ->
  lower scheme = bs "bearer " ->
  Forall (fun d => is_blank d = true) (sp ++ sp') -> is_blank c = false ->
  str_size (tok ++ [c]) <= kTokenLen * 2 ->
  parseBearerToken (message (before ++ line :: after) body) = tok ++ [c].
Proof.
  intros line Hwf Hbefore Hcol Hname Hscheme [Hsp Hsp']%Forall_app Hc Hlen.
  destruct (message_split (before ++ line :: after) body) as (F & T & _);
    [by destruct before | done |].
  unfold parseBearerToken. rewrite F. set (value := findHeader _ _).
  assert (value = sp ++ scheme ++ (tok ++ [c]) ++ sp') as ->.
  { subst value. unfold substr. rewrite drop_0, T, findHeader_block by (done || by destruct before).
    exact (header_lookup_app _ _ line _ _ _ Hbefore (header_field_intro _ _ Hcol) Hname). }
  assert (length scheme = 7%nat) as Hls by by rewrite <- lower_length, Hscheme.
  destruct scheme as [|b scheme]; [done|]. simpl app.
  rewrite find_first_not_blank_intro; [|done|].
  2: { apply lower_blank_head. by injection Hscheme. }
  unfold substr_from. rewrite drop_app_length.
  rewrite app_comm_cons, decide_False by (rewrite length_app; simpl in *; lia).
  change (length (bs "bearer ")) with 7%nat. rewrite <- Hls.
  case_decide as Hp.
  { destruct Hp. unfold substr. by rewrite drop_0, take_app_length. }
  rewrite drop_app_length. rewrite <- app_assoc. simpl app.
  rewrite find_last_not_blank_intro by done.
  unfold substr. rewrite drop_0, take_app_length_plus, firstn_cons, take_0. unfold str_size in *.
  destruct (_ >? _) eqn:E; [|done]. apply Z.gtb_lt in E. lia.
Qed.

Lemma bearer_token_roundtrip_witness :
  parseBearerToken (message [bs "GET /profile HTTP/1.1"; bs "Host: a";
                             bs "AUTHORIZATION : Bearer abc123  "] (bs "body")) = bs "abc123".
Proof.
  apply (bearer_token_roundtrip [bs "GET /profile HTTP/1.1"; bs "Host: a"] (bs "AUTHORIZATION ")
           (bs " ") (bs "Bearer ") (bs "abc12") "3" (bs "  ") [] (bs "body")).
  2: repeat constructor; intros v; vm_compute; discriminate.
  all: by_decide.
Defined.

(** Whatever the request, the token handed to the session store has at
    most 64 bytes and does not end in a blank. *)
Theorem bearer_token_capped request :
  str_size (parseBearerToken request) <= 64 /\
  forall t c, parseBearerToken request = t ++ [c] -> is_blank c = false.
Proof.
  unfold parseBearerToken. set (value := findHeader _ _). clearbody value.
  assert (forall t (c : ascii), [] = t ++ [c] -> is_blank c = false) as Hnil
    by (intros [|] ?; discriminate).
  destruct (find_first_not_blank value) as [b|]; [|split; [by vm_compute | done]].
  case_decide; [split; [by vm_compute | done]|].
  case_decide; [split; [by vm_compute | done]|].
  set (tok := substr_from (substr_from value b) _). clearbody tok.
  pose proof (find_last_not_blank_spec tok) as L.
  destruct (find_last_not_blank tok) as [e|]; [|split; [by vm_compute | done]].
  destruct L as (x & d & y & -> & <- & _ & Hd).
  unfold substr. rewrite drop_0, take_app_length_plus, firstn_cons, take_0.
  destruct (_ >? _) eqn:E; [split; [by vm_compute | done]|].
  rewrite Z.gtb_ltb in E. bool_lia. split; [exact E|].
  intros t c' [_ ->]%app_inj_tail. done.
Qed.
