(* ===== verification/Json.v ===== *)
(** * JSON in and out (src/Connection.cpp)

    [getJsonValue], the scan that reads a string member of a request body, and
    [jsonEscape], which protects a value written into a response. The reference
    is [json_read], a reader of JSON string literals with every escape of
    RFC 8259. *)

From S2P Require Import Prelude CppString.

Definition getJsonValue (json key : bytes) : bytes :=
  let search := [DQUOTE] ++ key ++ [DQUOTE; COLON; DQUOTE] in
  match find search json with
  | None => []
  | Some pos =>
      let pos := (pos + length search)%nat in
      match find_from [DQUOTE] json pos with
      | None => []
      | Some e => substr json pos (e - pos)%nat
      end
  end.

(** ** Escaping *)

(** A hexadecimal digit in lower case, as the conversion [%x] prints it. *)
Definition hex_char (d : Z) : ascii :=
  if d <? 10 then ascii_of_nat (Z.to_nat (code "0" + d))
  else ascii_of_nat (Z.to_nat (code "a" + (d - 10))).

(** [snprintf(buf, 8, "\\u%04x", c)] for an [unsigned char]. *)
Definition u_escape (c : ascii) : bytes :=
  [BACKSLASH; "u"%char; "0"%char; "0"%char; hex_char (code c / 16); hex_char (code c mod 16)].

Definition escape_char (c : ascii) : bytes :=
  if decide (c = DQUOTE) then [BACKSLASH; DQUOTE]
  else if decide (c = BACKSLASH) then [BACKSLASH; BACKSLASH]
  else if decide (c = LF) then [BACKSLASH; "n"%char]
  else if decide (c = CR) then [BACKSLASH; "r"%char]
  else if decide (c = HT) then [BACKSLASH; "t"%char]
  else if code c <? 0x20 then u_escape c
  else [c].

Definition jsonEscape (s : bytes) : bytes := mjoin (escape_char <$> s).

(** ** Reference: JSON string literals *)

Definition hex_val (c : ascii) : option Z :=
  let n := code c in
  if (48 <=? n) && (n <=? 57) then Some (n - 48)
  else if (97 <=? n) && (n <=? 102) then Some (n - 87)
  else if (65 <=? n) && (n <=? 70) then Some (n - 55)
  else None.

(** The UTF-8 bytes of a code point of the basic plane. *)
Definition utf8 (u : Z) : bytes :=
  let byte n := ascii_of_nat (Z.to_nat n) in
  if u <? 0x80 then [byte u]
  else if u <? 0x800 then [byte (0xC0 + u / 64); byte (0x80 + u mod 64)]
  else [byte (0xE0 + u / 4096); byte (0x80 + u / 64 mod 64); byte (0x80 + u mod 64)].

(** The character a one-letter escape stands for. *)
Definition unescape_char (e : ascii) : option ascii :=
  if decide (e = DQUOTE) then Some DQUOTE
  else if decide (e = BACKSLASH) then Some BACKSLASH
  else if decide (e = "/"%char) then Some "/"%char
  else if decide (e = "b"%char) then Some "008"%char
  else if decide (e = "f"%char) then Some "012"%char
  else if decide (e = "n"%char) then Some LF
  else if decide (e = "r"%char) then Some CR
  else if decide (e = "t"%char) then Some HT
  else None.

(** Read a string literal after its opening quote: the value, and the text
    after the closing quote. *)
Fixpoint json_read (s : bytes) : option (bytes * bytes) :=
  match s with
  | [] => None
  | c :: r =>
      if decide (c = DQUOTE) then Some ([], r)
      else if decide (c = BACKSLASH) then
        match r with
        | e :: r' =>
            if decide (e = "u"%char) then
              match r' with
              | a :: b :: x :: y :: r'' =>
                  match hex_val a, hex_val b, hex_val x, hex_val y with
                  | Some a, Some b, Some x, Some y =>
                      '(v, t) ← json_read r''; Some (utf8 (((a * 16 + b) * 16 + x) * 16 + y) ++ v, t)
                  | _, _, _, _ => None
                  end
              | _ => None
              end
            else d ← unescape_char e; '(v, t) ← json_read r'; Some (d :: v, t)
        | [] => None
        end
      else if code c <? 0x20 then None
      else '(v, t) ← json_read r; Some (c :: v, t)
  end.

(** ** Lemmas *)

Lemma json_read_escape_char c s :
  json_read (escape_char c ++ s) = '(v, t) ← json_read s; Some (c :: v, t).
Proof. destruct c as [[] [] [] [] [] [] [] []]; simpl; try done; by destruct (json_read s) as [[]|]. Qed.

Lemma jsonEscape_cons c s : jsonEscape (c :: s) = escape_char c ++ jsonEscape s.
Proof. done. Qed.

Lemma jsonEscape_app a b : jsonEscape (a ++ b) = jsonEscape a ++ jsonEscape b.
Proof. unfold jsonEscape. by rewrite fmap_app, join_app. Qed.

Lemma escape_char_no_quote c : c <> DQUOTE -> DQUOTE ∉ escape_char c.
Proof.
  intros H. destruct (decide (c = DQUOTE)) as [|_]; [done|]. revert H.
  destruct c as [[] [] [] [] [] [] [] []]; intros H; first [by_decide | by destruct H].
Qed.

Lemma jsonEscape_no_quote s : DQUOTE ∉ s -> DQUOTE ∉ jsonEscape s.
Proof.
  induction s as [|c s IH]; intros H; [set_solver|].
  rewrite jsonEscape_cons, elem_of_app. intros [E|E].
  - revert E. apply escape_char_no_quote. set_solver.
  - by apply IH in E; [|set_solver].
Qed.

(** A quoted key is not mistaken for a quoted value that a comma follows. *)
Lemma starts_with_key_value k u x y :
  DQUOTE ∉ k -> DQUOTE ∉ u ->
  starts_with (k ++ DQUOTE :: COLON :: x) (u ++ DQUOTE :: ","%char :: y) = false.
Proof.
  revert u. induction k as [|a k IH]; intros [|b u] Hk Hu; simpl.
  - done.
  - rewrite decide_False; [done|]. set_solver.
  - rewrite decide_False; [done|]. set_solver.
  - case_decide; [apply IH; set_solver | done].
Qed.

Lemma find_skip c p a s : c ∉ a -> find (c :: p) (a ++ s) = Nat.add (length a) <$> find (c :: p) s.
Proof.
  intros H. induction a as [|d a IH]; simpl app.
  - by destruct (find (c :: p) s).
  - rewrite find_cons, starts_with_ne, IH by set_solver. by destruct (find (c :: p) s).
Qed.

(** Reading the member [key] where the search text first occurs. *)
Lemma getJsonValue_at json key a v t :
  json = a ++ ([DQUOTE] ++ key ++ [DQUOTE; COLON; DQUOTE]) ++ v ++ DQUOTE :: t ->
  find ([DQUOTE] ++ key ++ [DQUOTE; COLON; DQUOTE]) json = Some (length a) ->
  DQUOTE ∉ v -> getJsonValue json key = v.
Proof.
  intros E F Hv. unfold getJsonValue. rewrite F. clear F. subst json.
  set (search := [DQUOTE] ++ key ++ [DQUOTE; COLON; DQUOTE]).
  unfold find_from, substr. rewrite decide_True by (rewrite !length_app; simpl; lia).
  rewrite drop_app_length_plus, drop_app_length, find_char by done. cbn [fmap option_fmap option_map].
  replace (length a + length search + length v - (length a + length search))%nat
    with (length v) by lia.
  apply take_app_length.
Qed.

(** The body the pages of the server send: two string members. *)
Definition credentials_body (username password : bytes) : bytes :=
  bs "{" ++ quoted (bs "username") ++ bs ":" ++ quoted username ++ bs "," ++
  quoted (bs "password") ++ bs ":" ++ quoted password ++ bs "}".

Lemma credentials_username u t :
  DQUOTE ∉ u ->
  getJsonValue (bs "{" ++ quoted (bs "username") ++ bs ":" ++ DQUOTE :: u ++ DQUOTE :: t)
    (bs "username") = u.
Proof. intros Hu. by apply (getJsonValue_at _ _ (bs "{") u t). Qed.

(** The search text of the password member, and where it is first found. *)
Lemma find_password u s :
  DQUOTE ∉ u ->
  let search := [DQUOTE] ++ bs "password" ++ [DQUOTE; COLON; DQUOTE] in
  let before := bs "{" ++ quoted (bs "username") ++ bs ":" ++ quoted u ++ bs "," in
  find search (before ++ search ++ s) = Some (length before).
Proof.
  intros Hu search before. set (X := search ++ s).
  assert (before ++ X = bs "{" ++ quoted (bs "username") ++ bs ":" ++
                        DQUOTE :: u ++ DQUOTE :: ","%char :: X) as ->.
  { unfold before, quoted. by bytes_norm. }
  assert (length before = 12 + (1 + (length u + 2)))%nat as ->.
  { unfold before, quoted. rewrite !length_app. simpl. rewrite length_app. simpl. lia. }
  assert (find search (DQUOTE :: u ++ DQUOTE :: ","%char :: X) =
          Some (1 + (length u + 2))%nat) as F.
  { rewrite find_cons.
    assert (starts_with search (DQUOTE :: u ++ DQUOTE :: ","%char :: X) = false) as ->.
    { change (starts_with (bs "password" ++ [DQUOTE; COLON; DQUOTE])
                (u ++ DQUOTE :: ","%char :: X) = false).
      apply (starts_with_key_value (bs "password") u [DQUOTE] X); [by_decide | done]. }
    unfold search at 1. cbn [app]. rewrite find_skip by done.
    unfold X. simpl. done. }
  assert (forall Y, find search (bs "{" ++ quoted (bs "username") ++ bs ":" ++ Y) =
                    Nat.add 12 <$> find search Y) as A.
  { intros Y. cbn. by destruct (find _ Y). }
  by rewrite A, F.
Qed.

Lemma credentials_password u p t :
  DQUOTE ∉ u -> DQUOTE ∉ p ->
  getJsonValue (bs "{" ++ quoted (bs "username") ++ bs ":" ++ quoted u ++ bs "," ++
                quoted (bs "password") ++ bs ":" ++ DQUOTE :: p ++ DQUOTE :: t)
    (bs "password") = p.
Proof.
  intros Hu Hp. set (before := bs "{" ++ quoted (bs "username") ++ bs ":" ++ quoted u ++ bs ",").
  set (search := [DQUOTE] ++ bs "password" ++ [DQUOTE; COLON; DQUOTE]).
  match goal with |- getJsonValue ?j _ = _ =>
    assert (j = before ++ search ++ p ++ DQUOTE :: t) as ->
      by by unfold before, search, quoted; bytes_norm end.
  apply (getJsonValue_at _ _ before p t); [done | by apply find_password | done].
Qed.

(** ** Properties *)

(** C30: a value escaped by [jsonEscape] and put between quotes is a JSON string
    literal that denotes exactly that value, for every byte string: no username
    can end the literal early or inject anything after it. *)
Theorem jsonEscape_roundtrip s rest :
  json_read (jsonEscape s ++ DQUOTE :: rest) = Some (s, rest).
Proof.
  induction s as [|c s IH]; [done|].
  by rewrite jsonEscape_cons, <- app_assoc, json_read_escape_char, IH.
Qed.

(** The username and password of the body the server's pages send are read
    back exactly, whatever they are, as long as they hold no double quote. *)
Theorem credentials_roundtrip u p :
  DQUOTE ∉ u -> DQUOTE ∉ p ->
  getJsonValue (credentials_body u p) (bs "username") = u /\
  getJsonValue (credentials_body u p) (bs "password") = p.
Proof.
  intros Hu Hp. unfold credentials_body. split.
  - etransitivity; [|apply (credentials_username u
      (bs "," ++ quoted (bs "password") ++ bs ":" ++ quoted p ++ bs "}") Hu)].
    f_equal. unfold quoted. by bytes_norm.
  - etransitivity; [|apply (credentials_password u p (bs "}") Hu Hp)].
    f_equal. unfold quoted. by bytes_norm.
Qed.

Lemma credentials_roundtrip_witness :
  getJsonValue (credentials_body (bs "password") (bs "p,:w")) (bs "username") = bs "password" /\
  getJsonValue (credentials_body (bs "password") (bs "p,:w")) (bs "password") = bs "p,:w".
Proof. apply credentials_roundtrip; by_decide. Defined.

(** The scan does not decode escapes: of a password that a conforming JSON
    writer sends, only the part before its first double quote is read, so two
    passwords that differ after a double quote are the same password to the
    server. *)
Theorem json_value_truncated u a x :
  DQUOTE ∉ u -> DQUOTE ∉ a ->
  getJsonValue (credentials_body (jsonEscape u) (jsonEscape (a ++ DQUOTE :: x))) (bs "password") =
  jsonEscape a ++ [BACKSLASH].
Proof.
  intros Hu Ha. unfold credentials_body. rewrite jsonEscape_app, jsonEscape_cons.
  etransitivity; [|apply (credentials_password (jsonEscape u) (jsonEscape a ++ [BACKSLASH])
                (jsonEscape x ++ DQUOTE :: bs "}"))].
  - f_equal. unfold quoted. by bytes_norm.
  - by apply jsonEscape_no_quote.
  - rewrite elem_of_app. intros [E|E]; [by apply jsonEscape_no_quote in E | set_solver].
Qed.

Lemma json_value_truncated_witness :
  getJsonValue (credentials_body (jsonEscape (bs "bob")) (jsonEscape (bs "a" ++ DQUOTE :: bs "1")))
    (bs "password") =
  getJsonValue (credentials_body (jsonEscape (bs "bob")) (jsonEscape (bs "a" ++ DQUOTE :: bs "2")))
    (bs "password").
Proof.
  rewrite !json_value_truncated by by_decide. reflexivity.
Defined.
