(* ===== verification/Channel.v ===== *)
(** * Channel and Epoll (src/Channel.cpp, src/Epoll.cpp)

    A [Channel] is one descriptor's interest mask and its two callbacks; an
    [Epoll] hands masks to the kernel. The kernel's side of [epoll_ctl] is the
    class [EpollKernel]: an operation with the behaviour its manual page
    documents, and the table of registrations it keeps. [Connection] is
    verified against that class; [table_kernel] is a concrete instance. *)

From S2P Require Import Prelude.

(** ** Event masks ([uint32_t], as in [<sys/epoll.h>]) *)

Definition EPOLLIN : Z := 0x001.
Definition EPOLLPRI : Z := 0x002.
Definition EPOLLOUT : Z := 0x004.
Definition EPOLLERR : Z := 0x008.
Definition EPOLLHUP : Z := 0x010.
Definition EPOLLRDHUP : Z := 0x2000.
Definition EPOLLET : Z := 0x80000000.

(** [~m] on [uint32_t]. *)
Definition mask_not (m : Z) : Z := Z.lxor m 0xFFFFFFFF.

(** ** Error numbers *)

Definition EINTR : Z := 4.
Definition EAGAIN : Z := 11.
Definition EWOULDBLOCK : Z := EAGAIN.
Definition EEXIST : Z := 17.
Definition ENOENT : Z := 2.
Definition EPIPE : Z := 32.
Definition ECONNRESET : Z := 104.

(** ** Channel *)

(** The bound member functions the program stores in a [std::function]. *)
Inductive callback : Type :=
| handleMessage_cb
| handleWrite_cb
| acceptConnection_cb.

#[export] Instance callback_eq_dec : EqDecision callback.
Proof. solve_decision. Defined.

Record Channel : Type := mkChannel {
  ch_ptr : nat;                      (* the object's address, kept in [data.ptr] *)
  ch_fd : Z;
  ch_events : Z;
  ch_revent : Z;
  ch_inEpoll : bool;
  ch_callback : option callback;
  ch_writeCallback : option callback
}.

(** The constructor: no interest, not mounted, no callbacks. *)
Definition new_Channel (ptr : nat) (fd : Z) : Channel := mkChannel ptr fd 0 0 false None None.

Definition set_events (m : Z) (ch : Channel) : Channel :=
  mkChannel (ch_ptr ch) (ch_fd ch) m (ch_revent ch) (ch_inEpoll ch) (ch_callback ch) (ch_writeCallback ch).
Definition setRevents (m : Z) (ch : Channel) : Channel :=
  mkChannel (ch_ptr ch) (ch_fd ch) (ch_events ch) m (ch_inEpoll ch) (ch_callback ch) (ch_writeCallback ch).
Definition setInEpoll (ch : Channel) : Channel :=
  mkChannel (ch_ptr ch) (ch_fd ch) (ch_events ch) (ch_revent ch) true (ch_callback ch) (ch_writeCallback ch).
Definition setCallback (cb : callback) (ch : Channel) : Channel :=
  mkChannel (ch_ptr ch) (ch_fd ch) (ch_events ch) (ch_revent ch) (ch_inEpoll ch) (Some cb) (ch_writeCallback ch).
Definition setWriteCallback (cb : callback) (ch : Channel) : Channel :=
  mkChannel (ch_ptr ch) (ch_fd ch) (ch_events ch) (ch_revent ch) (ch_inEpoll ch) (ch_callback ch) (Some cb).

(** [Channel::handleEvent]: the callback it runs, if any. A writable event is
    handled alone, before any readable one. *)
Definition handleEvent (ch : Channel) : option callback :=
  if negb (Z.land (ch_revent ch) EPOLLOUT =? 0) then ch_writeCallback ch
  else if negb (Z.land (ch_revent ch)
                  (Z.lor EPOLLIN (Z.lor EPOLLPRI (Z.lor EPOLLRDHUP (Z.lor EPOLLHUP EPOLLERR)))) =? 0)
  then ch_callback ch
  else None.

(** ** The kernel's interest table *)

Inductive ctl_op : Type := EPOLL_CTL_ADD | EPOLL_CTL_MOD.

#[export] Instance ctl_op_eq_dec : EqDecision ctl_op.
Proof. solve_decision. Defined.

(** [epoll_ctl] answers 0 or an error number. [registered k fd] is the pointer
    and the mask the kernel holds for [fd]. The laws are those of epoll_ctl(2):
    a successful call installs the event, a failed one changes nothing, no call
    touches another descriptor, EEXIST means the descriptor is registered,
    ADD on a registered descriptor is EEXIST, MOD succeeds on a registered one
    and fails on one that is not. *)
Class EpollKernel (K : Type) : Type := {
  epoll_ctl : K -> ctl_op -> Z -> nat * Z -> K * Z;
  registered : K -> Z -> option (nat * Z);
  ctl_ok : forall k op fd ev k',
    epoll_ctl k op fd ev = (k', 0) -> registered k' fd = Some ev;
  ctl_err : forall k op fd ev k' e,
    epoll_ctl k op fd ev = (k', e) -> e <> 0 -> registered k' fd = registered k fd;
  ctl_frame : forall k op fd ev k' e fd',
    epoll_ctl k op fd ev = (k', e) -> fd' <> fd -> registered k' fd' = registered k fd';
  ctl_add_exist : forall k fd ev,
    snd (epoll_ctl k EPOLL_CTL_ADD fd ev) = EEXIST <-> registered k fd <> None;
  ctl_mod_ok : forall k fd ev,
    snd (epoll_ctl k EPOLL_CTL_MOD fd ev) = 0 <-> registered k fd <> None
}.

(** A kernel that never runs out of resources: the table itself. *)
Definition table_ctl (k : gmap Z (nat * Z)) (op : ctl_op) (fd : Z) (ev : nat * Z) : gmap Z (nat * Z) * Z :=
  match op, k !! fd with
  | EPOLL_CTL_ADD, Some _ => (k, EEXIST)
  | EPOLL_CTL_ADD, None => (<[fd := ev]> k, 0)
  | EPOLL_CTL_MOD, Some _ => (<[fd := ev]> k, 0)
  | EPOLL_CTL_MOD, None => (k, ENOENT)
  end.

#[export] Instance table_kernel : EpollKernel (gmap Z (nat * Z)).
Proof.
  refine {| epoll_ctl := table_ctl; registered := fun k fd => k !! fd |};
    unfold table_ctl; intros.
  - destruct op, (k !! fd); simplify_eq; by rewrite lookup_insert_eq.
  - destruct op, (k !! fd) eqn:?; simplify_eq; congruence.
  - destruct op, (k !! fd); simplify_eq; by rewrite ?lookup_insert_ne by done.
  - destruct (k !! fd); simpl; split; (discriminate || done || congruence).
  - destruct (k !! fd); simpl; split; (discriminate || done || congruence).
Defined.

(** A kernel at its limit of watches (fs.epoll.max_user_watches): no new
    descriptor is accepted, the ones in the table still can be modified. *)
Record full_table : Type := FullTable { watches : gmap Z (nat * Z) }.
Definition ENOSPC : Z := 28.

Definition full_ctl (k : full_table) (op : ctl_op) (fd : Z) (ev : nat * Z) : full_table * Z :=
  match op, watches k !! fd with
  | EPOLL_CTL_ADD, Some _ => (k, EEXIST)
  | EPOLL_CTL_ADD, None => (k, ENOSPC)
  | EPOLL_CTL_MOD, Some _ => (FullTable (<[fd := ev]> (watches k)), 0)
  | EPOLL_CTL_MOD, None => (k, ENOENT)
  end.

#[export] Instance full_kernel : EpollKernel full_table.
Proof.
  refine {| epoll_ctl := full_ctl; registered := fun k fd => watches k !! fd |};
    unfold full_ctl; intros.
  - destruct op, (watches k !! fd); simplify_eq; simpl; by rewrite lookup_insert_eq.
  - destruct op, (watches k !! fd) eqn:?; simplify_eq; congruence.
  - destruct op, (watches k !! fd); simplify_eq; simpl; by rewrite ?lookup_insert_ne by done.
  - destruct (watches k !! fd); simpl; split; (discriminate || done || congruence).
  - destruct (watches k !! fd); simpl; split; (discriminate || done || congruence).
Defined.

(** ** Epoll::updateChannel *)

Section Update.
Context {K : Type} `{EpollKernel K}.

(** Logging aside, the calls made to the kernel and the mark on the channel.
    The third component lists the [epoll_ctl] calls in order. *)
Definition updateChannel (k : K) (ch : Channel) : K * Channel * list (ctl_op * Z * Z) :=
  let fd := ch_fd ch in
  let ev := (ch_ptr ch, ch_events ch) in
  if negb (ch_inEpoll ch) then
    let '(k1, e) := epoll_ctl k EPOLL_CTL_ADD fd ev in
    if negb (e =? 0) && (e =? EEXIST) then
      let '(k2, _) := epoll_ctl k1 EPOLL_CTL_MOD fd ev in
      (k2, setInEpoll ch, [(EPOLL_CTL_ADD, fd, ch_events ch); (EPOLL_CTL_MOD, fd, ch_events ch)])
    else (k1, setInEpoll ch, [(EPOLL_CTL_ADD, fd, ch_events ch)])
  else
    let '(k1, _) := epoll_ctl k EPOLL_CTL_MOD fd ev in
    (k1, ch, [(EPOLL_CTL_MOD, fd, ch_events ch)]).

Definition enableReading (k : K) (ch : Channel) :=
  updateChannel k (set_events (Z.lor (ch_events ch) (Z.lor EPOLLIN (Z.lor EPOLLPRI EPOLLRDHUP))) ch).
Definition enableReadingET (k : K) (ch : Channel) :=
  updateChannel k (set_events
    (Z.lor (ch_events ch) (Z.lor EPOLLIN (Z.lor EPOLLPRI (Z.lor EPOLLRDHUP EPOLLET)))) ch).
Definition enableWriting (k : K) (ch : Channel) :=
  updateChannel k (set_events (Z.lor (ch_events ch) EPOLLOUT) ch).
Definition disableWriting (k : K) (ch : Channel) :=
  updateChannel k (set_events (Z.land (ch_events ch) (mask_not EPOLLOUT)) ch).

End Update.

(** ** Lemmas *)

(** The two masks a mounted connection ever has. *)
Definition read_mask : Z := Z.lor EPOLLIN (Z.lor EPOLLPRI (Z.lor EPOLLRDHUP EPOLLET)).
Definition rw_mask : Z := Z.lor read_mask EPOLLOUT.

Section Lemmas.
Context {K : Type} `{EpollKernel K}.

(** A mounted channel: marked, and known to the kernel under its own pointer
    and its current mask. *)
Definition mounted (k : K) (ch : Channel) : Prop :=
  ch_inEpoll ch = true /\ registered k (ch_fd ch) = Some (ch_ptr ch, ch_events ch).

Lemma mount_mod k ch :
  registered k (ch_fd ch) <> None ->
  registered (fst (epoll_ctl k EPOLL_CTL_MOD (ch_fd ch) (ch_ptr ch, ch_events ch))) (ch_fd ch) =
  Some (ch_ptr ch, ch_events ch).
Proof.
  intros R. apply (ctl_mod_ok k _ (ch_ptr ch, ch_events ch)) in R.
  destruct (epoll_ctl _ _ _ _) as [k' e] eqn:E. simpl in *. subst e. by eapply ctl_ok.
Qed.

(** Changing the mask of a channel the kernel knows is one MOD, and leaves it
    mounted with the new mask. *)
Lemma updateChannel_mod k ch :
  ch_inEpoll ch = true -> registered k (ch_fd ch) <> None ->
  exists k', updateChannel k ch = (k', ch, [(EPOLL_CTL_MOD, ch_fd ch, ch_events ch)]) /\ mounted k' ch.
Proof.
  intros I R. pose proof (mount_mod k ch R) as M. unfold updateChannel. rewrite I. simpl.
  destruct (epoll_ctl _ _ _ _) as [k' e]. by exists k'.
Qed.

(** A first registration succeeds unless ADD fails for want of resources; a
    stale registration of the same descriptor number is taken over. *)
Lemma updateChannel_add k ch :
  ch_inEpoll ch = false ->
  snd (epoll_ctl k EPOLL_CTL_ADD (ch_fd ch) (ch_ptr ch, ch_events ch)) = 0 \/
  registered k (ch_fd ch) <> None ->
  exists k' cs, updateChannel k ch = (k', setInEpoll ch, cs) /\ mounted k' (setInEpoll ch).
Proof.
  intros I A. unfold updateChannel. rewrite I. simpl.
  pose proof (ctl_add_exist k (ch_fd ch) (ch_ptr ch, ch_events ch)) as X.
  destruct (epoll_ctl k EPOLL_CTL_ADD _ _) as [k1 e] eqn:E1. simpl in *.
  destruct A as [-> | R].
  - simpl. exists k1, [(EPOLL_CTL_ADD, ch_fd ch, ch_events ch)]. repeat split.
    simpl. by eapply ctl_ok.
  - apply X in R as Re. subst e. simpl.
    pose proof (mount_mod k1 ch) as M.
    rewrite (ctl_err _ _ _ _ _ _ E1) in M by done. specialize (M R).
    destruct (epoll_ctl k1 EPOLL_CTL_MOD _ _) as [k2 e2]. simpl in M. eexists k2, _. by repeat split.
Qed.

Lemma enableWriting_mounted k ch :
  mounted k ch ->
  exists k', enableWriting k ch =
    (k', set_events (Z.lor (ch_events ch) EPOLLOUT) ch,
     [(EPOLL_CTL_MOD, ch_fd ch, Z.lor (ch_events ch) EPOLLOUT)]) /\
    mounted k' (set_events (Z.lor (ch_events ch) EPOLLOUT) ch).
Proof. intros [I R]. apply updateChannel_mod; [done|]. simpl. by rewrite R. Qed.

Lemma disableWriting_mounted k ch :
  mounted k ch ->
  exists k', disableWriting k ch =
    (k', set_events (Z.land (ch_events ch) (mask_not EPOLLOUT)) ch,
     [(EPOLL_CTL_MOD, ch_fd ch, Z.land (ch_events ch) (mask_not EPOLLOUT))]) /\
    mounted k' (set_events (Z.land (ch_events ch) (mask_not EPOLLOUT)) ch).
Proof. intros [I R]. apply updateChannel_mod; [done|]. simpl. by rewrite R. Qed.

(** Switching write interest on ([true]) and off, in any order. *)
Fixpoint toggles (k : K) (ch : Channel) (ops : list bool) : K * Channel :=
  match ops with
  | [] => (k, ch)
  | op :: ops' =>
      let '(k', ch', _) := if op : bool then enableWriting k ch else disableWriting k ch in
      toggles k' ch' ops'
  end.

Definition last_mask (ops : list bool) : Z := if default false (last ops) then rw_mask else read_mask.

Lemma toggles_mounted ops k ch m :
  mounted k ch -> ch_events ch = m -> m = read_mask \/ m = rw_mask ->
  let '(k', ch') := toggles k ch ops in
  mounted k' ch' /\ ch_fd ch' = ch_fd ch /\ ch_ptr ch' = ch_ptr ch /\
  ch_events ch' = match ops with [] => m | _ => last_mask ops end.
Proof.
  revert k ch m. induction ops as [|op ops IH]; intros k ch m M E Hm; [done|].
  cbn [toggles].
  assert (exists k' m' cs,
    (if op then enableWriting k ch else disableWriting k ch) = (k', set_events m' ch, cs) /\
    mounted k' (set_events m' ch) /\ m' = if op then rw_mask else read_mask)
    as (k' & m' & cs & -> & M' & Hm').
  { destruct op;
      [destruct (enableWriting_mounted k ch M) as (k' & -> & M')
      |destruct (disableWriting_mounted k ch M) as (k' & -> & M')];
      do 3 eexists; (split; [reflexivity|]); (split; [done|]);
      rewrite E; by destruct Hm as [-> | ->]. }
  specialize (IH k' (set_events m' ch) m' M' eq_refl).
  destruct (toggles k' (set_events m' ch) ops) as [k2 ch2].
  destruct IH as (? & ? & ? & IHe); [destruct op; auto|].
  split; [done|]. split; [done|]. split; [done|]. rewrite IHe, Hm'. unfold last_mask. destruct ops as [|b ops]; [by destruct op|].
  reflexivity.
Qed.

(** Once a new connection's channel is registered (also when the descriptor
    number is still registered for an earlier connection), the kernel delivers
    that channel's events under its own pointer, edge-triggered readability is
    armed at all times, and EPOLLOUT is armed exactly when write interest was
    switched on last, after any sequence of switches. *)
Theorem interest_tracks_channel k ptr fd ops :
  snd (epoll_ctl k EPOLL_CTL_ADD fd (ptr, read_mask)) = 0 \/ registered k fd <> None ->
  let '(k1, ch1, _) := enableReadingET k (new_Channel ptr fd) in
  let '(k2, ch2) := toggles k1 ch1 ops in
  registered k2 fd = Some (ptr, last_mask ops) /\ ch_events ch2 = last_mask ops.
Proof.
  intros A.
  destruct (updateChannel_add k (set_events read_mask (new_Channel ptr fd)) eq_refl A)
    as (k1 & cs & E & M).
  unfold enableReadingET. change (Z.lor (ch_events (new_Channel ptr fd)) _) with read_mask.
  rewrite E. pose proof (toggles_mounted ops k1 _ read_mask M eq_refl (or_introl eq_refl)) as T.
  destruct (toggles k1 _ ops) as [k2 ch2]. destruct T as ([_ R] & F & P & Ev).
  simpl in F, P. rewrite F, P in R.
  assert (ch_events ch2 = last_mask ops) as Ev' by (rewrite Ev; by destruct ops).
  by rewrite R, Ev'.
Qed.

End Lemmas.

Lemma interest_tracks_channel_witness :
  let k : gmap Z (nat * Z) := {[ 7 := (1%nat, rw_mask) ]} in
  let '(k1, ch1, _) := enableReadingET k (new_Channel 2 7) in
  let '(k2, ch2) := toggles k1 ch1 [true; false; true] in
  registered k2 7 = Some (2%nat, rw_mask) /\ ch_events ch2 = rw_mask.
Proof.
  apply (interest_tracks_channel ({[ 7 := (1%nat, rw_mask) ]} : gmap Z (nat * Z)) 2 7 [true; false; true]).
  right. discriminate.
Defined.

(** A registration the kernel refuses for want of resources is never
    repaired: the channel is marked as mounted all the same, every later update
    is a MOD of an unknown descriptor, and the descriptor stays unregistered. *)
Theorem failed_add_is_permanent {K} `{EpollKernel K} (k : K) ptr fd ops e :
  snd (epoll_ctl k EPOLL_CTL_ADD fd (ptr, read_mask)) = e -> e <> 0 -> e <> EEXIST ->
  let '(k1, ch1, _) := enableReadingET k (new_Channel ptr fd) in
  let '(k2, ch2) := toggles k1 ch1 ops in
  ch_inEpoll ch2 = true /\ registered k2 fd = None.
Proof.
  intros A He Hx. unfold enableReadingET, updateChannel. simpl.
  change (Z.lor 0 _) with read_mask.
  pose proof (ctl_add_exist k fd (ptr, read_mask)) as X.
  destruct (epoll_ctl k EPOLL_CTL_ADD fd (ptr, read_mask)) as [k1 e'] eqn:E1. simpl in *. subst e'.
  destruct (e =? EEXIST) eqn:B; [bool_lia|]. rewrite andb_false_r.
  assert (registered k fd = None) as R by (destruct (registered k fd); [by destruct Hx; apply X | done]).
  rewrite <- (ctl_err _ _ _ _ _ _ E1 He) in R. clear E1 X.
  set (ch1 := setInEpoll _).
  assert (ch_inEpoll ch1 = true /\ ch_fd ch1 = fd) as [I F] by done. clearbody ch1.
  revert k1 ch1 R I F. induction ops as [|op ops IH]; intros k1 ch1 R I F; [done|].
  cbn [toggles].
  assert (exists k' m cs, (if op then enableWriting k1 ch1 else disableWriting k1 ch1) =
            (k', set_events m ch1, cs) /\ registered k' fd = None) as (k' & m & cs & -> & R').
  { assert (forall m, exists k', updateChannel k1 (set_events m ch1) =
                (k', set_events m ch1, [(EPOLL_CTL_MOD, fd, m)]) /\ registered k' fd = None) as U.
    { intros m. unfold updateChannel. simpl. rewrite I, F. simpl.
      pose proof (ctl_mod_ok k1 fd (ch_ptr ch1, m)) as Y.
      destruct (epoll_ctl k1 EPOLL_CTL_MOD fd _) as [k' e'] eqn:E. exists k'. split; [done|].
      rewrite (ctl_err _ _ _ _ _ _ E); [done|]. intros E0. by apply Y in E0. }
    destruct op; [destruct (U (Z.lor (ch_events ch1) EPOLLOUT)) as (k' & E & ?)
                 |destruct (U (Z.land (ch_events ch1) (mask_not EPOLLOUT))) as (k' & E & ?)];
      do 3 eexists; (split; [exact E | done]). }
  by apply IH.
Qed.

Lemma failed_add_is_permanent_witness :
  let '(k1, ch1, _) := enableReadingET (FullTable ∅) (new_Channel 2 7) in
  let '(k2, ch2) := toggles k1 ch1 [true; false] in
  ch_inEpoll ch2 = true /\ registered k2 7 = None.
Proof. by apply (failed_add_is_permanent (FullTable ∅) 2 7 [true; false] ENOSPC). Defined.
