(* ===== verification/Socket.v ===== *)
(** * Sockets and the acceptor (src/Socket.cpp, src/InetAddress.cpp, src/util.cpp,
    src/Acceptor.cpp, and the constructor of src/Epoll.cpp)

    The sockets of the process as the kernel keeps them, the member functions of
    [Socket] over them, [errif], which ends the process, and the two parts of
    [Acceptor]: the constructor, which builds the listening socket, and the
    accept loop. System calls are answered by a script of results; what a call
    that succeeds does to the table is what its manual page says. *)

From S2P Require Import Prelude CppString Config Channel.

(** ** Addresses *)

(** [htons] on a little-endian machine: the two bytes change places. *)
Definition htons (port : Z) : Z := Z.lor (Z.shiftl (Z.land port 255) 8) (Z.shiftr port 8).

Record InetAddress : Type := mkAddr { sin_family : Z; s_addr : Z; sin_port : Z }.

Definition AF_INET : Z := 2.

(** The constructor, given what [inet_addr] makes of the host; the port is
    converted to [uint16_t] by the call. *)
Definition new_InetAddress (addr port : Z) : InetAddress := mkAddr AF_INET addr (htons (to_u16 port)).

(** The kernel reads the low byte first: it sees the configured port, reduced
    to 16 bits. *)
Lemma new_InetAddress_port addr port :
  let p := sin_port (new_InetAddress addr port) in
  256 * Z.land p 255 + Z.shiftr p 8 = to_u16 port.
Proof.
  unfold new_InetAddress, htons. cbn [sin_port].
  pose proof (wrap_u_range 16 port ltac:(lia)) as B. fold (to_u16 port) in B. revert B.
  generalize (to_u16 port) as q. intros q B.
  change 255 with (Z.ones 8). rewrite !Z.land_ones, !Z.shiftr_div_pow2, Z.shiftl_mul_pow2 by lia.
  assert (Z.lor (q mod 2 ^ 8 * 2 ^ 8) (q / 2 ^ 8) = q mod 2 ^ 8 * 2 ^ 8 + q / 2 ^ 8) as ->.
  { rewrite Z.lor_comm, Z.add_comm. rewrite <- Z.shiftl_mul_pow2 by lia.
    rewrite <- Z.add_nocarry_lor; [done|]. apply Z.bits_inj'. intros n Hn.
    rewrite Z.land_spec, Z.shiftl_spec, Z.bits_0 by lia.
    destruct (Z_lt_ge_dec n 8); [by rewrite (Z.testbit_neg_r _ (n - 8)), andb_false_r by lia|].
    rewrite Z.bits_above_log2; [done | apply Z.div_pos; lia|].
    destruct (decide (q / 2 ^ 8 = 0)) as [->|]; [simpl; lia|].
    apply Z.log2_lt_pow2; [pose proof (Z.div_pos q (2 ^ 8)); lia|].
    apply Z.lt_le_trans with (2 ^ 8); [apply Z.div_lt_upper_bound; lia | apply Z.pow_le_mono_r; lia]. }
  change (2 ^ 8) with 256 in *. pose proof (Z.div_mod q 256). pose proof (Z.mod_pos_bound q 256).
  assert (0 <= q / 256 < 256) by (split; [apply Z.div_pos; lia | apply Z.div_lt_upper_bound; lia]).
  rewrite (Z.add_comm (q mod 256 * 256)), Z.mod_add by lia. rewrite (Z.mod_small (q / 256)) by lia.
  rewrite Z.div_add by lia. rewrite (Z.div_small (q / 256)) by lia. lia.
Qed.

(** ** Sockets in the kernel *)

Definition O_RDWR : Z := 2.
Definition O_APPEND : Z := 1024.
Definition O_NONBLOCK : Z := 2048.
Definition O_ASYNC : Z := 8192.
Definition O_DIRECT : Z := 16384.
Definition O_NOATIME : Z := 262144.

(** The only flags F_SETFL changes (fcntl(2)). *)
Definition SETFL_MASK : Z :=
  Z.lor O_APPEND (Z.lor O_NONBLOCK (Z.lor O_ASYNC (Z.lor O_DIRECT O_NOATIME))).

Record sock : Type := mkSock {
  so_flags : Z;
  so_reuseaddr : bool;
  so_nodelay : bool;
  so_bound : option InetAddress;
  so_backlog : option Z;
  so_peer : option InetAddress
}.

Definition fresh_sock : sock := mkSock O_RDWR false false None None None.

Definition nonblocking (s : sock) : bool := negb (Z.land (so_flags s) O_NONBLOCK =? 0).

(** What a system call answers: a value, or -1 and an error number. *)
Inductive sys_ret : Type := SysOk (v : Z) | SysErr (e : Z).

(** The process: its sockets, the answers to come, [errno], what was printed by
    [perror], and the epoll instance of the main reactor. *)
Record Net (K : Type) : Type := mkNet {
  n_socks : gmap Z sock;
  n_script : list sys_ret;
  n_errno : Z;
  n_perrors : list string;
  n_kern : K;
  n_handed : list Z               (* descriptors given to newConnectionCallback_ *)
}.
Arguments mkNet {K}. Arguments n_socks {K}. Arguments n_script {K}. Arguments n_errno {K}.
Arguments n_perrors {K}. Arguments n_kern {K}. Arguments n_handed {K}.

(** An action returns, or has called [exit(EXIT_FAILURE)]. *)
Inductive pres (A : Type) : Type := PRet (a : A) | PExit.
Arguments PRet {A} a. Arguments PExit {A}.

Declare Scope proc_scope.
Delimit Scope proc_scope with proc.

Section Process.
Context {K : Type}.

Definition Proc (A : Type) : Type := Net K -> Net K * pres A.

Definition pret {A} (a : A) : Proc A := fun n => (n, PRet a).
Definition pbind {A B} (m : Proc A) (f : A -> Proc B) : Proc B := fun n =>
  match m n with (n', PRet a) => f a n' | (n', PExit) => (n', PExit) end.

Definition set_socks t (n : Net K) : Net K :=
  mkNet t (n_script n) (n_errno n) (n_perrors n) (n_kern n) (n_handed n).

(** A system call: its answer, with the effect of success on the sockets. *)
Definition syscall (eff : Z -> gmap Z sock -> gmap Z sock) : Proc Z := fun n =>
  match n_script n with
  | [] => (set_socks (eff 0 (n_socks n)) n, PRet 0)
  | SysOk v :: rest =>
      (mkNet (eff v (n_socks n)) rest (n_errno n) (n_perrors n) (n_kern n) (n_handed n), PRet v)
  | SysErr e :: rest =>
      (mkNet (n_socks n) rest e (n_perrors n) (n_kern n) (n_handed n), PRet (-1))
  end.

Definition perror (msg : string) : Proc unit := fun n =>
  (mkNet (n_socks n) (n_script n) (n_errno n) (n_perrors n ++ [msg]) (n_kern n) (n_handed n), PRet tt).

Definition get_errno : Proc Z := fun n => (n, PRet (n_errno n)).

End Process.
Arguments Proc K A : clear implicits.

Notation "x <- m ;; k" := (pbind m (fun x => k))
  (at level 100, m at next level, right associativity) : proc_scope.
Notation "m ;; k" := (pbind m (fun _ => k))
  (at level 100, right associativity) : proc_scope.

Section Sockets.
Context {K : Type} `{EpollKernel K}.
Local Open Scope proc_scope.

Definition errif (condition : bool) (errmsg : string) : Proc K unit :=
  if condition then (perror errmsg ;; fun n => (n, PExit)) else pret tt.

(** *** System calls *)

Definition upd_sock (fd : Z) (f : sock -> sock) (t : gmap Z sock) : gmap Z sock := alter f fd t.

Definition sys_socket : Proc K Z := syscall (fun fd => <[fd := fresh_sock]>).
Definition sys_accept (fd : Z) : Proc K Z := syscall (fun fd' => <[fd' := fresh_sock]>).
Definition sys_close (fd : Z) : Proc K Z := syscall (fun _ => delete fd).
Definition sys_bind (fd : Z) (a : InetAddress) : Proc K Z := syscall (fun _ => upd_sock fd (fun s =>
  mkSock (so_flags s) (so_reuseaddr s) (so_nodelay s) (Some a) (so_backlog s) (so_peer s))).
Definition sys_listen (fd backlog : Z) : Proc K Z := syscall (fun _ => upd_sock fd (fun s =>
  mkSock (so_flags s) (so_reuseaddr s) (so_nodelay s) (so_bound s) (Some backlog) (so_peer s))).
Definition sys_connect (fd : Z) (a : InetAddress) : Proc K Z := syscall (fun _ => upd_sock fd (fun s =>
  mkSock (so_flags s) (so_reuseaddr s) (so_nodelay s) (so_bound s) (so_backlog s) (Some a))).
Definition sys_setreuse (fd : Z) : Proc K Z := syscall (fun _ => upd_sock fd (fun s =>
  mkSock (so_flags s) true (so_nodelay s) (so_bound s) (so_backlog s) (so_peer s))).
Definition sys_setnodelay (fd : Z) : Proc K Z := syscall (fun _ => upd_sock fd (fun s =>
  mkSock (so_flags s) (so_reuseaddr s) true (so_bound s) (so_backlog s) (so_peer s))).

(** F_GETFL answers the flags themselves. *)
Definition sys_getfl (fd : Z) : Proc K Z := fun n =>
  match syscall (fun _ t => t) n with
  | (n', PRet v) => (n', PRet (if v =? -1 then -1 else default 0 (so_flags <$> n_socks n !! fd)))
  | r => r
  end.
Definition sys_setfl (fd flags : Z) : Proc K Z := syscall (fun _ => upd_sock fd (fun s =>
  mkSock (Z.lor (Z.ldiff (so_flags s) SETFL_MASK) (Z.land flags SETFL_MASK))
    (so_reuseaddr s) (so_nodelay s) (so_bound s) (so_backlog s) (so_peer s))).

(** *** Socket: the object is its descriptor *)

Definition new_Socket : Proc K Z :=
  fd_ <- sys_socket ;;
  errif (fd_ =? -1) "socket create error" ;;
  sys_setreuse fd_ ;;
  pret fd_.

Definition Socket_fd (fd : Z) : Proc K Z := errif (fd =? -1) "socket create error" ;; pret fd.

Definition socket_getFd (fd_ : Z) : Z := fd_.

Definition delete_Socket (fd_ : Z) : Proc K unit :=
  if negb (fd_ =? -1) then (sys_close fd_ ;; pret tt) else pret tt.

Definition socket_bind (fd_ : Z) (addr : InetAddress) : Proc K unit :=
  r <- sys_bind fd_ addr ;; errif (r =? -1) "socket bind error".

Definition socket_listen (fd_ : Z) : Proc K unit :=
  let backlog := 65535 in
  r <- sys_listen fd_ backlog ;; errif (r =? -1) "socket listen error".

Definition setnonblocking (fd_ : Z) : Proc K unit :=
  flags <- sys_getfl fd_ ;;
  sys_setfl fd_ (Z.lor flags O_NONBLOCK) ;;
  pret tt.

Definition setNoDelay (fd_ : Z) : Proc K unit := sys_setnodelay fd_ ;; pret tt.

Definition socket_accept (fd_ : Z) : Proc K Z := sys_accept fd_.

Definition socket_connect (fd_ : Z) (addr : InetAddress) : Proc K unit :=
  r <- sys_connect fd_ addr ;; errif (r =? -1) "socket connect error".

(** *** Epoll: the constructor and the destructor *)

(** The descriptor of the epoll instance; it is not a socket. *)
Definition new_Epoll : Proc K Z :=
  epfd_ <- syscall (fun _ t => t) ;;
  errif (epfd_ =? -1) "epoll create error" ;;
  pret epfd_.

Definition delete_Epoll (epfd_ : Z) : Proc K unit :=
  if negb (epfd_ =? -1) then (syscall (fun _ t => t) ;; pret tt) else pret tt.

(** *** Acceptor *)

(** The interest [enableReading] registers: reading, level-triggered. *)
Definition accept_mask : Z := Z.lor EPOLLIN (Z.lor EPOLLPRI EPOLLRDHUP).

Record Acceptor : Type := mkAcceptor { a_sock : Z; acceptChannel_ : Channel }.

(** [enableReading] on a channel of the main reactor. *)
Definition register_channel (ch : Channel) : Proc K Channel := fun n =>
  let '(k, ch', _) := enableReading (n_kern n) ch in
  (mkNet (n_socks n) (n_script n) (n_errno n) (n_perrors n) k (n_handed n), PRet ch').

(** The constructor; [inet_addr] is the C library's, [ptr] the address of the
    channel. *)
Definition new_Acceptor (env : environment) (inet_addr : bytes -> Z) (ptr : nat) : Proc K Acceptor :=
  fd <- new_Socket ;;
  let addr := new_InetAddress (inet_addr (c_str (serverHost env))) (serverPort env) in
  socket_bind fd addr ;;
  socket_listen fd ;;
  setnonblocking fd ;;
  ch <- register_channel (setCallback acceptConnection_cb (new_Channel ptr (socket_getFd fd))) ;;
  pret (mkAcceptor fd ch).

(** [newConnectionCallback_(std::move(clnt_sock))]. *)
Definition hand_over (fd : Z) : Proc K unit := fun n =>
  (mkNet (n_socks n) (n_script n) (n_errno n) (n_perrors n) (n_kern n) (n_handed n ++ [fd]), PRet tt).

(** [accept] on a non-blocking socket: with nothing left to answer it fails with
    EAGAIN. *)
Definition accept_or_again (fd_ : Z) : Proc K Z := fun n =>
  match n_script n with
  | [] => (mkNet (n_socks n) [] EAGAIN (n_perrors n) (n_kern n) (n_handed n), PRet (-1))
  | _ => socket_accept fd_ n
  end.

(** The loop of [acceptConnection]; every turn that goes on has used an answer,
    so the length of the script is enough fuel. *)
Fixpoint accept_loop (fuel : nat) (a : Acceptor) : Proc K unit :=
  match fuel with
  | O => pret tt
  | S fuel =>
      clnt_fd <- accept_or_again (a_sock a) ;;
      if clnt_fd =? -1 then
        errno <- get_errno ;;
        if (errno =? EAGAIN) || (errno =? EWOULDBLOCK) then pret tt
        else if errno =? EINTR then accept_loop fuel a
        else perror "accept error"
      else
        clnt_sock <- Socket_fd clnt_fd ;;
        setnonblocking clnt_sock ;;
        setNoDelay clnt_sock ;;
        hand_over clnt_sock ;;
        accept_loop fuel a
  end.

Definition acceptConnection (a : Acceptor) : Proc K unit := fun n =>
  accept_loop (S (length (n_script n))) a n.

End Sockets.

(** ** Lemmas *)

(** Answers as the manual pages have them: success is not negative. *)
Definition documented (r : sys_ret) : Prop := match r with SysOk v => 0 <= v | SysErr _ => True end.

Definition succeeds (r : sys_ret) : bool := match r with SysOk _ => true | SysErr _ => false end.

#[export] Instance documented_dec r : Decision (documented r).
Proof. destruct r; apply _. Defined.

(** F_SETFL with the flag set makes the socket non-blocking, whatever F_GETFL
    answered. *)
Lemma setfl_nonblocking old flags :
  Z.land (Z.lor (Z.ldiff old SETFL_MASK) (Z.land (Z.lor flags O_NONBLOCK) SETFL_MASK)) O_NONBLOCK <> 0.
Proof.
  intros E. apply (f_equal (fun z => Z.testbit z 11)) in E. revert E.
  rewrite Z.land_spec, Z.lor_spec, Z.ldiff_spec, Z.land_spec, Z.lor_spec, Z.bits_0.
  change (Z.testbit O_NONBLOCK 11) with true. change (Z.testbit SETFL_MASK 11) with true.
  by rewrite orb_true_r, andb_true_r, orb_true_r.
Qed.

Section Lemmas.
Context {K : Type} `{EpollKernel K}.
Implicit Types (n : Net K).

Lemma pbind_ret_eq {A B} (m : Proc K A) (f : A -> Proc K B) n n' a :
  m n = (n', PRet a) -> pbind m f n = f a n'.
Proof. intros E. unfold pbind. by rewrite E. Qed.

Lemma pbind_exit_eq {A B} (m : Proc K A) (f : A -> Proc K B) n n' :
  m n = (n', PExit) -> pbind m f n = (n', PExit).
Proof. intros E. unfold pbind. by rewrite E. Qed.

(** The state after one answer. *)
Definition answered_with (r : sys_ret) (rest : list sys_ret) (t : gmap Z sock) n : Net K :=
  mkNet t rest (match r with SysErr e => e | _ => n_errno n end) (n_perrors n) (n_kern n) (n_handed n).

Definition value_of (r : sys_ret) : Z := match r with SysOk v => v | SysErr _ => -1 end.

Lemma syscall_run eff n r rest :
  n_script n = r :: rest ->
  syscall eff n = (answered_with r rest (match r with SysOk v => eff v (n_socks n) | _ => n_socks n end) n,
                   PRet (value_of r)).
Proof. unfold syscall. intros ->. by destruct r. Qed.

Lemma value_ok r : documented r -> (value_of r =? -1) = negb (succeeds r).
Proof. destruct r as [v|e]; simpl; [|done]. intros P. apply Z.eqb_neq. lia. Qed.

Lemma alter_insert_some (g : sock -> sock) fd so (t : gmap Z sock) :
  t !! fd = Some so -> alter g fd t = <[fd := g so]> t.
Proof.
  intros E. apply map_eq. intros i. destruct (decide (i = fd)) as [->|].
  - by rewrite lookup_alter_eq, lookup_insert_eq, E.
  - by rewrite lookup_alter_ne, lookup_insert_ne.
Qed.

(** What setting the flag does to the table, from the answers to its two
    calls. *)
Lemma setnonblocking_run n fd so g f rest :
  n_script n = g :: f :: rest -> n_socks n !! fd = Some so -> documented g ->
  exists n' so', setnonblocking fd n = (n', PRet tt) /\ n_script n' = rest /\
    n_socks n' = <[fd := so']> (n_socks n) /\ nonblocking so' = succeeds f || nonblocking so /\
    so_nodelay so' = so_nodelay so /\ so_reuseaddr so' = so_reuseaddr so /\ so_bound so' = so_bound so /\
    so_backlog so' = so_backlog so /\ so_peer so' = so_peer so /\
    n_perrors n' = n_perrors n /\ n_kern n' = n_kern n /\ n_handed n' = n_handed n.
Proof.
  intros Sc So Dg. unfold setnonblocking, sys_getfl, pbind at 1. erewrite (syscall_run _ n) by exact Sc.
  unfold sys_setfl, upd_sock, pbind. erewrite (syscall_run _ (answered_with _ _ _ _)) by reflexivity.
  unfold pret. destruct f as [v|e].
  - eexists _, _. split; [reflexivity|]. split; [reflexivity|]. split.
    { cbn [n_socks answered_with]. replace (match g with SysOk _ => n_socks n | SysErr _ => n_socks n end)
        with (n_socks n) by (by destruct g).
      by apply alter_insert_some. }
    split; [|done]. unfold nonblocking. cbn [so_flags succeeds orb]. apply negb_true_iff, Z.eqb_neq.
    apply setfl_nonblocking.
  - eexists _, so. split; [reflexivity|]. split; [reflexivity|]. split; [|done].
    cbn [n_socks answered_with]. rewrite insert_id; destruct g; done.
Qed.

Lemma setNoDelay_run n fd so d rest :
  n_script n = d :: rest -> n_socks n !! fd = Some so ->
  exists n' so', setNoDelay fd n = (n', PRet tt) /\ n_script n' = rest /\
    n_socks n' = <[fd := so']> (n_socks n) /\ so_nodelay so' = succeeds d || so_nodelay so /\
    nonblocking so' = nonblocking so /\
    n_perrors n' = n_perrors n /\ n_kern n' = n_kern n /\ n_handed n' = n_handed n.
Proof.
  intros Sc So. unfold setNoDelay, sys_setnodelay, upd_sock, pbind. erewrite syscall_run by exact Sc.
  unfold pret. destruct d as [v|e].
  - eexists _, _. split; [reflexivity|]. split; [reflexivity|]. split; [by apply alter_insert_some|].
    by unfold nonblocking.
  - eexists _, so. split; [reflexivity|]. split; [reflexivity|]. split; [|done].
    cbn [n_socks answered_with]. by rewrite insert_id.
Qed.

Lemma updateChannel_chan_add (k : K) ch :
  ch_inEpoll ch = false -> snd (fst (updateChannel k ch)) = setInEpoll ch.
Proof.
  intros E. unfold updateChannel. rewrite E. simpl. destruct (epoll_ctl k _ _ _) as [k1 e].
  destruct (_ && _); [by destruct (epoll_ctl k1 _ _ _) | done].
Qed.

(** A call that changes a socket and ends the process when it fails. *)
Lemma checked_run n fd so f msg r rest :
  n_script n = r :: rest -> n_socks n !! fd = Some so -> documented r ->
  exists n', pbind (syscall (fun _ => upd_sock fd f)) (fun v => errif (v =? -1) msg) n =
      (n', if succeeds r then PRet tt else PExit) /\
    n_script n' = rest /\ n_kern n' = n_kern n /\ n_handed n' = n_handed n /\
    n_perrors n' = n_perrors n ++ (if succeeds r then [] else [msg]) /\
    n_socks n' = if succeeds r then <[fd := f so]> (n_socks n) else n_socks n.
Proof.
  intros Sc So D. erewrite pbind_ret_eq by (by apply syscall_run). rewrite value_ok by done.
  destruct r as [v|e]; simpl; unfold pbind; simpl; eexists; (split; [reflexivity|]); simpl.
  - rewrite app_nil_r. repeat split. by apply alter_insert_some.
  - done.
Qed.

Lemma new_Socket_run n r1 r2 rest :
  n_script n = r1 :: r2 :: rest -> documented r1 ->
  match r1 with
  | SysErr _ => exists n', new_Socket n = (n', PExit) /\
      n_perrors n' = n_perrors n ++ ["socket create error"%string]
  | SysOk fd => exists n', new_Socket n = (n', PRet fd) /\ n_script n' = rest /\ n_kern n' = n_kern n /\
      n_handed n' = n_handed n /\ n_perrors n' = n_perrors n /\ n_socks n' !! fd = Some (mkSock O_RDWR (succeeds r2) false None None None)
  end.
Proof.
  intros Sc D.
  assert (new_Socket n = pbind (errif (negb (succeeds r1)) "socket create error")
    (fun _ => pbind (sys_setreuse (value_of r1)) (fun _ => pret (value_of r1)))
    (answered_with r1 (r2 :: rest)
      (match r1 with SysOk v => <[v := fresh_sock]> (n_socks n) | _ => n_socks n end) n)) as ->.
  { unfold new_Socket, sys_socket. erewrite pbind_ret_eq by (by apply syscall_run). by rewrite value_ok. }
  destruct r1 as [fd|e]; [|eexists; split; [reflexivity | done]].
  unfold sys_setreuse, upd_sock, errif, pbind. simpl. erewrite syscall_run by reflexivity.
  eexists. split; [reflexivity|]. do 4 (split; [done|]). simpl.
  destruct r2; simpl; [by rewrite lookup_alter_eq, lookup_insert_eq | by rewrite lookup_insert_eq].
Qed.

(** ** The accept loop *)

(** The answers of one call of [acceptConnection], with the connections it
    takes: descriptor, and whether the socket could be made non-blocking and the
    delay switched off. *)
Inductive accept_script : list sys_ret -> list (Z * bool * bool) -> Prop :=
| as_drained : accept_script [] []
| as_stop e rest : e <> EINTR -> accept_script (SysErr e :: rest) []
| as_intr s l : accept_script s l -> accept_script (SysErr EINTR :: s) l
| as_conn fd g f d s l :
    0 <= fd -> documented g -> fd ∉ l.*1.*1 -> accept_script s l ->
    accept_script (SysOk fd :: g :: f :: d :: s) ((fd, succeeds f, succeeds d) :: l).

(** Each accepted socket is prepared as its answers allow. *)
Definition prepared (t : gmap Z sock) (c : Z * bool * bool) : Prop :=
  let '(fd, nb, nd) := c in exists so, t !! fd = Some so /\ nonblocking so = nb /\ so_nodelay so = nd.

Lemma accept_loop_run s l : accept_script s l -> forall a n fuel, n_script n = s -> (length s < fuel)%nat ->
  exists n', accept_loop fuel a n = (n', PRet tt) /\ n_handed n' = n_handed n ++ l.*1.*1 /\
    n_kern n' = n_kern n /\ Forall (prepared (n_socks n')) l /\
    forall fd, fd ∉ l.*1.*1 -> n_socks n' !! fd = n_socks n !! fd.
Proof.
  induction 1 as [|e rest Ne|s l Hs IH|fd g f d s l Hf Dg Nd Hs IH]; intros a n fuel Sc Hl;
    (destruct fuel as [|fuel]; [simpl in Hl; lia|]); cbn [accept_loop].
  - unfold pbind at 1, accept_or_again. rewrite Sc. simpl. eexists. split; [reflexivity|].
    simpl. rewrite app_nil_r. by repeat split.
  - unfold pbind at 1, accept_or_again. rewrite Sc. unfold socket_accept, sys_accept.
    erewrite syscall_run by exact Sc. cbn [value_of]. change (-1 =? -1) with true. cbv iota.
    unfold pbind at 1, get_errno. cbn [n_errno answered_with].
    destruct ((e =? EAGAIN) || (e =? EWOULDBLOCK)); [|destruct (e =? EINTR) eqn:B; [bool_lia|]];
      (eexists; split; [reflexivity|]; simpl; rewrite app_nil_r; by repeat split).
  - unfold pbind at 1, accept_or_again. rewrite Sc. unfold socket_accept, sys_accept.
    erewrite syscall_run by exact Sc. cbn [value_of]. change (-1 =? -1) with true. cbv iota.
    unfold pbind at 1, get_errno. cbn [n_errno answered_with].
    change ((EINTR =? EAGAIN) || (EINTR =? EWOULDBLOCK)) with false. change (EINTR =? EINTR) with true. cbv iota.
    set (n1 := answered_with _ _ _ _). destruct (IH a n1 fuel) as (n' & E & ? & ? & ? & ?); [done | simpl in Hl; lia|].
    exists n'. by repeat split.
  - assert (fd =? -1 = false) as Nf by (apply Z.eqb_neq; lia).
    unfold pbind at 1, accept_or_again. rewrite Sc. unfold socket_accept, sys_accept.
    erewrite syscall_run by exact Sc. cbn [value_of]. rewrite Nf.
    unfold Socket_fd, errif. rewrite Nf. set (n1 := answered_with _ _ _ _).
    erewrite pbind_ret_eq by reflexivity.
    destruct (setnonblocking_run n1 fd fresh_sock g f (d :: s)) as
      (n2 & so2 & E2 & Sc2 & T2 & B2 & D2 & _ & _ & _ & _ & _ & K2 & H2); [done | apply lookup_insert_eq | done |].
    erewrite pbind_ret_eq by exact E2.
    destruct (setNoDelay_run n2 fd so2 d s) as (n3 & so3 & E3 & Sc3 & T3 & D3 & B3 & _ & K3 & H3);
      [done | rewrite T2; apply lookup_insert_eq|].
    erewrite pbind_ret_eq by exact E3. erewrite pbind_ret_eq by reflexivity.
    set (n4 := mkNet _ _ _ _ _ _). destruct (IH a n4 fuel) as (n' & E & Hh & Hk & Hp & Ht); [done | simpl in Hl; lia|].
    exists n'. split; [exact E|]. split.
    { rewrite Hh. simpl. rewrite H3, H2, <- app_assoc. done. }
    split; [rewrite Hk; simpl; by rewrite K3, K2|]. split.
    + constructor; [|done]. exists so3. rewrite Ht by done. simpl. rewrite T3, lookup_insert_eq.
      split; [done|]. rewrite B3, B2, D3, D2. simpl. by rewrite !orb_false_r.
    + intros fd' [N1 N2]%not_elem_of_cons. rewrite Ht by done. simpl. rewrite T3, T2.
      simpl in N1. unfold n1. cbn [n_socks answered_with]. by rewrite !lookup_insert_ne by congruence.
Qed.

(** ** Properties *)

(** How the listening socket comes to be. The constructor ends the process
    at the first of socket, bind and listen that fails, with its message;
    otherwise the socket is bound to the configured address, listens, may reuse
    the address and is non-blocking as far as the answers allow, and its channel
    is level-triggered for reading, calls [acceptConnection] and, unless the
    registration fails, is known to the kernel. *)
Lemma new_Acceptor_outcomes env inet_addr ptr n r_sock r_reuse r_bind r_listen r_get r_set rest :
  n_script n = [r_sock; r_reuse; r_bind; r_listen; r_get; r_set] ++ rest ->
  Forall documented [r_sock; r_reuse; r_bind; r_listen; r_get; r_set] ->
  let '(n', res) := new_Acceptor env inet_addr ptr n in
  match r_sock, r_bind, r_listen with
  | SysErr _, _, _ => res = PExit /\ n_perrors n' = n_perrors n ++ ["socket create error"%string]
  | _, SysErr _, _ => res = PExit /\ n_perrors n' = n_perrors n ++ ["socket bind error"%string]
  | _, _, SysErr _ => res = PExit /\ n_perrors n' = n_perrors n ++ ["socket listen error"%string]
  | SysOk fd, SysOk _, SysOk _ => exists a so, res = PRet a /\ a_sock a = fd /\
      n_script n' = rest /\ n_perrors n' = n_perrors n /\ n_handed n' = n_handed n /\ n_socks n' !! fd = Some so /\
      so_bound so = Some (new_InetAddress (inet_addr (c_str (serverHost env))) (serverPort env)) /\
      so_backlog so = Some 65535 /\ so_reuseaddr so = succeeds r_reuse /\ nonblocking so = succeeds r_set /\
      ch_events (acceptChannel_ a) = accept_mask /\ ch_callback (acceptChannel_ a) = Some acceptConnection_cb /\
      ch_writeCallback (acceptChannel_ a) = None /\
      (snd (epoll_ctl (n_kern n) EPOLL_CTL_ADD fd (ptr, accept_mask)) = 0 \/ registered (n_kern n) fd <> None ->
       mounted (n_kern n') (acceptChannel_ a))
  end.
Proof.
  intros Sc D. rewrite !Forall_cons in D. destruct D as (D1 & D2 & D3 & D4 & D5 & D6 & _).
  pose proof (new_Socket_run n r_sock r_reuse _ Sc D1) as N. unfold new_Acceptor.
  destruct r_sock as [fd|e].
  2: { destruct N as (n' & E & P). rewrite (pbind_exit_eq _ _ _ _ E). by destruct r_bind, r_listen. }
  destruct N as (n1 & E1 & Sc1 & K1 & H1 & P1 & So1). rewrite (pbind_ret_eq _ _ _ _ _ E1). cbv zeta.
  set (addr := new_InetAddress _ _). unfold socket_bind, sys_bind.
  match goal with |- context [syscall (fun _ => upd_sock fd ?f)] =>
    destruct (checked_run n1 fd _ f "socket bind error" r_bind _ Sc1 So1 D3) as (n2 & E2 & Sc2 & K2 & H2 & P2 & T2) end.
  destruct r_bind as [v3|e]; simpl in E2, P2, T2.
  2: { rewrite (pbind_exit_eq _ _ _ _ E2), P2, P1. done. }
  rewrite (pbind_ret_eq _ _ _ _ _ E2). unfold socket_listen, sys_listen.
  assert (exists so2, n_socks n2 !! fd = Some so2 /\ so_bound so2 = Some addr /\
    so_reuseaddr so2 = succeeds r_reuse /\ nonblocking so2 = false) as (so2 & So2 & B2 & R2 & F2).
  { rewrite T2, lookup_insert_eq. by eexists. }
  match goal with |- context [syscall (fun _ => upd_sock fd ?f)] =>
    destruct (checked_run n2 fd so2 f "socket listen error" r_listen _ Sc2 So2 D4) as (n3 & E3 & Sc3 & K3 & H3 & P3 & T3) end.
  destruct r_listen as [v4|e]; simpl in E3, P3, T3.
  2: { rewrite (pbind_exit_eq _ _ _ _ E3), P3, P2, P1. by rewrite app_nil_r. }
  rewrite (pbind_ret_eq _ _ _ _ _ E3).
  destruct (setnonblocking_run n3 fd _ r_get r_set rest Sc3 ltac:(rewrite T3; apply lookup_insert_eq) D5)
    as (n4 & so4 & E4 & Sc4 & T4 & N4 & _ & R4 & B4 & L4 & _ & P4 & K4 & H4).
  rewrite (pbind_ret_eq _ _ _ _ _ E4). unfold register_channel, pbind, pret.
  rewrite K4, K3, K2, K1. unfold enableReading. change (Z.lor (ch_events _) _) with accept_mask.
  set (ch := set_events accept_mask _).
  pose proof (updateChannel_add (n_kern n) ch eq_refl) as A.
  pose proof (updateChannel_chan_add (n_kern n) ch eq_refl) as C.
  destruct (updateChannel (n_kern n) ch) as [[k' ch'] calls]. simpl in C. subst ch'.
  eexists _, so4. split; [reflexivity|]. do 2 (split; [done|]).
  split; [simpl; by rewrite P4, P3, P2, P1, !app_nil_r|]. split; [simpl; congruence|].
  split; [simpl; rewrite T4; apply lookup_insert_eq|].
  split; [by rewrite B4|]. split; [by rewrite L4|]. split; [by rewrite R4|].
  split; [rewrite N4; unfold nonblocking in *; simpl; rewrite F2; apply orb_false_r|].
  do 3 (split; [done|]). intros [X|X]; (destruct A as (k & cs & E & M); [by auto|]; by simplify_eq).
Qed.

(** The accept loop. Whatever the answers (interrupted calls in between, any
    error or an empty backlog at the end), the loop ends, every accepted
    connection is handed over in order, its socket non-blocking and without
    delay unless the call that does it failed, and no other socket is touched. *)
Theorem acceptConnection_hands_over a n l :
  accept_script (n_script n) l ->
  exists n', acceptConnection a n = (n', PRet tt) /\ n_handed n' = n_handed n ++ l.*1.*1 /\
    Forall (prepared (n_socks n')) l /\ forall fd, fd ∉ l.*1.*1 -> n_socks n' !! fd = n_socks n !! fd.
Proof.
  intros Hs. destruct (accept_loop_run _ _ Hs a n (S (length (n_script n)))) as (n' & E & Hh & _ & Hp & Ht);
    [done | lia|]. by exists n'.
Qed.

End Lemmas.

(** ** Witnesses *)

Definition all_interfaces (_ : bytes) : Z := 0.
Definition any_env : environment := fun _ => None.

Definition booting (script : list sys_ret) : Net (gmap Z (nat * Z)) := mkNet ∅ script 0 [] ∅ [].

(** All calls succeed; and the address is in use. *)
Lemma new_Acceptor_outcomes_witness :
  let '(n', res) := new_Acceptor any_env all_interfaces 1
                      (booting [SysOk 3; SysOk 0; SysErr 98; SysOk 0; SysOk 2; SysOk 0]) in
  res = PExit /\ n_perrors n' = ["socket bind error"%string].
Proof.
  apply (new_Acceptor_outcomes any_env all_interfaces 1
           (booting [SysOk 3; SysOk 0; SysErr 98; SysOk 0; SysOk 2; SysOk 0])
           (SysOk 3) (SysOk 0) (SysErr 98) (SysOk 0) (SysOk 2) (SysOk 0) []);
    [reflexivity | by_decide].
Defined.

Example new_Acceptor_listens :
  let '(n', res) := new_Acceptor any_env all_interfaces 1
                      (booting [SysOk 3; SysOk 0; SysOk 0; SysOk 0; SysOk 2; SysOk 0]) in
  res = PRet (mkAcceptor 3 (mkChannel 1 3 accept_mask 0 true (Some acceptConnection_cb) None)) /\
  n_socks n' !! 3 = Some (mkSock 2050 true false (Some (mkAddr 2 0 47138)) (Some 65535) None) /\
  n_kern n' !! 3 = Some (1%nat, accept_mask).
Proof. vm_compute. done. Qed.

(** Two connections, the second of which cannot be made non-blocking. *)
Definition two_accepts : list sys_ret :=
  [SysErr EINTR; SysOk 7; SysOk 2; SysOk 0; SysOk 0; SysOk 8; SysOk 2; SysErr 9; SysOk 0; SysErr EAGAIN].

Lemma two_accepts_script : accept_script two_accepts [(7, true, true); (8, false, true)].
Proof.
  apply as_intr, (as_conn 7 (SysOk 2) (SysOk 0) (SysOk 0)); [lia | done | by_decide|].
  apply (as_conn 8 (SysOk 2) (SysErr 9) (SysOk 0)); [lia | done | by_decide|]. by apply as_stop.
Qed.

Lemma acceptConnection_hands_over_witness :
  exists n', acceptConnection (mkAcceptor 3 (new_Channel 1 3)) (booting two_accepts) = (n', PRet tt) /\
    n_handed n' = [7; 8] /\ Forall (prepared (n_socks n')) [(7, true, true); (8, false, true)] /\
    forall fd, fd ∉ [7; 8] -> n_socks n' !! fd = n_socks (booting two_accepts) !! fd.
Proof.
  apply (acceptConnection_hands_over (mkAcceptor 3 (new_Channel 1 3)) (booting two_accepts)
           [(7, true, true); (8, false, true)]). apply two_accepts_script.
Defined.
