(* ===== verification/Framing.v ===== *)
(** * Request framing (src/Connection.cpp, processRequests)

    The part of [Connection::processRequests] that decides whether the input
    buffer holds a complete request, and the loop it makes over a keep-alive
    connection. [feed] is the buffer's life over successive read events: append
    what arrived, cut off every complete request, keep the rest. *)

From S2P Require Import Prelude CppString Config Http.

(** What one turn of the loop finds at the front of the buffer. *)
Inductive framing : Type :=
| NeedMore
| HeaderTooLarge
| BodyTooLarge
| Framed (request headers rest : bytes).

#[export] Instance framing_eq_dec : EqDecision framing.
Proof. solve_decision. Defined.

Definition frame (inputBuffer : bytes) : framing :=
  match find CRLF2 inputBuffer with
  | None =>
      let maxHdr := kMaxHeaderBytes in
      if (maxHdr >? 0) && (str_size inputBuffer >? maxHdr) then HeaderTooLarge else NeedMore
  | Some headerEnd =>
      let headers := substr inputBuffer 0 headerEnd in
      let bodyLen := requestContentLength headers in
      let maxBody := kMaxBodyBytes in
      if (maxBody >? 0) && (bodyLen >? maxBody) then BodyTooLarge
      else
        let total := to_size_t (Z.of_nat headerEnd + 4 + bodyLen) in
        if str_size inputBuffer <? total then NeedMore
        else Framed (take (Z.to_nat total) inputBuffer) headers (drop (Z.to_nat total) inputBuffer)
  end.

Lemma frame_rest_le buf request headers rest :
  frame buf = Framed request headers rest -> (length rest <= length buf)%nat.
Proof.
  unfold frame. destruct (find _ _); [|destruct (_ && _); discriminate].
  destruct (_ && _); [discriminate|]. cbv zeta. destruct (_ <? _); [discriminate|].
  intros [= <- <- <-]. rewrite length_drop. lia.
Qed.

(** Every complete request at the front of the buffer, and how the scan
    ended: on [NeedMore] with what is left in the buffer. *)
Fixpoint frames_loop (fuel : nat) (buf : bytes) : list bytes * (framing * bytes) :=
  match fuel with
  | O => ([], (NeedMore, buf))
  | S f =>
      match frame buf with
      | Framed request _ rest =>
          let '(rs, e) := frames_loop f rest in (request :: rs, e)
      | o => ([], (o, buf))
      end
  end.

Definition frames (buf : bytes) : list bytes * (framing * bytes) := frames_loop (S (length buf)) buf.

(** The input buffer over a sequence of read events: the requests cut off so
    far, and the buffer. A rejected stream ends the connection: [None]. *)
Fixpoint feed (buf : bytes) (chunks : list bytes) : option (list bytes * bytes) :=
  match chunks with
  | [] => Some ([], buf)
  | c :: cs =>
      match frames (buf ++ c) with
      | (rs, (NeedMore, b)) => '(rs', b') ← feed b cs; Some (rs ++ rs', b')
      | _ => None
      end
  end.

(** A request a client may send: well-formed lines, a Content-Length that
    announces the body (or none and no body), both parts within the limits. *)
Definition wf_request (m : list bytes * bytes) : Prop :=
  m.1 <> [] /\ Forall wf_line m.1 /\
  requestContentLength (header_block m.1) = str_size m.2 /\
  str_size (header_block m.1) + 4 <= kMaxHeaderBytes /\ str_size m.2 <= kMaxBodyBytes.

#[export] Instance wf_request_dec m : Decision (wf_request m).
Proof. unfold wf_request. apply _. Defined.

Definition wire_request (m : list bytes * bytes) : bytes := message m.1 m.2.

(** ** Lemmas *)

Lemma requestContentLength_range headers : 0 <= requestContentLength headers <= LONG_MAX.
Proof.
  unfold requestContentLength. destruct (findHeader _ _) as [|c v]; [by vm_compute|].
  pose proof (strtol_range (c_str (c :: v))) as R.
  destruct (_ >? _) eqn:E; [|by vm_compute]. rewrite Z.gtb_ltb in E. bool_lia.
  unfold to_size_t. rewrite wrap_u_small; unfold LONG_MAX, LONG_MIN in *; lia.
Qed.

(** The sum [headerEnd + 4 + bodyLen] never wraps past the limit check: it is
    the exact length of the request. *)
Lemma frame_total_exact buf h :
  str_size buf <= LONG_MAX -> find CRLF2 buf = Some h ->
  let bodyLen := requestContentLength (substr buf 0 h) in
  to_size_t (Z.of_nat h + 4 + bodyLen) = Z.of_nat h + 4 + bodyLen \/ bodyLen > kMaxBodyBytes.
Proof.
  intros Hs F bodyLen. pose proof (requestContentLength_range (substr buf 0 h)) as R.
  apply find_bound in F. simpl in F. fold bodyLen in R. unfold str_size, LONG_MAX in *.
  destruct (Z.le_gt_cases bodyLen kMaxBodyBytes) as [L|G]; [left | right; lia].
  unfold kMaxBodyBytes in L. apply wrap_u_small. lia.
Qed.

(** What [Framed] means: the request is the header part, the blank line and
    exactly Content-Length bytes, and the rest is what follows. *)
Lemma frame_Framed buf r hd rest :
  str_size buf <= LONG_MAX -> frame buf = Framed r hd rest ->
  buf = r ++ rest /\ exists body, r = hd ++ CRLF2 ++ body /\
  find CRLF2 buf = Some (length hd) /\
  str_size body = requestContentLength hd /\ str_size body <= kMaxBodyBytes.
Proof.
  intros Hs E. unfold frame in E. destruct (find CRLF2 buf) as [h|] eqn:F; [|by case_match].
  destruct (_ && _) eqn:B in E; [done|].
  destruct (frame_total_exact buf h Hs F) as [T|T].
  2: { apply andb_false_iff in B as [B|B]; [done|]. rewrite Z.gtb_ltb in B. bool_lia. }
  rewrite T in E. destruct (_ <? _) eqn:L in E; [done|]. injection E as <- <- <-.
  apply andb_false_iff in B as [B|B]; [done|]. rewrite Z.gtb_ltb in B.
  set (hd := substr buf 0 h) in *. pose proof (requestContentLength_range hd) as R.
  destruct (find_Some _ _ _ F) as (a & b & -> & Ha). unfold str_size in *.
  assert (hd = a) as ->.
  { subst hd h. unfold substr. by rewrite drop_0, take_app_length. }
  rewrite !length_app in *. simpl length in *. bool_lia. rewrite <- Ha in *. rewrite take_drop.
  split; [done|]. exists (take (Z.to_nat (requestContentLength a)) b).
  replace (Z.to_nat (Z.of_nat (length a) + 4 + requestContentLength a))
    with (length a + (4 + Z.to_nat (requestContentLength a)))%nat by lia.
  rewrite take_app_length_plus. split; [done|]. split; [done|].
  rewrite length_take. lia.
Qed.

Lemma frame_progress buf r hd rest :
  str_size buf <= LONG_MAX -> frame buf = Framed r hd rest ->
  (length rest + 4 <= length buf)%nat.
Proof.
  intros Hs (-> & body & -> & _)%frame_Framed; [|done]. rewrite !length_app. simpl. lia.
Qed.

Lemma wire_request_length m :
  str_size (wire_request m) = str_size (header_block m.1) + 4 + str_size m.2.
Proof. unfold wire_request, message, str_size. rewrite !length_app. simpl. lia. Qed.

(** A complete request at the front of the buffer is cut off exactly. *)
Lemma frame_wire m s :
  wf_request m -> frame (wire_request m ++ s) = Framed (wire_request m) (header_block m.1) s.
Proof.
  intros (Hne & Hwf & Hcl & Hh & Hb).
  pose proof (wire_request_length m) as Hlen.
  assert (wire_request m ++ s = message m.1 (m.2 ++ s)) as E.
  { unfold wire_request, message. by rewrite <- !app_assoc. }
  destruct (message_split m.1 (m.2 ++ s) Hne Hwf) as (F & T & _).
  unfold frame. rewrite E at 1. rewrite F.
  assert (substr (wire_request m ++ s) 0 (length (header_block m.1)) = header_block m.1) as ->.
  { unfold substr. by rewrite drop_0, E, T. }
  rewrite Hcl. unfold str_size in *. rewrite Z.gtb_ltb, Z.gtb_ltb.
  destruct (kMaxBodyBytes <? _) eqn:B; [bool_lia|]. rewrite andb_false_r. clear B.
  unfold kMaxHeaderBytes, kMaxBodyBytes, to_size_t in *. rewrite wrap_u_small by lia.
  rewrite <- Hlen. rewrite length_app. destruct (_ <? _) eqn:L; [bool_lia|].
  by rewrite Nat2Z.id, take_app_length, drop_app_length.
Qed.

(** A proper prefix of a request is kept for the next read event. *)
Lemma frame_partial m p q :
  wf_request m -> wire_request m = p ++ q -> q <> [] -> frame p = NeedMore.
Proof.
  intros (Hne & Hwf & Hcl & Hh & Hb) E Hq.
  pose proof (wire_request_length m) as Hlen. rewrite E in Hlen.
  destruct (message_split m.1 m.2 Hne Hwf) as (F & T & _).
  change (message m.1 m.2) with (wire_request m) in F, T. rewrite E in F, T.
  unfold str_size in *. rewrite length_app in Hlen.
  assert (0 < length q)%nat by (destruct q; simpl; [done | lia]).
  unfold frame. destruct (find CRLF2 p) as [h|] eqn:Fp.
  - rewrite (find_extend _ _ q _ Fp) in F. injection F as ->.
    apply find_bound in Fp. simpl in Fp.
    assert (substr p 0 (length (header_block m.1)) = header_block m.1) as ->.
    { unfold substr. rewrite drop_0. rewrite <- T at 2. by rewrite take_app_le by lia. }
    rewrite Hcl. rewrite Z.gtb_ltb, Z.gtb_ltb. unfold str_size.
    destruct (kMaxBodyBytes <? _) eqn:B; [bool_lia|]. rewrite andb_false_r. clear B.
    unfold kMaxHeaderBytes, kMaxBodyBytes, to_size_t in *. rewrite wrap_u_small by lia.
    destruct (_ <? _) eqn:L; [done|]. bool_lia.
  - destruct (Nat.le_gt_cases (length (header_block m.1) + 4) (length p)) as [L|L].
    + exfalso. apply (proj1 (find_None _ _) Fp (header_block m.1)
                        (drop (length (header_block m.1) + 4) p)).
      rewrite <- (take_drop (length (header_block m.1) + 4) p) at 1. rewrite app_assoc. f_equal.
      rewrite <- (take_app_le p q) by lia. rewrite <- E. unfold wire_request, message.
      by rewrite take_app_length_plus.
    + rewrite Z.gtb_ltb, Z.gtb_ltb. unfold str_size.
      destruct (kMaxHeaderBytes <? _) eqn:B; [bool_lia|]. by rewrite andb_false_r.
Qed.

Lemma frame_nil : frame [] = NeedMore.
Proof. done. Qed.

(** Cutting a prefix of a pipelined stream: whole requests come out in order
    and the buffer keeps the beginning of the next one. *)
Lemma frames_loop_stream fuel ms buf tail :
  Forall wf_request ms -> buf ++ tail = mjoin (wire_request <$> ms) ->
  (length buf < fuel)%nat ->
  exists ms1 ms2 b, ms = ms1 ++ ms2 /\
    frames_loop fuel buf = (wire_request <$> ms1, (NeedMore, b)) /\
    b ++ tail = mjoin (wire_request <$> ms2) /\
    match ms2 with [] => True | m :: _ => (length b < length (wire_request m))%nat end.
Proof.
  intros Hms. revert fuel buf. induction Hms as [|m ms Hm Hms IH]; intros fuel buf E Hf.
  { destruct buf; [|done]. exists [], [], []. by destruct fuel. }
  destruct fuel as [|f]; [lia|].
  change (mjoin (wire_request <$> m :: ms)) with (wire_request m ++ mjoin (wire_request <$> ms)) in E.
  destruct (Nat.le_gt_cases (length (wire_request m)) (length buf)) as [L|L].
  - assert (exists b1, buf = wire_request m ++ b1) as [b1 ->].
    { exists (drop (length (wire_request m)) buf).
      rewrite <- (take_drop (length (wire_request m)) buf) at 1. f_equal.
      rewrite <- (take_app_le buf tail) by lia. rewrite E. apply take_app_length. }
    rewrite <- app_assoc in E. apply app_inv_head in E.
    pose proof (wire_request_length m). unfold str_size in *. rewrite length_app in Hf.
    destruct (IH f b1 E) as (ms1 & ms2 & b & -> & Ef & Eb & Lb); [lia|].
    exists (m :: ms1), ms2, b. split; [done|]. split; [|done].
    cbn [frames_loop]. by rewrite frame_wire, Ef.
  - exists [], (m :: ms), buf. split; [done|]. split; [|done].
    cbn [frames_loop]. rewrite (frame_partial m buf (drop (length buf) (wire_request m))); [done|done| |].
    + rewrite <- (take_drop (length buf) (wire_request m)) at 1. f_equal.
      rewrite <- (take_app_le (wire_request m) (mjoin (wire_request <$> ms))) by lia.
      rewrite <- E. apply take_app_length.
    + intros D%(f_equal length). rewrite length_drop in D. simpl in D. lia.
Qed.

Lemma wire_request_nonempty m : wire_request m <> [].
Proof.
  intros E%(f_equal length). pose proof (wire_request_length m). unfold str_size in *.
  simpl in E. lia.
Qed.

Lemma stream_end ms : mjoin (wire_request <$> ms) = [] -> ms = [].
Proof.
  destruct ms as [|m ms]; [done|]. intros E. cbn in E.
  apply app_eq_nil in E as [E _]. by apply wire_request_nonempty in E.
Qed.

(** Whatever is left after cutting is again the beginning of the stream. *)
Lemma feed_stream chunks ms buf :
  Forall wf_request ms -> buf ++ mjoin chunks = mjoin (wire_request <$> ms) ->
  chunks <> [] \/ buf = [] ->
  feed buf chunks = Some (wire_request <$> ms, []).
Proof.
  revert ms buf. induction chunks as [|c cs IH]; intros ms buf Hms E Hb.
  - destruct Hb as [Hb| ->]; [done|]. symmetry in E. by apply stream_end in E as ->.
  - cbn [feed]. change (mjoin (c :: cs)) with (c ++ mjoin cs) in E. rewrite app_assoc in E.
    destruct (frames_loop_stream (S (length (buf ++ c))) ms (buf ++ c) (mjoin cs) Hms E)
      as (ms1 & ms2 & b & -> & Ef & Eb & Lb); [lia|].
    unfold frames. rewrite Ef. apply Forall_app in Hms as [_ Hms2].
    rewrite (IH ms2 b Hms2 Eb); [by rewrite fmap_app|].
    destruct cs; [right | by left]. change (mjoin []) with (@nil ascii) in Eb.
    rewrite app_nil_r in Eb. subst b. destruct ms2 as [|m ms2]; [done|].
    change (mjoin (wire_request <$> m :: ms2))
      with (wire_request m ++ mjoin (wire_request <$> ms2)) in Lb.
    rewrite length_app in Lb. lia.
Qed.

(** ** Properties *)

(** C19: however TCP cuts a keep-alive stream of well-formed requests into read
    events, pipelined or byte by byte, the connection cuts off exactly the
    requests that were sent, in order, and its buffer ends empty. *)
Theorem framing_chunk_independent ms chunks :
  Forall wf_request ms -> mjoin chunks = mjoin (wire_request <$> ms) ->
  feed [] chunks = Some (wire_request <$> ms, []).
Proof. intros Hms E. apply feed_stream; auto. Qed.

Lemma framing_chunk_independent_witness :
  let m1 := ([bs "POST /login HTTP/1.1"; bs "Content-Length: 5"], bs "a" ++ CRLF2) in
  let m2 := ([bs "GET / HTTP/1.1"], bs "") in
  feed [] ((fun c => [c]) <$> wire_request m1 ++ wire_request m2) =
  Some ([wire_request m1; wire_request m2], []).
Proof.
  intros m1 m2. apply (framing_chunk_independent [m1; m2]); [by_decide|].
  vm_compute. reflexivity.
Defined.

(** A request cut off the buffer is its header block, the blank line and
    exactly as many body bytes as Content-Length announces; the sum of lengths
    never wraps, the body respects the limit, nothing of the buffer is lost,
    and the buffer shrinks by at least the blank line, so the loop ends. *)
Theorem frame_sound buf r hd rest :
  str_size buf <= LONG_MAX -> frame buf = Framed r hd rest ->
  buf = r ++ rest /\
  (exists body, r = hd ++ CRLF2 ++ body /\ str_size body = requestContentLength hd /\
                str_size body <= kMaxBodyBytes) /\
  (length rest + 4 <= length buf)%nat.
Proof.
  intros Hs E. pose proof (frame_progress _ _ _ _ Hs E).
  destruct (frame_Framed _ _ _ _ Hs E) as (? & body & ? & ? & ? & ?). eauto 10.
Qed.

Lemma frame_sound_witness :
  let r := wire_request ([bs "POST / HTTP/1.1"; bs "Content-Length: 2"], bs "hi") in
  frame (r ++ bs "GET") =
    Framed r (header_block [bs "POST / HTTP/1.1"; bs "Content-Length: 2"]) (bs "GET") /\
  (length (bs "GET") + 4 <= length (r ++ bs "GET"))%nat.
Proof.
  intros r. split; [by vm_compute|].
  eapply (frame_sound (r ++ bs "GET") r); [by vm_compute | by vm_compute].
Defined.

(** The header limit is only applied to a block that has not ended yet: a
    complete header block of any size, also above the 16 KiB limit, is accepted
    when its blank line has already arrived. *)
Theorem header_limit_bypassed ls s :
  ls <> [] -> Forall wf_line ls -> requestContentLength (header_block ls) = 0 ->
  str_size (header_block ls) < 2 ^ 62 ->
  frame (message ls [] ++ s) = Framed (message ls []) (header_block ls) s.
Proof.
  intros Hne Hwf Hcl Hlen. destruct (message_split ls s Hne Hwf) as (F & T & _).
  assert (message ls [] ++ s = message ls s) as E.
  { unfold message. by rewrite <- !app_assoc. }
  unfold frame. rewrite E, F. unfold substr. rewrite drop_0, T, Hcl. simpl.
  unfold to_size_t, str_size in *. rewrite wrap_u_small by lia.
  assert (Z.of_nat (length (message ls [])) = Z.of_nat (length (header_block ls)) + 4 + 0) as L.
  { unfold message. rewrite !length_app. simpl. lia. }
  rewrite <- L, <- E. rewrite length_app. destruct (_ <? _) eqn:B; [bool_lia|].
  by rewrite Nat2Z.id, take_app_length, drop_app_length.
Qed.

Lemma header_limit_bypassed_witness :
  let ls := [bs "GET / HTTP/1.1"; bs "X-Pad: " ++ repeat "a"%char (Z.to_nat 17000)] in
  frame (message ls []) = Framed (message ls []) (header_block ls) [] /\
  str_size (header_block ls) > kMaxHeaderBytes.
Proof.
  intros ls. split; [|by vm_compute].
  rewrite <- (app_nil_r (message ls [])) at 1.
  apply header_limit_bypassed; [done | by_decide | by vm_compute | by vm_compute].
Defined.
