(* ===== verification/Connection.v ===== *)
(** * Connection on its reactor thread (src/Connection.cpp, Connection.h)

    The state of one [Connection] and every member function that runs on the
    reactor thread: the read path ([handleMessage], [processRequests]), the
    write path ([sendResponse], [sendFile], [writeFromBuffer], [handleWrite])
    and the first half of the database handlers, up to [dbPool_->add].

    Calls to the operating system are answered by scripts in the world: the
    list of what successive [read], [write] and [sendfile] calls return. A
    [write] or [sendfile] past the end of its script is accepted in full, a
    [read] past its end would block. Every finite run of the program's loops is
    the run on some script, and on every script every loop ends.

    [w_conn = None] is the state after [deleteConnectionCallback_] destroyed the
    object. Reading or writing a member then is undefined behaviour, and the
    result of the computation is [UseAfterFree]. *)

From S2P Require Import Prelude CppString Config Http Json Channel Framing.

(** ** System calls *)

(** What one [write] or [sendfile] call does: take at most [n] bytes, or fail
    with an error number. *)
Inductive io_ret : Type := Accept (n : nat) | Errno (e : Z).

(** What one [read] call does: deliver bytes (none is end of file), or fail. *)
Inductive read_ret : Type := Data (d : bytes) | ReadErrno (e : Z).

(** How a write loop was left. *)
Inductive outcome : Type := Drained | WouldBlock | Failed.

#[export] Instance outcome_eq_dec : EqDecision outcome.
Proof. solve_decision. Defined.

(** [while (written < total) { n = write(fd, data + written, total - written);
    ... }]: the loop of [writeFromBuffer] (over its buffer and over the file)
    and of [sendHttpResponse]. The result is the unread script, the bytes
    written in all and the branch that left the loop. *)
Fixpoint write_loop (script : list io_ret) (total written : nat) : list io_ret * nat * outcome :=
  if decide (written < total)%nat then
    match script with
    | [] => ([], total, Drained)
    | Accept n :: script' =>
        let n := Nat.min n (total - written) in
        if decide (0 < n)%nat then write_loop script' total (written + n)%nat
        else (script', written, Failed)
    | Errno e :: script' =>
        if e =? EINTR then write_loop script' total written
        else if (e =? EAGAIN) || (e =? EWOULDBLOCK) then (script', written, WouldBlock)
        else (script', written, Failed)
    end
  else (script, written, Drained).

(** The read loop of [handleMessage], which appends to the input buffer what
    each [read] into its 4096-byte array returns; [Failed] stands for end of
    file and hard errors. *)
Fixpoint read_loop (script : list read_ret) (inputBuffer : bytes) : list read_ret * bytes * outcome :=
  match script with
  | [] => ([], inputBuffer, Drained)
  | Data d :: script' =>
      let d := take 4096 d in
      if decide (0 < length d)%nat then read_loop script' (inputBuffer ++ d)
      else (script', inputBuffer, Failed)
  | ReadErrno e :: script' =>
      if e =? EINTR then read_loop script' inputBuffer
      else if (e =? EAGAIN) || (e =? EWOULDBLOCK) then (script', inputBuffer, Drained)
      else (script', inputBuffer, Failed)
  end.

(** ** State *)

Record Conn : Type := mkConn {
  c_fd : Z;                    (* sock_->getFd() *)
  c_chan : Channel;
  c_writeBuf : bytes;
  c_writeIndex : nat;
  c_inputBuffer : bytes;
  c_closeAfterWrite : bool;
  c_lastActiveSec : Z;
  c_fileFd : Z;
  c_fileOffset : Z;
  c_fileRemaining : nat
}.

Definition upd_chan ch c := mkConn (c_fd c) ch (c_writeBuf c) (c_writeIndex c) (c_inputBuffer c)
  (c_closeAfterWrite c) (c_lastActiveSec c) (c_fileFd c) (c_fileOffset c) (c_fileRemaining c).
Definition upd_write buf idx c := mkConn (c_fd c) (c_chan c) buf idx (c_inputBuffer c)
  (c_closeAfterWrite c) (c_lastActiveSec c) (c_fileFd c) (c_fileOffset c) (c_fileRemaining c).
Definition upd_input b c := mkConn (c_fd c) (c_chan c) (c_writeBuf c) (c_writeIndex c) b
  (c_closeAfterWrite c) (c_lastActiveSec c) (c_fileFd c) (c_fileOffset c) (c_fileRemaining c).
Definition upd_close b c := mkConn (c_fd c) (c_chan c) (c_writeBuf c) (c_writeIndex c) (c_inputBuffer c)
  b (c_lastActiveSec c) (c_fileFd c) (c_fileOffset c) (c_fileRemaining c).
Definition upd_active t c := mkConn (c_fd c) (c_chan c) (c_writeBuf c) (c_writeIndex c) (c_inputBuffer c)
  (c_closeAfterWrite c) t (c_fileFd c) (c_fileOffset c) (c_fileRemaining c).
Definition upd_file fd off rem c := mkConn (c_fd c) (c_chan c) (c_writeBuf c) (c_writeIndex c)
  (c_inputBuffer c) (c_closeAfterWrite c) (c_lastActiveSec c) fd off rem.

(** The closures submitted to the database pool, by handler and capture. *)
Inductive db_task : Type :=
| TaskRegister (fd : Z) (keepAlive : bool) (username password : bytes)
| TaskLogin (fd : Z) (keepAlive : bool) (username password : bytes)
| TaskProfile (fd : Z) (keepAlive : bool) (token : bytes)
| TaskLogout (fd : Z) (keepAlive : bool) (token : bytes).

(** The descriptor and the keep-alive flag a closure captured. *)
Definition task_fd (t : db_task) : Z :=
  match t with TaskRegister fd _ _ _ | TaskLogin fd _ _ _ | TaskProfile fd _ _ | TaskLogout fd _ _ => fd end.
Definition task_keepAlive (t : db_task) : bool :=
  match t with TaskRegister _ ka _ _ | TaskLogin _ ka _ _ | TaskProfile _ ka _ | TaskLogout _ ka _ => ka end.

(** What the outside sees, in order. *)
Inductive event : Type :=
| Sent (fd : Z) (data : bytes)
| SentFile (fd filefd offset : Z) (n : nat)
| Ctl (op : ctl_op) (fd mask : Z)
| Deleted (fd : Z)
| Submitted (t : db_task).

Inductive res (A : Type) : Type :=
| Ret (a : A)
| UseAfterFree
| NoFuel.
Arguments Ret {A} a.
Arguments UseAfterFree {A}.
Arguments NoFuel {A}.

Record World (K : Type) : Type := mkWorld {
  w_conn : option Conn;
  w_kern : K;
  w_reads : list read_ret;
  w_writes : list io_ret;
  w_sends : list io_ret;
  w_clock : list Z;            (* what successive time() calls return *)
  w_window : Z;                (* allowRequest: windowSec *)
  w_count : Z;                 (* allowRequest: count *)
  w_static : option (Z * Z);   (* getStaticFd: once flag, fd and size *)
  w_trace : list event
}.
Arguments mkWorld {K}.
Arguments w_conn {K}. Arguments w_kern {K}. Arguments w_reads {K}. Arguments w_writes {K}.
Arguments w_sends {K}. Arguments w_clock {K}. Arguments w_window {K}. Arguments w_count {K}.
Arguments w_static {K}. Arguments w_trace {K}.

(** ** The reactor monad *)

Declare Scope reactor_scope.
Delimit Scope reactor_scope with reactor.

Section Monad.
Context {K : Type}.

Definition M (A : Type) : Type := World K -> World K * res A.

Definition ret {A} (a : A) : M A := fun w => (w, Ret a).

Definition bind {A B} (m : M A) (f : A -> M B) : M B := fun w =>
  match m w with
  | (w', Ret a) => f a w'
  | (w', UseAfterFree) => (w', UseAfterFree)
  | (w', NoFuel) => (w', NoFuel)
  end.

Definition set_conn c (w : World K) := mkWorld c (w_kern w) (w_reads w) (w_writes w) (w_sends w)
  (w_clock w) (w_window w) (w_count w) (w_static w) (w_trace w).
Definition set_kern (k : K) (w : World K) := mkWorld (w_conn w) k (w_reads w) (w_writes w) (w_sends w)
  (w_clock w) (w_window w) (w_count w) (w_static w) (w_trace w).
Definition set_reads s (w : World K) := mkWorld (w_conn w) (w_kern w) s (w_writes w) (w_sends w)
  (w_clock w) (w_window w) (w_count w) (w_static w) (w_trace w).
Definition set_writes s (w : World K) := mkWorld (w_conn w) (w_kern w) (w_reads w) s (w_sends w)
  (w_clock w) (w_window w) (w_count w) (w_static w) (w_trace w).
Definition set_sends s (w : World K) := mkWorld (w_conn w) (w_kern w) (w_reads w) (w_writes w) s
  (w_clock w) (w_window w) (w_count w) (w_static w) (w_trace w).
Definition set_clock s (w : World K) := mkWorld (w_conn w) (w_kern w) (w_reads w) (w_writes w)
  (w_sends w) s (w_window w) (w_count w) (w_static w) (w_trace w).
Definition set_limiter win n (w : World K) := mkWorld (w_conn w) (w_kern w) (w_reads w) (w_writes w)
  (w_sends w) (w_clock w) win n (w_static w) (w_trace w).
Definition set_static s (w : World K) := mkWorld (w_conn w) (w_kern w) (w_reads w) (w_writes w)
  (w_sends w) (w_clock w) (w_window w) (w_count w) s (w_trace w).
Definition add_trace es (w : World K) := mkWorld (w_conn w) (w_kern w) (w_reads w) (w_writes w)
  (w_sends w) (w_clock w) (w_window w) (w_count w) (w_static w) (w_trace w ++ es).

Definition modify (f : World K -> World K) : M unit := fun w => (f w, Ret tt).
Definition gets {A} (f : World K -> A) : M A := fun w => (w, Ret (f w)).

(** Access to [this]. *)
Definition get_conn : M Conn := fun w =>
  match w_conn w with Some c => (w, Ret c) | None => (w, UseAfterFree) end.
Definition put_conn (c : Conn) : M unit := fun w =>
  match w_conn w with Some _ => (set_conn (Some c) w, Ret tt) | None => (w, UseAfterFree) end.

Definition emit (es : list event) : M unit := modify (add_trace es).

(** [time(nullptr)]; the last answer repeats. *)
Definition time : M Z := fun w =>
  match w_clock w with
  | [] => (w, Ret 0)
  | [t] => (w, Ret t)
  | t :: ts => (set_clock ts w, Ret t)
  end.

Lemma bind_ret_eq {A B} (m : M A) (f : A -> M B) w w' a :
  m w = (w', Ret a) -> bind m f w = f a w'.
Proof. intros E. unfold bind. by rewrite E. Qed.

Lemma get_conn_some w c : w_conn w = Some c -> get_conn w = (w, Ret c).
Proof. intros E. unfold get_conn. by rewrite E. Qed.

Lemma put_conn_some w c c' : w_conn w = Some c -> put_conn c' w = (set_conn (Some c') w, Ret tt).
Proof. intros E. unfold put_conn. by rewrite E. Qed.

End Monad.

(** Run the first action of a sequence when its result is known. *)
Ltac mstep :=
  match goal with
  | |- context [bind ?m ?f ?w] =>
      erewrite (bind_ret_eq m f w)
        by (first [ eassumption | eapply get_conn_some; first [eassumption | reflexivity]
                  | eapply put_conn_some; first [eassumption | reflexivity] | reflexivity ])
  end; cbv beta.

Arguments M K A : clear implicits.

Notation "x <- m ;; k" := (bind m (fun x => k))
  (at level 100, m at next level, right associativity) : reactor_scope.
Notation "m ;; k" := (bind m (fun _ => k))
  (at level 100, right associativity) : reactor_scope.

(** ** Operations *)

Section Reactor.
Context {K : Type} `{EpollKernel K}.

(** The environment of the process and the file system, as far as
    [getStaticFd] asks: what [open(path, O_RDONLY)] returns, and whether
    [fstat] succeeds, with the kind of the file and its size. *)
Context (env : environment) (fs_open : bytes -> Z) (fs_fstat : Z -> option (bool * Z)).

Local Open Scope reactor_scope.

(** [deleteConnectionCallback_(fd)], which is [Server::deleteConnection]: the
    entry of the connection table is erased and [this] destroyed with it. *)
Definition deleteConnectionCallback (fd : Z) : M K unit :=
  _ <- get_conn ;;
  emit [Deleted fd] ;;
  modify (set_conn None).

Definition on_channel (op : K -> Channel -> K * Channel * list (ctl_op * Z * Z)) : M K unit :=
  c <- get_conn ;;
  k <- gets w_kern ;;
  let '(k', ch', calls) := op k (c_chan c) in
  modify (set_kern k') ;;
  emit ((fun '(o, fd, m) => Ctl o fd m) <$> calls) ;;
  put_conn (upd_chan ch' c).

(** Bytes the kernel took, if it took any. *)
Definition sent_event (fd : Z) (data : bytes) : list event :=
  match data with [] => [] | _ => [Sent fd data] end.
Definition sentfile_event (fd filefd off : Z) (n : nat) : list event :=
  match n with O => [] | _ => [SentFile fd filefd off n] end.

(** *** Write path *)

(** [writeFromBuffer], step 3: everything was sent. *)
Definition write_done (fd : Z) : M K unit :=
  c <- get_conn ;;
  put_conn (upd_write [] 0 (upd_file (-1) (c_fileOffset c) (c_fileRemaining c) c)) ;;
  on_channel disableWriting ;;
  c <- get_conn ;;
  if c_closeAfterWrite c then deleteConnectionCallback fd else ret tt.

(** Step 2: the zero-copy file body, if any. *)
Definition write_file (fd : Z) : M K unit :=
  c <- get_conn ;;
  sends <- gets w_sends ;;
  let '(sends', n, o) :=
    if 0 <=? c_fileFd c then write_loop sends (c_fileRemaining c) 0 else (sends, 0%nat, Drained) in
  modify (set_sends sends') ;;
  emit (sentfile_event fd (c_fileFd c) (c_fileOffset c) n) ;;
  put_conn (upd_file (c_fileFd c) (c_fileOffset c + Z.of_nat n) (c_fileRemaining c - n)%nat c) ;;
  match o with
  | WouldBlock => on_channel enableWriting
  | Failed => deleteConnectionCallback fd
  | Drained => write_done fd
  end.

(** Step 1: the header/body byte buffer; then the file. *)
Definition writeFromBuffer : M K unit :=
  c <- get_conn ;;
  let fd := c_fd c in
  script <- gets w_writes ;;
  let '(script', idx, o) := write_loop script (length (c_writeBuf c)) (c_writeIndex c) in
  modify (set_writes script') ;;
  emit (sent_event fd (substr (c_writeBuf c) (c_writeIndex c) (idx - c_writeIndex c))) ;;
  put_conn (upd_write (c_writeBuf c) idx c) ;;
  match o with
  | WouldBlock => on_channel enableWriting
  | Failed => deleteConnectionCallback fd
  | Drained => write_file fd
  end.

Definition handleWrite : M K unit :=
  c <- get_conn ;;
  if bool_decide (c_writeIndex c < length (c_writeBuf c))%nat ||
     ((0 <=? c_fileFd c) && bool_decide (0 < c_fileRemaining c)%nat)
  then writeFromBuffer
  else on_channel disableWriting.

Definition sendResponse (statusCode : Z) (contentType body : bytes) (keepAlive : bool) : M K unit :=
  c <- get_conn ;;
  put_conn (upd_close (negb keepAlive)
              (upd_write (buildHttpResponse statusCode contentType body keepAlive) 0 c)) ;;
  writeFromBuffer.

(** The descriptor and the size of the static file, opened once per process. *)
Definition open_static (path : bytes) : Z * Z :=
  let fd := fs_open path in
  if 0 <=? fd
  then match fs_fstat fd with
       | Some (true, size) => (fd, size)
       | _ => (-1, 0)
       end
  else (fd, 0).

Definition getStaticFd (path : bytes) : M K (bool * Z * Z) :=
  cached <- gets w_static ;;
  opened <- match cached with
            | Some fs => ret fs
            | None => modify (set_static (Some (open_static path))) ;; ret (open_static path)
            end ;;
  let '(fd, size) := opened in
  ret (0 <=? fd, fd, size).

(** The header block [sendFile] puts before the file. *)
Definition fileHeader (statusCode : Z) (contentType : bytes) (size : Z) (keepAlive : bool) : bytes :=
  bs "HTTP/1.1 " ++ to_string statusCode ++ bs " OK" ++ CRLF ++
  bs "Content-Type: " ++ contentType ++ CRLF ++
  bs "Content-Length: " ++ to_string size ++ CRLF ++
  bs "Connection: " ++ connection_value keepAlive ++ CRLF2.

Definition sendFile (statusCode : Z) (contentType path : bytes) (keepAlive : bool) : M K bool :=
  static <- getStaticFd path ;;
  let '(found, fd, size) := static in
  if negb found then ret false
  else
    c <- get_conn ;;
    put_conn (upd_file fd 0 (Z.to_nat size) (upd_close (negb keepAlive)
      (upd_write (fileHeader statusCode contentType size keepAlive) 0 c))) ;;
    writeFromBuffer ;;
    ret true.

(** *** Direct writes (static member functions) *)

Definition sendHttpResponse (fd statusCode : Z) (contentType body : bytes) (keepAlive : bool) : M K unit :=
  let response := buildHttpResponse statusCode contentType body keepAlive in
  script <- gets w_writes ;;
  let '(script', written, _) := write_loop script (length response) 0 in
  modify (set_writes script') ;;
  emit (sent_event fd (take written response)).

Definition sendJson (fd statusCode : Z) (body : bytes) (keepAlive : bool) : M K unit :=
  sendHttpResponse fd statusCode (bs "application/json") body keepAlive.

(** The literal [{"key":"text"}]. *)
Definition json1 (key text : string) : bytes :=
  bs "{" ++ quoted (bs key) ++ bs ":" ++ quoted (bs text) ++ bs "}".

Definition checkCredentials (fd : Z) (keepAlive : bool) (username password : bytes) : M K bool :=
  if bool_decide (username = []) || bool_decide (password = []) then
    sendJson fd 400 (json1 "error" "missing username or password") keepAlive ;;
    ret false
  else if (str_size username >? kMaxUsernameLen) || (str_size password >? kMaxPasswordLen) then
    sendJson fd 400 (json1 "error" "username or password too long") keepAlive ;;
    ret false
  else ret true.

(** *** Database handlers, reactor part *)

(** [dbPool_->add(task)]. *)
Definition submit (t : db_task) : M K unit := _ <- get_conn ;; emit [Submitted t].

Definition handleRegister (request : bytes) (fd : Z) (keepAlive : bool) : M K unit :=
  let body := parseBody request in
  let username := getJsonValue body (bs "username") in
  let password := getJsonValue body (bs "password") in
  ok <- checkCredentials fd keepAlive username password ;;
  if negb ok then ret tt else submit (TaskRegister fd keepAlive username password).

Definition handleLogin (request : bytes) (fd : Z) (keepAlive : bool) : M K unit :=
  let body := parseBody request in
  let username := getJsonValue body (bs "username") in
  let password := getJsonValue body (bs "password") in
  ok <- checkCredentials fd keepAlive username password ;;
  if negb ok then ret tt else submit (TaskLogin fd keepAlive username password).

Definition handleProfile (request : bytes) (fd : Z) (keepAlive : bool) : M K unit :=
  let token := parseBearerToken request in
  if bool_decide (token = []) then sendJson fd 401 (json1 "error" "missing token") keepAlive
  else submit (TaskProfile fd keepAlive token).

Definition handleLogout (request : bytes) (fd : Z) (keepAlive : bool) : M K unit :=
  let token := parseBearerToken request in
  if bool_decide (token = []) then sendJson fd 401 (json1 "error" "missing token") keepAlive
  else submit (TaskLogout fd keepAlive token).

(** *** Rate limiter *)

(** [allowRequest] for a configured limit. *)
Definition allowRequest_limit (limit : Z) : M K bool :=
  if limit <=? 0 then ret true
  else
    now <- time ;;
    win <- gets w_window ;;
    (if negb (win =? now) then modify (set_limiter now 0) else ret tt) ;;
    n <- gets w_count ;;
    win <- gets w_window ;;
    modify (set_limiter win (to_int (n + 1))) ;;
    ret (n <? limit).

Definition allowRequest : M K bool := allowRequest_limit kRateLimitQps.

(** *** Read path *)

Inductive db_handler : Type := HRegister | HLogin | HLogout | HProfile.

(** The member function [dbHandler] points to; [None] is [nullptr]. *)
Definition dbHandler (method url : bytes) : option db_handler :=
  if bool_decide (method = bs "POST") && bool_decide (url = bs "/register") then Some HRegister
  else if bool_decide (method = bs "POST") && bool_decide (url = bs "/login") then Some HLogin
  else if bool_decide (method = bs "POST") && bool_decide (url = bs "/logout") then Some HLogout
  else if bool_decide (method = bs "GET") && bool_decide (url = bs "/profile") then Some HProfile
  else None.

Definition run_handler (h : db_handler) : bytes -> Z -> bool -> M K unit :=
  match h with
  | HRegister => handleRegister
  | HLogin => handleLogin
  | HLogout => handleLogout
  | HProfile => handleProfile
  end.

Definition index_path : bytes := staticDir env ++ bs "/index.html".

(** The loop of [processRequests]. One turn needs one unit of fuel; every turn
    that goes on has removed a request from the buffer. *)
Fixpoint processRequests_loop (fuel : nat) (fd : Z) : M K unit :=
  match fuel with
  | O => fun w => (w, NoFuel)
  | S f =>
      c <- get_conn ;;
      match frame (c_inputBuffer c) with
      | NeedMore => ret tt
      | HeaderTooLarge =>
          put_conn (upd_input [] c) ;;
          sendResponse 400 (bs "application/json") (json1 "error" "request header too large") false
      | BodyTooLarge =>
          put_conn (upd_input [] c) ;;
          sendResponse 413 (bs "application/json") (json1 "error" "request body too large") false
      | Framed request headers rest =>
          put_conn (upd_input rest c) ;;
          let keepAlive := wantKeepAlive request headers in
          let method := parseMethod request in
          let url := parseUrl request in
          let next := if negb keepAlive then ret tt else processRequests_loop f fd in
          allowed <- allowRequest ;;
          if negb allowed then
            sendResponse 429 (bs "application/json") (json1 "error" "too many requests") keepAlive ;;
            next
          else
            match dbHandler method url with
            | Some h => run_handler h request fd keepAlive ;; next
            | None =>
                sent <- (if bool_decide (url = bs "/")
                         then sendFile 200 (bs "text/html") index_path keepAlive
                         else ret false) ;;
                if sent : bool then next
                else
                  let rbody := getResponse url in
                  let statusCode :=
                    if bool_decide (url = bs "/") || bool_decide (url = bs "/hello") then 200 else 404 in
                  sendResponse statusCode (bs "text/html") rbody keepAlive ;;
                  next
            end
      end
  end.

Definition processRequests (fd : Z) : M K unit :=
  c <- get_conn ;; processRequests_loop (S (length (c_inputBuffer c))) fd.

Definition handleMessage : M K unit :=
  c <- get_conn ;;
  let sockfd := c_fd c in
  now <- time ;;
  script <- gets w_reads ;;
  let '(script', b, o) := read_loop script (c_inputBuffer c) in
  modify (set_reads script') ;;
  put_conn (upd_input b (upd_active now c)) ;;
  match o with
  | Drained => processRequests sockfd
  | _ => deleteConnectionCallback sockfd
  end.

(** [Channel::handleEvent] on the connection's channel. *)
Definition dispatch (revents : Z) : M K unit :=
  c <- get_conn ;;
  let ch := setRevents revents (c_chan c) in
  put_conn (upd_chan ch c) ;;
  match handleEvent ch with
  | Some handleMessage_cb => handleMessage
  | Some handleWrite_cb => handleWrite
  | _ => ret tt
  end.

(** The constructor, from the accepted descriptor: callbacks first, then the
    registration with the loop's epoll. *)
Definition new_Connection (ptr : nat) (fd : Z) : M K unit :=
  now <- time ;;
  let ch := setWriteCallback handleWrite_cb (setCallback handleMessage_cb (new_Channel ptr fd)) in
  modify (set_conn (Some (mkConn fd ch [] 0 [] false now (-1) 0 0))) ;;
  on_channel enableReadingET.

End Reactor.
