(* ===== verification/WritePath.v ===== *)
(** * The write path of a connection (src/Connection.cpp)

    What [writeFromBuffer], [handleWrite], [sendResponse] and [sendFile] put on
    the wire. The abstract state of the path is [pending]: the sequence of
    bytes and file positions still owed to the peer. Each call moves a prefix of
    it to the wire, and the rest is either owed with EPOLLOUT armed, or the
    connection is gone. *)

From stdpp Require Import list_numbers.
From S2P Require Import Prelude CppString Config Http Json Channel Framing Connection.

(** ** The abstract output stream *)

(** One unit of output: a byte of the write buffer, or the byte at an offset of
    an open file. *)
Inductive out_item : Type := OByte (c : ascii) | OFile (fd off : Z).

Definition file_items (fd off : Z) (n : nat) : list out_item := OFile fd <$> seqZ off (Z.of_nat n).

Definition items (e : event) : list out_item :=
  match e with
  | Sent _ d => OByte <$> d
  | SentFile _ f off n => file_items f off n
  | _ => []
  end.

(** What a trace put on the wire. *)
Definition wire (tr : list event) : list out_item := mjoin (items <$> tr).

(** The tasks a trace handed to the database pool. *)
Definition tasks_of (tr : list event) : list db_task :=
  omap (fun e => match e with Submitted t => Some t | _ => None end) tr.

Definition pending (c : Conn) : list out_item :=
  (OByte <$> drop (c_writeIndex c) (c_writeBuf c)) ++
  (if 0 <=? c_fileFd c then file_items (c_fileFd c) (c_fileOffset c) (c_fileRemaining c) else []).

(** ** Lemmas: the loops *)

Lemma wire_app a b : wire (a ++ b) = wire a ++ wire b.
Proof. unfold wire. by rewrite fmap_app, join_app. Qed.

Lemma tasks_app a b : tasks_of (a ++ b) = tasks_of a ++ tasks_of b.
Proof. apply omap_app. Qed.

Lemma wire_sent fd d : wire (sent_event fd d) = OByte <$> d.
Proof. destruct d; [done|]. unfold wire. simpl. by rewrite app_nil_r. Qed.

Lemma wire_sentfile fd f off n : wire (sentfile_event fd f off n) = file_items f off n.
Proof. destruct n; [done|]. unfold wire. cbn [sentfile_event fmap list_fmap]. simpl. by rewrite app_nil_r. Qed.

Lemma tasks_sent fd d : tasks_of (sent_event fd d) = [].
Proof. by destruct d. Qed.

Lemma tasks_sentfile fd f off n : tasks_of (sentfile_event fd f off n) = [].
Proof. by destruct n. Qed.

#[local] Hint Resolve tasks_sent tasks_sentfile : core.

Lemma wire_ctl cs : wire ((fun '(o, fd, m) => Ctl o fd m) <$> cs) = [].
Proof. induction cs as [|[[o fd] m] cs IH]; [done|]. unfold wire in *. by simpl. Qed.

Lemma file_items_split f off n m :
  file_items f off (n + m) = file_items f off n ++ file_items f (off + Z.of_nat n) m.
Proof. unfold file_items. rewrite Nat2Z.inj_add, seqZ_app by lia. by rewrite fmap_app. Qed.

Lemma file_items_nil f off n : file_items f off n = [] <-> n = 0%nat.
Proof.
  split; [|by intros ->]. intros E%(f_equal length).
  unfold file_items in E. rewrite length_fmap, length_seqZ in E. simpl in E. lia.
Qed.

(** A script on which no call fails hard: every answer takes something, is
    interrupted, or would block. *)
Definition benign (r : io_ret) : Prop :=
  match r with Accept n => (0 < n)%nat | Errno e => e = EINTR \/ e = EAGAIN end.

#[export] Instance benign_dec r : Decision (benign r).
Proof. destruct r; apply _. Defined.

(** A script on which no call would block either. *)
Definition steady (r : io_ret) : Prop :=
  match r with Accept n => (0 < n)%nat | Errno e => e = EINTR end.

#[export] Instance steady_dec r : Decision (steady r).
Proof. destruct r; apply _. Defined.

Lemma steady_benign r : steady r -> benign r.
Proof. destruct r; simpl; auto. Qed.

Lemma write_loop_spec s total written s' n o :
  (written <= total)%nat -> write_loop s total written = (s', n, o) ->
  (written <= n <= total)%nat /\ (o = Drained <-> n = total) /\
  (Forall benign s -> Forall benign s' /\ o <> Failed).
Proof.
  revert written. induction s as [|r s IH]; intros written Hle; cbn [write_loop].
  - case_decide; intros [= <- <- <-]; repeat split; auto; lia || done.
  - case_decide; [|intros [= <- <- <-]; repeat split; auto; lia || done].
    destruct r as [k|e].
    + case_decide.
      * intros E. apply IH in E as (? & ? & HB); [|lia]. split; [lia|]. split; [done|].
        intros [_ ?]%Forall_cons. auto.
      * intros [= <- <- <-]. split; [lia|]. split; [split; [done | lia]|].
        intros [B _]%Forall_cons. simpl in B. lia.
    + destruct (e =? EINTR) eqn:E1.
      * intros E. apply IH in E as (? & ? & HB); [|lia]. split; [lia|]. split; [done|].
        intros [_ ?]%Forall_cons. auto.
      * destruct (_ || _) eqn:E2; intros [= <- <- <-];
          (split; [lia|]); (split; [split; [done | lia]|]); intros [B ?]%Forall_cons; [done|].
        exfalso. simpl in B. unfold EWOULDBLOCK in *. bool_lia.
Qed.

Lemma write_loop_steady s total written s' n o :
  Forall steady s -> write_loop s total written = (s', n, o) -> Forall steady s' /\ o = Drained.
Proof.
  intros F. revert written. induction F as [|r s Hr Hs IH]; intros written; cbn [write_loop].
  - case_decide; by intros [= <- <- <-].
  - case_decide; [|intros [= <- <- <-]; auto]. destruct r as [k|e]; simpl in Hr.
    + rewrite decide_True by lia. apply IH.
    + rewrite Hr. apply IH.
Qed.

(** ** Lemmas: one step at a time *)

Section Write.
Context {K : Type} `{EpollKernel K}.

(** The invariant of a live connection: the write index is within the buffer
    and the channel is mounted for the socket with both callbacks set, with
    readability armed. *)
Record conn_ok (k : K) (c : Conn) : Prop := {
  ok_index : (c_writeIndex c <= length (c_writeBuf c))%nat;
  ok_fd : ch_fd (c_chan c) = c_fd c;
  ok_mounted : mounted k (c_chan c);
  ok_mask : ch_events (c_chan c) = read_mask \/ ch_events (c_chan c) = rw_mask;
  ok_read_cb : ch_callback (c_chan c) = Some handleMessage_cb;
  ok_write_cb : ch_writeCallback (c_chan c) = Some handleWrite_cb
}.

(** Two worlds that differ at most in the connection, the kernel table, the
    output scripts and the trace. *)
Definition same_rest (w w' : World K) : Prop :=
  w_reads w' = w_reads w /\ w_clock w' = w_clock w /\ w_window w' = w_window w /\
  w_count w' = w_count w /\ w_static w' = w_static w.

Lemma on_channel_enable w c :
  w_conn w = Some c -> conn_ok (w_kern w) c ->
  exists k', on_channel enableWriting w =
    (add_trace [Ctl EPOLL_CTL_MOD (c_fd c) rw_mask]
      (set_kern k' (set_conn (Some (upd_chan (set_events rw_mask (c_chan c)) c)) w)), Ret tt) /\
    mounted k' (set_events rw_mask (c_chan c)).
Proof.
  intros E [_ Hfd M Hm _ _].
  assert (Z.lor (ch_events (c_chan c)) EPOLLOUT = rw_mask) as Em by by destruct Hm as [-> | ->].
  destruct (enableWriting_mounted _ _ M) as (k' & Ek & M'). rewrite Em in *.
  exists k'. split; [|done].
  unfold on_channel, bind, get_conn, gets. rewrite E, Ek, Hfd. by destruct w; simpl in *; subst.
Qed.

Lemma on_channel_disable w c :
  w_conn w = Some c -> conn_ok (w_kern w) c ->
  exists k', on_channel disableWriting w =
    (add_trace [Ctl EPOLL_CTL_MOD (c_fd c) read_mask]
      (set_kern k' (set_conn (Some (upd_chan (set_events read_mask (c_chan c)) c)) w)), Ret tt) /\
    mounted k' (set_events read_mask (c_chan c)).
Proof.
  intros E [_ Hfd M Hm _ _].
  assert (Z.land (ch_events (c_chan c)) (mask_not EPOLLOUT) = read_mask) as Em by by destruct Hm as [-> | ->].
  destruct (disableWriting_mounted _ _ M) as (k' & Ek & M'). rewrite Em in *.
  exists k'. split; [|done].
  unfold on_channel, bind, get_conn, gets. rewrite E, Ek, Hfd. by destruct w; simpl in *; subst.
Qed.

(** Sending [n] more bytes of the buffer, or of the file, moves them from
    [pending] to the wire. *)
Lemma pending_buffer c i :
  (c_writeIndex c <= i <= length (c_writeBuf c))%nat ->
  pending c = (OByte <$> substr (c_writeBuf c) (c_writeIndex c) (i - c_writeIndex c)) ++
              pending (upd_write (c_writeBuf c) i c).
Proof.
  intros Hi. unfold pending, substr. simpl. rewrite app_assoc. f_equal.
  rewrite <- fmap_app. f_equal.
  rewrite <- (take_drop (i - c_writeIndex c) (drop (c_writeIndex c) (c_writeBuf c))) at 1.
  f_equal. rewrite drop_drop. f_equal. lia.
Qed.

Lemma pending_file c n :
  c_writeIndex c = length (c_writeBuf c) -> 0 <= c_fileFd c -> (n <= c_fileRemaining c)%nat ->
  pending c = file_items (c_fileFd c) (c_fileOffset c) n ++
    pending (upd_file (c_fileFd c) (c_fileOffset c + Z.of_nat n) (c_fileRemaining c - n) c).
Proof.
  intros Hi Hf Hn. unfold pending. simpl. rewrite drop_ge by lia. simpl.
  destruct (0 <=? c_fileFd c) eqn:E; [|bool_lia].
  rewrite <- file_items_split. f_equal. lia.
Qed.

Lemma pending_file_left c :
  0 <= c_fileFd c -> (0 < c_fileRemaining c)%nat -> pending c <> [].
Proof.
  intros Hf Hn E. apply app_eq_nil in E as [_ E].
  destruct (0 <=? c_fileFd c) eqn:B; [|bool_lia]. apply file_items_nil in E. lia.
Qed.

Lemma pending_buffer_left c :
  (c_writeIndex c < length (c_writeBuf c))%nat -> pending c <> [].
Proof.
  intros Hi E. apply app_eq_nil in E as [E _]. apply (f_equal length) in E.
  rewrite length_fmap, length_drop in E. simpl in E. lia.
Qed.

(** How a call to [writeFromBuffer] may leave the connection, when it has put
    the events [es] on the trace. *)
Definition write_post (c : Conn) (w' : World K) (es : list event) : Prop :=
  match w_conn w' with
  | Some c' =>
      conn_ok (w_kern w') c' /\ pending c = wire es ++ pending c' /\
      c_fd c' = c_fd c /\ c_inputBuffer c' = c_inputBuffer c /\
      c_lastActiveSec c' = c_lastActiveSec c /\ c_closeAfterWrite c' = c_closeAfterWrite c /\
      last es = Some (Ctl EPOLL_CTL_MOD (c_fd c) (ch_events (c_chan c'))) /\
      ((pending c' = [] /\ ch_events (c_chan c') = read_mask /\ c_closeAfterWrite c = false) \/
       (pending c' <> [] /\ ch_events (c_chan c') = rw_mask))
  | None =>
      last es = Some (Deleted (c_fd c)) /\
      exists lost, pending c = wire es ++ lost /\ (lost = [] -> c_closeAfterWrite c = true)
  end.

Definition scripts_benign (w : World K) : Prop := Forall benign (w_writes w) /\ Forall benign (w_sends w).
Definition scripts_steady (w : World K) : Prop := Forall steady (w_writes w) /\ Forall steady (w_sends w).

Lemma steady_scripts_benign w : scripts_steady w -> scripts_benign w.
Proof. intros [? ?]. split; (eapply Forall_impl; [done | apply steady_benign]). Qed.

(** The three ways out of the write loops: blocked, failed, all sent. *)
Lemma exit_blocked w c es0 c0 :
  w_conn w = Some c -> conn_ok (w_kern w) c -> pending c <> [] ->
  pending c0 = wire es0 ++ pending c -> c_fd c = c_fd c0 -> c_inputBuffer c = c_inputBuffer c0 ->
  c_lastActiveSec c = c_lastActiveSec c0 -> c_closeAfterWrite c = c_closeAfterWrite c0 ->
  exists w' e, on_channel enableWriting w = (w', Ret tt) /\ w_trace w' = w_trace w ++ [e] /\
    tasks_of [e] = [] /\ same_rest w w' /\ w_writes w' = w_writes w /\ w_sends w' = w_sends w /\
    w_conn w' <> None /\ write_post c0 w' (es0 ++ [e]).
Proof.
  intros E Hok Hne Hp Hfd Hin Hact Hcl.
  destruct (on_channel_enable w c E Hok) as (k' & Eq & M'). rewrite Eq.
  do 2 eexists. do 7 (split; [done|]). unfold write_post. cbn [w_conn add_trace set_kern set_conn w_kern].
  destruct Hok. split; [constructor; auto|].
  rewrite wire_app, last_snoc, Hfd. unfold wire at 2. simpl. rewrite app_nil_r.
  repeat split; auto.
Qed.

Lemma exit_deleted w c es0 c0 :
  w_conn w = Some c -> pending c0 = wire es0 ++ pending c -> c_fd c = c_fd c0 ->
  (pending c = [] -> c_closeAfterWrite c0 = true) ->
  exists w' e, deleteConnectionCallback (c_fd c0) w = (w', Ret tt) /\ w_trace w' = w_trace w ++ [e] /\
    tasks_of [e] = [] /\ same_rest w w' /\ w_writes w' = w_writes w /\ w_sends w' = w_sends w /\
    w_conn w' = None /\ write_post c0 w' (es0 ++ [e]).
Proof.
  intros E Hp Hfd Hcl. unfold deleteConnectionCallback, bind, get_conn. rewrite E.
  do 2 eexists. do 7 (split; [done|]). unfold write_post. cbn [w_conn add_trace set_kern set_conn w_kern].
  rewrite wire_app, last_snoc. unfold wire at 2. simpl. rewrite app_nil_r. eauto.
Qed.

(** What [writeFromBuffer] and its steps promise, started from a state [c]
    reached from [c0] with [es0] on the wire; when [B] holds, no call fails
    hard, and when [U] holds, none blocks. *)
Definition write_goal (B U : Prop) (m : M K unit) (w : World K) (c0 : Conn) (es0 : list event) : Prop :=
  exists w' es, m w = (w', Ret tt) /\ w_trace w' = w_trace w ++ es /\
    tasks_of es = [] /\ same_rest w w' /\ write_post c0 w' (es0 ++ es) /\
    (B -> scripts_benign w' /\ (w_conn w' = None -> pending c0 = wire (es0 ++ es))) /\
    (U -> scripts_steady w' /\ match w_conn w' with Some c' => pending c' = [] | None => True end).

(** [c] is a later state of the connection [c0]: [es0] went out in between. *)
Definition reached (c0 c : Conn) (es0 : list event) : Prop :=
  pending c0 = wire es0 ++ pending c /\ c_fd c = c_fd c0 /\ c_inputBuffer c = c_inputBuffer c0 /\
  c_lastActiveSec c = c_lastActiveSec c0 /\ c_closeAfterWrite c = c_closeAfterWrite c0.

Lemma conn_ok_same k c c' :
  conn_ok k c -> c_chan c' = c_chan c -> c_fd c' = c_fd c ->
  (c_writeIndex c' <= length (c_writeBuf c'))%nat -> conn_ok k c'.
Proof. intros [] E F I. constructor; rewrite ?E, ?F; auto. Qed.

Lemma write_done_spec (B U : Prop) w c c0 es0 :
  w_conn w = Some c -> conn_ok (w_kern w) c -> reached c0 c es0 -> pending c = [] ->
  (B -> scripts_benign w) -> (U -> scripts_steady w) -> write_goal B U (write_done (c_fd c0)) w c0 es0.
Proof.
  intros E Hok (Hp & Hfd & Hin & Hact & Hcl) Hnil HB HU. unfold write_goal, write_done.
  do 2 mstep. set (c1 := upd_write [] 0 _). set (w1 := set_conn (Some c1) w).
  assert (w_conn w1 = Some c1) as E1 by done.
  assert (conn_ok (w_kern w1) c1) as Hok1 by (eapply conn_ok_same; [exact Hok | done | done | simpl; lia]).
  destruct (on_channel_disable w1 c1 E1 Hok1) as (k' & Eq & M').
  do 2 mstep.
  set (c2 := upd_chan _ c1). set (w2 := add_trace _ _).
  assert (pending c2 = []) as P2 by done. rewrite Hnil, app_nil_r in Hp.
  destruct (c_closeAfterWrite c2) eqn:Ecl.
  - assert (c_closeAfterWrite c0 = true) as Ecl0 by (rewrite <- Hcl; exact Ecl).
    destruct (exit_deleted w2 c2 (es0 ++ [Ctl EPOLL_CTL_MOD (c_fd c1) read_mask]) c0)
      as (w' & e & -> & T & Te & R & W1 & W2 & N & Post); [done | | done | done |].
    { rewrite P2, wire_app. unfold wire at 2. simpl. by rewrite !app_nil_r. }
    exists w', [Ctl EPOLL_CTL_MOD (c_fd c1) read_mask; e]. split; [done|].
    split; [rewrite T; unfold w2; simpl; by rewrite <- app_assoc|]. split; [exact Te|]. split; [done|].
    rewrite <- app_assoc in Post. split; [done|].
    unfold scripts_benign, scripts_steady. rewrite W1, W2, N. split; [|intros u; split; [by apply HU | done]].
    intros b. split; [by apply HB|]. intros _. rewrite Hp, wire_app.
    unfold write_post in Post. rewrite N in Post. unfold wire at 3.
    destruct Post as (L & _). change [_; e] with ([Ctl EPOLL_CTL_MOD (c_fd c1) read_mask] ++ [e]) in L.
    rewrite app_assoc, last_snoc in L. injection L as ->. simpl. by rewrite app_nil_r.
  - exists w2, [Ctl EPOLL_CTL_MOD (c_fd c1) read_mask]. split; [done|]. split; [done|].
    split; [done|]. split; [done|]. split.
    + unfold write_post. cbn [w_conn w2 add_trace set_kern set_conn w_kern].
      rewrite wire_app, last_snoc, P2, app_nil_r. unfold wire at 2. simpl. rewrite app_nil_r.
      split; [destruct Hok1; constructor; auto|].
      change (c_fd c1) with (c_fd c). rewrite Hfd.
      do 6 (split; [done|]). left. repeat split. by rewrite <- Hcl.
    + split; [intros b; split; [by apply HB | done] | intros u; split; [by apply HU | done]].
Qed.

Lemma same_rest_trans w1 w2 w3 : same_rest w1 w2 -> same_rest w2 w3 -> same_rest w1 w3.
Proof. unfold same_rest. intuition congruence. Qed.

(** Sequencing: some output, then a continuation that keeps the promise. *)
Lemma write_goal_step (B U : Prop) (m m' : M K unit) w w1 c0 es0 es1 :
  m w = m' w1 -> w_trace w1 = w_trace w ++ es1 -> tasks_of es1 = [] -> same_rest w w1 ->
  write_goal B U m' w1 c0 (es0 ++ es1) -> write_goal B U m w c0 es0.
Proof.
  intros Em T Tk R (w' & es & E & T' & Tk' & R' & P & B'). exists w', (es1 ++ es).
  rewrite Em. rewrite <- app_assoc in P, B'. split; [done|]. split; [by rewrite T', T, app_assoc|].
  split; [by rewrite tasks_app, Tk, Tk'|].
  split; [by eapply same_rest_trans|]. auto.
Qed.

Lemma goal_blocked (B U : Prop) w c c0 es0 :
  w_conn w = Some c -> conn_ok (w_kern w) c -> reached c0 c es0 -> pending c <> [] ->
  (B -> scripts_benign w) -> ~ U -> write_goal B U (on_channel enableWriting) w c0 es0.
Proof.
  intros E Hok (? & ? & ? & ? & ?) Hne HB HU.
  destruct (exit_blocked w c es0 c0) as (w' & e & Eq & T & Te & R & W1 & W2 & N & P); auto.
  exists w', [e]. split; [done|]. split; [done|]. split; [done|]. split; [done|]. split; [done|].
  unfold scripts_benign. rewrite W1, W2. split; [|done].
  intros b. split; [by apply HB | done].
Qed.

Lemma goal_failed (B U : Prop) w c c0 es0 :
  w_conn w = Some c -> reached c0 c es0 -> pending c <> [] -> ~ B -> ~ U ->
  write_goal B U (deleteConnectionCallback (c_fd c0)) w c0 es0.
Proof.
  intros E (? & ? & ? & ? & ?) Hne Hb HU.
  destruct (exit_deleted w c es0 c0) as (w' & e & Eq & T & Te & R & W1 & W2 & N & P); try done.
  exists w', [e]. split; [done|]. split; [done|]. split; [done|]. split; [done|]. split; [done|]. done.
Qed.

(** The first output of a step, and the promise the rest of it keeps. *)
Definition steps_to (B U : Prop) (m : M K unit) (w : World K) (c0 : Conn) (es0 es1 : list event) : Prop :=
  exists (m' : M K unit) w1, m w = m' w1 /\ w_trace w1 = w_trace w ++ es1 /\
    tasks_of es1 = [] /\ same_rest w w1 /\ write_goal B U m' w1 c0 (es0 ++ es1).

Lemma steps_to_goal B U m w c0 es0 es1 : steps_to B U m w c0 es0 es1 -> write_goal B U m w c0 es0.
Proof. intros (m' & w1 & ? & ? & ? & ? & ?). by eapply write_goal_step. Qed.

(** What step 2 sends of the file. *)
Definition file_loop (w : World K) (c : Conn) : list io_ret * nat * outcome :=
  if 0 <=? c_fileFd c then write_loop (w_sends w) (c_fileRemaining c) 0
  else (w_sends w, 0%nat, Drained).

Lemma write_file_step (B U : Prop) w c c0 es0 :
  w_conn w = Some c -> conn_ok (w_kern w) c -> reached c0 c es0 ->
  c_writeIndex c = length (c_writeBuf c) -> (B -> scripts_benign w) -> (U -> scripts_steady w) ->
  steps_to B U (write_file (c_fd c0)) w c0 es0
    (sentfile_event (c_fd c0) (c_fileFd c) (c_fileOffset c) (file_loop w c).1.2).
Proof.
  intros E Hok Hr Hi HB HU. destruct (file_loop w c) as [[sends' n] o] eqn:L. unfold file_loop in L. simpl fst. simpl snd.
  assert ((n <= c_fileRemaining c)%nat /\ (c_fileFd c < 0 -> n = 0%nat /\ o = Drained) /\
          (0 <= c_fileFd c -> o = Drained <-> n = c_fileRemaining c) /\
          (Forall benign (w_sends w) -> Forall benign sends' /\ o <> Failed) /\
          (Forall steady (w_sends w) -> Forall steady sends' /\ o = Drained)) as (Hn & Hneg & Ho & Hben & Hst).
  { destruct (0 <=? c_fileFd c) eqn:F; bool_lia.
    - pose proof (fun F => write_loop_steady _ _ _ _ _ _ F L) as Hst.
      apply write_loop_spec in L as (? & ? & ?); [|lia]. repeat split; auto; lia || tauto || apply Hst.
    - injection L as <- <- <-. repeat split; auto; lia || done. }
  set (c1 := upd_file (c_fileFd c) (c_fileOffset c + Z.of_nat n) (c_fileRemaining c - n) c).
  set (es1 := sentfile_event (c_fd c0) (c_fileFd c) (c_fileOffset c) n).
  set (w1 := set_conn (Some c1) (add_trace es1 (set_sends sends' w))).
  exists (match o with
    | WouldBlock => on_channel enableWriting
    | Failed => deleteConnectionCallback (c_fd c0)
    | Drained => write_done (c_fd c0) end), w1.
  split; [|split; [done|split; [by unfold es1; auto|split; [done|]]]].
  { unfold write_file. do 2 mstep. rewrite L. by do 3 mstep. }
  assert (conn_ok (w_kern w1) c1) as Hok1 by (by eapply conn_ok_same; [exact Hok | | | destruct Hok]).
  assert (pending c = wire es1 ++ pending c1) as Hp1.
  { unfold es1. rewrite wire_sentfile. destruct (Z.lt_ge_cases (c_fileFd c) 0) as [Hf|Hf].
    - destruct (Hneg Hf) as [-> _]. unfold pending. simpl.
      destruct (0 <=? c_fileFd c) eqn:F; [bool_lia | done].
    - by apply pending_file. }
  assert (reached c0 c1 (es0 ++ es1)) as Hr1.
  { destruct Hr as (Hp & ? & ? & ? & ?). unfold reached. rewrite wire_app, <- app_assoc, <- Hp1. auto. }
  assert (o <> Drained -> pending c1 <> []) as Hleft.
  { intros Hd. destruct (Z.lt_ge_cases (c_fileFd c) 0) as [Hf|Hf]; [by destruct (Hneg Hf)|].
    apply pending_file_left; [done|]. simpl. specialize (Ho Hf). destruct o; [done | |]; simpl in *;
      (assert (n <> c_fileRemaining c) by (intros X; by apply Ho in X)); lia. }
  assert (B -> scripts_benign w1) as HB1.
  { intros b. destruct (HB b) as [? ?]. split; [done|]. by apply Hben. }
  assert (U -> scripts_steady w1 /\ o = Drained) as HU1.
  { intros u. destruct (HU u) as [? Hs]. destruct (Hst Hs). by repeat split. }
  destruct o.
  - eapply write_done_spec; eauto; [|by intros u; destruct (HU1 u)]. unfold pending. simpl. rewrite drop_ge by (simpl; lia). simpl.
    destruct (0 <=? c_fileFd c) eqn:F; [|done]. bool_lia. apply file_items_nil.
    destruct (Ho F) as [Hd _]. specialize (Hd eq_refl). lia.
  - eapply goal_blocked; eauto. intros u. by destruct (HU1 u).
  - eapply goal_failed; eauto.
    + intros b. destruct (HB b) as [_ Hs]. by destruct (Hben Hs).
    + intros u. by destruct (HU1 u).
Qed.

Definition buffer_loop (w : World K) (c : Conn) : list io_ret * nat * outcome :=
  write_loop (w_writes w) (length (c_writeBuf c)) (c_writeIndex c).

Lemma writeFromBuffer_step w c :
  w_conn w = Some c -> conn_ok (w_kern w) c ->
  steps_to (scripts_benign w) (scripts_steady w) writeFromBuffer w c []
    (sent_event (c_fd c) (substr (c_writeBuf c) (c_writeIndex c) ((buffer_loop w c).1.2 - c_writeIndex c))).
Proof.
  intros E Hok. destruct (buffer_loop w c) as [[script' i] o] eqn:L. unfold buffer_loop in L. simpl fst. simpl snd.
  pose proof (fun F => write_loop_steady _ _ _ _ _ _ F L) as Hst.
  pose proof L as L'. apply write_loop_spec in L as (Hi & Ho & Hben); [|apply Hok].
  set (c1 := upd_write (c_writeBuf c) i c).
  set (es1 := sent_event (c_fd c) (substr (c_writeBuf c) (c_writeIndex c) (i - c_writeIndex c))).
  set (w1 := set_conn (Some c1) (add_trace es1 (set_writes script' w))).
  exists (match o with
    | WouldBlock => on_channel enableWriting
    | Failed => deleteConnectionCallback (c_fd c)
    | Drained => write_file (c_fd c) end), w1.
  split; [|split; [done|split; [by unfold es1; auto|split; [done|]]]].
  { unfold writeFromBuffer. do 2 mstep. rewrite L'. by do 3 mstep. }
  assert (conn_ok (w_kern w1) c1) as Hok1 by (eapply conn_ok_same; [exact Hok | done | done | simpl; lia]).
  assert (reached c c1 ([] ++ es1)) as Hr1.
  { unfold reached. simpl app. unfold es1. rewrite wire_sent. split; [by apply pending_buffer | auto]. }
  assert (o <> Drained -> pending c1 <> []) as Hleft.
  { intros Hd. apply pending_buffer_left. simpl. destruct o; [done | |];
      (assert (i <> length (c_writeBuf c)) by (intros X; by apply Ho in X)); lia. }
  assert (scripts_benign w -> scripts_benign w1) as HB1.
  { intros [? ?]. split; [by apply Hben | done]. }
  assert (scripts_steady w -> scripts_steady w1 /\ o = Drained) as HU1.
  { intros [Hs ?]. destruct (Hst Hs). by repeat split. }
  destruct o.
  - eapply steps_to_goal, write_file_step; eauto; [simpl; by apply Ho | by intros u; destruct (HU1 u)].
  - eapply goal_blocked; eauto. intros u. by destruct (HU1 u).
  - eapply goal_failed; eauto.
    + intros [Hs _]. by destruct (Hben Hs).
    + intros u. by destruct (HU1 u).
Qed.

(** The contract of [writeFromBuffer] on a live connection. *)
Lemma writeFromBuffer_spec w c :
  w_conn w = Some c -> conn_ok (w_kern w) c ->
  write_goal (scripts_benign w) (scripts_steady w) writeFromBuffer w c [].
Proof. intros E Hok. by eapply steps_to_goal, writeFromBuffer_step. Qed.

(** ** Progress *)

(** The socket takes something at once. *)
Definition ready (s : list io_ret) : Prop :=
  match s with [] => True | Accept n :: _ => (0 < n)%nat | Errno _ :: _ => False end.

#[export] Instance ready_dec s : Decision (ready s).
Proof. destruct s as [|[]]; apply _. Defined.

Lemma write_loop_ready s total written :
  ready s -> (written < total)%nat -> (written < (write_loop s total written).1.2)%nat.
Proof.
  intros R L. destruct s as [|[n|e] s]; simpl in R; cbn [write_loop]; rewrite ?decide_True by lia.
  - done.
  - destruct (write_loop s total (written + Nat.min n (total - written))) as [[s' i] o] eqn:W.
    apply write_loop_spec in W as (? & _); simpl; lia.
  - done.
Qed.

(** With the buffer empty, [writeFromBuffer] is its second step. *)
Lemma writeFromBuffer_file_only w c :
  w_conn w = Some c -> c_writeIndex c = length (c_writeBuf c) ->
  writeFromBuffer w = write_file (c_fd c) w.
Proof.
  intros E Hi. unfold writeFromBuffer. do 2 mstep.
  assert (write_loop (w_writes w) (length (c_writeBuf c)) (c_writeIndex c) =
          (w_writes w, c_writeIndex c, Drained)) as ->.
  { destruct (w_writes w); cbn [write_loop]; by rewrite decide_False by lia. }
  do 3 mstep. f_equal. rewrite Nat.sub_diag. unfold substr. rewrite take_0.
  destruct w, c; simpl in *. unfold set_conn, add_trace, set_writes, upd_write. simpl.
  by rewrite app_nil_r, E.
Qed.

Lemma steps_to_prefix B U m w c0 es0 es1 w' es :
  steps_to B U m w c0 es0 es1 -> m w = (w', Ret tt) -> w_trace w' = w_trace w ++ es ->
  exists es2, es = es1 ++ es2.
Proof.
  intros (m' & w1 & E & T & _ & _ & (w2 & es2 & E2 & T2 & _)) Em Tes.
  rewrite E, E2 in Em. injection Em as ->. exists es2. rewrite T2, T, <- app_assoc in Tes.
  by apply app_inv_head in Tes.
Qed.

Lemma writeFromBuffer_progress w c w' es :
  w_conn w = Some c -> conn_ok (w_kern w) c -> pending c <> [] ->
  ready (w_writes w) -> ready (w_sends w) ->
  writeFromBuffer w = (w', Ret tt) -> w_trace w' = w_trace w ++ es -> wire es <> [].
Proof.
  intros E Hok Hne Rw Rs Em T.
  destruct (Nat.lt_ge_cases (c_writeIndex c) (length (c_writeBuf c))) as [L|L].
  - destruct (steps_to_prefix _ _ _ _ _ _ _ _ _ (writeFromBuffer_step w c E Hok) Em T) as [es2 ->].
    rewrite wire_app, wire_sent. intros [X _]%app_eq_nil. apply (f_equal length) in X.
    pose proof (write_loop_ready (w_writes w) _ _ Rw L) as P. fold (buffer_loop w c) in P.
    unfold substr in X. rewrite length_fmap, length_take, length_drop in X. simpl in X. lia.
  - assert (c_writeIndex c = length (c_writeBuf c)) as Hi by (destruct Hok; lia).
    rewrite (writeFromBuffer_file_only w c E Hi) in Em.
    assert (reached c c []) as Hr by done.
    destruct (steps_to_prefix _ _ _ _ _ _ _ _ _
      (write_file_step False False w c c [] E Hok Hr Hi (fun b => False_rect _ b) (fun b => False_rect _ b)) Em T) as [es2 ->].
    rewrite wire_app, wire_sentfile. intros [X _]%app_eq_nil. apply file_items_nil in X.
    unfold pending in Hne. rewrite drop_ge in Hne by lia. simpl in Hne.
    unfold file_loop in X. destruct (0 <=? c_fileFd c) eqn:F; [|done].
    destruct (decide (c_fileRemaining c = 0%nat)) as [Z0|Z0]; [rewrite Z0 in Hne; done|].
    pose proof (write_loop_ready (w_sends w) (c_fileRemaining c) 0 Rs ltac:(lia)). lia.
Qed.

(** ** handleWrite, sendResponse, sendFile *)

(** The file part of the pending output, which a new response does not touch. *)
Definition file_pending (c : Conn) : list out_item :=
  if 0 <=? c_fileFd c then file_items (c_fileFd c) (c_fileOffset c) (c_fileRemaining c) else [].

Lemma pending_dec c :
  (bool_decide (c_writeIndex c < length (c_writeBuf c))%nat ||
   ((0 <=? c_fileFd c) && bool_decide (0 < c_fileRemaining c)%nat)) = false -> pending c = [].
Proof.
  intros B. apply orb_false_iff in B as [B1 B2]. apply bool_decide_eq_false in B1.
  unfold pending. rewrite drop_ge by lia. simpl.
  destruct (0 <=? c_fileFd c); [|done]. apply bool_decide_eq_false in B2.
  apply file_items_nil. lia.
Qed.

Lemma pending_none c :
  pending c = [] ->
  (bool_decide (c_writeIndex c < length (c_writeBuf c))%nat ||
   ((0 <=? c_fileFd c) && bool_decide (0 < c_fileRemaining c)%nat)) = false.
Proof.
  unfold pending. intros [P1 P2]%app_eq_nil. apply fmap_nil_inv in P1.
  assert (length (drop (c_writeIndex c) (c_writeBuf c)) = 0%nat) as L by (by rewrite P1).
  rewrite length_drop in L. rewrite bool_decide_false by lia. simpl.
  destruct (0 <=? c_fileFd c); [|done]. apply file_items_nil in P2. by rewrite bool_decide_false by lia.
Qed.

(** A writable event never touches freed memory, moves a prefix of the pending
    output to the wire, and ends by telling the kernel the new mask or by
    closing. *)
Lemma handleWrite_spec w c :
  w_conn w = Some c -> conn_ok (w_kern w) c -> (pending c = [] -> c_closeAfterWrite c = false) ->
  write_goal (scripts_benign w) (scripts_steady w) handleWrite w c [].
Proof.
  intros E Hok Hq. unfold write_goal, handleWrite. mstep.
  destruct (_ || _) eqn:B.
  - by apply writeFromBuffer_spec.
  - apply pending_dec in B.
    destruct (on_channel_disable w c E Hok) as (k' & -> & M').
    do 2 eexists. split; [done|]. split; [done|]. split; [done|]. split; [done|]. split; [|split; [done|]].
    2: { intros U. split; [done|]. exact B. }
    unfold write_post. cbn [w_conn add_trace set_kern set_conn w_kern].
    destruct Hok. split; [constructor; auto|]. rewrite B.
    change (pending (upd_chan _ c)) with (pending c). rewrite B.
    do 6 (split; [done|]). left. repeat split; auto.
Qed.

Lemma sendResponse_spec w c k ct body ka :
  w_conn w = Some c -> conn_ok (w_kern w) c ->
  exists c1, pending c1 = (OByte <$> buildHttpResponse k ct body ka) ++ file_pending c /\
    c_fd c1 = c_fd c /\ c_inputBuffer c1 = c_inputBuffer c /\
    c_lastActiveSec c1 = c_lastActiveSec c /\ c_closeAfterWrite c1 = negb ka /\
    write_goal (scripts_benign w) (scripts_steady w) (sendResponse k ct body ka) w c1 [].
Proof.
  intros E Hok.
  set (c1 := upd_close (negb ka) (upd_write (buildHttpResponse k ct body ka) 0 c)).
  exists c1. split; [unfold pending; by rewrite drop_0|]. do 4 (split; [done|]).
  set (w1 := set_conn (Some c1) w).
  apply (write_goal_step _ _ _ writeFromBuffer w w1 c1 [] []); [| by rewrite app_nil_r | done | done |].
  { unfold sendResponse. by do 2 mstep. }
  apply (writeFromBuffer_spec w1 c1); [done|].
  eapply conn_ok_same; [exact Hok | done | done | simpl; lia].
Qed.

(** Successive writable events, each with what the kernel answers meanwhile; a
    deleted connection gets no more events. *)
Fixpoint write_events (evs : list (list io_ret * list io_ret)) : M K unit :=
  match evs with
  | [] => ret tt
  | (ws, ss) :: evs' => fun w =>
      match w_conn w with
      | None => (w, Ret tt)
      | Some _ => bind handleWrite (fun _ => write_events evs') (set_sends ss (set_writes ws w))
      end
  end.

Definition good_event (ev : list io_ret * list io_ret) : Prop :=
  ready ev.1 /\ ready ev.2 /\ Forall benign ev.1 /\ Forall benign ev.2.

#[export] Instance good_event_dec ev : Decision (good_event ev).
Proof. unfold good_event. apply _. Defined.

Lemma write_events_dead evs w : w_conn w = None -> write_events evs w = (w, Ret tt).
Proof. intros E. destruct evs as [|[ws ss] evs]; [done|]. simpl. by rewrite E. Qed.

Lemma handleWrite_progress w c w' es :
  w_conn w = Some c -> conn_ok (w_kern w) c -> ready (w_writes w) -> ready (w_sends w) ->
  handleWrite w = (w', Ret tt) -> w_trace w' = w_trace w ++ es -> wire es = [] -> pending c = [].
Proof.
  intros E Hok Rw Rs Em T Hw. revert Em. unfold handleWrite. mstep.
  destruct (_ || _) eqn:B; [|by intros; apply pending_dec].
  intros Em. destruct (pending c) eqn:P; [done|]. exfalso.
  by eapply (writeFromBuffer_progress w c w' es); eauto; rewrite P.
Qed.

Lemma write_events_deliver evs w c :
  w_conn w = Some c -> conn_ok (w_kern w) c -> (pending c = [] -> c_closeAfterWrite c = false) ->
  Forall good_event evs -> (length (pending c) <= length evs)%nat ->
  exists w' es, write_events evs w = (w', Ret tt) /\ w_trace w' = w_trace w ++ es /\
    wire es = pending c /\
    if c_closeAfterWrite c then w_conn w' = None
    else exists c', w_conn w' = Some c' /\ pending c' = [] /\ conn_ok (w_kern w') c'.
Proof.
  revert w c. induction evs as [|[ws ss] evs IH]; intros w c E Hok Hq Hg Hn.
  - assert (pending c = []) as P by (destruct (pending c); [done | simpl in Hn; lia]).
    exists w, []. rewrite P, (Hq P), app_nil_r. repeat split; eauto.
  - apply Forall_cons in Hg as [(Rw & Rs & Bw & Bs) Hg]. simpl in Rw, Rs, Bw, Bs.
    set (w0 := set_sends ss (set_writes ws w)).
    destruct (handleWrite_spec w0 c E Hok Hq) as (w1 & es & Em & T & _ & _ & P & B & _).
    simpl app in P, B. destruct (B (conj Bw Bs)) as [_ Bn].
    assert (write_events ((ws, ss) :: evs) w = write_events evs w1) as Ew.
    { cbn [write_events]. rewrite E. fold w0.
      exact (bind_ret_eq handleWrite (fun _ => write_events evs) w0 w1 tt Em). }
    rewrite Ew. unfold write_post in P. destruct (w_conn w1) as [c1|] eqn:E1.
    + destruct P as (Hok1 & Hp & _ & _ & _ & Hcl & _ & Hd).
      destruct (IH w1 c1 E1 Hok1) as (w' & es' & ? & T' & Hw' & Hend).
      * intros P1. destruct Hd as [(_ & _ & ?)|[? _]]; [congruence | done].
      * done.
      * destruct (decide (wire es = [])) as [W|W].
        -- rewrite (handleWrite_progress w0 c w1 es E Hok Rw Rs Em T W), W in Hp.
           simpl in Hp. rewrite <- Hp. simpl. lia.
        -- rewrite Hp, length_app in Hn. destruct (wire es); [done|]. simpl in Hn. lia.
      * exists w', (es ++ es'). split; [done|]. split; [by rewrite T', T, <- app_assoc|].
        split; [by rewrite wire_app, Hw', Hp|]. by rewrite <- Hcl.
    + destruct P as (_ & lost & Hl & Hc). specialize (Bn eq_refl).
      assert (c_closeAfterWrite c = true) as Ecl.
      { apply Hc. rewrite Bn in Hl. rewrite <- (app_nil_r (wire es)) in Hl at 1.
        by apply app_inv_head in Hl. }
      rewrite write_events_dead by done. exists w1, es. rewrite Ecl. auto.
Qed.

(** The state right after construction. *)
Lemma new_Connection_spec (w : World K) ptr fd :
  snd (epoll_ctl (w_kern w) EPOLL_CTL_ADD fd (ptr, read_mask)) = 0 \/ registered (w_kern w) fd <> None ->
  exists w' c, new_Connection ptr fd w = (w', Ret tt) /\ w_conn w' = Some c /\ conn_ok (w_kern w') c /\
    c_fd c = fd /\ pending c = [] /\ c_inputBuffer c = [] /\ c_closeAfterWrite c = false.
Proof.
  intros A. unfold new_Connection.
  assert (exists w0 now, time w = (w0, Ret now) /\ w_kern w0 = w_kern w) as (w0 & now & Et & Ek).
  { unfold time. destruct (w_clock w) as [|t [|t' ts]]; eauto. }
  do 2 mstep. set (ch := setWriteCallback _ _). set (c := mkConn _ _ _ _ _ _ _ _ _ _).
  rewrite <- Ek in A.
  destruct (updateChannel_add (w_kern w0) (set_events read_mask ch) eq_refl A) as (k' & cs & Eu & M').
  unfold on_channel. do 2 mstep. unfold enableReadingET.
  change (Z.lor (ch_events (c_chan c)) _) with read_mask. change (c_chan c) with ch.
  cbn [w_kern set_conn]. rewrite Eu. do 2 mstep.
  erewrite put_conn_some by reflexivity. do 2 eexists. split; [done|]. split; [done|].
  split; [constructor; auto | auto].
Qed.

End Write.

(** ** Properties *)

Section Properties.
Context {K : Type} `{EpollKernel K}.

(** C8: [writeFromBuffer] refines the pending-output stream. On a live
    connection, for every sequence of kernel answers, it returns without
    touching freed memory; the wire gets a prefix of what was pending; and
    either the rest is exactly what stays pending, with EPOLLOUT armed when it
    is not empty and disarmed when it is, or the connection was deleted, which
    without a hard error happens only after everything was sent on a
    connection to be closed. *)
Theorem writeFromBuffer_refines (w : World K) c :
  w_conn w = Some c -> conn_ok (w_kern w) c ->
  exists w' es, writeFromBuffer w = (w', Ret tt) /\ w_trace w' = w_trace w ++ es /\
    write_post c w' es /\
    (scripts_benign w -> w_conn w' = None -> pending c = wire es).
Proof.
  intros E Hok. destruct (writeFromBuffer_spec w c E Hok) as (w' & es & ? & ? & _ & _ & P & B & _).
  exists w', es. repeat split; auto. intros b. by destruct (B b).
Qed.

(** No read edge is lost to a write event. A connection whose event mask
    says writable is left, after the event, either deleted or freshly re-armed
    in the kernel with EPOLLIN and EPOLLET in its mask (the last call of the
    handler is that EPOLL_CTL_MOD), although the handler skips the read
    callback. *)
Theorem write_event_rearms (w : World K) env fs_open fs_fstat c revents :
  w_conn w = Some c -> conn_ok (w_kern w) c -> (pending c = [] -> c_closeAfterWrite c = false) ->
  Z.land revents EPOLLOUT <> 0 ->
  exists w' es, dispatch env fs_open fs_fstat revents w = (w', Ret tt) /\ w_trace w' = w_trace w ++ es /\
    (w_conn w' = None /\ last es = Some (Deleted (c_fd c)) \/
     exists c' m, w_conn w' = Some c' /\ last es = Some (Ctl EPOLL_CTL_MOD (c_fd c) m) /\
       registered (w_kern w') (c_fd c) = Some (ch_ptr (c_chan c'), m) /\
       Z.land m read_mask = read_mask).
Proof.
  intros E Hok Hq Hr. unfold dispatch. do 2 mstep.
  set (c1 := upd_chan (setRevents revents (c_chan c)) c). set (w1 := set_conn (Some c1) w).
  assert (handleEvent (setRevents revents (c_chan c)) = Some handleWrite_cb) as ->.
  { unfold handleEvent. simpl. destruct (_ =? 0) eqn:B; [bool_lia|]. apply Hok. }
  assert (conn_ok (w_kern w1) c1) as Hok1 by (destruct Hok; constructor; auto).
  destruct (handleWrite_spec w1 c1 eq_refl Hok1 Hq) as (w' & es & -> & T & _ & _ & P & _).
  exists w', es. split; [done|]. split; [done|]. unfold write_post in P. simpl app in P.
  destruct (w_conn w') as [c'|]; [right | left; by destruct P].
  destruct P as ([_ Hfd [_ R] Hm _ _] & _ & Efd & _ & _ & _ & L & _). change (c_fd c1) with (c_fd c) in *.
  exists c', (ch_events (c_chan c')). split; [done|]. split; [done|].
  split; [by rewrite <- Efd, <- Hfd | by destruct Hm as [-> | ->]].
Qed.

(** C15: everything owed is delivered. From a live connection with any pending
    output, after as many writable events as there are units pending, whatever
    amounts the kernel takes at each, the wire holds exactly the pending output,
    in order and once; the connection is closed then if that was negotiated, and
    alive and drained otherwise. *)
Theorem pending_output_delivered (w : World K) c evs :
  w_conn w = Some c -> conn_ok (w_kern w) c -> (pending c = [] -> c_closeAfterWrite c = false) ->
  Forall good_event evs -> (length (pending c) <= length evs)%nat ->
  exists w' es, write_events evs w = (w', Ret tt) /\ w_trace w' = w_trace w ++ es /\
    wire es = pending c /\
    if c_closeAfterWrite c then w_conn w' = None
    else exists c', w_conn w' = Some c' /\ pending c' = [] /\ conn_ok (w_kern w') c'.
Proof. apply write_events_deliver. Qed.

(** C37: a response sent while earlier output is still pending overwrites it:
    whatever the write buffer of the connection still owed, what goes to the
    wire or stays pending is the new response, then the unsent tail of the
    earlier file body if there was one. *)
Theorem sendResponse_discards_pending (w : World K) c k ct body ka :
  w_conn w = Some c -> conn_ok (w_kern w) c ->
  exists w' es left, sendResponse k ct body ka w = (w', Ret tt) /\ w_trace w' = w_trace w ++ es /\
    wire es ++ left = (OByte <$> buildHttpResponse k ct body ka) ++ file_pending c /\
    match w_conn w' with Some c' => left = pending c' | None => True end.
Proof.
  intros E Hok.
  destruct (sendResponse_spec w c k ct body ka E Hok) as (c1 & P1 & _ & _ & _ & _ & G).
  destruct G as (w' & es & ? & ? & _ & _ & P & _). simpl app in P. unfold write_post in P.
  destruct (w_conn w') as [c'|] eqn:Ec.
  - exists w', es, (pending c'). rewrite Ec. destruct P as (_ & Hp & _). by rewrite <- Hp.
  - destruct P as (_ & lost & Hl & _). exists w', es, lost. rewrite Ec. by rewrite <- Hl.
Qed.

End Properties.

(** ** Direct answers *)

Section Direct.
Context {K : Type} `{EpollKernel K}.

(** Writes that take some bytes each, and then an error. *)
Lemma write_loop_stops ns e s total : forall written,
  Forall (fun n => 0 < n)%nat ns -> (written + sum_list ns < total)%nat -> e <> EINTR ->
  exists o, write_loop ((Accept <$> ns) ++ Errno e :: s) total written = (s, (written + sum_list ns)%nat, o).
Proof.
  induction ns as [|n ns IH]; intros written P L Ne; cbn [fmap list_fmap app write_loop sum_list sum_list_with] in *.
  - rewrite decide_True by lia. rewrite (proj2 (Z.eqb_neq _ _) Ne), Nat.add_0_r.
    destruct (_ || _); by eexists.
  - apply Forall_cons in P as [Pn P]. change (sum_list_with id ns) with (sum_list ns) in *. simpl in L.
    rewrite decide_True by lia. rewrite Nat.min_l by lia. rewrite decide_True by done.
    destruct (IH (written + n)%nat P) as [o ->]; [lia | done|]. exists o. do 2 f_equal. simpl. lia.
Qed.

(** C38: answers that handlers and database tasks write themselves are cut.
    [sendHttpResponse] has no connection to leave the rest of a response with: on
    a socket that takes some bytes and then would block (or fails), exactly the
    bytes taken so far are sent, the rest is pending nowhere, and no writable
    event is asked for, so that the client waits for it in vain. *)
Theorem direct_answer_cut (w : World K) fd code ct body ka ns e s :
  let response := buildHttpResponse code ct body ka in
  w_writes w = (Accept <$> ns) ++ Errno e :: s -> Forall (fun n => 0 < n)%nat ns -> e <> EINTR ->
  (sum_list ns < length response)%nat ->
  exists w', sendHttpResponse fd code ct body ka w = (w', Ret tt) /\
    w_trace w' = w_trace w ++ sent_event fd (take (sum_list ns) response) /\
    w_conn w' = w_conn w /\ w_kern w' = w_kern w /\ w_writes w' = s.
Proof.
  intros response Ew P Ne L. unfold sendHttpResponse. mstep. rewrite Ew.
  destruct (write_loop_stops ns e s (length response) 0 P L Ne) as [o E]. fold response. rewrite E.
  mstep. by eexists.
Qed.

End Direct.

(** ** Witnesses *)

(** A new connection on descriptor 7; and one that still owes the last bytes of
    a response, on a socket that takes two bytes and then would block. *)
Definition fresh_world : World (gmap Z (nat * Z)) :=
  fst (new_Connection 1 7 (mkWorld None ∅ [] [] [] [100] 0 0 None [])).

Definition fresh_conn : Conn :=
  mkConn 7 (mkChannel 1 7 read_mask 0 true (Some handleMessage_cb) (Some handleWrite_cb))
    [] 0 [] false 100 (-1) 0 0.

Definition owing_conn : Conn := upd_write (bs "hello") 1 fresh_conn.

Definition owing_world : World (gmap Z (nat * Z)) :=
  set_writes [Accept 2; Errno EAGAIN] (set_conn (Some owing_conn) fresh_world).

Lemma fresh_ok : w_conn fresh_world = Some fresh_conn /\ conn_ok (w_kern fresh_world) fresh_conn.
Proof. split; [reflexivity|]. constructor; try reflexivity; [by split | by left]. Qed.

Lemma owing_ok : conn_ok (w_kern owing_world) owing_conn.
Proof. constructor; try reflexivity; [simpl; lia | by split | by left]. Qed.

Lemma writeFromBuffer_refines_witness :
  exists w' es, writeFromBuffer owing_world = (w', Ret tt) /\ w_trace w' = w_trace owing_world ++ es /\
    write_post owing_conn w' es /\
    (scripts_benign owing_world -> w_conn w' = None -> pending owing_conn = wire es).
Proof. apply (writeFromBuffer_refines owing_world owing_conn); [reflexivity | apply owing_ok]. Defined.

Lemma write_event_rearms_witness :
  exists w' es, dispatch (fun _ => None) (fun _ => -1) (fun _ => None) (Z.lor EPOLLIN EPOLLOUT) owing_world =
                (w', Ret tt) /\ w_trace w' = w_trace owing_world ++ es /\
    (w_conn w' = None /\ last es = Some (Deleted (c_fd owing_conn)) \/
     exists c' m, w_conn w' = Some c' /\ last es = Some (Ctl EPOLL_CTL_MOD (c_fd owing_conn) m) /\
       registered (w_kern w') (c_fd owing_conn) = Some (ch_ptr (c_chan c'), m) /\
       Z.land m read_mask = read_mask).
Proof.
  apply (write_event_rearms owing_world); [reflexivity | apply owing_ok | done | done].
Defined.

Lemma pending_output_delivered_witness :
  exists w' es, write_events [([Accept 1; Errno EAGAIN], []); ([], []); ([], []); ([], [])] owing_world =
                (w', Ret tt) /\ w_trace w' = w_trace owing_world ++ es /\
    wire es = OByte <$> bs "ello" /\
    exists c', w_conn w' = Some c' /\ pending c' = [] /\ conn_ok (w_kern w') c'.
Proof.
  apply (pending_output_delivered owing_world owing_conn);
    [reflexivity | apply owing_ok | done | by_decide | simpl; lia].
Defined.

Lemma sendResponse_discards_pending_witness :
  exists w' es left, sendResponse 404 (bs "text/html") (bs "x") true owing_world = (w', Ret tt) /\
    w_trace w' = w_trace owing_world ++ es /\
    wire es ++ left = (OByte <$> buildHttpResponse 404 (bs "text/html") (bs "x") true) ++ [] /\
    match w_conn w' with Some c' => left = pending c' | None => True end.
Proof. apply (sendResponse_discards_pending owing_world owing_conn); [reflexivity | apply owing_ok]. Defined.

(** The answer to a login without credentials, cut in its status line. *)
Lemma direct_answer_cut_witness :
  exists w', sendHttpResponse 7 400 (bs "application/json") (bs "{}") true
               (set_writes [Accept 9; Errno EAGAIN] fresh_world) = (w', Ret tt) /\
    w_trace w' = w_trace fresh_world ++ [Sent 7 (bs "HTTP/1.1 ")] /\
    w_conn w' = Some fresh_conn /\ w_kern w' = w_kern fresh_world /\ w_writes w' = [].
Proof.
  apply (direct_answer_cut (set_writes [Accept 9; Errno EAGAIN] fresh_world) 7 400 (bs "application/json") (bs "{}") true
           [9%nat] EAGAIN []); [reflexivity | by_decide | done | vm_compute; lia].
Defined.
