(* ===== verification/ReadPath.v ===== *)
(** * The read path of a connection (src/Connection.cpp)

    [processRequests] against its specification. [serve] is the service as a
    function on the input buffer: cut off a request, answer it, go on while the
    connection is kept alive. The refinement theorem says that the member
    functions, with their write buffer, indices, epoll masks and cached file,
    compute exactly that function whenever the socket does not push back; the
    safety theorem and the two counterexamples say what happens when it does. *)

From S2P Require Import Prelude CppString Config Http Json Channel Framing Connection WritePath.

(** ** Specification *)

Section Spec.
(** The cached static file: its descriptor (negative when absent) and size. *)
Context (fs : Z * Z) (fd : Z).

Definition json_out (code : Z) (body : bytes) (ka : bool) : list out_item :=
  OByte <$> buildHttpResponse code (bs "application/json") body ka.

(** Output and task of one database request. *)
Definition credentials_answer (mk : bytes -> bytes -> db_task) (request : bytes) (ka : bool)
    : list out_item * list db_task :=
  let u := getJsonValue (parseBody request) (bs "username") in
  let p := getJsonValue (parseBody request) (bs "password") in
  if bool_decide (u = []) || bool_decide (p = [])
  then (json_out 400 (json1 "error" "missing username or password") ka, [])
  else if (str_size u >? kMaxUsernameLen) || (str_size p >? kMaxPasswordLen)
  then (json_out 400 (json1 "error" "username or password too long") ka, [])
  else ([], [mk u p]).

Definition token_answer (mk : bytes -> db_task) (request : bytes) (ka : bool)
    : list out_item * list db_task :=
  let t := parseBearerToken request in
  if bool_decide (t = []) then (json_out 401 (json1 "error" "missing token") ka, []) else ([], [mk t]).

Definition db_answer (h : db_handler) (request : bytes) (ka : bool) : list out_item * list db_task :=
  match h with
  | HRegister => credentials_answer (TaskRegister fd ka) request ka
  | HLogin => credentials_answer (TaskLogin fd ka) request ka
  | HProfile => token_answer (TaskProfile fd ka) request ka
  | HLogout => token_answer (TaskLogout fd ka) request ka
  end.

(** Output of a page request. *)
Definition page_answer (url : bytes) (ka : bool) : list out_item :=
  if bool_decide (url = bs "/") && (0 <=? fs.1)
  then (OByte <$> fileHeader 200 (bs "text/html") fs.2 ka) ++ file_items fs.1 0 (Z.to_nat fs.2)
  else OByte <$> buildHttpResponse
         (if bool_decide (url = bs "/") || bool_decide (url = bs "/hello") then 200 else 404)
         (bs "text/html") (getResponse url) ka.

(** One request: its output, the tasks it submits, and whether the server
    closes the connection. *)
Definition answer (request : bytes) (ka : bool) : list out_item * list db_task * bool :=
  match dbHandler (parseMethod request) (parseUrl request) with
  | Some h => (db_answer h request ka, false)
  | None => (page_answer (parseUrl request) ka, [], negb ka)
  end.

(** The whole buffer: output, tasks, whether the connection is closed, and what
    stays in the buffer. *)
Fixpoint serve_loop (fuel : nat) (buf : bytes) : list out_item * list db_task * bool * bytes :=
  match fuel with
  | O => ([], [], false, buf)
  | S f =>
      match frame buf with
      | NeedMore => ([], [], false, buf)
      | HeaderTooLarge => (json_out 400 (json1 "error" "request header too large") false, [], true, [])
      | BodyTooLarge => (json_out 413 (json1 "error" "request body too large") false, [], true, [])
      | Framed request headers rest =>
          let ka := wantKeepAlive request headers in
          let '(out, ts, closes) := answer request ka in
          if ka then
            let '(out', ts', closed, b) := serve_loop f rest in (out ++ out', ts ++ ts', closed, b)
          else (out, ts, closes, rest)
      end
  end.

Definition serve (buf : bytes) := serve_loop (S (length buf)) buf.

End Spec.

(** ** Lemmas: actions *)

Section Actions.
Context {K : Type} `{EpollKernel K}.
Context (env : environment) (fs_open : bytes -> Z) (fs_fstat : Z -> option (bool * Z)).

(** The static file this process serves. *)
Definition static_of (w : World K) : Z * Z :=
  match w_static w with Some fs => fs | None => open_static fs_open fs_fstat (index_path env) end.

(** What an action on a live connection leaves behind: the events [es], no hard
    failure, and the connection alive unless it was to be closed. *)
Definition acts {A} (m_w : World K * res A) (a : A) (w : World K) (c : Conn) (may_die : bool)
    (P : World K -> list event -> Prop) : Prop :=
  exists w' es, m_w = (w', Ret a) /\ w_trace w' = w_trace w ++ es /\
    scripts_benign w' /\ static_of w' = static_of w /\
    match w_conn w' with
    | Some c' => conn_ok (w_kern w') c' /\ c_inputBuffer c' = c_inputBuffer c /\ c_fd c' = c_fd c
    | None => may_die = true
    end /\ P w' es.

(** On a steady socket: all of [out] is on the wire, [ts] are submitted and
    nothing is pending. *)
Definition sends_all (out : list out_item) (ts : list db_task) (w' : World K) (es : list event) : Prop :=
  scripts_steady w' /\ wire es = out /\ tasks_of es = ts /\
  match w_conn w' with Some c' => pending c' = [] | None => True end.

(** On any socket: [out] is on the wire, or on the wire and pending, and the
    connection is gone when all of it was sent and it was to be closed. *)
Definition streams (out : list out_item) (close : bool) (w' : World K) (es : list event) : Prop :=
  tasks_of es = [] /\
  match w_conn w' with
  | Some c' => out = wire es ++ pending c' /\ c_closeAfterWrite c' = close /\ (pending c' = [] -> close = false)
  | None => out = wire es /\ close = true
  end.

Lemma same_rest_static w w' : same_rest w w' -> static_of w' = static_of w.
Proof. intros (_ & _ & _ & _ & E). unfold static_of. by rewrite E. Qed.

Lemma file_pending_nil c : pending c = [] -> file_pending c = [].
Proof. intros E. by apply app_eq_nil in E as [_ E]. Qed.

(** The general contract gives the one actions are composed with. *)
Lemma write_goal_acts (m : M K unit) w c c1 out :
  write_goal (scripts_benign w) (scripts_steady w) m w c1 [] ->
  scripts_benign w -> c_inputBuffer c1 = c_inputBuffer c -> c_fd c1 = c_fd c ->
  acts (m w) tt w c (c_closeAfterWrite c1)
    (fun w' es => pending c1 = out ->
       streams out (c_closeAfterWrite c1) w' es /\
       (scripts_steady w -> sends_all out [] w' es /\ (w_conn w' = None <-> c_closeAfterWrite c1 = true))).
Proof.
  intros (w' & es & Em & T & Tk & R & P & B & U) Hb Hin Hfd. simpl app in *.
  exists w', es. split; [done|]. split; [done|]. destruct (B Hb) as [Bw Bn].
  split; [done|]. split; [by apply same_rest_static|].
  unfold write_post in P. destruct (w_conn w') as [c'|] eqn:Ec.
  - destruct P as (Hok & Hp & Efd & Ein & _ & Ecl & _ & Hd).
    split; [split; [done|]; split; congruence|]. intros Ho.
    split; [split; [done|]; rewrite Ec; split; [congruence|]; split; [done|]; by destruct Hd as [(_ & _ & ?)|[? _]]|].
    intros Hs. destruct (U Hs) as [Us Up]. split.
    + split; [done|]. rewrite Up, app_nil_r in Hp. rewrite Ec. split; [congruence|]. auto.
    + split; [done|]. intros X. destruct Hd as [(_ & _ & ?)|[? _]]; [congruence | done].
  - destruct P as (_ & lost & Hl & Hc). specialize (Bn eq_refl).
    assert (c_closeAfterWrite c1 = true) as Ecl.
    { apply Hc. rewrite Bn in Hl. rewrite <- (app_nil_r (wire es)) in Hl at 1.
      by apply app_inv_head in Hl. }
    split; [done|]. intros Ho. split; [split; [done|]; rewrite Ec; split; [congruence | done]|].
    intros Hs. destruct (U Hs) as [Us _]. split; [|by split]. split; [done|]. rewrite Ec. split; [congruence | auto].
Qed.

Lemma acts_impl {A} (m_w : World K * res A) a w c d (P Q : World K -> list event -> Prop) :
  (forall w' es, P w' es -> Q w' es) -> acts m_w a w c d P -> acts m_w a w c d Q.
Proof. intros I (w' & es & ? & ? & ? & ? & ? & ?). exists w', es. auto 10. Qed.

Lemma sendResponse_acts w c k ct body ka :
  w_conn w = Some c -> conn_ok (w_kern w) c -> scripts_benign w ->
  acts (sendResponse k ct body ka w) tt w c (negb ka)
    (fun w' es => pending c = [] ->
       streams (OByte <$> buildHttpResponse k ct body ka) (negb ka) w' es /\
       (scripts_steady w -> sends_all (OByte <$> buildHttpResponse k ct body ka) [] w' es /\
                            (w_conn w' = None <-> ka = false))).
Proof.
  intros E Hok Hb.
  destruct (sendResponse_spec w c k ct body ka E Hok) as (c1 & P1 & Hfd & Hin & _ & Hcl & G).
  rewrite <- Hcl. eapply acts_impl; [|exact (write_goal_acts _ w c c1 (OByte <$> buildHttpResponse k ct body ka) G Hb Hin Hfd)].
  intros w' es HP Hp. destruct HP as [Sr HP]; [rewrite P1, file_pending_nil by done; apply app_nil_r|].
  split; [done|]. intros Hs. destruct (HP Hs) as [Sa Q]. split; [done|].
  rewrite Q, Hcl. by destruct ka.
Qed.

(** [sendFile] when the file is there: header and file body. *)
Lemma sendFile_found w c ka :
  w_conn w = Some c -> conn_ok (w_kern w) c -> scripts_benign w -> 0 <= (static_of w).1 ->
  acts (sendFile fs_open fs_fstat 200 (bs "text/html") (index_path env) ka w) true w c (negb ka)
    (fun w' es =>
       let out := (OByte <$> fileHeader 200 (bs "text/html") (static_of w).2 ka) ++
                  file_items (static_of w).1 0 (Z.to_nat (static_of w).2) in
       streams out (negb ka) w' es /\
       (scripts_steady w -> sends_all out [] w' es /\ (w_conn w' = None <-> ka = false))).
Proof.
  intros E Hok Hb Hf. destruct (static_of w) as [ffd fsz] eqn:Es. cbn [fst snd] in Hf |- *.
  assert (exists w0, getStaticFd fs_open fs_fstat (index_path env) w = (w0, Ret (true, ffd, fsz)) /\
    w_conn w0 = w_conn w /\ w_kern w0 = w_kern w /\ w_writes w0 = w_writes w /\ w_sends w0 = w_sends w /\
    w_trace w0 = w_trace w /\ static_of w0 = static_of w) as (w0 & Eg & Ec & Ek & Ew & Esd & Et & Est).
  { assert ((0 <=? ffd) = true) as L by (apply Z.leb_le; done).
    unfold getStaticFd, static_of in *. destruct (w_static w) as [fs'|] eqn:S0.
    - subst fs'. eexists. unfold bind, gets. rewrite S0. unfold ret. rewrite L.
      split; [done|]. rewrite S0. auto 10.
    - eexists. unfold bind, gets. rewrite S0. unfold ret, modify. rewrite Es, L.
      split; [done|]. repeat split; auto. }
  set (c1 := upd_file ffd 0 (Z.to_nat fsz) (upd_close (negb ka)
               (upd_write (fileHeader 200 (bs "text/html") fsz ka) 0 c))).
  set (w1 := set_conn (Some c1) w0).
  assert (conn_ok (w_kern w1) c1) as Hok1.
  { simpl. rewrite Ek. eapply conn_ok_same; [exact Hok | done | done | simpl; lia]. }
  pose proof (writeFromBuffer_spec w1 c1 eq_refl Hok1) as G.
  assert (scripts_benign w1) as Hb1 by (unfold scripts_benign; simpl; by rewrite Ew, Esd).
  destruct (write_goal_acts _ w1 c c1 (pending c1) G Hb1 eq_refl eq_refl)
    as (w' & es & Em & T & B & St & C & P).
  exists w', es. split.
  { unfold sendFile. mstep. cbn [negb]. rewrite <- Ec in E. do 2 mstep.
    fold c1. fold w1. unfold bind. by rewrite Em. }
  split; [by rewrite T; simpl; rewrite Et|]. split; [done|].
  split; [rewrite St; unfold static_of in *; simpl; by rewrite Est|]. split; [done|].
  assert (pending c1 = (OByte <$> fileHeader 200 (bs "text/html") fsz ka) ++ file_items ffd 0 (Z.to_nat fsz)) as Ep.
  { unfold pending. simpl. destruct (0 <=? ffd) eqn:L; [done | bool_lia]. }
  destruct (P eq_refl) as [Sr Sq]. rewrite Ep in Sr, Sq. split; [done|]. intros Hs.
  destruct Sq as [Sa Q]; [by unfold scripts_steady; simpl; rewrite Ew, Esd|]. split; [done|]. rewrite Q. simpl. by destruct ka.
Qed.

(** [sendFile] when the file is absent: nothing but the cached answer. *)
Lemma sendFile_absent w ka :
  (static_of w).1 < 0 ->
  exists w0, sendFile fs_open fs_fstat 200 (bs "text/html") (index_path env) ka w = (w0, Ret false) /\
    w_conn w0 = w_conn w /\ w_kern w0 = w_kern w /\ w_writes w0 = w_writes w /\ w_sends w0 = w_sends w /\
    w_trace w0 = w_trace w /\ static_of w0 = static_of w.
Proof.
  intros Hf. unfold sendFile, getStaticFd, static_of in *.
  destruct (w_static w) as [[ffd fsz]|] eqn:S0; unfold bind, gets; rewrite S0; unfold ret, modify.
  - simpl in Hf. destruct (0 <=? ffd) eqn:L; [bool_lia|]. simpl. eexists. split; [done|].
    rewrite S0. auto 10.
  - destruct (open_static fs_open fs_fstat (index_path env)) as [ffd fsz] eqn:O. simpl in Hf |- *.
    destruct (0 <=? ffd) eqn:L; [bool_lia|]. simpl. eexists. split; [done|]. auto 10.
Qed.

(** A direct write leaves the connection alone. *)
Lemma sendJson_acts w c k body ka :
  w_conn w = Some c -> conn_ok (w_kern w) c -> scripts_benign w ->
  acts (sendJson (c_fd c) k body ka w) tt w c false
    (fun w' es => scripts_steady w -> pending c = [] -> sends_all (json_out k body ka) [] w' es).
Proof.
  intros E Hok [Hb1 Hb2]. unfold sendJson, sendHttpResponse. mstep.
  set (r := buildHttpResponse k (bs "application/json") body ka).
  destruct (write_loop (w_writes w) (length r) 0) as [[s' n] o] eqn:L.
  pose proof (fun F => write_loop_steady _ _ _ _ _ _ F L) as St.
  apply write_loop_spec in L as (Hn & Ho & Hben); [|lia].
  mstep. do 2 eexists. split; [done|]. split; [done|].
  split; [split; [by apply Hben | done]|]. split; [done|]. split; [by simpl; rewrite E|].
  intros [Hs1 Hs2] Hp. destruct (St Hs1) as [Hs' Hd]. apply Ho in Hd.
  split; [done|]. rewrite Hd, take_ge by done. rewrite wire_sent, tasks_sent. simpl. by rewrite E.
Qed.

Lemma submit_acts w c t :
  w_conn w = Some c -> conn_ok (w_kern w) c -> scripts_benign w ->
  acts (submit t w) tt w c false
    (fun w' es => scripts_steady w -> pending c = [] -> sends_all [] [t] w' es).
Proof.
  intros E Hok Hb. unfold submit. mstep. do 2 eexists. split; [done|]. split; [done|].
  split; [done|]. split; [done|]. split; [by simpl; rewrite E|].
  intros Hs Hp. split; [done|]. simpl. by rewrite E.
Qed.

Lemma credentials_acts w c mk request ka :
  w_conn w = Some c -> conn_ok (w_kern w) c -> scripts_benign w ->
  let u := getJsonValue (parseBody request) (bs "username") in
  let p := getJsonValue (parseBody request) (bs "password") in
  acts (bind (checkCredentials (c_fd c) ka u p)
          (fun ok => if negb ok then ret tt else submit (mk u p)) w) tt w c false
    (fun w' es => scripts_steady w -> pending c = [] ->
       sends_all (credentials_answer mk request ka).1 (credentials_answer mk request ka).2 w' es).
Proof.
  intros E Hok Hb u p. unfold checkCredentials, credentials_answer. fold u. fold p.
  destruct (bool_decide (u = []) || bool_decide (p = [])).
  - destruct (sendJson_acts w c 400 (json1 "error" "missing username or password") ka E Hok Hb)
      as (w' & es & Em & ?). exists w', es. split; [|done]. unfold bind. by rewrite Em.
  - destruct (_ || _).
    + destruct (sendJson_acts w c 400 (json1 "error" "username or password too long") ka E Hok Hb)
        as (w' & es & Em & ?). exists w', es. split; [|done]. unfold bind. by rewrite Em.
    + destruct (submit_acts w c (mk u p) E Hok Hb) as (w' & es & Em & ?). exists w', es. by split.
Qed.

Lemma token_acts w c mk request ka :
  w_conn w = Some c -> conn_ok (w_kern w) c -> scripts_benign w ->
  let t := parseBearerToken request in
  acts ((if bool_decide (t = []) then sendJson (c_fd c) 401 (json1 "error" "missing token") ka
         else submit (mk t)) w) tt w c false
    (fun w' es => scripts_steady w -> pending c = [] ->
       sends_all (token_answer mk request ka).1 (token_answer mk request ka).2 w' es).
Proof.
  intros E Hok Hb t. unfold token_answer. fold t.
  destruct (bool_decide (t = [])); [by apply sendJson_acts | by apply submit_acts].
Qed.

(** The reactor half of a database handler. *)
Lemma run_handler_acts w c h request ka :
  w_conn w = Some c -> conn_ok (w_kern w) c -> scripts_benign w ->
  acts (run_handler h request (c_fd c) ka w) tt w c false
    (fun w' es => scripts_steady w -> pending c = [] ->
       sends_all (db_answer (c_fd c) h request ka).1 (db_answer (c_fd c) h request ka).2 w' es).
Proof.
  intros E Hok Hb. destruct h; simpl run_handler; unfold db_answer.
  - by apply (credentials_acts w c (TaskRegister (c_fd c) ka)).
  - by apply (credentials_acts w c (TaskLogin (c_fd c) ka)).
  - by apply (token_acts w c (TaskLogout (c_fd c) ka)).
  - by apply (token_acts w c (TaskProfile (c_fd c) ka)).
Qed.

(** The pages. *)
Definition page (url : bytes) (ka : bool) (next : M K unit) : M K unit :=
  bind (if bool_decide (url = bs "/")
        then sendFile fs_open fs_fstat 200 (bs "text/html") (index_path env) ka else ret false)
    (fun sent : bool => if sent then next else
       bind (sendResponse (if bool_decide (url = bs "/") || bool_decide (url = bs "/hello") then 200 else 404)
               (bs "text/html") (getResponse url) ka) (fun _ => next)).

(** A page is answered, and then [next] runs. *)
Lemma page_acts w c url ka next :
  w_conn w = Some c -> conn_ok (w_kern w) c -> scripts_benign w ->
  exists w1, page url ka next w = next w1 /\
    acts (w1, Ret tt) tt w c (negb ka)
    (fun w' es => pending c = [] ->
       streams (page_answer (static_of w) url ka) (negb ka) w' es /\
       (scripts_steady w ->
        sends_all (page_answer (static_of w) url ka) [] w' es /\ (w_conn w' = None <-> ka = false))).
Proof.
  intros E Hok Hb. unfold page, page_answer.
  destruct (bool_decide (url = bs "/") && (0 <=? (static_of w).1)) eqn:F.
  - apply andb_true_iff in F as [F1 F2]. rewrite F1. apply Z.leb_le in F2.
    destruct (sendFile_found w c ka E Hok Hb F2) as (w' & es & Em & T & B & S & C & P).
    exists w'. split; [unfold bind; by rewrite Em|]. exists w', es.
    do 5 (split; [done|]). intros _. by apply P.
  - assert (exists w0, (if bool_decide (url = bs "/")
        then sendFile fs_open fs_fstat 200 (bs "text/html") (index_path env) ka else ret false) w = (w0, Ret false) /\
      w_conn w0 = w_conn w /\ w_kern w0 = w_kern w /\ w_writes w0 = w_writes w /\ w_sends w0 = w_sends w /\
      w_trace w0 = w_trace w /\ static_of w0 = static_of w) as (w0 & Em & Ec & Ek & Ew & Es & Et & St).
    { destruct (bool_decide (url = bs "/")); [|by exists w]. simpl in F. bool_lia.
      by apply sendFile_absent. }
    rewrite <- Ec in E. rewrite <- Ek in Hok.
    assert (scripts_benign w0) as Hb0 by (unfold scripts_benign; by rewrite Ew, Es).
    destruct (sendResponse_acts w0 c
      (if bool_decide (url = bs "/") || bool_decide (url = bs "/hello") then 200 else 404)
      (bs "text/html") (getResponse url) ka E Hok Hb0) as (w' & es & Em' & T & B & S & C & P).
    exists w'. split; [unfold bind; rewrite Em, Em'; done|]. exists w', es.
    split; [done|]. split; [by rewrite T, Et|]. split; [done|]. split; [congruence|]. split; [done|].
    intros Hp. destruct (P Hp) as [Sr Sq]. split; [done|]. intros Hs. apply Sq. unfold scripts_steady. by rewrite Ew, Es.
Qed.

(** ** The loop *)

(** What a run of the loop from [w], with [c] live, promises. *)
Definition run_ok (m_w : World K * res unit) (w : World K) (c : Conn)
    (spec : list out_item * list db_task * bool * bytes) : Prop :=
  exists w' es, m_w = (w', Ret tt) /\ w_trace w' = w_trace w ++ es /\ scripts_benign w' /\
    match w_conn w' with Some c' => conn_ok (w_kern w') c' /\ c_fd c' = c_fd c | None => True end /\
    (scripts_steady w -> pending c = [] ->
     let '(out, ts, closed, b) := spec in
     sends_all out ts w' es /\
     if closed : bool then w_conn w' = None
     else exists c', w_conn w' = Some c' /\ c_inputBuffer c' = b).

(** A rejected buffer: answer and close. *)
Lemma reject_run w c k body :
  w_conn w = Some c -> conn_ok (w_kern w) c -> scripts_benign w ->
  run_ok (bind (put_conn (upd_input [] c))
            (fun _ => sendResponse k (bs "application/json") body false) w) w c
    (json_out k body false, [], true, []).
Proof.
  intros E Hok Hb. unfold run_ok. mstep.
  set (c1 := upd_input [] c). set (w1 := set_conn (Some c1) w).
  assert (conn_ok (w_kern w1) c1) as Hok1 by (destruct Hok; by constructor).
  destruct (sendResponse_acts w1 c1 k (bs "application/json") body false eq_refl Hok1 Hb)
    as (w' & es & Em & T & B & S & C & P).
  exists w', es. do 3 (split; [done|]). split; [destruct (w_conn w'); [by destruct C as (? & ? & ?) | done]|].
  intros Hs Hp. destruct (P Hp) as [_ Sq]. destruct (Sq Hs) as [Q D]. split; [done|]. by apply D.
Qed.

(** One request was answered by an action on [c1], which is [c] with the
    request removed from its buffer; the loop goes on if it is kept alive. *)
Lemma answered_run f w w1 w2 c rest request ka (m_w : World K * res unit) out ts closes :
  w_conn w = Some c -> w1 = set_conn (Some (upd_input rest c)) w ->
  m_w = (if negb ka then ret tt else processRequests_loop env fs_open fs_fstat f (c_fd c)) w2 ->
  acts (w2, Ret tt) tt w1 (upd_input rest c) (negb ka)
    (fun w' es => scripts_steady w1 -> pending c = [] ->
       sends_all out ts w' es /\ (ka = false -> w_conn w' = None <-> closes = true)) ->
  answer (static_of w) (c_fd c) request ka = (out, ts, closes) ->
  (forall w' c', w_conn w' = Some c' -> conn_ok (w_kern w') c' -> scripts_benign w' ->
     c_inputBuffer c' = rest -> static_of w' = static_of w -> c_fd c' = c_fd c ->
     run_ok (processRequests_loop env fs_open fs_fstat f (c_fd c) w') w' c'
       (serve_loop (static_of w) (c_fd c) f rest)) ->
  run_ok m_w w c
    (if ka then let '(out', ts', closed, b) := serve_loop (static_of w) (c_fd c) f rest in
                (out ++ out', ts ++ ts', closed, b)
     else (out, ts, closes, rest)).
Proof.
  intros E -> -> (w' & es & [= <-] & T & B & S & C & P) Ea IH. destruct ka; simpl negb in *; cbv iota.
  - destruct (w_conn w2) as [c2|] eqn:E2; [|done]. destruct C as (Hok2 & Hin & Hfd).
    destruct (IH w2 c2 E2 Hok2 B Hin S Hfd) as (w' & es' & Em & T' & B' & C' & P').
    exists w', (es ++ es'). split; [done|]. split; [by rewrite T', T, <- app_assoc|]. split; [done|].
    split; [destruct (w_conn w'); [|done]; destruct C' as [? Hf']; split; [done|]; rewrite Hf'; exact Hfd|].
    destruct (serve_loop _ _ f rest) as [[[out' ts'] closed] b].
    intros Hs Hp. destruct (P Hs Hp) as [(Hs2 & Hw & Ht & Hpd) _]. rewrite E2 in Hpd.
    destruct (P' Hs2 Hpd) as [(Hs3 & Hw' & Ht' & Hpd') Hend].
    split; [|done]. split; [done|]. by rewrite wire_app, tasks_app, Hw, Hw', Ht, Ht'.
  - exists w2, es. split; [done|]. split; [done|]. split; [done|].
    split; [destruct (w_conn w2); [by destruct C as (? & ? & ?) | done]|].
    intros Hs Hp. destruct (P Hs Hp) as [Q D]. split; [done|]. specialize (D eq_refl).
    destruct closes; [by apply D|]. destruct (w_conn w2) as [c2|]; [|by destruct D as [D _]; specialize (D eq_refl)].
    exists c2. by destruct C as (? & ? & ?).
Qed.

Lemma loop_serves fuel w c :
  w_conn w = Some c -> conn_ok (w_kern w) c -> scripts_benign w ->
  str_size (c_inputBuffer c) <= LONG_MAX -> (length (c_inputBuffer c) < fuel)%nat ->
  run_ok (processRequests_loop env fs_open fs_fstat fuel (c_fd c) w) w c
    (serve_loop (static_of w) (c_fd c) fuel (c_inputBuffer c)).
Proof.
  revert w c. induction fuel as [|f IH]; intros w c E Hok Hb Hsz Hf; [lia|].
  cbn [processRequests_loop serve_loop]. mstep.
  destruct (frame (c_inputBuffer c)) as [| | |request headers rest] eqn:F.
  - exists w, []. split; [done|]. split; [by rewrite app_nil_r|]. split; [done|].
    split; [by rewrite E|]. intros Hs Hp. split; [|by exists c]. split; [done|]. by rewrite E.
  - by apply reject_run.
  - by apply reject_run.
  - pose proof (frame_progress _ _ _ _ Hsz F) as Hpr. mstep.
    mstep. cbn [negb]. set (ka := wantKeepAlive request headers).
    set (c1 := upd_input rest c). set (w1 := set_conn (Some c1) w).
    assert (conn_ok (w_kern w1) c1) as Hok1 by (destruct Hok; by constructor).
    destruct (answer (static_of w) (c_fd c) request ka) as [[out ts] closes] eqn:Ea.
    assert (forall w' c', w_conn w' = Some c' -> conn_ok (w_kern w') c' -> scripts_benign w' ->
       c_inputBuffer c' = rest -> static_of w' = static_of w -> c_fd c' = c_fd c ->
       run_ok (processRequests_loop env fs_open fs_fstat f (c_fd c) w') w' c'
         (serve_loop (static_of w) (c_fd c) f rest)) as IH'.
    { intros w' c' E' Hok' Hb' Hin' St' Hfd'. rewrite <- St', <- Hfd', <- Hin'.
      apply IH; auto; rewrite Hin'; unfold str_size in *; lia. }
    pose proof Ea as Ea'. unfold answer in Ea.
    destruct (dbHandler (parseMethod request) (parseUrl request)) as [h|].
    + destruct (run_handler_acts w1 c1 h request ka eq_refl Hok1 Hb) as (w2 & es & Em & R).
      eapply (answered_run f w w1 w2 c rest request ka); [done | done | | | | done].
      * exact (bind_ret_eq (run_handler h request (c_fd c) ka) (fun _ => if negb ka then ret tt else
          processRequests_loop env fs_open fs_fstat f (c_fd c)) w1 w2 tt Em).
      * exists w2, es. split; [done|]. destruct R as (? & ? & ? & C & P). do 3 (split; [done|]).
        destruct (w_conn w2) eqn:E2; [|done]. split; [done|].
        intros Hs Hp. destruct (db_answer (c_fd c) h request ka) as [out' ts'] eqn:D.
        injection Ea as <- <- <-. split; [|done].
        change (c_fd c1) with (c_fd c) in P. rewrite D in P. by apply P.
      * exact Ea'.
    + destruct (page_acts w1 c1 (parseUrl request) ka
        (if negb ka then ret tt else processRequests_loop env fs_open fs_fstat f (c_fd c)) eq_refl Hok1 Hb)
        as (w2 & Em & A).
      eapply (answered_run f w w1 w2 c rest request ka); [done | done | exact Em | | | done].
      * eapply acts_impl; [|exact A]. intros w' es P Hs Hp. destruct (P Hp) as [_ Sq]. destruct (Sq Hs) as [Q D].
        injection Ea as <- <- <-. split; [done|]. intros ->. rewrite D. done.
      * exact Ea'.
Qed.

Lemma processRequests_run w c :
  w_conn w = Some c -> conn_ok (w_kern w) c -> scripts_benign w ->
  str_size (c_inputBuffer c) <= LONG_MAX ->
  run_ok (processRequests env fs_open fs_fstat (c_fd c) w) w c
    (serve (static_of w) (c_fd c) (c_inputBuffer c)).
Proof.
  intros E Hok Hb Hsz. unfold processRequests, serve. mstep. apply loop_serves; auto.
Qed.

(** ** The read loop *)

(** Reads that deliver the chunks, each no larger than the array they are read
    into, with interrupted calls in between. *)
Inductive delivers : list read_ret -> list bytes -> Prop :=
| delivers_done : delivers [] []
| delivers_block s : delivers (ReadErrno EAGAIN :: s) []
| delivers_intr s cs : delivers s cs -> delivers (ReadErrno EINTR :: s) cs
| delivers_data d s cs : d <> [] -> (length d <= 4096)%nat -> delivers s cs -> delivers (Data d :: s) (d :: cs).

Lemma read_loop_delivers s cs buf :
  delivers s cs -> exists s', read_loop s buf = (s', buf ++ mjoin cs, Drained).
Proof.
  intros D. revert buf. induction D as [| s | s cs D IH | d s cs Hd Hl D IH]; intros buf; simpl.
  - exists []. by rewrite app_nil_r.
  - exists s. by rewrite app_nil_r.
  - apply IH.
  - rewrite (take_ge d) by lia. rewrite decide_True by (destruct d; [done | simpl; lia]).
    destruct (IH (buf ++ d)) as [s' ->]. exists s'. by rewrite <- app_assoc.
Qed.

(** Reads that come to an end of file or to an error, whatever they delivered
    before. *)
Inductive hangs_up : list read_ret -> Prop :=
| hangs_eof s : hangs_up (Data [] :: s)
| hangs_error e s : e <> EINTR -> e <> EAGAIN -> hangs_up (ReadErrno e :: s)
| hangs_intr s : hangs_up s -> hangs_up (ReadErrno EINTR :: s)
| hangs_data d s : d <> [] -> (length d <= 4096)%nat -> hangs_up s -> hangs_up (Data d :: s).

Lemma read_loop_hangs s buf : hangs_up s -> exists s' b, read_loop s buf = (s', b, Failed).
Proof.
  intros Hs. revert buf. induction Hs as [s | e s N1 N2 | s Hs IH | d s Hd Hl Hs IH]; intros buf; simpl.
  - by eexists _, _.
  - unfold EWOULDBLOCK. rewrite (proj2 (Z.eqb_neq _ _) N1), (proj2 (Z.eqb_neq _ _) N2). by eexists _, _.
  - apply IH.
  - rewrite (take_ge d) by lia. rewrite decide_True by (destruct d; [done | simpl; lia]). apply IH.
Qed.

(** What the reads of one event come to. *)
Inductive input : Type :=
| Arrived (b : bytes)     (* bytes, and then nothing more for now *)
| HungUp.                 (* the end of the stream, or an error *)

Definition input_bytes (i : input) : bytes := match i with Arrived b => b | HungUp => [] end.

Definition reads_as (rs : list read_ret) (i : input) : Prop :=
  match i with Arrived b => exists cs, delivers rs cs /\ b = mjoin cs | HungUp => hangs_up rs end.

(** No [read] returns more than was asked for; then every sequence of reads comes
    to one of the two. *)
Definition read_fits (r : read_ret) : Prop := match r with Data d => (length d <= 4096)%nat | ReadErrno _ => True end.

#[export] Instance read_fits_dec r : Decision (read_fits r).
Proof. destruct r; apply _. Defined.

Lemma reads_cases rs : Forall read_fits rs -> exists i, reads_as rs i.
Proof.
  induction 1 as [|[d|e] rs Hr F [i IH]].
  - exists (Arrived []), []. split; [constructor | done].
  - destruct (decide (d = [])) as [->|Nd]; [exists HungUp; constructor|].
    destruct i as [b|]; [|exists HungUp; by constructor].
    destruct IH as (cs & D & ->). exists (Arrived (d ++ mjoin cs)), (d :: cs). split; [by constructor | done].
  - destruct (decide (e = EINTR)) as [->|N1].
    { destruct i as [b|]; [|exists HungUp; by constructor].
      destruct IH as (cs & D & ->). exists (Arrived (mjoin cs)), cs. split; [by constructor | done]. }
    destruct (decide (e = EAGAIN)) as [->|N2]; [|exists HungUp; by constructor].
    exists (Arrived []), []. split; [constructor | done].
Qed.

(** The service function on an event: an end closes the connection, and what
    came with it is not looked at. *)
Definition serve_input (fs : Z * Z) (fd : Z) (buf : bytes) (i : input) :
    list out_item * list db_task * bool * bytes :=
  match i with Arrived b => serve fs fd (buf ++ b) | HungUp => ([], [], true, buf) end.

Lemma time_same (w : World K) :
  exists w0 now, time w = (w0, Ret now) /\ w_conn w0 = w_conn w /\ w_kern w0 = w_kern w /\
    w_reads w0 = w_reads w /\ w_writes w0 = w_writes w /\ w_sends w0 = w_sends w /\
    w_trace w0 = w_trace w /\ static_of w0 = static_of w.
Proof.
  unfold time. destruct (w_clock w) as [|t [|t' ts]]; do 2 eexists; (split; [done|]); auto 10.
Qed.

(** A readable event: the chunks are appended, and every complete request is
    served. *)
Lemma handleMessage_run w c cs :
  w_conn w = Some c -> conn_ok (w_kern w) c -> scripts_benign w -> delivers (w_reads w) cs ->
  str_size (c_inputBuffer c ++ mjoin cs) <= LONG_MAX ->
  run_ok (handleMessage env fs_open fs_fstat w) w c
    (serve (static_of w) (c_fd c) (c_inputBuffer c ++ mjoin cs)).
Proof.
  intros E Hok Hb D Hsz. unfold handleMessage. mstep.
  destruct (time_same w) as (w0 & now & Et & Ec & Ek & Er & Ew & Es & Etr & St).
  do 2 mstep. rewrite Er. destruct (read_loop_delivers _ _ (c_inputBuffer c) D) as [s' ->].
  mstep. rewrite <- Ec in E.
  set (c1 := upd_input (c_inputBuffer c ++ mjoin cs) (upd_active now c)).
  erewrite bind_ret_eq by (eapply put_conn_some; exact E).
  set (w1 := set_conn (Some c1) (set_reads s' w0)).
  assert (conn_ok (w_kern w1) c1) as Hok1.
  { simpl. rewrite Ek. destruct Hok; by constructor. }
  assert (scripts_benign w1) as Hb1 by (unfold scripts_benign; simpl; by rewrite Ew, Es).
  destruct (processRequests_run w1 c1 eq_refl Hok1 Hb1 Hsz) as (w' & es & Em & T & B & C & P).
  change (static_of w1) with (static_of w0) in P. rewrite St in P.
  exists w', es. split; [exact Em|]. split; [by rewrite T; simpl; rewrite Etr|]. split; [done|].
  split; [done|]. intros Hs Hp. apply P; [|done]. unfold scripts_steady. simpl. by rewrite Ew, Es.
Qed.

(** An end destroys the connection and does nothing else. *)
Lemma handleMessage_hangs w c :
  w_conn w = Some c -> hangs_up (w_reads w) ->
  exists w', handleMessage env fs_open fs_fstat w = (w', Ret tt) /\ w_conn w' = None /\
    w_trace w' = w_trace w ++ [Deleted (c_fd c)].
Proof.
  intros E D. unfold handleMessage. mstep.
  destruct (time_same w) as (w0 & now & Et & Ec & Ek & Er & Ew & Es & Etr & St).
  do 2 mstep. rewrite Er. destruct (read_loop_hangs _ (c_inputBuffer c) D) as (s' & b & ->).
  mstep. rewrite <- Ec in E. erewrite bind_ret_eq by (eapply put_conn_some; exact E).
  unfold deleteConnectionCallback. do 2 mstep. eexists. split; [reflexivity|]. simpl. by rewrite Etr.
Qed.

End Actions.

(** ** The service on a pipelined stream *)

Definition kept_alive (m : list bytes * bytes) : Prop :=
  wantKeepAlive (wire_request m) (header_block m.1) = true.

#[export] Instance kept_alive_dec m : Decision (kept_alive m).
Proof. unfold kept_alive. apply _. Defined.

(** The answers to a list of kept-alive requests, one after the other. *)
Definition answers (fs : Z * Z) (fd : Z) (ms : list (list bytes * bytes)) : list out_item * list db_task :=
  (mjoin ((fun m => (answer fs fd (wire_request m) true).1.1) <$> ms),
   mjoin ((fun m => (answer fs fd (wire_request m) true).1.2) <$> ms)).

Lemma serve_loop_stream fs fd fuel ms :
  Forall wf_request ms -> Forall kept_alive ms -> (length ms < fuel)%nat ->
  serve_loop fs fd fuel (mjoin (wire_request <$> ms)) =
  ((answers fs fd ms).1, (answers fs fd ms).2, false, []).
Proof.
  intros Hwf. revert fuel. induction Hwf as [|m ms Hm Hms IH]; intros fuel Hka Hf;
    (destruct fuel as [|f]; [simpl in Hf; lia|]); [done|].
  change (mjoin (wire_request <$> m :: ms)) with (wire_request m ++ mjoin (wire_request <$> ms)).
  cbn [serve_loop]. rewrite frame_wire by done.
  apply Forall_cons in Hka as [Hk Hka]. unfold kept_alive in Hk. rewrite Hk.
  rewrite IH by (done || (simpl in Hf; lia)).
  unfold answers. cbn [fmap list_fmap mjoin list_join fst snd].
  destruct (answer fs fd (wire_request m) true) as [[out ts] cl]. done.
Qed.

(** ** Properties *)

Section Properties.
Context {K : Type} `{EpollKernel K}.
Context (env : environment) (fs_open : bytes -> Z) (fs_fstat : Z -> option (bool * Z)).

(** C1: refinement. A readable event on a live, drained connection whose socket
    takes what is written behaves as the service function says (the buffer stays below 2^63 bytes). If the reads
    deliver bytes and then block, the wire gets exactly the answers of the
    complete requests in the buffer, in order, the database tasks are submitted in
    order, the connection is closed exactly when the service closes it, and the
    buffer keeps the unfinished rest. If they come to an end of file or an error,
    the connection is destroyed, and nothing is answered or submitted, not even
    for complete requests that the same event delivered. *)
Theorem handleMessage_refines_serve (w : World K) c i :
  w_conn w = Some c -> conn_ok (w_kern w) c -> pending c = [] -> scripts_steady w ->
  reads_as (w_reads w) i -> str_size (c_inputBuffer c ++ input_bytes i) <= LONG_MAX ->
  let '(out, ts, closed, rest) :=
    serve_input (static_of env fs_open fs_fstat w) (c_fd c) (c_inputBuffer c) i in
  exists w' es, handleMessage env fs_open fs_fstat w = (w', Ret tt) /\ w_trace w' = w_trace w ++ es /\
    wire es = out /\ tasks_of es = ts /\
    if closed then w_conn w' = None
    else exists c', w_conn w' = Some c' /\ c_inputBuffer c' = rest /\ pending c' = [] /\
                    conn_ok (w_kern w') c'.
Proof.
  intros E Hok Hp Hs D Hsz. destruct i as [b|].
  2: { destruct (handleMessage_hangs env fs_open fs_fstat w c E D) as (w' & Em & Ec & T). by exists w', [Deleted (c_fd c)]. }
  destruct D as (cs & D & ->). unfold serve_input.
  destruct (handleMessage_run env fs_open fs_fstat w c cs E Hok (steady_scripts_benign w Hs) D Hsz)
    as (w' & es & Em & T & B & C & P). specialize (P Hs Hp).
  destruct (serve _ _ _) as [[[out ts] closed] rest].
  destruct P as [(_ & Hw & Ht & Hpd) Hend]. exists w', es. do 4 (split; [done|]).
  destruct closed; [done|]. destruct Hend as (c' & Ec & Hin). rewrite Ec in *.
  exists c'. by destruct C.
Qed.

(** Pipelining. Kept-alive requests that arrive back to back in one event
    are all answered by that event, each answer complete and in the order of
    the requests. *)
Theorem pipelined_requests_served (w : World K) c ms cs :
  w_conn w = Some c -> conn_ok (w_kern w) c -> pending c = [] -> scripts_steady w ->
  c_inputBuffer c = [] -> Forall wf_request ms -> Forall kept_alive ms ->
  delivers (w_reads w) cs -> mjoin cs = mjoin (wire_request <$> ms) -> str_size (mjoin cs) <= LONG_MAX ->
  exists w' es c', handleMessage env fs_open fs_fstat w = (w', Ret tt) /\ w_trace w' = w_trace w ++ es /\
    (wire es, tasks_of es) = answers (static_of env fs_open fs_fstat w) (c_fd c) ms /\
    w_conn w' = Some c' /\ c_inputBuffer c' = [] /\ pending c' = [].
Proof.
  intros E Hok Hp Hs Hin Hwf Hka D Ecs Hsz.
  destruct (handleMessage_run env fs_open fs_fstat w c cs E Hok (steady_scripts_benign w Hs) D)
    as (w' & es & Em & T & B & C & P); [by rewrite Hin|]. specialize (P Hs Hp).
  assert (length ms < S (length (mjoin (wire_request <$> ms))))%nat as Hlen.
  { clear. induction ms as [|m ms IH]; [simpl; lia|].
    change (mjoin (wire_request <$> m :: ms)) with (wire_request m ++ mjoin (wire_request <$> ms)).
    rewrite length_app. pose proof (wire_request_nonempty m).
    destruct (wire_request m); [done|]. simpl in *. lia. }
  rewrite Hin, Ecs in P. simpl app in P. unfold serve in P. rewrite serve_loop_stream in P by done.
  destruct P as [(_ & Hw & Ht & Hpd) (c' & Ec & Hb)]. rewrite Ec in Hpd.
  exists w', es, c'. split; [done|]. split; [done|]. split; [|done].
  rewrite Hw, Ht. by destruct (answers _ _ ms).
Qed.

(** Memory safety of the read path. As long as no write fails hard, a
    readable event on a live connection never touches a freed object and its
    request loop ends within the buffer's length, whatever partial writes and
    EAGAIN the socket answers; a surviving connection satisfies the
    invariant. *)
Theorem handleMessage_safe (w : World K) c cs :
  w_conn w = Some c -> conn_ok (w_kern w) c -> scripts_benign w ->
  delivers (w_reads w) cs -> str_size (c_inputBuffer c ++ mjoin cs) <= LONG_MAX ->
  exists w', handleMessage env fs_open fs_fstat w = (w', Ret tt) /\
    match w_conn w' with Some c' => conn_ok (w_kern w') c' | None => True end.
Proof.
  intros E Hok Hb D Hsz.
  destruct (handleMessage_run env fs_open fs_fstat w c cs E Hok Hb D Hsz) as (w' & es & Em & T & B & C & _).
  exists w'. split; [done|]. destruct (w_conn w'); [by destruct C | done].
Qed.

(** The database routes do not honour "Connection: close": after a request
    for one of them that is not to be kept alive the connection stays open, and
    what followed the request is left in the buffer unanswered. *)
Theorem db_route_never_closes (w : World K) c cs request headers rest h :
  w_conn w = Some c -> conn_ok (w_kern w) c -> pending c = [] -> scripts_steady w ->
  delivers (w_reads w) cs -> str_size (c_inputBuffer c ++ mjoin cs) <= LONG_MAX ->
  frame (c_inputBuffer c ++ mjoin cs) = Framed request headers rest ->
  wantKeepAlive request headers = false ->
  dbHandler (parseMethod request) (parseUrl request) = Some h ->
  exists w' c', handleMessage env fs_open fs_fstat w = (w', Ret tt) /\ w_conn w' = Some c' /\
    c_inputBuffer c' = rest.
Proof.
  intros E Hok Hp Hs D Hsz F Hka Hd.
  destruct (handleMessage_run env fs_open fs_fstat w c cs E Hok (steady_scripts_benign w Hs) D Hsz)
    as (w' & es & Em & T & B & C & P). specialize (P Hs Hp).
  unfold serve in P. cbn [serve_loop] in P. rewrite F in P. unfold answer in P. rewrite Hka, Hd in P.
  destruct (db_answer (c_fd c) h request false) as [out ts].
  destruct P as [_ (c' & Ec & Hb)]. by exists w', c'.
Qed.

(** C36: use after free. When the write of a kept-alive answer fails hard, the
    connection is destroyed inside [sendResponse] and the loop goes on to read
    its input buffer: the guard after the call only looks at the keep-alive
    flag. *)
Theorem keepalive_write_error_use_after_free (w : World K) c request headers rest e s :
  w_conn w = Some c -> conn_ok (w_kern w) c -> frame (c_inputBuffer c) = Framed request headers rest ->
  wantKeepAlive request headers = true -> dbHandler (parseMethod request) (parseUrl request) = None ->
  parseUrl request <> bs "/" -> w_writes w = Errno e :: s -> e <> EINTR -> e <> EAGAIN ->
  str_size (c_inputBuffer c) <= LONG_MAX ->
  snd (processRequests env fs_open fs_fstat (c_fd c) w) = UseAfterFree.
Proof.
  intros E Hok F Hka Hd Hu Hw He1 He2 Hsz. unfold processRequests. mstep.
  cbn [processRequests_loop]. mstep. rewrite F. do 2 mstep. cbn [negb]. rewrite Hka, Hd.
  rewrite bool_decide_false by done. mstep.
  pose proof (frame_progress _ _ _ _ Hsz F) as Hpr.
  destruct (length (c_inputBuffer c)) as [|n] eqn:L; [lia|].
  set (w1 := set_conn (Some (upd_input rest c)) w).
  assert (exists w2, sendResponse (if false || bool_decide (parseUrl request = bs "/hello") then 200 else 404)
            (bs "text/html") (getResponse (parseUrl request)) true w1 = (w2, Ret tt) /\ w_conn w2 = None)
    as (w2 & Es & Ed).
  { unfold sendResponse. do 2 mstep. unfold writeFromBuffer. do 2 mstep.
    set (w3 := set_conn _ w1). change (w_writes w3) with (w_writes w). rewrite Hw.
    cbn [write_loop]. rewrite decide_True by (unfold buildHttpResponse; simpl; lia).
    destruct (e =? EINTR) eqn:B1; [bool_lia|].
    assert ((e =? EAGAIN) || (e =? EWOULDBLOCK) = false) as ->.
    { unfold EWOULDBLOCK. destruct (e =? EAGAIN) eqn:B2; [bool_lia | done]. }
    do 3 mstep. unfold deleteConnectionCallback. do 2 mstep. by eexists. }
  erewrite bind_ret_eq by exact Es. cbn [negb]. cbn [processRequests_loop].
  unfold bind, get_conn. by rewrite Ed.
Qed.

End Properties.

(** ** Witnesses *)

(** A process with no environment settings and no static file, and a fresh
    connection to which one request arrives. *)
Definition no_env : environment := fun _ => None.
Definition no_file (_ : bytes) : Z := -1.
Definition no_stat (_ : Z) : option (bool * Z) := None.

Definition arriving (d : bytes) : World (gmap Z (nat * Z)) := set_reads [Data d] fresh_world.

Definition hello_request : list bytes * bytes := ([bs "GET /hello HTTP/1.1"; bs "Host: a"], []).
Definition two_requests : bytes := wire_request hello_request ++ wire_request hello_request.

Lemma delivers_one d : d <> [] -> (length d <= 4096)%nat -> delivers [Data d] [d].
Proof. intros. by apply delivers_data; [| |apply delivers_done]. Qed.

Lemma handleMessage_refines_serve_witness :
  let '(out, ts, closed, rest) :=
    serve (-1, 0) 7 (wire_request hello_request ++ bs "GET /he") in
  exists w' es, handleMessage no_env no_file no_stat
                  (arriving (wire_request hello_request ++ bs "GET /he")) = (w', Ret tt) /\
    w_trace w' = w_trace fresh_world ++ es /\ wire es = out /\ tasks_of es = ts /\
    if closed then w_conn w' = None
    else exists c', w_conn w' = Some c' /\ c_inputBuffer c' = rest /\ pending c' = [] /\
                    conn_ok (w_kern w') c'.
Proof.
  apply (handleMessage_refines_serve no_env no_file no_stat
           (arriving (wire_request hello_request ++ bs "GET /he")) fresh_conn
           (Arrived (wire_request hello_request ++ bs "GET /he")));
    [reflexivity | apply fresh_ok | reflexivity | by split | | by vm_compute].
  exists [wire_request hello_request ++ bs "GET /he"]. split; [|symmetry; apply app_nil_r].
  apply delivers_one; [done | vm_compute; lia].
Defined.

Lemma pipelined_requests_served_witness :
  exists w' es c', handleMessage no_env no_file no_stat (arriving two_requests) = (w', Ret tt) /\
    w_trace w' = w_trace fresh_world ++ es /\
    (wire es, tasks_of es) = answers (-1, 0) 7 [hello_request; hello_request] /\
    w_conn w' = Some c' /\ c_inputBuffer c' = [] /\ pending c' = [].
Proof.
  apply (pipelined_requests_served no_env no_file no_stat (arriving two_requests) fresh_conn
           [hello_request; hello_request] [two_requests]);
    [reflexivity | apply fresh_ok | reflexivity | by split | reflexivity | by_decide | by_decide
    | | reflexivity | by vm_compute].
  apply delivers_one; [done | vm_compute; lia].
Defined.

Lemma handleMessage_safe_witness :
  exists w', handleMessage no_env no_file no_stat
      (set_writes [Accept 10; Errno EAGAIN; Accept 3; Errno EAGAIN] (arriving two_requests)) = (w', Ret tt) /\
    match w_conn w' with Some c' => conn_ok (w_kern w') c' | None => True end.
Proof.
  apply (handleMessage_safe no_env no_file no_stat
           (set_writes [Accept 10; Errno EAGAIN; Accept 3; Errno EAGAIN] (arriving two_requests))
           fresh_conn [two_requests]);
    [reflexivity | apply fresh_ok | split; by_decide | | by vm_compute].
  apply delivers_one; [done | vm_compute; lia].
Defined.

Lemma db_route_never_closes_witness :
  let m := ([bs "POST /logout HTTP/1.1"; bs "Connection: close"], bs "") in
  exists w' c', handleMessage no_env no_file no_stat (arriving (wire_request m)) = (w', Ret tt) /\
    w_conn w' = Some c' /\ c_inputBuffer c' = [].
Proof.
  intros m.
  apply (db_route_never_closes no_env no_file no_stat (arriving (wire_request m)) fresh_conn
           [wire_request m] (wire_request m) (header_block m.1) [] HLogout);
    [reflexivity | apply fresh_ok | reflexivity | by split | | by vm_compute
    | vm_compute; reflexivity | vm_compute; reflexivity | vm_compute; reflexivity].
  apply delivers_one; [done | vm_compute; lia].
Defined.

Lemma keepalive_write_error_use_after_free_witness :
  snd (processRequests no_env no_file no_stat 7
    (set_writes [Errno EPIPE] (set_conn (Some (upd_input (wire_request hello_request) fresh_conn)) fresh_world)))
  = UseAfterFree.
Proof.
  apply (keepalive_write_error_use_after_free no_env no_file no_stat
    (set_writes [Errno EPIPE] (set_conn (Some (upd_input (wire_request hello_request) fresh_conn)) fresh_world))
    (upd_input (wire_request hello_request) fresh_conn) (wire_request hello_request)
    (header_block hello_request.1) [] EPIPE []);
    repeat match goal with
      | |- conn_ok _ _ => destruct fresh_ok as [_ []]; by constructor
      | |- _ = _ => vm_compute; reflexivity
      | |- _ <> _ => discriminate
      | |- _ <= _ => by vm_compute
      end.
Defined.

(** The lost bytes on the wire: two pipelined requests, and a socket that takes
    ten bytes of the first answer and then would block. The client sees ten
    bytes of the first answer and then the second one. *)
Example pipelined_answer_overwritten :
  let w := fst (handleMessage no_env no_file no_stat
                  (set_writes [Accept 10; Errno EAGAIN] (arriving two_requests))) in
  let r := buildHttpResponse 200 (bs "text/html") (getResponse (bs "/hello")) true in
  wire (w_trace w) = OByte <$> take 10 r ++ r.
Proof. vm_compute. reflexivity. Qed.
