(* ===== verification/Lifetime.v ===== *)
(** * The whole life of a connection on its reactor (src/Connection.cpp)

    A connection is constructed, receives any number of epoll events and is
    destroyed at some point. The first part is about every such life, whatever
    the system calls answer: the members keep their types (masks are 32-bit, the
    write index is inside its buffer, the file cursor inside the file), and the
    connection is destroyed at most once. The second part adds that no write
    fails hard, and shows that no member is used after that. *)

From S2P Require Import Prelude CppString Config Http Json Channel Framing Connection WritePath ReadPath.

(** ** Lives *)

(** One epoll event: the mask delivered and what the calls made by its handler
    return. *)
Record life_event : Type := mkEvent {
  ev_mask : Z;
  ev_reads : list read_ret;
  ev_writes : list io_ret;
  ev_sends : list io_ret
}.

Section Lives.
Context {K : Type} `{EpollKernel K}.
Context (env : environment) (fs_open : bytes -> Z) (fs_fstat : Z -> option (bool * Z)).

Definition set_scripts (ev : life_event) (w : World K) : World K :=
  set_sends (ev_sends ev) (set_writes (ev_writes ev) (set_reads (ev_reads ev) w)).

(** The events after the construction; a destroyed connection gets no more of
    them, and undefined behaviour ends the run. *)
Fixpoint events (evs : list life_event) : M K unit :=
  match evs with
  | [] => ret tt
  | ev :: evs => fun w =>
      match w_conn w with
      | None => (w, Ret tt)
      | Some _ => bind (dispatch env fs_open fs_fstat (ev_mask ev)) (fun _ => events evs) (set_scripts ev w)
      end
  end.

Definition life (ptr : nat) (fd : Z) (evs : list life_event) : M K unit :=
  bind (new_Connection ptr fd) (fun _ => events evs).

(** ** Invariants of the reactor monad *)

(** [keeps I m Q]: whatever [m] does and however it ends, [I] is kept, and a
    value it returns satisfies [Q]. *)
Definition keeps (I : World K -> Prop) {A} (m : M K A) (Q : A -> Prop) : Prop :=
  forall w, I w -> I (fst (m w)) /\ forall a, snd (m w) = Ret a -> Q a.

Section Rules.
Context (I : World K -> Prop).

Lemma keeps_ret {A} (a : A) (Q : A -> Prop) : Q a -> keeps I (ret a) Q.
Proof. intros Hq w Hi. split; [done|]. by intros a' [= <-]. Qed.

Lemma keeps_bind {A B} (m : M K A) (f : A -> M K B) (P : A -> Prop) (Q : B -> Prop) :
  keeps I m P -> (forall a, P a -> keeps I (f a) Q) -> keeps I (bind m f) Q.
Proof.
  intros Hm Hf w Hi. destruct (Hm w Hi) as [Hi' Hp]. unfold bind.
  destruct (m w) as [w' [a| |]]; simpl in *; [by apply Hf; [apply Hp|] | done..].
Qed.

Lemma keeps_weaken {A} (m : M K A) (P Q : A -> Prop) : (forall a, P a -> Q a) -> keeps I m P -> keeps I m Q.
Proof. intros HPQ Hm w Hi. destruct (Hm w Hi) as [? Hp]. auto. Qed.

Lemma keeps_gets {A} (f : World K -> A) (Q : A -> Prop) : (forall w, I w -> Q (f w)) -> keeps I (gets f) Q.
Proof. intros Hq w Hi. split; [done|]. intros a [= <-]. by apply Hq. Qed.

Lemma keeps_modify f : (forall w, I w -> I (f w)) -> keeps I (modify f) (fun _ => True).
Proof. intros Hf w Hi. split; [by apply Hf | done]. Qed.

Lemma keeps_if {A} (b : bool) (m n : M K A) Q : keeps I m Q -> keeps I n Q -> keeps I (if b then m else n) Q.
Proof. by destruct b. Qed.

End Rules.

(** ** Types *)

Definition u32 (z : Z) : Prop := 0 <= z < 2 ^ 32.
Definition int32 (z : Z) : Prop := - 2 ^ 31 <= z < 2 ^ 31.

(** The static file of the process, once opened. *)
Definition the_file : Z * Z := open_static fs_open fs_fstat (index_path env).

(** The members of a connection on descriptor [fd] have values of their C++
    types, and stay inside what they index. *)
Record conn_typed (fd : Z) (N : nat) (c : Conn) : Prop := {
  ty_fd : c_fd c = fd;
  ty_chan : ch_fd (c_chan c) = fd;
  ty_events : u32 (ch_events (c_chan c));
  ty_revent : u32 (ch_revent (c_chan c));
  ty_index : (c_writeIndex c <= length (c_writeBuf c))%nat;
  ty_input : (length (c_inputBuffer c) <= N)%nat;
  ty_file : 0 <= c_fileFd c ->
    c_fileFd c = the_file.1 /\ 0 <= c_fileOffset c /\
    c_fileOffset c + Z.of_nat (c_fileRemaining c) = the_file.2
}.

Definition is_deleted (e : event) : nat := match e with Deleted _ => 1 | _ => 0 end.
Definition deletions (w : World K) : nat := sum_list_with is_deleted (w_trace w).

(** Events that concern descriptor [d]. *)
Definition about (d : Z) (e : event) : Prop :=
  match e with
  | Sent f _ | SentFile f _ _ _ | Ctl _ f _ | Deleted f => f = d
  | Submitted t => task_fd t = d
  end.

(** What was there before: the registrations of all descriptors, and the trace. *)
Context (others : Z -> option (nat * Z)) (tr0 : list event).

(** A connection that is there has not been deleted, and one that is gone has
    been, once; all that was done concerned its own descriptor. *)
Record life_inv (fd : Z) (N : nat) (w : World K) : Prop := {
  li_once : deletions w = match w_conn w with Some _ => 0%nat | None => 1%nat end;
  li_conn c : w_conn w = Some c -> conn_typed fd N c;
  li_static : w_static w = None \/ w_static w = Some the_file;
  li_count : int32 (w_count w);
  li_frame d : d <> fd -> registered (w_kern w) d = others d;
  li_trace : exists es, w_trace w = tr0 ++ es /\ Forall (about fd) es
}.

(** Changes outside the connection, the cache, the counter, the kernel and the trace. *)
Lemma life_inv_scripts fd N (w w' : World K) :
  life_inv fd N w -> w_conn w' = w_conn w -> w_trace w' = w_trace w -> w_static w' = w_static w ->
  w_count w' = w_count w -> w_kern w' = w_kern w -> life_inv fd N w'.
Proof. intros [] C T St Hn Hk. split; unfold deletions; rewrite ?C, ?T, ?St, ?Hn, ?Hk; done. Qed.

Lemma keeps_get_conn fd N : keeps (life_inv fd N) get_conn (conn_typed fd N).
Proof.
  intros w Hi. unfold get_conn. destruct (w_conn w) as [c|] eqn:E; (split; [done|]); [|done].
  intros a [= <-]. by apply Hi.
Qed.

Lemma keeps_put_conn fd N c : conn_typed fd N c -> keeps (life_inv fd N) (put_conn c) (fun _ => True).
Proof.
  intros Hc w Hi. unfold put_conn. destruct (w_conn w) as [c0|] eqn:E; (split; [|done]); [|done].
  destruct Hi as [O _ Hs Hn Hf Ht]. unfold deletions in O. rewrite E in O.
  split; [exact O | by intros c' [= <-] | done..].
Qed.

Lemma keeps_emit fd N es :
  sum_list_with is_deleted es = 0%nat -> Forall (about fd) es -> keeps (life_inv fd N) (emit es) (fun _ => True).
Proof.
  intros E F w [O Hc Hs Hn Hf (es0 & T & Ft)]. split; [|done]. split; [|done..|].
  - unfold deletions in *. simpl. rewrite sum_list_with_app, E. simpl. rewrite Nat.add_0_r. exact O.
  - exists (es0 ++ es). simpl. rewrite T, app_assoc. split; [done|]. by apply Forall_app.
Qed.

Lemma keeps_delete fd N : keeps (life_inv fd N) (deleteConnectionCallback fd) (fun _ => True).
Proof.
  intros w Hi. unfold deleteConnectionCallback, bind, get_conn.
  destruct (w_conn w) as [c|] eqn:E; (split; [|done]); [|done].
  destruct Hi as [O _ Hs Hn Hf (es0 & T & Ft)]. split; [|done..|].
  - unfold deletions in *. simpl. rewrite sum_list_with_app. simpl. rewrite E in O. rewrite O. done.
  - exists (es0 ++ [Deleted fd]). simpl. rewrite T, app_assoc. split; [done|]. apply Forall_app.
    split; [done|]. by constructor.
Qed.

Lemma keeps_time fd N : keeps (life_inv fd N) (@time K) (fun _ => True).
Proof.
  intros w Hi. split; [|done]. unfold time. destruct (w_clock w) as [|t [|t' ts]]; [done..|].
  by eapply life_inv_scripts.
Qed.

(** *** Channel operations keep the mask a [uint32_t] *)

Lemma u32_bits z n : u32 z -> 32 <= n -> Z.testbit z n = false.
Proof.
  intros [H0 H1] Hn. destruct (decide (z = 0)) as [->|]; [apply Z.bits_0|].
  apply Z.bits_above_log2; [done|]. apply Z.lt_le_trans with 32; [apply Z.log2_lt_pow2; lia | lia].
Qed.

Lemma bits_u32 z : 0 <= z -> (forall n, 32 <= n -> Z.testbit z n = false) -> u32 z.
Proof.
  intros H0 Hb. split; [done|]. destruct (decide (z < 2 ^ 32)) as [|G]; [done|]. exfalso.
  assert (32 <= Z.log2 z) as L by (apply Z.log2_le_pow2; lia).
  pose proof (Hb (Z.log2 z) L) as B. rewrite Z.bit_log2 in B by lia. done.
Qed.

Lemma u32_lor a b : u32 a -> u32 b -> u32 (Z.lor a b).
Proof.
  intros Ha Hb. apply bits_u32; [apply Z.lor_nonneg; split; [apply Ha | apply Hb]|].
  intros n Hn. by rewrite Z.lor_spec, !u32_bits.
Qed.

Lemma u32_land a b : u32 a -> u32 (Z.land a b).
Proof.
  intros Ha. apply bits_u32; [apply Z.land_nonneg; left; apply Ha|].
  intros n Hn. by rewrite Z.land_spec, u32_bits.
Qed.

(** A mask operation on the channel: registration changes nothing else. *)
Lemma updateChannel_chan (k : K) ch :
  snd (fst (updateChannel k ch)) = ch \/ snd (fst (updateChannel k ch)) = setInEpoll ch.
Proof.
  unfold updateChannel. destruct (negb (ch_inEpoll ch)).
  - destruct (epoll_ctl k EPOLL_CTL_ADD _ _) as [k1 e]. destruct (negb (e =? 0) && (e =? EEXIST)); [|by right].
    destruct (epoll_ctl k1 _ _ _). by right.
  - destruct (epoll_ctl _ _ _ _). by left.
Qed.

(** It touches no other descriptor. *)
Lemma updateChannel_frame (k : K) ch d :
  d <> ch_fd ch -> registered (fst (fst (updateChannel k ch))) d = registered k d.
Proof.
  intros Nd. unfold updateChannel. destruct (negb (ch_inEpoll ch)).
  - destruct (epoll_ctl k EPOLL_CTL_ADD _ _) as [k1 e] eqn:E1. pose proof (ctl_frame _ _ _ _ _ _ d E1 Nd) as F1.
    destruct (negb (e =? 0) && (e =? EEXIST)); [|done].
    destruct (epoll_ctl k1 _ _ _) as [k2 e2] eqn:E2. simpl. by rewrite (ctl_frame _ _ _ _ _ _ d E2 Nd).
  - destruct (epoll_ctl _ _ _ _) as [k1 e] eqn:E1. by apply (ctl_frame _ _ _ _ _ _ d E1 Nd).
Qed.

Lemma updateChannel_about (k : K) ch :
  Forall (about (ch_fd ch)) ((fun '(o, d, m) => Ctl o d m) <$> snd (updateChannel k ch)).
Proof.
  unfold updateChannel. destruct (negb (ch_inEpoll ch)).
  - destruct (epoll_ctl k EPOLL_CTL_ADD _ _) as [k1 e].
    destruct (negb (e =? 0) && (e =? EEXIST)); [destruct (epoll_ctl k1 _ _ _)|]; by repeat constructor.
  - destruct (epoll_ctl _ _ _ _). by repeat constructor.
Qed.

Definition mask_op (op : K -> Channel -> K * Channel * list (ctl_op * Z * Z)) : Prop :=
  exists f, (forall m, u32 m -> u32 (f m)) /\
            forall k ch, op k ch = updateChannel k (set_events (f (ch_events ch)) ch).

Lemma enableWriting_op : mask_op enableWriting.
Proof. exists (fun m => Z.lor m EPOLLOUT). split; [|done]. intros m Hm. by apply u32_lor; [|split]. Qed.
Lemma disableWriting_op : mask_op disableWriting.
Proof. exists (fun m => Z.land m (mask_not EPOLLOUT)). split; [|done]. intros m Hm. by apply u32_land. Qed.
Lemma enableReadingET_op : mask_op enableReadingET.
Proof. exists (fun m => Z.lor m read_mask). split; [|done]. intros m Hm. by apply u32_lor; [|split]. Qed.

Lemma ctl_not_deleted cs :
  sum_list_with is_deleted ((fun '(o, d, m) => Ctl o d m) <$> cs) = 0%nat.
Proof. induction cs as [|[[o d] m] cs IH]; [done|]. exact IH. Qed.

Lemma keeps_on_channel fd N op : mask_op op -> keeps (life_inv fd N) (on_channel op) (fun _ => True).
Proof.
  intros (f & Hf & Hop). unfold on_channel. eapply keeps_bind; [apply keeps_get_conn|]. intros c Hc.
  eapply keeps_bind.
  { apply (keeps_gets _ _ (fun k => forall d, d <> fd -> registered k d = others d)). intros w Hi. apply Hi. }
  intros k Hk. rewrite Hop. set (ch := set_events (f (ch_events (c_chan c))) (c_chan c)).
  pose proof (updateChannel_chan k ch) as Hch. pose proof (updateChannel_about k ch) as Hab.
  assert (forall d, d <> fd -> registered (fst (fst (updateChannel k ch))) d = others d) as Hfr.
  { intros d Nd. rewrite updateChannel_frame; [by apply Hk|]. unfold ch. simpl. by rewrite (ty_chan _ _ _ Hc). }
  change (ch_fd ch) with (ch_fd (c_chan c)) in Hab. rewrite (ty_chan _ _ _ Hc) in Hab. unfold ch in *. clear ch.
  destruct (updateChannel _ _) as [[k' ch'] calls]. simpl in Hch, Hab, Hfr.
  eapply keeps_bind.
  { apply keeps_modify. intros w []. by split. }
  intros _ _. eapply keeps_bind; [apply keeps_emit; [apply ctl_not_deleted | done]|]. intros _ _.
  apply keeps_put_conn. destruct Hc as [E1 E2 E3 E4 E5 E6 E7]. apply Hf in E3.
  destruct Hch as [-> | ->]; by split.
Qed.

(** *** Every member function keeps the types *)

Definition any {A : Type} (_ : A) : Prop := True.

(** [fstat] reports sizes that are not negative. *)
Context (sizes : forall fd reg size, fs_fstat fd = Some (reg, size) -> 0 <= size).

Lemma the_file_size : 0 <= the_file.2.
Proof.
  unfold the_file, open_static. destruct (0 <=? fs_open _); [|done].
  destruct (fs_fstat _) as [[[|] size]|] eqn:E; [by eapply sizes | done | done].
Qed.

Section Keeping.
Context (fd : Z) (N : nat).
Notation Keeps m := (keeps (life_inv fd N) m any).

Lemma keeps_scripts (f : World K -> World K) :
  (forall w, w_conn (f w) = w_conn w /\ w_trace (f w) = w_trace w /\ w_static (f w) = w_static w /\
             w_count (f w) = w_count w /\ w_kern (f w) = w_kern w) -> Keeps (modify f).
Proof.
  intros E. apply keeps_modify. intros w Hi. destruct (E w) as (? & ? & ? & ? & ?). by eapply life_inv_scripts.
Qed.

Lemma keeps_read {A} (f : World K -> A) : Keeps (gets f).
Proof. by apply keeps_gets. Qed.

Lemma keeps_then {A B} (m : M K A) (f : A -> M K B) Q :
  Keeps m -> (forall a, keeps (life_inv fd N) (f a) Q) -> keeps (life_inv fd N) (bind m f) Q.
Proof. intros Hm Hf. by eapply keeps_bind. Qed.

Lemma keeps_with_conn {B} (f : Conn -> M K B) Q :
  (forall c, conn_typed fd N c -> keeps (life_inv fd N) (f c) Q) -> keeps (life_inv fd N) (bind get_conn f) Q.
Proof. intros Hf. eapply keeps_bind; [apply keeps_get_conn | done]. Qed.

Lemma keeps_done {A} (a : A) : Keeps (ret a).
Proof. by apply keeps_ret. Qed.

Lemma sent_not_deleted d b : sum_list_with is_deleted (sent_event d b) = 0%nat.
Proof. by destruct b. Qed.
Lemma sentfile_not_deleted d f off n : sum_list_with is_deleted (sentfile_event d f off n) = 0%nat.
Proof. by destruct n. Qed.

Lemma sent_about b : Forall (about fd) (sent_event fd b).
Proof. destruct b; by repeat constructor. Qed.
Lemma sentfile_about f off n : Forall (about fd) (sentfile_event fd f off n).
Proof. destruct n; by repeat constructor. Qed.

Create HintDb keeps.
Hint Resolve keeps_done keeps_read keeps_delete keeps_time keeps_on_channel keeps_put_conn
  enableWriting_op disableWriting_op enableReadingET_op : keeps.
Hint Resolve keeps_emit sent_not_deleted sentfile_not_deleted sent_about sentfile_about : keeps.
Hint Extern 1 (keeps _ (modify _) _) => apply keeps_scripts; by repeat split : keeps.

(** Go through a sequence of actions. *)
Ltac keeping :=
  repeat first
    [ progress cbv beta
    | apply keeps_with_conn; intros
    | apply keeps_then; [solve [eauto with keeps] | intros ] ];
  eauto with keeps.

Lemma keeps_write_done : Keeps (write_done fd).
Proof.
  unfold write_done. apply keeps_with_conn. intros c Hc. apply keeps_then.
  { apply keeps_put_conn. destruct Hc. split; simpl; try done; lia. }
  intros _. keeping. destruct (c_closeAfterWrite _); eauto with keeps.
Qed.

Lemma keeps_write_file : Keeps (write_file fd).
Proof.
  unfold write_file. apply keeps_with_conn. intros c Hc. apply keeps_then; [eauto with keeps|]. intros sends.
  destruct (if 0 <=? c_fileFd c then _ else _) as [[s' n] o] eqn:E.
  assert (n <= c_fileRemaining c)%nat as B.
  { destruct (0 <=? c_fileFd c); [|simplify_eq; lia]. apply write_loop_spec in E as (? & _); lia. }
  do 2 (apply keeps_then; [eauto with keeps|]; intros _). apply keeps_then.
  { apply keeps_put_conn. destruct Hc as [? ? ? ? ? ? F]. split; simpl; try done. intros P.
    destruct (F P) as (? & ? & ?). repeat split; [done | lia | lia]. }
  intros _. destruct o; eauto with keeps. apply keeps_write_done.
Qed.

Lemma keeps_writeFromBuffer : Keeps writeFromBuffer.
Proof.
  unfold writeFromBuffer. apply keeps_with_conn. intros c Hc. rewrite (ty_fd _ _ _ Hc).
  apply keeps_then; [eauto with keeps|]. intros s.
  destruct (write_loop _ _ _) as [[s' i] o] eqn:E.
  assert (i <= length (c_writeBuf c))%nat as B.
  { apply write_loop_spec in E as (? & _); [lia | apply Hc]. }
  do 2 (apply keeps_then; [eauto with keeps|]; intros _). apply keeps_then.
  { apply keeps_put_conn. destruct Hc. by split. }
  intros _. destruct o; eauto with keeps. apply keeps_write_file.
Qed.
Hint Resolve keeps_writeFromBuffer : keeps.

Lemma keeps_handleWrite : Keeps handleWrite.
Proof. unfold handleWrite. keeping. apply keeps_if; eauto with keeps. Qed.

Lemma keeps_sendResponse k ct body ka : Keeps (sendResponse k ct body ka).
Proof.
  unfold sendResponse. apply keeps_with_conn. intros c Hc. apply keeps_then; [|eauto with keeps].
  apply keeps_put_conn. destruct Hc. split; simpl; try done; lia.
Qed.

Lemma keeps_getStaticFd :
  keeps (life_inv fd N) (getStaticFd fs_open fs_fstat (index_path env))
    (fun r => r = (0 <=? the_file.1, the_file.1, the_file.2)).
Proof.
  unfold getStaticFd. eapply keeps_bind.
  { apply (keeps_gets _ _ (fun cached => cached = None \/ cached = Some the_file)). intros w Hi. apply Hi. }
  intros cached Hc. eapply (keeps_bind _ _ _ (fun fs => fs = the_file)).
  - destruct Hc as [-> | ->]; [|by apply keeps_ret]. fold the_file. apply keeps_then; [|by intros; apply keeps_ret].
    apply keeps_modify. intros w []. split; try done. by right.
  - intros fs ->. destruct the_file as [f size]. by apply keeps_ret.
Qed.

Lemma keeps_sendFile k ct ka : Keeps (sendFile fs_open fs_fstat k ct (index_path env) ka).
Proof.
  unfold sendFile. eapply keeps_bind; [apply keeps_getStaticFd|]. intros r ->.
  pose proof the_file_size as Sz. destruct the_file as [f size] eqn:E. simpl in Sz.
  apply keeps_if; [eauto with keeps|]. apply keeps_with_conn. intros c Hc. apply keeps_then; [|intros _; keeping].
  apply keeps_put_conn. destruct Hc. split; simpl; try done; [lia|]. rewrite E. simpl. intros _. lia.
Qed.

Lemma keeps_sendHttpResponse k ct body ka : Keeps (sendHttpResponse fd k ct body ka).
Proof.
  unfold sendHttpResponse. apply keeps_then; [eauto with keeps|]. intros s.
  destruct (write_loop _ _ _) as [[s' n] o]. keeping.
Qed.

Lemma keeps_sendJson k body ka : Keeps (sendJson fd k body ka).
Proof. apply keeps_sendHttpResponse. Qed.
Hint Resolve keeps_sendResponse keeps_sendJson : keeps.

Lemma keeps_checkCredentials ka u p : Keeps (checkCredentials fd ka u p).
Proof. unfold checkCredentials. repeat apply keeps_if; keeping. Qed.

Lemma keeps_submit t : task_fd t = fd -> Keeps (submit t).
Proof.
  intros E. unfold submit. apply keeps_with_conn. intros c Hc. apply keeps_emit; [done|]. by constructor.
Qed.
Hint Resolve keeps_checkCredentials keeps_submit : keeps.

Lemma keeps_run_handler h request ka : Keeps (run_handler h request fd ka).
Proof.
  destruct h; simpl; [unfold handleRegister | unfold handleLogin | unfold handleLogout | unfold handleProfile];
    keeping; apply keeps_if; eauto with keeps.
Qed.

Lemma keeps_allowRequest limit : Keeps (allowRequest_limit limit).
Proof.
  unfold allowRequest_limit. apply keeps_if; [eauto with keeps|].
  apply keeps_then; [apply keeps_time|]. intros now. apply keeps_then; [eauto with keeps|]. intros win.
  apply keeps_then.
  { apply keeps_if; [|eauto with keeps]. apply keeps_modify. intros w []. by split. }
  intros _. apply keeps_then; [eauto with keeps|]. intros n. apply keeps_then; [eauto with keeps|]. intros win'.
  apply keeps_then; [|intros _; eauto with keeps].
  apply keeps_modify. intros w []. split; try done. by apply (wrap_s_range 32).
Qed.

Lemma keeps_processRequests_loop fuel : Keeps (processRequests_loop env fs_open fs_fstat fuel fd).
Proof.
  induction fuel as [|f IH]; cbn [processRequests_loop]; [by intros w Hi|].
  apply keeps_with_conn. intros c Hc.
  assert (forall b, (length b <= N)%nat -> conn_typed fd N (upd_input b c)) as Hin by (intros b ?; destruct Hc; by split).
  destruct (frame (c_inputBuffer c)) as [| | |request headers rest] eqn:Ef; [eauto with keeps|..].
  1,2: by apply keeps_then; [apply keeps_put_conn, Hin; simpl; lia | intros; apply keeps_sendResponse].
  apply frame_rest_le in Ef. pose proof (ty_input _ _ _ Hc) as Hl.
  assert (conn_typed fd N (upd_input rest c)) by (apply Hin; lia).
  apply keeps_then; [eauto with keeps|]. intros _. cbv zeta.
  assert (Keeps (if negb (wantKeepAlive request headers) then ret tt
                 else processRequests_loop env fs_open fs_fstat f fd)) as Hn.
  { apply keeps_if; eauto with keeps. }
  apply keeps_then; [apply keeps_allowRequest|]. intros allowed.
  apply keeps_if; [by apply keeps_then; [eauto with keeps|]|].
  destruct (dbHandler _ _) as [h|]; [by apply keeps_then; [apply keeps_run_handler|]|].
  apply keeps_then; [apply keeps_if; [apply keeps_sendFile | eauto with keeps]|]. intros sent.
  apply keeps_if; [done|]. by apply keeps_then; [eauto with keeps|].
Qed.

Lemma keeps_processRequests : Keeps (processRequests env fs_open fs_fstat fd).
Proof. unfold processRequests. apply keeps_with_conn. intros c' _. apply keeps_processRequests_loop. Qed.

End Keeping.

(** The bytes a read script can deliver. *)
Definition read_bytes (s : list read_ret) : nat :=
  sum_list_with (fun r => match r with Data d => length d | _ => 0%nat end) s.

Lemma read_loop_bytes s buf s' b o :
  read_loop s buf = (s', b, o) -> (length b <= length buf + read_bytes s)%nat.
Proof.
  revert buf. induction s as [|[d|e] s IH]; intros buf; cbn [read_loop].
  - intros [= <- <- <-]. simpl. lia.
  - case_decide.
    + intros E%IH. rewrite length_app, length_take in E. unfold read_bytes in *. simpl. lia.
    + intros [= <- <- <-]. lia.
  - unfold read_bytes in *. simpl in *. destruct (e =? EINTR); [by intros ?%IH|].
    destruct (_ || _); intros [= <- <- <-]; lia.
Qed.

Lemma life_inv_more fd N M w : (N <= M)%nat -> life_inv fd N w -> life_inv fd M w.
Proof.
  intros L []. split; try done. intros c C. destruct (li_conn0 c C). split; try done. lia.
Qed.

(** A readable event adds at most the bytes that were there to read. *)
Lemma handleMessage_inv fd N (w : World K) :
  life_inv fd N w -> life_inv fd (N + read_bytes (w_reads w)) (fst (handleMessage env fs_open fs_fstat w)).
Proof.
  intros Hi. unfold handleMessage, bind at 1, get_conn. destruct (w_conn w) as [c|] eqn:E.
  2: { simpl. eapply life_inv_more; [|done]. lia. }
  destruct (time_same env fs_open fs_fstat w) as (w0 & now & Et & Ec & Ek & Er & _ & _ & Etr & _).
  assert (w_static w0 = w_static w /\ w_count w0 = w_count w) as [Es En].
  { revert Et. unfold time. destruct (w_clock w) as [|t [|t' ts]]; by intros [= <- _]. }
  unfold bind at 1. rewrite Et. unfold bind at 1, gets. rewrite Er.
  destruct (read_loop _ _) as [[s' b] o] eqn:R. apply read_loop_bytes in R.
  unfold bind at 1, modify. unfold bind at 1, put_conn. cbn [w_conn set_reads]. rewrite Ec, E.
  set (w1 := set_conn (Some (upd_input b (upd_active now c))) (set_reads s' w0)).
  assert (life_inv fd (N + read_bytes (w_reads w)) w1) as I1.
  { destruct Hi as [O C S1 S2 S3 S4]. destruct (C c E). unfold deletions in *. rewrite E in O.
    split; unfold deletions; simpl; rewrite ?Etr, ?Es, ?En, ?Ek; try done.
    intros c' [= <-]. split; simpl; try done. lia. }
  rewrite (ty_fd _ _ _ (li_conn _ _ _ Hi c E)). destruct o; [apply keeps_processRequests | apply keeps_delete..]; exact I1.
Qed.

Lemma dispatch_inv fd N revents (w : World K) :
  u32 revents -> life_inv fd N w ->
  life_inv fd (N + read_bytes (w_reads w)) (fst (dispatch env fs_open fs_fstat revents w)).
Proof.
  intros Hr Hi. unfold dispatch, bind at 1, get_conn. destruct (w_conn w) as [c|] eqn:E.
  2: { simpl. eapply life_inv_more; [|done]. lia. }
  unfold bind at 1, put_conn. rewrite E. set (w1 := set_conn _ w).
  assert (life_inv fd N w1) as I1.
  { destruct (keeps_put_conn fd N (upd_chan (setRevents revents (c_chan c)) c)) with (w := w) as [I1 _]; [|done|].
    - destruct (li_conn _ _ _ Hi c E). by split.
    - unfold put_conn in I1. by rewrite E in I1. }
  destruct (handleEvent _) as [[]|].
  - exact (handleMessage_inv fd N w1 I1).
  - eapply (life_inv_more _ N); [lia|]. by apply keeps_handleWrite.
  - eapply (life_inv_more _ N); [lia | done].
  - eapply (life_inv_more _ N); [lia | done].
Qed.

Definition all_bytes (evs : list life_event) : nat := sum_list_with (fun ev => read_bytes (ev_reads ev)) evs.

Lemma events_inv fd evs N (w : World K) :
  Forall (fun ev => u32 (ev_mask ev)) evs -> life_inv fd N w ->
  life_inv fd (N + all_bytes evs) (fst (events evs w)).
Proof.
  intros F. revert N w. induction F as [|ev evs Hm F IH]; intros N w Hi.
  { eapply life_inv_more; [|exact Hi]. simpl. lia. }
  cbn [events]. destruct (w_conn w) as [c|] eqn:E; [|eapply life_inv_more; [|exact Hi]; lia].
  assert (life_inv fd N (set_scripts ev w)) as I1 by (by eapply life_inv_scripts).
  pose proof (dispatch_inv fd N _ _ Hm I1) as I2. unfold bind.
  replace (N + all_bytes (ev :: evs))%nat with ((N + read_bytes (ev_reads ev)) + all_bytes evs)%nat
    by (unfold all_bytes; simpl; lia).
  destruct (dispatch _ _ _ _ _) as [w' [u| |]]; simpl in *.
  - apply IH. exact I2.
  - eapply life_inv_more; [|exact I2]. lia.
  - eapply life_inv_more; [|exact I2]. lia.
Qed.

(** The constructor, on a world without earlier deletions. *)
Lemma new_Connection_inv ptr fd (w : World K) :
  deletions w = 0%nat -> (w_static w = None \/ w_static w = Some the_file) -> int32 (w_count w) ->
  (forall d, d <> fd -> registered (w_kern w) d = others d) -> w_trace w = tr0 ->
  exists w', new_Connection ptr fd w = (w', Ret tt) /\ life_inv fd 0 w' /\ w_conn w' <> None.
Proof.
  intros D Hs Hn Hf Ht. unfold new_Connection. unfold bind at 1.
  set (w0 := fst (time w)). assert (time w = (w0, Ret (match w_clock w with t :: _ => t | [] => 0 end))) as ->.
  { unfold w0, time. by destruct (w_clock w) as [|t [|t' ts]]. }
  assert (w_trace w0 = w_trace w /\ w_static w0 = w_static w /\ w_count w0 = w_count w /\ w_kern w0 = w_kern w)
    as (T & St & Cn & Kn).
  { unfold w0, time. by destruct (w_clock w) as [|t [|t' ts]]. }
  unfold bind at 1, modify. set (c := mkConn _ _ _ _ _ _ _ _ _ _). set (w1 := set_conn (Some c) w0).
  assert (life_inv fd 0 w1) as I1.
  { split; [|intros c' [= <-]; by split | by simpl; rewrite St | by simpl; rewrite Cn | by simpl; rewrite Kn
            | exists []; simpl; by rewrite T, Ht, app_nil_r].
    unfold deletions in *. simpl. by rewrite T. }
  destruct (keeps_on_channel fd 0 _ enableReadingET_op w1 I1) as [I2 _].
  assert (exists w2, on_channel enableReadingET w1 = (w2, Ret tt) /\ w_conn w2 <> None) as (w2 & E & N).
  { unfold on_channel. do 2 mstep. destruct (enableReadingET _ _) as [[k' ch'] calls]. do 2 mstep.
    erewrite put_conn_some by reflexivity. by eexists. }
  rewrite E in I2. by exists w2.
Qed.

(** ** Safety *)

Definition live_ok (w : World K) : Prop :=
  match w_conn w with Some c => conn_ok (w_kern w) c | None => True end.

(** [m] returns, and the connection satisfies its invariant if it is still
    there. *)
Definition safe (m_w : World K * res unit) : Prop := snd m_w = Ret tt /\ live_ok (fst m_w).

Lemma run_ok_safe m_w w c spec : run_ok m_w w c spec -> safe m_w.
Proof.
  intros (w' & es & -> & _ & _ & C & _). split; [done|]. unfold live_ok. simpl.
  destruct (w_conn w'); [by destruct C | done].
Qed.

Lemma handleWrite_safe (w : World K) c : w_conn w = Some c -> conn_ok (w_kern w) c -> safe (handleWrite w).
Proof.
  intros E Hok. unfold handleWrite. mstep. destruct (_ || _).
  - destruct (writeFromBuffer_spec w c E Hok) as (w' & es & -> & _ & _ & _ & P & _). split; [done|].
    unfold write_post in P. unfold live_ok. simpl. destruct (w_conn w'); [by destruct P | done].
  - destruct (on_channel_disable w c E Hok) as (k' & -> & M'). split; [done|].
    unfold live_ok. simpl. destruct Hok. constructor; auto.
Qed.

Lemma handleMessage_any_reads (w : World K) c :
  w_conn w = Some c -> conn_ok (w_kern w) c -> scripts_benign w ->
  Z.of_nat (length (c_inputBuffer c) + read_bytes (w_reads w)) <= LONG_MAX ->
  safe (handleMessage env fs_open fs_fstat w).
Proof.
  intros E Hok Hb Hsz. unfold handleMessage. mstep.
  destruct (time_same env fs_open fs_fstat w) as (w0 & now & Et & Ec & Ek & Er & Ew & Es & _ & _).
  do 2 mstep. rewrite Er. destruct (read_loop _ _) as [[s' b] o] eqn:R. apply read_loop_bytes in R.
  mstep. rewrite <- Ec in E. set (c1 := upd_input b (upd_active now c)).
  erewrite bind_ret_eq by (eapply put_conn_some; exact E).
  set (w1 := set_conn (Some c1) (set_reads s' w0)).
  assert (conn_ok (w_kern w1) c1) as Hok1 by (simpl; rewrite Ek; destruct Hok; by constructor).
  assert (scripts_benign w1) as Hb1 by (unfold scripts_benign; simpl; by rewrite Ew, Es).
  destruct o; [|by unfold deleteConnectionCallback, bind, get_conn..].
  eapply run_ok_safe, (processRequests_run env fs_open fs_fstat w1 c1); try done.
  unfold str_size. simpl. lia.
Qed.

Lemma dispatch_safe (w : World K) c revents :
  w_conn w = Some c -> conn_ok (w_kern w) c -> scripts_benign w ->
  Z.of_nat (length (c_inputBuffer c) + read_bytes (w_reads w)) <= LONG_MAX ->
  safe (dispatch env fs_open fs_fstat revents w).
Proof.
  intros E Hok Hb Hsz. unfold dispatch. do 2 mstep.
  set (c1 := upd_chan (setRevents revents (c_chan c)) c). set (w1 := set_conn (Some c1) w).
  assert (conn_ok (w_kern w1) c1) as Hok1 by (destruct Hok; by constructor).
  destruct (handleEvent _) as [[]|]; [by apply (handleMessage_any_reads w1 c1) |
    by apply (handleWrite_safe w1 c1) | by split; [|exact Hok1]..].
Qed.

Definition ev_benign (ev : life_event) : Prop := Forall benign (ev_writes ev) /\ Forall benign (ev_sends ev).

Lemma events_safe fd evs N (w : World K) :
  Forall (fun ev => u32 (ev_mask ev)) evs -> Forall ev_benign evs -> life_inv fd N w -> live_ok w ->
  Z.of_nat (N + all_bytes evs) <= LONG_MAX -> safe (events evs w).
Proof.
  intros Fm. revert N w. induction Fm as [|ev evs Hm Fm IH]; intros N w Fb Hi Hl Hsz; [done|].
  apply Forall_cons in Fb as [Hb Fb]. cbn [events]. destruct (w_conn w) as [c|] eqn:E; [|done].
  unfold all_bytes in Hsz. simpl in Hsz. fold (all_bytes evs) in Hsz.
  unfold live_ok in Hl. rewrite E in Hl. pose proof (ty_input _ _ _ (li_conn _ _ _ Hi c E)) as Hn.
  assert (life_inv fd N (set_scripts ev w)) as I1 by (by eapply life_inv_scripts).
  pose proof (dispatch_inv fd N _ _ Hm I1) as I2.
  assert (safe (dispatch env fs_open fs_fstat (ev_mask ev) (set_scripts ev w))) as [S1 S2].
  { apply (dispatch_safe _ c); try done. simpl. lia. }
  unfold bind. destruct (dispatch _ _ _ _ _) as [w' r]. simpl in S1. subst r.
  apply (IH (N + read_bytes (ev_reads ev))%nat); try done. lia.
Qed.

End Lives.

(** ** Properties *)

Section Properties.
Context {K : Type} `{EpollKernel K}.
Context (env : environment) (fs_open : bytes -> Z) (fs_fstat : Z -> option (bool * Z)).
Context (sizes : forall fd reg size, fs_fstat fd = Some (reg, size) -> 0 <= size).
Notation the_file := (the_file env fs_open fs_fstat).
Notation life := (life env fs_open fs_fstat).

(** The life after the construction, with the invariant. *)
Lemma life_run ptr fd evs (w : World K) :
  deletions w = 0%nat -> (w_static w = None \/ w_static w = Some the_file) -> int32 (w_count w) ->
  Forall (fun ev => u32 (ev_mask ev)) evs ->
  life_inv env fs_open fs_fstat (registered (w_kern w)) (w_trace w) fd (all_bytes evs) (fst (life ptr fd evs w)).
Proof.
  intros D Hs Hn F.
  destruct (new_Connection_inv env fs_open fs_fstat (registered (w_kern w)) (w_trace w) ptr fd w D Hs Hn)
    as (w1 & E & I1 & _); [done..|].
  pose proof (events_inv env fs_open fs_fstat _ _ sizes fd evs 0 w1 F I1) as I2.
  unfold Lifetime.life. by rewrite (bind_ret_eq _ (fun _ => events env fs_open fs_fstat evs) _ _ _ E).
Qed.

(** C16: every life is well typed. Whatever masks the kernel delivers and
    whatever each read, write and sendfile answers, hard errors and undefined
    behaviour included: the connection that a life leaves behind has its masks
    within 32 bits, its write index within its buffer, no more input than was
    read, and a file cursor that stays inside the one static file; a life
    destroys its connection at most once, and does so exactly when the
    connection is gone; the request counter is an [int]. *)
Theorem life_well_typed ptr fd evs (w : World K) :
  deletions w = 0%nat -> (w_static w = None \/ w_static w = Some the_file) -> int32 (w_count w) ->
  Forall (fun ev => u32 (ev_mask ev)) evs ->
  let w' := fst (life ptr fd evs w) in
  (forall c, w_conn w' = Some c -> conn_typed env fs_open fs_fstat fd (all_bytes evs) c) /\
  (deletions w' <= 1)%nat /\ (w_conn w' = None <-> deletions w' = 1%nat) /\ int32 (w_count w').
Proof.
  intros D Hs Hn F w'. destruct (life_run ptr fd evs w D Hs Hn F) as [O C _ N _ _]. fold w' in O, C, N.
  split; [exact C|]. rewrite O. destruct (w_conn _); (split; [lia | by split]).
Qed.

(** C11: connections are isolated. Whatever the kernel delivers and the calls
    answer, all that a connection writes, registers, closes and submits in its
    whole life is on its own descriptor, and the epoll registrations of all other
    descriptors are as they were. *)
Theorem life_isolated ptr fd evs (w : World K) :
  deletions w = 0%nat -> (w_static w = None \/ w_static w = Some the_file) -> int32 (w_count w) ->
  Forall (fun ev => u32 (ev_mask ev)) evs ->
  let w' := fst (life ptr fd evs w) in
  (exists es, w_trace w' = w_trace w ++ es /\ Forall (about fd) es) /\
  forall d, d <> fd -> registered (w_kern w') d = registered (w_kern w) d.
Proof. intros D Hs Hn F w'. destruct (life_run ptr fd evs w D Hs Hn F) as [_ _ _ _ Fr Tr]. by split. Qed.

(** C10: memory safety of a whole life. When the registration of the new
    connection succeeds and no write fails hard, a life of any events, with any
    masks, any reads (data, end of file, errors), partial writes and EAGAIN,
    runs to its end: no member of the destroyed connection is used, every
    request loop terminates, and a connection that survives is registered with
    the kernel as its channel says. *)
Theorem life_safe ptr fd evs (w : World K) :
  deletions w = 0%nat -> (w_static w = None \/ w_static w = Some the_file) -> int32 (w_count w) ->
  snd (epoll_ctl (w_kern w) EPOLL_CTL_ADD fd (ptr, read_mask)) = 0 \/ registered (w_kern w) fd <> None ->
  Forall (fun ev => u32 (ev_mask ev)) evs -> Forall ev_benign evs ->
  Z.of_nat (all_bytes evs) <= LONG_MAX ->
  exists w', life ptr fd evs w = (w', Ret tt) /\
    match w_conn w' with Some c => conn_ok (w_kern w') c | None => True end.
Proof.
  intros D Hs Hn A F B Hsz.
  destruct (new_Connection_inv env fs_open fs_fstat (registered (w_kern w)) (w_trace w) ptr fd w D Hs Hn)
    as (w1 & E & I1 & _); [done..|].
  destruct (new_Connection_spec w ptr fd A) as (w2 & c & E2 & C2 & Hok & _).
  rewrite E in E2. injection E2 as <-.
  assert (live_ok w1) as L by (unfold live_ok; by rewrite C2).
  destruct (events_safe env fs_open fs_fstat _ _ sizes fd evs 0 w1 F B I1 L Hsz) as [S1 S2].
  exists (fst (events env fs_open fs_fstat evs w1)). unfold Lifetime.life.
  rewrite (bind_ret_eq _ (fun _ => events env fs_open fs_fstat evs) _ _ _ E).
  destruct (events _ _ _ evs w1) as [w' r]. simpl in *. by subst r.
Qed.

End Properties.

(** ** Witnesses *)

(** A life of four events: half a request, the rest of it on a socket that
    takes ten bytes and blocks, a writable event, end of file. *)
Definition empty_world : World (gmap Z (nat * Z)) := mkWorld None ∅ [] [] [] [100; 101] 0 0 None [].

Definition four_events : list life_event :=
  [ mkEvent EPOLLIN [Data (bs "GET /hello HTTP/1.1")] [] [];
    mkEvent EPOLLIN [ReadErrno EINTR; Data (CRLF ++ CRLF)] [Accept 10; Errno EAGAIN] [];
    mkEvent EPOLLOUT [] [] [];
    mkEvent EPOLLIN [Data []] [] [] ].

Lemma four_masks : Forall (fun ev => u32 (ev_mask ev)) four_events.
Proof. by repeat constructor. Qed.

Lemma life_well_typed_witness :
  let w' := fst (life no_env no_file no_stat 1 7 four_events empty_world) in
  (forall c, w_conn w' = Some c -> conn_typed no_env no_file no_stat 7 (all_bytes four_events) c) /\
  (deletions w' <= 1)%nat /\ (w_conn w' = None <-> deletions w' = 1%nat) /\ int32 (w_count w').
Proof. apply life_well_typed; [done | done | by left | done | apply four_masks]. Defined.

Lemma life_isolated_witness :
  let w' := fst (life no_env no_file no_stat 1 7 four_events empty_world) in
  (exists es, w_trace w' = w_trace empty_world ++ es /\ Forall (about 7) es) /\
  forall d, d <> 7 -> registered (w_kern w') d = registered (w_kern empty_world) d.
Proof. apply life_isolated; [done | done | by left | done | apply four_masks]. Defined.

Lemma life_safe_witness :
  exists w', life no_env no_file no_stat 1 7 four_events empty_world = (w', Ret tt) /\
    match w_conn w' with Some c => conn_ok (w_kern w') c | None => True end.
Proof.
  apply life_safe; [done | done | by left | done | by left | apply four_masks | | done].
  repeat constructor; by_decide.
Defined.

(** The same life evaluated: it answers the request and destroys the
    connection once. *)
Example four_events_run :
  let w' := fst (life no_env no_file no_stat 1 7 four_events empty_world) in
  w_conn w' = None /\ deletions w' = 1%nat /\
  wire (w_trace w') = (OByte <$> buildHttpResponse 200 (bs "text/html") (getResponse (bs "/hello")) true).
Proof. by vm_compute. Qed.
