(* ===== verification/Waiting.v ===== *)
(** * Clients that wait (src/Connection.cpp)

    A client that sends its next request when it has the answer to the last one,
    on a socket that takes as much as it likes: partial writes, EAGAIN, writable
    events; with the one exception below. [sendResponse_discards_pending] shows what happens to clients that do
    not wait; for those that do, nothing is lost and nothing is out of order. *)

From S2P Require Import Prelude CppString Config Http Json Channel Framing Connection WritePath ReadPath Lifetime.

Section Waiting.
Context {K : Type} `{EpollKernel K}.
Context (env : environment) (fs_open : bytes -> Z) (fs_fstat : Z -> option (bool * Z)).
Notation static_of := (static_of env fs_open fs_fstat).
Notation processRequests := (processRequests env fs_open fs_fstat).
Notation processRequests_loop := (processRequests_loop env fs_open fs_fstat).
Notation handleMessage := (handleMessage env fs_open fs_fstat).

(** The buffer holds at most one request. If it is one that a database handler
    turns down itself, the answer is written past the buffer of the connection,
    and what the socket does not take of it at once is lost
    ([direct_answer_cut]); so this is a request to wait for only if the socket is
    [quick]. *)
Definition one_request (quick : Prop) (fd : Z) (b : bytes) : Prop :=
  match frame b with
  | Framed request headers rest =>
      frame rest = NeedMore /\
      forall h, dbHandler (parseMethod request) (parseUrl request) = Some h ->
        quick \/ (db_answer fd h request (wantKeepAlive request headers)).1 = []
  | _ => True
  end.

(** What [c] has to send and what it did send is the output; it is marked for
    closing if the server closes, and is gone once all is sent. *)
Definition owes (out : list out_item) (closed : bool) (b : bytes) (c : Conn) (w' : World K) (es : list event) : Prop :=
  match w_conn w' with
  | Some c' =>
      conn_ok (w_kern w') c' /\ out = wire es ++ pending c' /\ c_inputBuffer c' = b /\ c_fd c' = c_fd c /\
      c_closeAfterWrite c' = closed /\ (pending c' = [] -> closed = false)
  | None => out = wire es /\ closed = true
  end.

Definition waits (m_w : World K * res unit) (w : World K) (c : Conn)
    (spec : list out_item * list db_task * bool * bytes) : Prop :=
  let '(out, ts, closed, b) := spec in
  exists w' es, m_w = (w', Ret tt) /\ w_trace w' = w_trace w ++ es /\ tasks_of es = ts /\ owes out closed b c w' es.

(** Nothing happens. *)
Lemma waits_idle w c :
  w_conn w = Some c -> conn_ok (w_kern w) c -> pending c = [] -> c_closeAfterWrite c = false ->
  waits (w, Ret tt) w c ([], [], false, c_inputBuffer c).
Proof.
  intros E Hok Hp Hc. exists w, []. split; [done|]. split; [by rewrite app_nil_r|]. split; [done|].
  unfold owes. by rewrite E, Hp.
Qed.

Lemma reject_waits w c k body :
  w_conn w = Some c -> conn_ok (w_kern w) c -> scripts_benign w -> pending c = [] ->
  waits (bind (put_conn (upd_input [] c)) (fun _ => sendResponse k (bs "application/json") body false) w) w c
    (json_out k body false, [], true, []).
Proof.
  intros E Hok Hb Hp. mstep. set (c1 := upd_input [] c). set (w1 := set_conn (Some c1) w).
  assert (conn_ok (w_kern w1) c1) as Hok1 by (destruct Hok; by constructor).
  destruct (sendResponse_acts env fs_open fs_fstat w1 c1 k (bs "application/json") body false eq_refl Hok1 Hb)
    as (w' & es & -> & T & _ & _ & C & P). destruct (P Hp) as [[Tk Sr] _].
  exists w', es. split; [done|]. split; [done|]. split; [done|]. unfold owes.
  destruct (w_conn w') as [c'|]; [|done]. destruct C as (? & ? & ?), Sr as (? & ? & ?). done.
Qed.

Lemma json_out_nonempty code body ka : json_out code body ka <> [].
Proof. unfold json_out, buildHttpResponse. done. Qed.

Lemma submissions (ts : list db_task) :
  tasks_of (Submitted <$> ts) = ts /\ wire (Submitted <$> ts) = [].
Proof.
  induction ts as [|t ts [IH1 IH2]]; [done|]. split; [|exact IH2].
  change (tasks_of (Submitted <$> t :: ts)) with (t :: tasks_of (Submitted <$> ts)). by rewrite IH1.
Qed.

(** A request that is not turned down is submitted, and that is all. *)
Lemma run_handler_submits h request fd ka (w : World K) c :
  w_conn w = Some c -> (db_answer fd h request ka).1 = [] ->
  run_handler h request fd ka w = (add_trace (Submitted <$> (db_answer fd h request ka).2) w, Ret tt).
Proof.
  intros E. assert (forall t, submit t w = (add_trace [Submitted t] w, Ret tt)) as Sb
    by (intros t; unfold submit; by mstep).
  assert (forall mk : bytes -> bytes -> db_task, (credentials_answer mk request ka).1 = [] ->
    let u := getJsonValue (parseBody request) (bs "username") in
    let p := getJsonValue (parseBody request) (bs "password") in
    bind (checkCredentials fd ka u p) (fun ok => if negb ok then ret tt else submit (mk u p)) w =
      (add_trace (Submitted <$> (credentials_answer mk request ka).2) w, Ret tt)) as Cr.
  { intros mk. unfold credentials_answer, checkCredentials.
    destruct (_ || _); [intros N; by apply json_out_nonempty in N|].
    destruct (_ || _); [intros N; by apply json_out_nonempty in N | intros _; apply Sb]. }
  assert (forall mk : bytes -> db_task, (token_answer mk request ka).1 = [] ->
    (if bool_decide (parseBearerToken request = []) then sendJson fd 401 (json1 "error" "missing token") ka
     else submit (mk (parseBearerToken request))) w =
      (add_trace (Submitted <$> (token_answer mk request ka).2) w, Ret tt)) as Tk.
  { intros mk. unfold token_answer. destruct (bool_decide _); [intros N; by apply json_out_nonempty in N | intros _; apply Sb]. }
  destruct h; simpl run_handler; unfold db_answer; [apply Cr | apply Cr | apply Tk | apply Tk].
Qed.

(** A handler leaves the connection alone. *)
Lemma sendJson_conn fd code body ka (w : World K) : exists w', sendJson fd code body ka w = (w', Ret tt) /\ w_conn w' = w_conn w.
Proof.
  unfold sendJson, sendHttpResponse. mstep. destruct (write_loop _ _ _) as [[s' n] o]. mstep. by eexists.
Qed.

Lemma run_handler_conn h request fd ka (w : World K) c :
  w_conn w = Some c -> w_conn (fst (run_handler h request fd ka w)) = Some c.
Proof.
  intros E. assert (forall t, w_conn (fst (submit t w)) = Some c) as Sb by (intros t; unfold submit; by mstep).
  assert (forall code body, w_conn (fst (sendJson fd code body ka w)) = Some c) as Sj.
  { intros code body. destruct (sendJson_conn fd code body ka w) as (w' & -> & Ec). simpl. congruence. }
  assert (forall u p t, w_conn (fst (bind (checkCredentials fd ka u p)
    (fun ok => if negb ok then ret tt else submit t) w)) = Some c) as Cr.
  { intros u p t. unfold checkCredentials.
    destruct (_ || _); [|destruct (_ || _); [|apply Sb]]; unfold bind;
      match goal with |- context [sendJson ?a ?b ?d ?e w] => destruct (sendJson_conn a b d e w) as (w' & -> & Ec) end;
      simpl; by rewrite Ec. }
  destruct h; simpl; unfold handleRegister, handleLogin, handleLogout, handleProfile;
    [apply Cr | apply Cr | destruct (bool_decide _); [apply Sj | apply Sb]..].
Qed.

(** A database request, on a quick socket or not turned down. *)
Lemma run_handler_waits h request ka (w : World K) c :
  w_conn w = Some c -> conn_ok (w_kern w) c -> scripts_benign w -> pending c = [] ->
  scripts_steady w \/ (db_answer (c_fd c) h request ka).1 = [] ->
  exists w' es, run_handler h request (c_fd c) ka w = (w', Ret tt) /\ w_trace w' = w_trace w ++ es /\
    w_conn w' = Some c /\ conn_ok (w_kern w') c /\
    wire es = (db_answer (c_fd c) h request ka).1 /\ tasks_of es = (db_answer (c_fd c) h request ka).2.
Proof.
  intros E Hok Hb Hp [Hs|Dj].
  - destruct (run_handler_acts env fs_open fs_fstat w c h request ka E Hok Hb) as (w' & es & Em & T & _ & _ & C & P).
    destruct (P Hs Hp) as (_ & Hw & Ht & _).
    pose proof (run_handler_conn h request (c_fd c) ka w c E) as Ec. rewrite Em in Ec. simpl in Ec. rewrite Ec in C.
    exists w', es. by destruct C.
  - exists (add_trace (Submitted <$> (db_answer (c_fd c) h request ka).2) w), (Submitted <$> (db_answer (c_fd c) h request ka).2).
    destruct (submissions (db_answer (c_fd c) h request ka).2) as [Tt Tw].
    split; [by apply (run_handler_submits h request (c_fd c) ka w c)|]. by rewrite Tt, Tw, Dj.
Qed.

Lemma processRequests_waits w c :
  w_conn w = Some c -> conn_ok (w_kern w) c -> scripts_benign w -> pending c = [] -> c_closeAfterWrite c = false ->
  str_size (c_inputBuffer c) <= LONG_MAX -> one_request (scripts_steady w) (c_fd c) (c_inputBuffer c) ->
  waits (processRequests (c_fd c) w) w c (serve (static_of w) (c_fd c) (c_inputBuffer c)).
Proof.
  intros E Hok Hb Hp Hc Hsz One. unfold Connection.processRequests, serve. mstep.
  cbn [Connection.processRequests_loop serve_loop]. mstep. unfold one_request in One.
  destruct (frame (c_inputBuffer c)) as [| | |request headers rest] eqn:F;
    [by apply waits_idle | by apply reject_waits | by apply reject_waits |].
  destruct One as [Nm Dj]. pose proof (frame_progress _ _ _ _ Hsz F) as Hpr.
  destruct (length (c_inputBuffer c)) as [|f]; [lia|]. mstep. mstep. cbn [negb].
  set (ka := wantKeepAlive request headers) in *. set (c1 := upd_input rest c). set (w1 := set_conn (Some c1) w).
  assert (conn_ok (w_kern w1) c1) as Hok1 by (destruct Hok; by constructor).
  assert (serve_loop (static_of w) (c_fd c) (S f) rest = ([], [], false, rest)) as -> by (cbn [serve_loop]; by rewrite Nm).
  (* the loop ends with the next turn *)
  assert (forall w2 c2, w_conn w2 = Some c2 -> c_inputBuffer c2 = rest ->
    (if negb ka then ret tt else processRequests_loop (S f) (c_fd c)) w2 = (w2, Ret tt)) as Ends.
  { intros w2 c2 E2 B2. destruct (negb ka); [done|]. cbn [Connection.processRequests_loop]. mstep. by rewrite B2, Nm. }
  unfold answer. destruct (dbHandler (parseMethod request) (parseUrl request)) as [h|] eqn:Dh.
  - destruct (run_handler_waits h request ka w1 c1 eq_refl Hok1 Hb Hp (Dj h eq_refl))
      as (w2 & es & Em & T & E2 & Hok2 & Tw & Tt).
    change (c_fd c1) with (c_fd c) in Em, Tw, Tt. rewrite (bind_ret_eq _ _ _ _ _ Em). rewrite (Ends w2 c1) by done.
    destruct (db_answer (c_fd c) h request ka) as [out ts]. simpl in Tw, Tt.
    assert (waits (w2, Ret tt) w c (out, ts, false, rest)) as Wt.
    { exists w2, es. split; [done|]. split; [done|]. split; [done|]. unfold owes. rewrite E2.
      change (pending c1) with (pending c). by rewrite Hp, Tw, app_nil_r. }
    destruct ka; rewrite ?app_nil_r; exact Wt.
  - destruct (page_acts env fs_open fs_fstat w1 c1 (parseUrl request) ka
      (if negb ka then ret tt else processRequests_loop (S f) (c_fd c)) eq_refl Hok1 Hb) as (w2 & Em & A).
    destruct A as (w' & es & [= <-] & T & B & _ & C & P). destruct (P Hp) as [[Tk Sr] _].
    assert (waits (w2, Ret tt) w c (page_answer (static_of w) (parseUrl request) ka, [], negb ka, rest)) as Wt.
    { exists w2, es. split; [done|]. split; [done|]. split; [done|]. unfold owes.
      destruct (w_conn w2) as [c2|]; [|done]. destruct C as (? & ? & ?), Sr as (? & ? & ?). done. }
    unfold page in Em. rewrite Em. destruct ka; simpl negb in *.
    + destruct (w_conn w2) as [c2|] eqn:E2; [|done]. destruct C as (_ & B2 & _).
      rewrite (Ends w2 c2 E2 B2), app_nil_r. exact Wt.
    + exact Wt.
Qed.

(** A readable event of a client that has its answer. *)
Lemma handleMessage_waits w c cs :
  w_conn w = Some c -> conn_ok (w_kern w) c -> scripts_benign w -> delivers (w_reads w) cs ->
  pending c = [] -> c_closeAfterWrite c = false -> str_size (c_inputBuffer c ++ mjoin cs) <= LONG_MAX ->
  one_request (scripts_steady w) (c_fd c) (c_inputBuffer c ++ mjoin cs) ->
  waits (handleMessage w) w c (serve (static_of w) (c_fd c) (c_inputBuffer c ++ mjoin cs)).
Proof.
  intros E Hok Hb D Hp Hc Hsz One. unfold Connection.handleMessage. mstep.
  destruct (time_same env fs_open fs_fstat w) as (w0 & now & Et & Ec & Ek & Er & Ew & Es & Etr & St).
  do 2 mstep. rewrite Er. destruct (read_loop_delivers _ _ (c_inputBuffer c) D) as [s' ->].
  mstep. rewrite <- Ec in E. set (c1 := upd_input (c_inputBuffer c ++ mjoin cs) (upd_active now c)).
  erewrite bind_ret_eq by (eapply put_conn_some; exact E). set (w1 := set_conn (Some c1) (set_reads s' w0)).
  assert (conn_ok (w_kern w1) c1) as Hok1 by (simpl; rewrite Ek; destruct Hok; by constructor).
  assert (scripts_benign w1) as Hb1 by (unfold scripts_benign; simpl; by rewrite Ew, Es).
  assert (scripts_steady w1 = scripts_steady w) as Sq by (unfold scripts_steady; simpl; by rewrite Ew, Es).
  rewrite <- Sq in One. pose proof (processRequests_waits w1 c1 eq_refl Hok1 Hb1 Hp Hc Hsz One) as Wt.
  change (static_of w1) with (static_of w0) in Wt. rewrite St in Wt.
  unfold waits in *. destruct (serve _ _ _) as [[[out ts] closed] b].
  destruct Wt as (w' & es & Em & T & Tk & Ow). exists w', es. split; [exact Em|].
  split; [by rewrite T; simpl; rewrite Etr|]. by split.
Qed.

(** A writable event. *)
Lemma handleWrite_waits w c :
  w_conn w = Some c -> conn_ok (w_kern w) c -> scripts_benign w -> (pending c = [] -> c_closeAfterWrite c = false) ->
  waits (handleWrite w) w c (pending c, [], c_closeAfterWrite c, c_inputBuffer c).
Proof.
  intros E Hok Hb Hc. destruct (handleWrite_spec w c E Hok Hc) as (w' & es & Em & T & Tk & _ & P & B & _).
  exists w', es. do 3 (split; [done|]). destruct (B Hb) as [_ Bn]. unfold write_post, owes in *. simpl app in *.
  destruct (w_conn w') as [c'|].
  - destruct P as (? & ? & ? & ? & _ & ? & _ & Hd). do 5 (split; [done|]).
    intros N. by destruct Hd as [(_ & _ & ?)|[? _]].
  - specialize (Bn eq_refl). split; [done|]. destruct P as (_ & lost & El & Hl). apply Hl.
    rewrite Bn in El. rewrite <- (app_nil_r (wire es)) in El at 1. by apply app_inv_head in El.
Qed.

End Waiting.
