(* ===== verification/Limiter.v ===== *)
(** * The rate limiter (src/Connection.cpp, [allowRequest])

    [allowRequest] counts the requests of the current second of the clock and
    refuses those past [kRateLimitQps]. The shipped limit is 0, which switches
    it off; the theorems are about every positive limit.

    First the calls one after the other, as [Connection] has them. Then the calls
    of several reactors, access by access: the load and the store of [windowSec],
    the store and the increment of [count] are atomic one by one, and a call is
    not; reactors that meet at the start of a second reset the count more than
    once. *)

From Stdlib Require Import Sorted.
From S2P Require Import Prelude Config Channel Connection.

Section Limiter.
Context {K : Type}.
Local Open Scope reactor_scope.

(** [n] requests, one after the other, and the answers of [allowRequest]. *)
Fixpoint requests (limit : Z) (n : nat) : M K (list bool) :=
  match n with
  | O => ret []
  | S n => a <- allowRequest_limit limit ;; l <- requests limit n ;; ret (a :: l)
  end.

(** How many requests of second [s] were allowed. *)
Fixpoint granted (s : Z) (ts : list Z) (l : list bool) : Z :=
  match ts, l with
  | t :: ts, a :: l => (if (t =? s) && a then 1 else 0) + granted s ts l
  | _, _ => 0
  end.

(** How many came in. *)
Fixpoint arrived (s : Z) (ts : list Z) : Z :=
  match ts with
  | [] => 0
  | t :: ts => (if t =? s then 1 else 0) + arrived s ts
  end.

Lemma arrived_nonneg s ts : 0 <= arrived s ts <= Z.of_nat (length ts).
Proof. induction ts as [|t ts IH]; cbn [arrived length]; [lia|]. destruct (t =? s); lia. Qed.

Lemma arrived_past s ts : Forall (fun t => s < t) ts -> arrived s ts = 0.
Proof.
  induction 1 as [|t ts Ht F IH]; [done|]. cbn [arrived]. destruct (t =? s) eqn:E; [bool_lia | lia].
Qed.

(** One call, when the clock reads [t]. *)
Lemma allowRequest_limit_run limit t ts (w : World K) :
  0 < limit -> w_clock w = t :: ts ->
  let c := if w_window w =? t then w_count w else 0 in
  exists w', allowRequest_limit limit w = (w', Ret (c <? limit)) /\ w_window w' = t /\
    w_count w' = to_int (c + 1) /\ (ts <> [] -> w_clock w' = ts).
Proof.
  intros Hl C. unfold allowRequest_limit. destruct (limit <=? 0) eqn:L; [bool_lia|].
  unfold bind, time, gets, modify, ret. rewrite C. simpl.
  destruct ts as [|t' ts]; cbn [w_window w_count set_clock];
    destruct (w_window w =? t) eqn:E; simpl; eexists; (split; [reflexivity|]);
    (split; [simpl; bool_lia|]); by split.
Qed.

(** The count of the current second is what the second has seen. *)
Lemma requests_run limit ts (w : World K) :
  0 < limit -> w_clock w = ts -> StronglySorted Z.le ts -> Forall (Z.le (w_window w)) ts ->
  0 <= w_count w -> w_count w + Z.of_nat (length ts) <= INT_MAX ->
  exists w' l, requests limit (length ts) w = (w', Ret l) /\ length l = length ts /\
    forall s, granted s ts l =
      Z.max 0 (Z.min (arrived s ts) (limit - (if w_window w =? s then w_count w else 0))).
Proof.
  intros Hl. revert w. induction ts as [|t ts IH]; intros w C So W N B.
  { exists w, []. split; [done|]. split; [done|]. intros s. simpl. destruct (_ =? s); lia. }
  destruct (allowRequest_limit_run limit t ts w Hl C) as (w1 & E & Ew & Ec & Et).
  set (c := if w_window w =? t then w_count w else 0) in *.
  assert (0 <= c /\ c <= w_count w) as Hc by (unfold c; destruct (_ =? t); lia).
  unfold INT_MAX in *. cbn [length] in *.
  assert (w_count w1 = c + 1) as Ec1 by (rewrite Ec; apply wrap_s_small; lia).
  apply StronglySorted_inv in So as [So Ht]. apply Forall_cons_1 in W as [W1 _].
  assert (exists w' l, requests limit (length ts) w1 = (w', Ret l) /\ length l = length ts /\
    forall s, granted s ts l = Z.max 0 (Z.min (arrived s ts) (limit - (if t =? s then c + 1 else 0))))
    as (w' & l & R & L & Hg).
  { destruct ts as [|t' ts]; [by exists w1, []; repeat split; intros s; simpl; destruct (t =? s); lia|].
    destruct (IH w1) as (w' & l & R & L & Hg); [by apply Et | done | by rewrite Ew | lia | lia |].
    exists w', l. split; [done|]. split; [done|]. intros s. by rewrite Hg, Ew, Ec1. }
  exists w', ((c <? limit) :: l). cbn [requests]. unfold bind. rewrite E, R. split; [done|].
  split; [simpl; lia|]. intros s. cbn [granted arrived]. rewrite Hg. unfold c in *.
  pose proof (arrived_nonneg s ts) as Hn.
  destruct (t =? s) eqn:T.
  - apply Z.eqb_eq in T as ->. destruct (w_window w =? s); destruct (_ <? limit) eqn:A; simpl; bool_lia.
  - simpl. destruct (w_window w =? s) eqn:D; [|lia].
    (* the window has passed: no request of that second can follow *)
    rewrite arrived_past; [bool_lia; destruct (w_window w =? t); lia|].
    eapply Forall_impl; [exact Ht|]. intros x Hx. simpl in Hx. bool_lia.
Qed.

(** ** Property *)

(** Calls that do not overlap. On a clock that does not run backwards, of the
    requests of any second that starts after the last window, exactly [limit] (or
    all of them, if there are fewer) are allowed. *)
Theorem rate_limit_per_second limit ts (w : World K) :
  0 < limit -> w_clock w = ts -> StronglySorted Z.le ts -> Forall (Z.lt (w_window w)) ts ->
  w_count w = 0 -> Z.of_nat (length ts) <= INT_MAX ->
  exists w' l, requests limit (length ts) w = (w', Ret l) /\ length l = length ts /\
    forall s, granted s ts l = Z.min (arrived s ts) limit.
Proof.
  intros Hl C So W N B.
  destruct (requests_run limit ts w) as (w' & l & R & L & Hg); try done; [|lia|lia|].
  { eapply Forall_impl; [exact W|]. simpl. lia. }
  exists w', l. split; [done|]. split; [done|]. intros s. rewrite Hg, N.
  pose proof (arrived_nonneg s ts). destruct (_ =? s); lia.
Qed.

End Limiter.

(** Three requests in one second and two in the next, with two allowed. *)
Lemma rate_limit_per_second_witness :
  let w : World unit := mkWorld None tt [] [] [] [100; 100; 100; 101; 101] 0 0 None [] in
  exists w' l, requests 2 5 w = (w', Ret l) /\ l = [true; true; false; true; true] /\
    forall s, granted s [100; 100; 100; 101; 101] l = Z.min (arrived s [100; 100; 100; 101; 101]) 2.
Proof.
  intros w. destruct (rate_limit_per_second 2 [100; 100; 100; 101; 101] w) as (w' & l & R & L & Hg).
  - lia.
  - reflexivity.
  - repeat constructor; lia.
  - repeat constructor; by vm_compute.
  - reflexivity.
  - by vm_compute.
  - exists w', l. split; [exact R|]. split; [|exact Hg].
    vm_compute in R. congruence.
Defined.

(** ** Several reactors *)

(** Where a reactor is in [allowRequest], with the time it read. *)
Inductive caller : Type :=
| Away
| Loading (now : Z)     (* about to load [windowSec] *)
| Storing (now : Z)     (* about to store [now] there *)
| Zeroing (now : Z)     (* about to store 0 in [count] *)
| Bumping (now : Z).    (* about to increment [count] *)

Record limiter : Type := mkLimiter {
  windowSec : Z;
  count : Z;
  callers : list caller;
  passed : list (Z * bool)        (* history: the time and the result of each call *)
}.

Inductive llabel : Type :=
| LEnter (i : nat) (now : Z)      (* reactor [i] calls, and [time] returns [now] *)
| LStep (i : nat).                (* its next access *)

Definition caller_step (limit : Z) (i : nat) (c : caller) (s : limiter) : option limiter :=
  let at_ c' := <[i := c']> (callers s) in
  match c with
  | Away => None
  | Loading now =>
      Some (mkLimiter (windowSec s) (count s)
              (at_ (if negb (windowSec s =? now) then Storing now else Bumping now)) (passed s))
  | Storing now => Some (mkLimiter now (count s) (at_ (Zeroing now)) (passed s))
  | Zeroing now => Some (mkLimiter (windowSec s) 0 (at_ (Bumping now)) (passed s))
  | Bumping now =>
      Some (mkLimiter (windowSec s) (to_int (count s + 1)) (at_ Away) (passed s ++ [(now, count s <? limit)]))
  end.

Definition lstep (limit : Z) (l : llabel) (s : limiter) : option limiter :=
  match l with
  | LEnter i now =>
      match callers s !! i with
      | Some Away => Some (mkLimiter (windowSec s) (count s) (<[i := Loading now]> (callers s)) (passed s))
      | _ => None
      end
  | LStep i => c ← callers s !! i; caller_step limit i c s
  end.

Fixpoint limit_run (limit : Z) (ls : list llabel) (s : limiter) : option limiter :=
  match ls with
  | [] => Some s
  | l :: ls => match lstep limit l s with Some s' => limit_run limit ls s' | None => None end
  end.

(** ** Lemmas: one second *)

(** The calls that were allowed. *)
Definition allowed (log : list (Z * bool)) : Z := Z.of_nat (length (filter (fun x => x.2 = true) log)).

Lemma allowed_snoc log now b : allowed (log ++ [(now, b)]) = allowed log + if b then 1 else 0.
Proof.
  unfold allowed. rewrite filter_app, length_app, filter_cons. simpl. destruct b; simpl; lia.
Qed.

(** A reactor that is going to reset the count. *)
Definition resets (c : caller) : nat := match c with Storing _ | Zeroing _ => 1 | _ => 0 end.

(** A reactor before the window is set to [t]; and at any time in that second. *)
Definition early (t : Z) (c : caller) : Prop := c = Away \/ c = Loading t \/ c = Storing t.
Definition within (t : Z) (c : caller) : Prop :=
  match c with Away => True | Loading now | Storing now | Zeroing now | Bumping now => now = t end.

Definition reset_count (s : limiter) : nat := sum_list_with resets (callers s).

(** What may yet be allowed, and was: [limit] for each reset to come, what is
    left of the current count, unless all reactors have still to reset it. *)
Record bounded (limit t : Z) (s : limiter) : Prop := {
  bd_count : 0 <= count s;
  bd_within : Forall (within t) (callers s);
  bd_early : windowSec s <> t -> Forall (early t) (callers s) /\ allowed (passed s) = 0;
  bd_late : windowSec s = t ->
    (reset_count s = length (callers s) /\ allowed (passed s) = 0) \/
    allowed (passed s) + Z.max 0 (limit - count s) + limit * Z.of_nat (reset_count s)
      <= limit * Z.of_nat (length (callers s))
}.

Lemma reset_count_le cs : (sum_list_with resets cs <= length cs)%nat.
Proof. induction cs as [|c cs IH]; simpl; [lia|]. destruct c; simpl; lia. Qed.

(** If all have still to reset, so has each. *)
Lemma all_reset cs i c : sum_list_with resets cs = length cs -> cs !! i = Some c -> resets c = 1%nat.
Proof.
  revert i. induction cs as [|c0 cs IH]; intros i E L; [done|]. pose proof (reset_count_le cs). simpl in E.
  destruct i as [|i]; simpl in L.
  - injection L as <-. destruct c0; simpl in *; lia.
  - apply (IH i); [destruct c0; simpl in E; lia | done].
Qed.

(** Reactor [i] moves from [c] to [c'], as long as the count is not touched. *)
Lemma move_bounded limit t s i c c' :
  bounded limit t s -> callers s !! i = Some c -> within t c' -> resets c' = resets c ->
  (windowSec s <> t -> early t c') -> bounded limit t (mkLimiter (windowSec s) (count s) (<[i := c']> (callers s)) (passed s)).
Proof.
  intros [Bc Bw Be Bl] L W R Ea. pose proof (sum_insert resets _ _ _ c' L) as Sm.
  split; simpl; [done | by apply Forall_insert | |].
  - intros N. destruct (Be N) as [Fe A]. split; [by apply Forall_insert; [|apply Ea] | done].
  - intros Et. unfold reset_count in *. simpl. rewrite length_insert.
    replace (sum_list_with resets (<[i:=c']> (callers s))) with (sum_list_with resets (callers s)) by lia. by apply Bl.
Qed.

Lemma step_bounded limit t l s s' :
  0 < limit -> match l with LEnter _ now => now = t | LStep _ => True end -> count s < INT_MAX ->
  bounded limit t s -> lstep limit l s = Some s' ->
  bounded limit t s' /\ length (callers s') = length (callers s) /\ count s' <= count s + 1.
Proof.
  intros Hl Ht Hmax B E. destruct l as [i now|i]; simpl in E; destruct (callers s !! i) as [c|] eqn:L; try done.
  { destruct c; try done. injection E as <-. subst now. simpl. rewrite length_insert.
    split; [|split; [done | lia]]. apply (move_bounded _ _ _ _ Away); try done. intros _. right. by left. }
  simpl in E. pose proof B as [Bc Bw Be Bl].
  assert (within t c) as W by (rewrite Forall_lookup in Bw; by eapply Bw).
  assert (windowSec s <> t -> early t c) as Ec.
  { intros N. destruct (Be N) as [Fe _]. rewrite Forall_lookup in Fe. by eapply Fe. }
  pose proof (fun c' => sum_insert resets _ _ _ c' L) as Sm. pose proof (reset_count_le (callers s)) as Le.
  destruct c as [|now|now|now|now]; try done; simpl in W; subst now; simpl in E; injection E as <-; simpl;
    rewrite length_insert; (split; [|split; [done | try lia]]).
  - (* the load *)
    destruct (windowSec s =? t) eqn:Ew; simpl.
    + apply (move_bounded _ _ _ _ (Loading t)); try done. intros N. bool_lia.
    + specialize (Sm (Storing t)). simpl in Sm. split; simpl; [done | by apply Forall_insert | |bool_lia].
      intros N. destruct (Be N) as [Fe A]. split; [|done]. apply Forall_insert; [done|]. right. by right.
  - (* the store of the window *)
    specialize (Sm (Zeroing t)). simpl in Sm. unfold reset_count in *.
    split; simpl; [done | by apply Forall_insert | done|]. intros _. unfold reset_count. simpl. rewrite length_insert.
    replace (sum_list_with resets (<[i:=Zeroing t]> (callers s))) with (sum_list_with resets (callers s)) by lia.
    destruct (decide (windowSec s = t)) as [Et|N]; [by apply Bl|]. destruct (Be N) as [_ A].
    destruct (decide (sum_list_with resets (callers s) = length (callers s))); [by left|]. right. rewrite A. nia.
  - (* the store of the count *)
    specialize (Sm (Bumping t)). simpl in Sm.
    destruct (decide (windowSec s = t)) as [Et|N]; [|by destruct (Ec N) as [?|[?|?]]].
    split; simpl; [done | by apply Forall_insert | done|]. intros _. right. unfold reset_count in *. simpl. rewrite length_insert.
    destruct (Bl Et) as [[Eq A]|A]; nia.
  - (* the increment *)
    specialize (Sm Away). simpl in Sm.
    destruct (decide (windowSec s = t)) as [Et|N]; [|by destruct (Ec N) as [?|[?|?]]].
    assert (to_int (count s + 1) = count s + 1) as Ei by (apply wrap_s_small; unfold INT_MAX in Hmax; lia).
    rewrite Ei. split; simpl; [lia | by apply Forall_insert | done|]. intros _. right.
    unfold reset_count in *. simpl. rewrite length_insert, allowed_snoc.
    replace (sum_list_with resets (<[i:=Away]> (callers s))) with (sum_list_with resets (callers s)) by lia.
    destruct (Bl Et) as [[Eq _]|A]; [by apply (all_reset _ i (Bumping t)) in Eq|].
    destruct (count s <? limit) eqn:Eb; bool_lia.
  - assert (to_int (count s + 1) = count s + 1) as Ei by (apply wrap_s_small; unfold INT_MAX in Hmax; lia).
    rewrite Ei. lia.
Qed.

(** With one reactor the count is the number of the calls of the second. *)
Definition alone (limit t : Z) (s : limiter) : Prop :=
  (windowSec s <> t /\ passed s = [] /\ exists c, callers s = [c] /\ early t c) \/
  (windowSec s = t /\ passed s = [] /\ callers s = [Zeroing t]) \/
  (windowSec s = t /\ count s = Z.of_nat (length (passed s)) /\
   allowed (passed s) = Z.min (Z.of_nat (length (passed s))) limit /\
   (callers s = [Away] \/ callers s = [Loading t] \/ callers s = [Bumping t])).

Lemma step_alone limit t l s s' :
  0 < limit -> match l with LEnter _ now => now = t | LStep _ => True end -> 0 <= count s < INT_MAX ->
  alone limit t s -> lstep limit l s = Some s' -> alone limit t s'.
Proof.
  intros Hl Ht Hmax A E.
  assert (to_int (count s + 1) = count s + 1) as Ei by (apply wrap_s_small; unfold INT_MAX in Hmax; lia).
  assert (exists c, callers s = [c]) as [c Ec].
  { destruct A as [(_ & _ & c & Ec & _)|[(_ & _ & Ec)|(_ & _ & _ & [Ec|[Ec|Ec]])]]; eauto. }
  assert (exists l0, lstep limit l0 s = Some s' /\ l0 = match l with LEnter _ now => LEnter 0 now | LStep _ => LStep 0 end)
    as (l0 & E0 & ->) by (destruct l as [[|i] now|[|i]]; [by eexists | by simpl in E; rewrite Ec in E |
      by eexists | by simpl in E; rewrite Ec in E]).
  clear E. unfold alone in *.
  destruct l as [i now|i]; simpl in E0; rewrite Ec in E0; simpl in E0;
    destruct c as [|n|n|n|n]; try done; injection E0 as <-; simpl in *; rewrite Ec in *; simpl in *.
  all: destruct A as [(N & P & c & Q & Ea)|[(N & P & Q)|(N & Cn & Al & [Q|[Q|Q]])]]; simplify_eq; try done;
    try (destruct Ea as [Ea|[Ea|Ea]]; simplify_eq).
  - left. split_and!; try done. eexists. split; [done|]. right. by left.
  - right. right. split_and!; try done. right. by left.
  - rewrite (proj2 (Z.eqb_neq _ _) N). left. split_and!; try done. eexists. split; [done|]. right. by right.
  - rewrite Z.eqb_refl. right. right. split_and!; try done. right. by right.
  - right. left. done.
  - right. right. rewrite P. split_and!; try done; [unfold allowed; simpl; lia|]. right. by right.
  - right. right. rewrite Ei, length_app, allowed_snoc, Al. simpl. split_and!; try done; [lia| |by left].
    destruct (count s <? limit) eqn:Eb; bool_lia.
Qed.

(** ** Property *)

(** C31: the limit under concurrency. The calls of [allowRequest] of one second
    [t], by [n] reactors whose accesses to the two counters interleave in any
    order, from a state in which no call is under way and the window is of another
    second, with fewer than 2^31 steps: at most [n] times the limit are allowed; and with a single reactor
    exactly as many as the limit, or all, if there are fewer. ([two_reactors]
    shows that with two reactors twice the limit is reached.) *)
Theorem rate_limit_interleaved limit t ls s s' :
  0 < limit -> Forall (fun c => c = Away) (callers s) -> windowSec s <> t -> passed s = [] ->
  0 <= count s -> count s + Z.of_nat (length ls) <= INT_MAX ->
  Forall (fun l => match l with LEnter _ now => now = t | LStep _ => True end) ls ->
  limit_run limit ls s = Some s' ->
  allowed (passed s') <= limit * Z.of_nat (length (callers s)) /\
  (length (callers s) = 1%nat -> allowed (passed s') = Z.min (Z.of_nat (length (passed s'))) limit).
Proof.
  intros Hl Aw N P C B F R.
  assert (bounded limit t s' /\ length (callers s') = length (callers s) /\ (alone limit t s -> alone limit t s'))
    as (Bd & Ln & Al).
  { assert (bounded limit t s) as Bd.
    { split; [done | eapply Forall_impl; [exact Aw | by intros c ->] | | done].
      intros _. split; [eapply Forall_impl; [exact Aw | by left] | by rewrite P]. }
    clear Aw N P. revert s C B Bd R. induction F as [|l ls Ht F IH]; intros s C B Bd R; simpl in *; [by simplify_eq|].
    destruct (lstep limit l s) as [s1|] eqn:E; [|done]. unfold INT_MAX in *.
    destruct (step_bounded limit t l s s1 Hl Ht) as (B1 & L1 & C1); [unfold INT_MAX; lia | done | done|].
    destruct (IH s1) as (B2 & L2 & A2); [apply B1 | lia | done | done|]. rewrite L2, L1. split_and!; try done.
    intros A. apply A2. apply (step_alone limit t l s s1); [done | done | unfold INT_MAX; lia | done | done]. }
  split.
  - destruct (decide (windowSec s' = t)) as [Et|Ne].
    + destruct (bd_late _ _ _ Bd Et) as [[_ ->]|Hb]; [lia|]. rewrite <- Ln. lia.
    + destruct (bd_early _ _ _ Bd Ne) as [_ ->]. lia.
  - intros One. destruct (callers s) as [|c [|]] eqn:Ec; try done. apply Forall_cons in Aw as [-> _].
    destruct Al as [(_ & Ep & _)|[(_ & Ep & _)|(_ & _ & Ep & _)]]; [|rewrite Ep; unfold allowed; simpl; lia..|done].
    left. split_and!; try done. eexists. split; [done | by left].
Qed.

(** Two reactors, and one request allowed per second; both find the window of
    the last second, and both reset the count. *)
Definition last_second : limiter := mkLimiter 99 5 [Away; Away] [].
Definition meeting : list llabel :=
  [LEnter 0 100; LEnter 1 100; LStep 0; LStep 1; LStep 0; LStep 0; LStep 0; LStep 1; LStep 1; LStep 1].

Example two_reactors :
  passed <$> limit_run 1 meeting last_second = Some [(100, true); (100, true)].
Proof. reflexivity. Qed.

Lemma rate_limit_interleaved_witness :
  exists s', limit_run 1 meeting last_second = Some s' /\ allowed (passed s') <= 1 * 2.
Proof.
  destruct (limit_run 1 meeting last_second) as [s'|] eqn:R; [|by vm_compute in R]. exists s'. split; [done|].
  apply (rate_limit_interleaved 1 100 meeting last_second s');
    [lia | by repeat constructor | done | done | by vm_compute | by vm_compute | repeat constructor | exact R].
Defined.
