(* ===== verification/ThreadPool.v ===== *)
(** * The thread pool (src/ThreadPool.cpp, include/ThreadPool.h)

    The task queue, its mutex and condition variable, the worker loop of every
    thread, [add] and the destructor. A step of the model is what a thread does
    between acquiring and releasing [tasks_mtx_], or one call on the condition
    variable; the steps of all threads interleave in any order, and a run is the
    list of the steps taken.

    A worker that finds its predicate false sleeps in [cv_.wait] until
    [notify_one] picks it, [notify_all] runs, or it wakes for no reason, as the
    condition variable may let it. [add] calls [notify_one] after it released
    the mutex, so the call is a step of its own, which can come arbitrarily
    late. Tasks are [packaged_task]s: an exception stays in the future, so a task
    that returns or throws brings its worker back to the loop. *)

From S2P Require Import Prelude.

(** ** State *)

(** Where a worker thread is in its loop: before the lock of [tasks_mtx_],
    asleep inside [cv_.wait], inside [task()], or past its [return]. *)
Inductive worker (T : Type) : Type :=
| Ready
| Asleep
| Running (task : T)
| Exited.
Arguments Ready {T}. Arguments Asleep {T}. Arguments Running {T} task. Arguments Exited {T}.

#[export] Instance worker_eq_dec `{EqDecision T} : EqDecision (worker T).
Proof. solve_decision. Defined.

Record ThreadPool (T : Type) : Type := mkPool {
  threads_ : list (worker T);
  tasks_ : list T;
  stop_ : bool;
  notifies : nat;        (* notify_one calls of [add] still to be made *)
  notified_all : bool;   (* the destructor is past [cv_.notify_all()] *)
  accepted : list T;     (* history: what [add] enqueued, in order *)
  started : list T;      (* history: what workers took off the queue, in order *)
  finished : list T      (* history: the tasks that ran to their end *)
}.
Arguments mkPool {T}. Arguments threads_ {T}. Arguments tasks_ {T}. Arguments stop_ {T}.
Arguments notifies {T}. Arguments notified_all {T}. Arguments accepted {T}.
Arguments started {T}. Arguments finished {T}.

Section Pool.
Context {T : Type}.
Implicit Types (p : ThreadPool T) (t : T).

(** ** Operations *)

(** The constructor: [size] workers, a negative size starting none. *)
Definition new_ThreadPool (size : Z) : ThreadPool T :=
  mkPool (replicate (Z.to_nat size) Ready) [] false 0 false [] [] [].

Definition set_worker (i : nat) (w : worker T) p : ThreadPool T :=
  mkPool (<[i:=w]> (threads_ p)) (tasks_ p) (stop_ p) (notifies p) (notified_all p)
    (accepted p) (started p) (finished p).

(** What a thread [add]ing a task sees: the exception, or the pool with the
    task in its queue and a [notify_one] owed. *)
Definition add t p : string + ThreadPool T :=
  if stop_ p then inl "enqueue on stopped ThreadPool"%string
  else inr (mkPool (threads_ p) (tasks_ p ++ [t]) (stop_ p) (S (notifies p)) (notified_all p)
              (accepted p ++ [t]) (started p) (finished p)).

(** The critical section of a worker: the predicate of [cv_.wait], the test for
    the end, and the removal of the front task. *)
Definition worker_section (i : nat) p : ThreadPool T :=
  if stop_ p || negb (bool_decide (tasks_ p = []))
  then match tasks_ p with
       | [] => set_worker i Exited p
       | task :: rest =>
           mkPool (<[i:=Running task]> (threads_ p)) rest (stop_ p) (notifies p) (notified_all p)
             (accepted p) (started p ++ [task]) (finished p)
       end
  else set_worker i Asleep p.

(** [task()] came back. *)
Definition task_done (i : nat) t p : ThreadPool T :=
  mkPool (<[i:=Ready]> (threads_ p)) (tasks_ p) (stop_ p) (notifies p) (notified_all p)
    (accepted p) (started p) (finished p ++ [t]).

(** [cv_.notify_one()] waking the thread [i], or nobody. *)
Definition notify_one (o : option nat) p : ThreadPool T :=
  mkPool (match o with Some i => <[i:=Ready]> (threads_ p) | None => threads_ p end)
    (tasks_ p) (stop_ p) (pred (notifies p)) (notified_all p) (accepted p) (started p) (finished p).

(** The destructor: the locked block, and [cv_.notify_all()]. *)
Definition request_stop p : ThreadPool T :=
  mkPool (threads_ p) (tasks_ p) true (notifies p) (notified_all p)
    (accepted p) (started p) (finished p).

Definition wake (w : worker T) : worker T := match w with Asleep => Ready | _ => w end.

Definition notify_all p : ThreadPool T :=
  mkPool (wake <$> threads_ p) (tasks_ p) (stop_ p) (notifies p) true
    (accepted p) (started p) (finished p).

(** [th.join()] on every thread returns. *)
Definition is_exited (w : worker T) : bool := match w with Exited => true | _ => false end.
Definition joined p : bool := notified_all p && forallb is_exited (threads_ p).

Definition is_asleep (w : worker T) : bool := match w with Asleep => true | _ => false end.

(** ** Interleavings *)

Inductive label : Type :=
| Add (t : T)                  (* a client calls [add] *)
| Notify (o : option nat)      (* its [notify_one] *)
| Section_ (i : nat)           (* worker [i] enters its critical section *)
| Done (i : nat)               (* the task of worker [i] returns *)
| Spurious (i : nat)           (* worker [i] wakes up unasked *)
| Stop                         (* the destructor sets [stop_] *)
| NotifyAll.                   (* and wakes everybody *)

(** One step, [None] where the label is not enabled. [notify_one] with sleepers
    wakes one of them. *)
Definition step (l : label) p : option (ThreadPool T) :=
  match l with
  | Add t => match add t p with inl _ => Some p | inr p' => Some p' end
  | Notify o =>
      if decide (0 < notifies p)%nat then
        match o with
        | Some i => match threads_ p !! i with Some Asleep => Some (notify_one o p) | _ => None end
        | None => if existsb is_asleep (threads_ p) then None else Some (notify_one None p)
        end
      else None
  | Section_ i => match threads_ p !! i with Some Ready => Some (worker_section i p) | _ => None end
  | Done i => match threads_ p !! i with Some (Running t) => Some (task_done i t p) | _ => None end
  | Spurious i => match threads_ p !! i with Some Asleep => Some (set_worker i Ready p) | _ => None end
  | Stop => if stop_ p then None else Some (request_stop p)
  | NotifyAll => if stop_ p && negb (notified_all p) then Some (notify_all p) else None
  end.

Fixpoint run (ls : list label) p : option (ThreadPool T) :=
  match ls with
  | [] => Some p
  | l :: ls => match step l p with Some p' => run ls p' | None => None end
  end.

(** The states a pool of [size] threads can be in. *)
Definition reachable (size : Z) p : Prop := exists ls, run ls (new_ThreadPool size) = Some p.

(** ** Counting workers *)

Definition weigh (f : worker T -> nat) (ws : list (worker T)) : nat := sum_list_with f ws.

Definition asleep (w : worker T) : nat := match w with Asleep => 1 | _ => 0 end.
Definition active (w : worker T) : nat := match w with Ready | Running _ => 1 | _ => 0 end.
Definition ready (w : worker T) : nat := match w with Ready => 1 | _ => 0 end.
Definition gone (w : worker T) : nat := match w with Exited => 1 | _ => 0 end.

(** Steps left to a worker once everybody is awake and no task is queued. *)
Definition effort (w : worker T) : nat :=
  match w with Running _ => 2 | Ready | Asleep => 1 | Exited => 0 end.

Definition task_of (w : worker T) : option T := match w with Running t => Some t | _ => None end.
Definition running (ws : list (worker T)) : list T := omap task_of ws.

(** A worker as a position in the list: what replacing it does to a count and
    to the running tasks. *)
Lemma worker_split (ws : list (worker T)) i w :
  ws !! i = Some w ->
  exists l k, ws = l ++ w :: k /\ forall w', <[i:=w']> ws = l ++ w' :: k.
Proof.
  intros E. exists (take i ws), (drop (S i) ws). split; [by rewrite take_drop_middle|].
  intros w'. apply insert_take_drop. by eapply lookup_lt_Some.
Qed.

Lemma weigh_insert f (ws : list (worker T)) i w w' :
  ws !! i = Some w -> (weigh f (<[i:=w']> ws) + f w = weigh f ws + f w')%nat.
Proof.
  intros E. destruct (worker_split _ _ _ E) as (l & k & -> & R). rewrite R. unfold weigh.
  rewrite !sum_list_with_app. simpl. lia.
Qed.

Lemma weigh_zero f (ws : list (worker T)) i w : weigh f ws = 0%nat -> ws !! i = Some w -> f w = 0%nat.
Proof.
  intros Z E. destruct (worker_split _ _ _ E) as (l & k & -> & _). unfold weigh in Z.
  rewrite sum_list_with_app in Z. simpl in Z. lia.
Qed.

Lemma weigh_pos f (ws : list (worker T)) :
  (0 < weigh f ws)%nat -> exists i w, ws !! i = Some w /\ (0 < f w)%nat.
Proof.
  induction ws as [|w ws IH]; simpl; [lia|]. intros P.
  destruct (decide (0 < f w)%nat); [by exists 0%nat, w|].
  destruct IH as (i & w' & ? & ?); [unfold weigh in *; lia|]. by exists (S i), w'.
Qed.

Lemma weigh_map f g (ws : list (worker T)) : weigh f (g <$> ws) = weigh (f ∘ g) ws.
Proof. induction ws as [|w ws IH]; [done|]. unfold weigh in *. cbn. by rewrite <- IH. Qed.

Lemma weigh_ext_map f g (ws : list (worker T)) :
  (forall w, f (g w) = f w) -> weigh f (g <$> ws) = weigh f ws.
Proof. intros E. rewrite weigh_map. unfold weigh. induction ws; simpl; congruence. Qed.

Lemma weigh_const n f (ws : list (worker T)) :
  (forall w, f w = n) -> weigh f ws = (n * length ws)%nat.
Proof. intros E. induction ws; unfold weigh in *; simpl; [lia|]. rewrite E, IHws. lia. Qed.

Lemma weigh_replicate f n w : weigh f (replicate n w) = (n * f w)%nat.
Proof. induction n; unfold weigh in *; simpl; [done|]. rewrite IHn. lia. Qed.

Lemma running_insert (ws : list (worker T)) i w w' :
  ws !! i = Some w ->
  option_list (task_of w) ++ running (<[i:=w']> ws) ≡ₚ option_list (task_of w') ++ running ws.
Proof.
  intros E. destruct (worker_split _ _ _ E) as (l & k & -> & R). rewrite R. unfold running.
  rewrite !omap_app. simpl. destruct w, w'; simpl; solve_Permutation.
Qed.

Lemma running_wake (ws : list (worker T)) : running (wake <$> ws) = running ws.
Proof. induction ws as [|[] ws IH]; unfold running in *; cbn; by rewrite <- ?IH. Qed.

Lemma existsb_asleep (ws : list (worker T)) : existsb is_asleep ws = false -> weigh asleep ws = 0%nat.
Proof. induction ws as [|[] ws IH]; simpl; auto; discriminate. Qed.

(** ** The invariant *)

(** [size] threads; the queue is what was accepted and not yet started; what
    was started is finished or running, once; enough workers about to look at the
    queue, or wake-ups to come, whenever somebody sleeps; nobody leaves before the
    end; nobody sleeps through the end. *)
Record pool_inv (size : nat) p : Prop := {
  inv_size : length (threads_ p) = size;
  inv_fifo : accepted p = started p ++ tasks_ p;
  inv_once : started p ≡ₚ finished p ++ running (threads_ p);
  inv_wake : weigh asleep (threads_ p) = 0%nat \/
             (length (tasks_ p) <= notifies p + weigh ready (threads_ p))%nat;
  inv_exit : (0 < weigh gone (threads_ p))%nat -> stop_ p = true /\ tasks_ p = [];
  inv_end : notified_all p = true -> stop_ p = true /\ weigh asleep (threads_ p) = 0%nat
}.

Lemma inv_init size : pool_inv (Z.to_nat size) (new_ThreadPool size).
Proof.
  split; simpl; try done.
  - by rewrite length_replicate.
  - induction (Z.to_nat size); simpl; auto.
  - left. rewrite weigh_replicate. simpl. lia.
  - rewrite weigh_replicate. simpl. lia.
Qed.

(** Replacing the state of one worker, in numbers. *)
Ltac worker_moves E w' :=
  pose proof (weigh_insert asleep _ _ _ w' E); pose proof (weigh_insert active _ _ _ w' E);
  pose proof (weigh_insert ready _ _ _ w' E);
  pose proof (weigh_insert gone _ _ _ w' E); pose proof (running_insert _ _ _ w' E) as Hrun;
  simpl in *.

Lemma inv_add size t p p' : pool_inv size p -> add t p = inr p' -> pool_inv size p'.
Proof.
  unfold add. intros [] E. destruct (stop_ p) eqn:S; [done|]. simplify_eq.
  split; simpl; auto.
  - rewrite inv_fifo0. by rewrite app_assoc.
  - rewrite length_app. simpl. destruct inv_wake0; [by left | right; lia].
  - intros G. apply inv_exit0 in G as [? _]. done.
Qed.

Lemma inv_section size i p :
  pool_inv size p -> threads_ p !! i = Some Ready -> pool_inv size (worker_section i p).
Proof.
  intros [] E. unfold worker_section.
  assert (weigh gone (threads_ p) = 0%nat \/ tasks_ p = []) as Hg.
  { destruct (decide (0 < weigh gone (threads_ p))%nat) as [G|G]; [right; by apply inv_exit0 | left; lia]. }
  destruct (tasks_ p) as [|t rest] eqn:Q.
  - destruct (stop_ p) eqn:S; simpl.
    + worker_moves E (@Exited T). split; simpl; rewrite ?length_insert, ?Q; simpl; auto.
      * by rewrite Hrun.
      * right. lia.
      * intros N. destruct (inv_end0 N). split; [done|lia].
    + worker_moves E (@Asleep T). split; simpl; rewrite ?length_insert, ?Q, ?S; simpl; auto.
      * by rewrite Hrun.
      * right. lia.
      * intros G. apply inv_exit0. lia.
      * intros N. by destruct (inv_end0 N).
  - rewrite orb_true_r. worker_moves E (Running t).
    split; simpl; rewrite ?length_insert; auto.
    + rewrite inv_fifo0. by rewrite <- app_assoc.
    + rewrite Hrun, inv_once0. solve_Permutation.
    + destruct inv_wake0; [left | right]; lia.
    + destruct Hg; [lia | done].
    + intros N. destruct (inv_end0 N). split; [done|lia].
Qed.

Lemma inv_done size i t p :
  pool_inv size p -> threads_ p !! i = Some (Running t) -> pool_inv size (task_done i t p).
Proof.
  intros [] E. worker_moves E (@Ready T). split; simpl; rewrite ?length_insert; auto.
  - rewrite inv_once0, <- Hrun. solve_Permutation.
  - destruct inv_wake0; [left | right]; lia.
  - intros G. apply inv_exit0. lia.
  - intros N. destruct (inv_end0 N). split; [done|lia].
Qed.

(** Waking one sleeper, with [n] of the owed notifications left. *)
Lemma inv_woken size i p n :
  pool_inv size p -> threads_ p !! i = Some Asleep -> (notifies p <= S n)%nat ->
  pool_inv size (mkPool (<[i:=Ready]> (threads_ p)) (tasks_ p) (stop_ p) n (notified_all p)
                   (accepted p) (started p) (finished p)).
Proof.
  intros [] E Hn. worker_moves E (@Ready T). split; simpl; rewrite ?length_insert; auto.
  - by rewrite Hrun.
  - destruct inv_wake0; [left | right]; lia.
  - intros G. apply inv_exit0. lia.
  - intros N. destruct (inv_end0 N). split; [done|lia].
Qed.

Lemma inv_notify_none size p :
  pool_inv size p -> existsb is_asleep (threads_ p) = false -> pool_inv size (notify_one None p).
Proof. intros [] E. apply existsb_asleep in E. split; simpl; auto. Qed.

Lemma inv_notify_all size p : pool_inv size p -> stop_ p = true -> pool_inv size (notify_all p).
Proof.
  intros [] S. assert (weigh asleep (wake <$> threads_ p) = 0%nat) as A.
  { rewrite weigh_map, (weigh_const 0); [done | by intros []]. }
  split; simpl; rewrite ?length_fmap, ?running_wake; auto.
  by rewrite (weigh_ext_map gone) by (by intros []).
Qed.

Lemma inv_step size l p p' : pool_inv size p -> step l p = Some p' -> pool_inv size p'.
Proof.
  intros I. destruct l as [t|o|i|i|i| |]; simpl.
  - destruct (add t p) eqn:E; intros; simplify_eq; [done | by eapply inv_add].
  - destruct (decide _); [|done]. destruct o as [i|].
    + destruct (threads_ p !! i) as [[]|] eqn:E; intros; simplify_eq. by apply inv_woken; [| |lia].
    + destruct (existsb _ _) eqn:E; intros; simplify_eq. by apply inv_notify_none.
  - destruct (threads_ p !! i) as [[]|] eqn:E; intros; simplify_eq. by apply inv_section.
  - destruct (threads_ p !! i) as [[]|] eqn:E; intros; simplify_eq. by apply inv_done.
  - destruct (threads_ p !! i) as [[]|] eqn:E; intros; simplify_eq. by apply inv_woken; [| |lia].
  - destruct (stop_ p) eqn:S; intros; simplify_eq. destruct I. split; simpl; auto.
    + intros G. apply inv_exit0 in G as [? ?]. done.
    + intros N. destruct (inv_end0 N). done.
  - destruct (stop_ p) eqn:S; simpl; [|done]. destruct (notified_all p); simpl; intros; simplify_eq.
    by apply inv_notify_all.
Qed.

Lemma inv_run size ls p p' : pool_inv size p -> run ls p = Some p' -> pool_inv size p'.
Proof.
  revert p. induction ls as [|l ls IH]; simpl; intros p I; [by intros [= <-]|].
  destruct (step l p) eqn:E; [|done]. intros R. eapply IH; [|done]. by eapply inv_step.
Qed.

Lemma reachable_inv size p : reachable size p -> pool_inv (Z.to_nat size) p.
Proof. intros [ls R]. eapply inv_run; [apply inv_init | done]. Qed.

(** Everybody is asleep, awake or gone. *)
Lemma weigh_total (ws : list (worker T)) :
  (weigh asleep ws + weigh active ws + weigh gone ws = length ws)%nat.
Proof. unfold weigh. induction ws as [|[] ws IH]; simpl; lia. Qed.

Lemma ready_active (ws : list (worker T)) : (weigh ready ws <= weigh active ws)%nat.
Proof. unfold weigh. induction ws as [|[] ws IH]; simpl; lia. Qed.

Lemma joined_spec p :
  joined p = true <-> notified_all p = true /\ weigh gone (threads_ p) = length (threads_ p).
Proof.
  unfold joined. rewrite andb_true_iff. apply and_iff_compat_l.
  induction (threads_ p) as [|w ws IH]; [done|]. pose proof (weigh_total ws). unfold weigh in *. simpl.
  rewrite andb_true_iff, IH. destruct w; simpl; split; try lia; intros [? ?]; done.
Qed.

(** ** Shutdown *)

(** The steps the pool and its clients' outstanding calls can still take once
    the destructor waits in [join]; new calls of [add] do not count. *)
Definition internal (l : label) : Prop := match l with Add _ => False | _ => True end.

Definition remaining p : nat :=
  (2 * length (tasks_ p) + notifies p + weigh effort (threads_ p))%nat.

Lemma remaining_decreases size l p p' :
  pool_inv size p -> notified_all p = true -> internal l -> step l p = Some p' ->
  (remaining p' < remaining p)%nat /\ notified_all p' = true.
Proof.
  intros I N Hl. destruct (inv_end _ _ I N) as [S A]. unfold remaining.
  destruct l as [t|o|i|i|i| |]; simpl; rewrite ?S, ?N; simpl; try done.
  - destruct (decide _); [|done]. destruct o as [i|].
    + destruct (threads_ p !! i) as [[]|] eqn:E; intros; simplify_eq.
      by pose proof (weigh_zero _ _ _ _ A E).
    + destruct (existsb _ _); intros; simplify_eq. simpl. split; [lia | done].
  - destruct (threads_ p !! i) as [[]|] eqn:E; intros; simplify_eq.
    unfold worker_section. rewrite S. simpl. destruct (tasks_ p) as [|t rest] eqn:Q; simpl; rewrite ?Q.
    + pose proof (weigh_insert effort _ _ _ Exited E). simpl in *. split; [lia | done].
    + pose proof (weigh_insert effort _ _ _ (Running t) E). simpl in *. split; [lia | done].
  - destruct (threads_ p !! i) as [[]|] eqn:E; intros; simplify_eq. simpl.
    pose proof (weigh_insert effort _ _ _ Ready E). simpl in *. split; [lia | done].
  - destruct (threads_ p !! i) as [[]|] eqn:E; intros; simplify_eq.
    by pose proof (weigh_zero _ _ _ _ A E).
Qed.

(** A pool in shutdown that is not joined has a worker that can move. *)
Lemma unjoined_worker size p :
  pool_inv size p -> notified_all p = true -> joined p = false ->
  exists i, threads_ p !! i = Some Ready \/ exists t, threads_ p !! i = Some (Running t).
Proof.
  intros I N J. destruct (inv_end _ _ I N) as [S A].
  assert (weigh active (threads_ p) <> 0)%nat as P.
  { intros Z. pose proof (weigh_total (threads_ p)) as W.
    assert (joined p = true); [apply joined_spec; split; [done | lia] | congruence]. }
  destruct (weigh_pos active (threads_ p)) as (i & w & E & Pw); [lia|].
  exists i. destruct w as [| |t|]; simpl in Pw; try lia; eauto.
Qed.

Lemma shutdown_progress size p :
  pool_inv size p -> notified_all p = true -> joined p = false ->
  exists l p', internal l /\ step l p = Some p'.
Proof.
  intros I N J. destruct (unjoined_worker _ _ I N J) as (i & [E|(t & E)]).
  - exists (Section_ i). simpl. rewrite E. by eexists.
  - exists (Done i). simpl. rewrite E. by eexists.
Qed.

Lemma shutdown_runs size ls p p' :
  pool_inv size p -> notified_all p = true -> Forall internal ls -> run ls p = Some p' ->
  (length ls + remaining p' <= remaining p)%nat /\ notified_all p' = true /\ pool_inv size p'.
Proof.
  intros I N F. revert p I N. induction F as [|l ls Hl F IH]; simpl; intros p I N R; [by simplify_eq|].
  destruct (step l p) as [q|] eqn:E; [|done].
  destruct (remaining_decreases _ _ _ _ I N Hl E) as [D N'].
  destruct (IH q) as (B & N'' & I''); [by eapply inv_step | done | done |]. split; [lia | done].
Qed.

(** ** Properties *)

(** C20: exactly once, in order. However clients, workers and the destructor
    interleave, the tasks [add] accepted are started in the order they were
    accepted, the ones not started yet are the queue, and every started task is
    either running on one worker or has run to its end, once. *)
Theorem tasks_started_fifo_run_once size p :
  reachable size p ->
  accepted p = started p ++ tasks_ p /\ started p ≡ₚ finished p ++ running (threads_ p).
Proof. intros R. by destruct (reachable_inv _ _ R). Qed.

(** C21: no lost wake-up. In every reachable state in which the [notify_one] of
    every completed [add] was made, either nobody sleeps or at least as many
    workers are on their way to the queue as tasks are in it; so, with one worker
    or more, a queued task always has a worker that is awake. *)
Theorem no_lost_wakeup size p :
  reachable size p -> notifies p = 0%nat ->
  (weigh asleep (threads_ p) = 0%nat \/ (length (tasks_ p) <= weigh ready (threads_ p))%nat) /\
  (0 < size -> tasks_ p <> [] ->
   exists i w, threads_ p !! i = Some w /\ (w = Ready \/ exists t, w = Running t)).
Proof.
  intros R N. destruct (reachable_inv _ _ R). rewrite N in inv_wake0. split; [done|].
  intros Hs Hq. pose proof (weigh_total (threads_ p)). pose proof (ready_active (threads_ p)).
  assert (weigh gone (threads_ p) = 0%nat) as G.
  { destruct (weigh gone (threads_ p)) eqn:G; [done|]. destruct inv_exit0; [lia|done]. }
  destruct (weigh_pos active (threads_ p)) as (i & w & E & P).
  { destruct (tasks_ p); [done|]. simpl in *. lia. }
  exists i, w. split; [done|]. destruct w; simpl in P; try lia; eauto.
Qed.

(** Shutdown drains the queue. When the destructor's joins have returned,
    every task that was ever accepted has run to its end exactly once. *)
Theorem join_drains_queue size p :
  reachable size p -> 0 < size -> joined p = true ->
  tasks_ p = [] /\ finished p ≡ₚ accepted p.
Proof.
  intros R Hs J. destruct (reachable_inv _ _ R). apply joined_spec in J as [N G].
  destruct inv_exit0 as [S Q]; [lia|]. split; [done|].
  assert (running (threads_ p) = []) as E.
  { pose proof (weigh_total (threads_ p)) as W. assert (weigh active (threads_ p) = 0%nat) as A by lia.
    revert A. clear. unfold weigh, running. induction (threads_ p) as [|[] ws IH]; simpl; auto; lia. }
  rewrite inv_fifo0, Q, app_nil_r, inv_once0, E. by rewrite app_nil_r.
Qed.

(** C26: the destructor returns. Once it has called [notify_all], whatever the
    order in which the threads run (and each task itself coming back), only
    finitely many steps remain, with an explicit bound, and the pool comes to
    rest only with every thread joined. *)
Theorem destructor_terminates size p ls p' :
  reachable size p -> notified_all p = true -> Forall internal ls -> run ls p = Some p' ->
  (length ls <= remaining p)%nat /\
  ((forall l, internal l -> step l p' = None) -> joined p' = true).
Proof.
  intros R N F E. destruct (shutdown_runs _ _ _ _ (reachable_inv _ _ R) N F E) as (B & N' & I).
  split; [lia|]. intros Stuck. destruct (joined p') eqn:J; [done|].
  destruct (shutdown_progress _ _ I N' J) as (l & q & Hl & El). by rewrite (Stuck l Hl) in El.
Qed.

End Pool.
Arguments label T : clear implicits.

(** ** Witnesses *)

(** Two workers and three tasks; the first worker went to sleep before the
    first task came. *)
Definition busy_run : list (label nat) :=
  [Section_ 0; Add 1; Section_ 1; Notify (Some 0); Add 2; Add 3; Notify None; Notify None]%nat.

(** The destructor runs while a task is running and two are queued. *)
Definition stopping_run : list (label nat) := busy_run ++ [Stop; NotifyAll].

Definition last_steps : list (label nat) :=
  [Section_ 0; Done 1; Section_ 1; Done 0; Done 1; Section_ 0; Section_ 1]%nat.

Definition after (ls : list (label nat)) : ThreadPool nat :=
  default (new_ThreadPool 2) (run ls (new_ThreadPool 2)).

Lemma tasks_started_fifo_run_once_witness :
  accepted (after busy_run) = [1; 2; 3]%nat /\ tasks_ (after busy_run) = [2; 3]%nat /\
  accepted (after busy_run) = started (after busy_run) ++ tasks_ (after busy_run) /\
  started (after busy_run) ≡ₚ finished (after busy_run) ++ running (threads_ (after busy_run)).
Proof.
  split; [reflexivity|]. split; [reflexivity|].
  apply (tasks_started_fifo_run_once 2). exists busy_run. by vm_compute.
Defined.

Lemma no_lost_wakeup_witness :
  exists i w, threads_ (after busy_run) !! i = Some w /\ (w = Ready \/ exists t, w = Running t).
Proof.
  apply (no_lost_wakeup 2 (after busy_run)); [exists busy_run; by vm_compute | by vm_compute | lia | by vm_compute].
Defined.

Lemma join_drains_queue_witness :
  let p := after (stopping_run ++ last_steps) in
  tasks_ p = [] /\ finished p ≡ₚ accepted p.
Proof.
  apply (join_drains_queue 2 (after (stopping_run ++ last_steps)));
    [exists (stopping_run ++ last_steps); by vm_compute | lia | by vm_compute].
Defined.

Lemma destructor_terminates_witness :
  (length last_steps <= remaining (after stopping_run))%nat /\
  ((forall l, internal l -> step l (after (stopping_run ++ last_steps)) = None) ->
   joined (after (stopping_run ++ last_steps)) = true).
Proof.
  apply (destructor_terminates 2 (after stopping_run));
    [exists stopping_run; by vm_compute | by vm_compute | by repeat constructor | by vm_compute].
Defined.

(** With no worker the joins return at once and what was queued is dropped
    without being run. *)
Example no_worker_drops_tasks :
  option_map (fun p => (joined p, accepted p, finished p))
    (run [Add 1; Notify None; Stop; NotifyAll]%nat (new_ThreadPool 0)) = Some (true, [1%nat], []).
Proof. reflexivity. Qed.

(** A call of [add] after the destructor set [stop_] throws. *)
Example add_after_stop_throws :
  add 4%nat (after stopping_run) = inl "enqueue on stopped ThreadPool"%string.
Proof. reflexivity. Qed.
