(* ===== verification/Interfaces.v ===== *)
(** * Interfaces of the storage back ends

    What the database handlers of Connection.cpp rely on, as type classes: the
    session store ([RedisPool]'s [get], [setex] and [del]), whose laws are
    proved for the pool in Redis.v, the Redis server behind it and the MySQL
    server, which are third-party programs reached through hiredis and
    libmysqlclient and are given by their documented behaviour. *)

From S2P Require Import Prelude CppString.

(** ** The session store (include/RedisPool.h) *)

Inductive RedisStatus : Type := Ok | NotFound | Error.

#[export] Instance RedisStatus_eq_dec : EqDecision RedisStatus.
Proof. solve_decision. Defined.

(** [store_view] is what the store holds under a key at the moment. The laws
    come in two groups: what an answer means, whatever the state of the store,
    and which answer a store in working order gives. Keys and values go through
    [c_str()]. *)
Class SessionStore (S : Type) : Type := {
  store_get : bytes -> S -> S * (bytes * RedisStatus);
  store_setex : bytes -> Z -> bytes -> S -> S * bool;
  store_del : bytes -> S -> S * RedisStatus;
  store_view : S -> bytes -> option bytes;
  store_healthy : S -> Prop;
  store_get_ok k s s' v : store_get k s = (s', (v, Ok)) ->
    store_view s (c_str k) = Some v /\ forall k', store_view s' k' = store_view s k';
  store_get_empty k s s' v st : store_get k s = (s', (v, st)) -> st <> Ok -> v = [];
  store_setex_ok k ttl v s s' : store_setex k ttl v s = (s', true) ->
    store_view s' (c_str k) = Some (c_str v) /\
    forall k', k' <> c_str k -> store_view s' k' = store_view s k';
  store_del_ok k s s' : store_del k s = (s', Ok) ->
    is_Some (store_view s (c_str k)) /\ store_view s' (c_str k) = None /\
    forall k', k' <> c_str k -> store_view s' k' = store_view s k';
  store_get_healthy k s : store_healthy s -> exists s',
    store_get k s = (s', match store_view s (c_str k) with
                         | Some v => (v, Ok) | None => ([], NotFound) end) /\
    store_healthy s' /\ forall k', store_view s' k' = store_view s k';
  store_setex_healthy k ttl v s : store_healthy s -> 0 < ttl -> exists s',
    store_setex k ttl v s = (s', true) /\ store_healthy s';
  store_del_healthy k s : store_healthy s -> exists s',
    store_del k s = (s', match store_view s (c_str k) with Some _ => Ok | None => NotFound end) /\
    store_healthy s' /\ store_view s' (c_str k) = None /\
    forall k', k' <> c_str k -> store_view s' k' = store_view s k'
}.

(** ** The Redis server, through hiredis *)

(** A [redisReply]; the absence of one ([NULL]) is a broken connection. *)
Inductive redisReply : Type :=
| REDIS_REPLY_STRING (str : bytes)
| REDIS_REPLY_INTEGER (integer : Z)
| REDIS_REPLY_NIL
| REDIS_REPLY_STATUS (str : bytes)
| REDIS_REPLY_ERROR (str : bytes).

(** [redisCommand] sends one command, given by its arguments: hiredis makes one
    argument of each "%s", a C string, and of each "%d". The laws are those of
    GET, SETEX and DEL: what an answer says of the keys, and that a server that
    is up answers. *)
Class RedisServer (R : Type) : Type := {
  redisCommand : nat -> list bytes -> R -> R * option redisReply;
  redis_view : R -> bytes -> option bytes;
  redis_up : R -> Prop;
  redis_GET c k r r' v : redisCommand c [bs "GET"; k] r = (r', Some (REDIS_REPLY_STRING v)) ->
    redis_view r k = Some v /\ forall k', redis_view r' k' = redis_view r k';
  redis_SETEX c k ttl v r r' rep : redisCommand c [bs "SETEX"; k; ttl; v] r = (r', Some rep) ->
    (exists e, rep = REDIS_REPLY_ERROR e) \/
    redis_view r' k = Some v /\ forall k', k' <> k -> redis_view r' k' = redis_view r k';
  redis_DEL c k r r' n : redisCommand c [bs "DEL"; k] r = (r', Some (REDIS_REPLY_INTEGER n)) -> 0 < n ->
    is_Some (redis_view r k) /\ redis_view r' k = None /\
    forall k', k' <> k -> redis_view r' k' = redis_view r k';
  redis_GET_up c k r : redis_up r -> exists r',
    redisCommand c [bs "GET"; k] r =
      (r', Some (match redis_view r k with Some v => REDIS_REPLY_STRING v | None => REDIS_REPLY_NIL end)) /\
    redis_up r' /\ forall k', redis_view r' k' = redis_view r k';
  redis_SETEX_up c k ttl v r : redis_up r -> 0 < ttl -> exists r' s,
    redisCommand c [bs "SETEX"; k; to_string ttl; v] r = (r', Some (REDIS_REPLY_STATUS s)) /\ redis_up r';
  redis_DEL_up c k r : redis_up r -> exists r',
    redisCommand c [bs "DEL"; k] r =
      (r', Some (REDIS_REPLY_INTEGER (if redis_view r k then 1 else 0))) /\
    redis_up r' /\ redis_view r' k = None /\ forall k', k' <> k -> redis_view r' k' = redis_view r k'
}.

(** A server that keeps its keys in a map and does not fail. *)
Definition table_command (_ : nat) (args : list bytes) (r : gmap bytes bytes) :
    gmap bytes bytes * option redisReply :=
  match args with
  | [c; k] =>
      if bool_decide (c = bs "GET") then
        (r, Some (match r !! k with Some v => REDIS_REPLY_STRING v | None => REDIS_REPLY_NIL end))
      else if bool_decide (c = bs "DEL") then
        (delete k r, Some (REDIS_REPLY_INTEGER (if r !! k then 1 else 0)))
      else (r, Some (REDIS_REPLY_ERROR (bs "ERR unknown command")))
  | [c; k; ttl; v] =>
      if bool_decide (c = bs "SETEX") then (<[k:=v]> r, Some (REDIS_REPLY_STATUS (bs "OK")))
      else (r, Some (REDIS_REPLY_ERROR (bs "ERR unknown command")))
  | _ => (r, Some (REDIS_REPLY_ERROR (bs "ERR unknown command")))
  end.

#[export] Instance table_server : RedisServer (gmap bytes bytes).
Proof.
  refine {| redisCommand := table_command; redis_view r k := r !! k; redis_up _ := True |};
    simpl.
  - intros c k r r' v E. destruct (r !! k); by simplify_eq.
  - intros c k ttl v r r' rep E. right. simplify_eq.
    split; [apply lookup_insert_eq | intros; by apply lookup_insert_ne].
  - intros c k r r' n E Hn. destruct (r !! k) eqn:K; simplify_eq; [|lia].
    split; [by eexists|]. split; [apply lookup_delete_eq | intros; by apply lookup_delete_ne].
  - intros c k r _. by exists r.
  - intros c k ttl v r _ _. by exists (<[k:=v]> r), (bs "OK").
  - intros c k r _. exists (delete k r). split; [done|]. split; [done|].
    split; [apply lookup_delete_eq | intros; by apply lookup_delete_ne].
Defined.

(** ** The MySQL server, through libmysqlclient *)

(** The statements of the handlers, around escaped text. *)
Definition sql_exists (esc_user : bytes) : bytes :=
  bs "SELECT 1 FROM users WHERE username='" ++ esc_user ++ bs "' LIMIT 1".

Definition sql_password (esc_user : bytes) : bytes :=
  bs "SELECT password FROM users WHERE username='" ++ esc_user ++ bs "' LIMIT 1".

Definition sql_insert (esc_user esc_pass : bytes) : bytes :=
  bs "INSERT INTO users(username, password) VALUES('" ++ esc_user ++ bs "','" ++ esc_pass ++ bs "')".

(** [mysql_query] fails, or succeeds with what [mysql_store_result] then
    returns: NULL, or rows, of which the handlers read the first column. *)
Inductive query_ret : Type := QueryError | QueryOk (result : option (list bytes)).

(** [mysql_users] is the [users] table with its unique name: the password
    stored for a name. The server compares names by the collation of the column,
    [mysql_same], which may identify names that differ as bytes (letter case,
    trailing blanks). [mysql_text] is text the columns accept in the connection's
    character set. A statement that fails has no effect, or, when the connection
    broke before the answer came, its full effect. *)
Class MysqlServer (D : Type) : Type := {
  mysql_real_escape_string : bytes -> bytes;
  mysql_query : bytes -> D -> D * query_ret;
  mysql_users : D -> bytes -> option bytes;
  mysql_same : bytes -> bytes -> bool;
  mysql_text : bytes -> Prop;
  mysql_up : D -> Prop;
  escape_length s : (length (mysql_real_escape_string s) <= 2 * length s)%nat;
  escape_no_nul s : NUL ∉ mysql_real_escape_string s;
  same_refl u : mysql_same u u = true;
  same_users_eq u v d : mysql_same u v = true -> mysql_users d u = mysql_users d v;
  exists_ok u d d' rows :
    mysql_query (sql_exists (mysql_real_escape_string u)) d = (d', QueryOk (Some rows)) ->
    rows = [] <-> mysql_users d u = None;
  password_ok u d d' rows :
    mysql_query (sql_password (mysql_real_escape_string u)) d = (d', QueryOk (Some rows)) ->
    head rows = mysql_users d u;
  exists_pure u d v :
    mysql_users (fst (mysql_query (sql_exists (mysql_real_escape_string u)) d)) v = mysql_users d v;
  password_pure u d v :
    mysql_users (fst (mysql_query (sql_password (mysql_real_escape_string u)) d)) v = mysql_users d v;
  insert_ok u pw d d' o :
    mysql_query (sql_insert (mysql_real_escape_string u) (mysql_real_escape_string pw)) d
      = (d', QueryOk o) ->
    mysql_users d u = None /\
    forall v, mysql_users d' v = if mysql_same u v then Some pw else mysql_users d v;
  insert_error u pw d d' :
    mysql_query (sql_insert (mysql_real_escape_string u) (mysql_real_escape_string pw)) d
      = (d', QueryError) ->
    (forall v, mysql_users d' v = mysql_users d v) \/
    mysql_users d u = None /\
    forall v, mysql_users d' v = if mysql_same u v then Some pw else mysql_users d v;
  exists_up u d : mysql_up d -> exists d' rows,
    mysql_query (sql_exists (mysql_real_escape_string u)) d = (d', QueryOk (Some rows)) /\ mysql_up d';
  password_up u d : mysql_up d -> exists d' rows,
    mysql_query (sql_password (mysql_real_escape_string u)) d = (d', QueryOk (Some rows)) /\ mysql_up d';
  insert_up u pw d : mysql_up d -> mysql_users d u = None -> mysql_text u -> mysql_text pw -> exists d',
    mysql_query (sql_insert (mysql_real_escape_string u) (mysql_real_escape_string pw)) d
      = (d', QueryOk None) /\ mysql_up d';
  insert_taken u pw d q : mysql_up d -> mysql_users d u = Some q -> exists d',
    mysql_query (sql_insert (mysql_real_escape_string u) (mysql_real_escape_string pw)) d
      = (d', QueryError) /\ mysql_up d'
}.

(** A server for exactly these statements: it reads string literals with the
    backslash escapes of MySQL and keeps the table in a map. *)
Definition sql_escape_char (c : ascii) : bytes :=
  if decide (c = NUL) then [BACKSLASH; "0"%char]
  else if decide (c = LF) then [BACKSLASH; "n"%char]
  else if decide (c = CR) then [BACKSLASH; "r"%char]
  else if decide (c = "026"%char) then [BACKSLASH; "Z"%char]
  else if decide (c = BACKSLASH \/ c = "'"%char \/ c = DQUOTE) then [BACKSLASH; c]
  else [c].

Definition sql_escape (s : bytes) : bytes := mjoin (sql_escape_char <$> s).

Definition sql_unescape_char (c : ascii) : ascii :=
  if decide (c = "0"%char) then NUL
  else if decide (c = "n"%char) then LF
  else if decide (c = "r"%char) then CR
  else if decide (c = "Z"%char) then "026"%char
  else c.

(** The text of a literal after its opening quote, and what follows it. *)
Fixpoint sql_literal (s : bytes) : option (bytes * bytes) :=
  match s with
  | [] => None
  | c :: s1 =>
      if decide (c = "'"%char) then Some ([], s1)
      else if decide (c = BACKSLASH) then
        match s1 with
        | [] => None
        | e :: s2 => prod_map (cons (sql_unescape_char e)) id <$> sql_literal s2
        end
      else prod_map (cons c) id <$> sql_literal s1
  end.

Lemma sql_literal_char c s :
  sql_literal (sql_escape_char c ++ s) = prod_map (cons c) id <$> sql_literal s.
Proof.
  unfold sql_escape_char. repeat case_decide; subst; try reflexivity.
  - destruct H3 as [->|[->| ->]]; reflexivity.
  - simpl. rewrite decide_False by tauto. by rewrite decide_False by tauto.
Qed.

Lemma sql_literal_escape s rest : sql_literal (sql_escape s ++ "'"%char :: rest) = Some (s, rest).
Proof.
  induction s as [|c s IH]; [done|].
  change (sql_escape (c :: s)) with (sql_escape_char c ++ sql_escape s).
  by rewrite <- app_assoc, sql_literal_char, IH.
Qed.

Definition strip (p s : bytes) : option bytes :=
  if starts_with p s then Some (drop (length p) s) else None.

Lemma strip_app p s : strip p (p ++ s) = Some s.
Proof. unfold strip. by rewrite starts_with_app, drop_app_length. Qed.

(** The text of [s] between a literal prefix and a literal suffix that closes
    the quote. *)
Definition sql_one (p q s : bytes) : option bytes :=
  match strip p s with
  | Some s1 => match sql_literal s1 with
               | Some (u, s2) => if decide (s2 = q) then Some u else None
               | None => None
               end
  | None => None
  end.

Lemma sql_one_app p q u : sql_one p q (p ++ sql_escape u ++ "'"%char :: q) = Some u.
Proof. unfold sql_one. by rewrite strip_app, sql_literal_escape, decide_True. Qed.

Definition users_query (q : bytes) (d : gmap bytes bytes) : gmap bytes bytes * query_ret :=
  match sql_one (bs "SELECT 1 FROM users WHERE username='") (bs " LIMIT 1") q with
  | Some u => (d, QueryOk (Some (if d !! u then [bs "1"] else [])))
  | None =>
  match sql_one (bs "SELECT password FROM users WHERE username='") (bs " LIMIT 1") q with
  | Some u => (d, QueryOk (Some (option_list (d !! u))))
  | None =>
  match strip (bs "INSERT INTO users(username, password) VALUES('") q ≫= sql_literal with
  | Some (u, s) =>
      match sql_one (bs ",'") (bs ")") s, d !! u with
      | Some pw, None => (<[u:=pw]> d, QueryOk None)
      | _, _ => (d, QueryError)
      end
  | None => (d, QueryError)
  end end end.

Lemma users_query_exists u d :
  users_query (sql_exists (sql_escape u)) d = (d, QueryOk (Some (if d !! u then [bs "1"] else []))).
Proof. unfold users_query, sql_exists. by rewrite (sql_one_app _ (bs " LIMIT 1")). Qed.

Lemma users_query_password u d :
  users_query (sql_password (sql_escape u)) d = (d, QueryOk (Some (option_list (d !! u)))).
Proof.
  unfold users_query, sql_password.
  replace (sql_one (bs "SELECT 1 FROM users WHERE username='") _ _) with (@None bytes) by reflexivity.
  by rewrite (sql_one_app _ (bs " LIMIT 1")).
Qed.

Lemma users_query_insert u pw d :
  users_query (sql_insert (sql_escape u) (sql_escape pw)) d =
  if d !! u then (d, QueryError) else (<[u:=pw]> d, QueryOk None).
Proof.
  unfold users_query, sql_insert.
  replace (sql_one (bs "SELECT 1 FROM users WHERE username='") _ _) with (@None bytes) by reflexivity.
  replace (sql_one (bs "SELECT password FROM users WHERE username='") _ _) with (@None bytes) by reflexivity.
  rewrite strip_app. cbn [mbind option_bind].
  change (bs "','" ++ sql_escape pw ++ bs "')") with ("'"%char :: bs ",'" ++ sql_escape pw ++ "'"%char :: bs ")").
  rewrite sql_literal_escape, sql_one_app. by destruct (d !! u).
Qed.

Lemma sql_escape_char_spec c : (length (sql_escape_char c) <= 2)%nat /\ NUL ∉ sql_escape_char c.
Proof.
  unfold sql_escape_char. repeat case_decide; subst; (split; [simpl; lia|]);
    rewrite ?elem_of_cons, elem_of_nil; intuition (subst; discriminate || done).
Qed.

#[export] Instance users_server : MysqlServer (gmap bytes bytes).
Proof.
  refine {| mysql_real_escape_string := sql_escape; mysql_query := users_query;
            mysql_users d u := d !! u; mysql_same u v := bool_decide (u = v); mysql_text _ := True; mysql_up _ := True |}.
  - intros s. induction s as [|c s IH]; [done|].
    change (sql_escape (c :: s)) with (sql_escape_char c ++ sql_escape s). rewrite length_app. simpl.
    pose proof (sql_escape_char_spec c). lia.
  - intros s. unfold sql_escape. rewrite list_elem_of_join. intros (l & Hn & Hl).
    apply list_elem_of_fmap in Hl as (c & -> & _). by apply sql_escape_char_spec in Hn.
  - intros u. by apply bool_decide_eq_true.
  - intros u v d E. by apply bool_decide_eq_true in E as ->.
  - intros u d d' rows. rewrite users_query_exists. destruct (d !! u); intros; by simplify_eq.
  - intros u d d' rows. rewrite users_query_password. destruct (d !! u); intros; by simplify_eq.
  - intros u d v. by rewrite users_query_exists.
  - intros u d v. by rewrite users_query_password.
  - intros u pw d d' o. rewrite users_query_insert. destruct (d !! u) eqn:U; intros; simplify_eq.
    split; [done|]. intros v. case_bool_decide; [subst; apply lookup_insert_eq | by apply lookup_insert_ne].
  - intros u pw d d'. rewrite users_query_insert. destruct (d !! u) eqn:U; intros; simplify_eq. by left.
  - intros u d _. rewrite users_query_exists. by eexists _, _.
  - intros u d _. rewrite users_query_password. by eexists _, _.
  - intros u pw d _ U _ _. rewrite users_query_insert, U. by eexists.
  - intros u pw d q _ U. rewrite users_query_insert, U. by eexists.
Defined.
