(* ===== verification/Redis.v ===== *)
(** * The Redis connection pool (src/RedisPool.cpp, include/RedisPool.h)

    The queue of idle connections, the constructor and destructor, [getConn],
    [releaseConn], [discardBrokenConn] and the three commands. A [redisContext]
    is a number that is never given out twice; [rlive] holds the contexts that
    were connected and not freed, so that a freed context in use shows. What
    [redisConnectWithTimeout] returns is a script.

    [cv_.wait_for] gives up after five seconds: [getConn] on an empty queue is the
    call whose wait timed out, and a call that had to wait is a call made when a
    connection is there. The interleavings of the clients' steps are in the
    second part; the pool as a [SessionStore] is in the third. *)

From S2P Require Import Prelude CppString Config Interfaces.

(** ** State and operations *)

(** What [redisConnectWithTimeout] returns: NULL, a context with [err] set, or a
    context that is connected. *)
Inductive connect_ret : Type := ConnectNull | ConnectErr | ConnectOk.

Record RedisPool : Type := mkRedis {
  rpool_ : list nat;
  rlive : gset nat;
  rnext : nat;
  rconnects : list connect_ret
}.

Definition redisFree (c : nat) (p : RedisPool) : RedisPool :=
  mkRedis (rpool_ p) (rlive p ∖ {[c]}) (rnext p) (rconnects p).

(** A call past the end of the script fails. *)
Definition redisConnectWithTimeout (p : RedisPool) : option (nat * bool) * RedisPool :=
  match rconnects p with
  | [] => (None, p)
  | ConnectNull :: cs => (None, mkRedis (rpool_ p) (rlive p) (rnext p) cs)
  | r :: cs =>
      let err := match r with ConnectErr => true | _ => false end in
      (Some (rnext p, err), mkRedis (rpool_ p) ({[rnext p]} ∪ rlive p) (S (rnext p)) cs)
  end.

Definition createConn (p : RedisPool) : option nat * RedisPool :=
  let '(conn, p) := redisConnectWithTimeout p in
  match conn with
  | None => (None, p)
  | Some (c, true) => (None, redisFree c p)
  | Some (c, false) => (Some c, p)
  end.

(** [pool_.push(conn)]; the notification wakes a waiting [getConn]. *)
Definition push_conn (c : nat) (p : RedisPool) : RedisPool :=
  mkRedis (rpool_ p ++ [c]) (rlive p) (rnext p) (rconnects p).

Fixpoint open_loop (n : nat) (p : RedisPool) : RedisPool :=
  match n with
  | O => p
  | S n =>
      let '(conn, p) := createConn p in
      open_loop n (match conn with Some c => push_conn c p | None => p end)
  end.

Definition new_RedisPool (connects : list connect_ret) : RedisPool :=
  open_loop (Z.to_nat kRedisMaxConn) (mkRedis [] ∅ 0 connects).

Definition redis_getConn (p : RedisPool) : option nat * RedisPool :=
  match rpool_ p with
  | [] => (None, p)
  | c :: q => (Some c, mkRedis q (rlive p) (rnext p) (rconnects p))
  end.

Definition redis_releaseConn (conn : option nat) (p : RedisPool) : RedisPool :=
  match conn with None => p | Some c => push_conn c p end.

(** [discardBrokenConn], in its two halves: the connection is freed, and a
    replacement is connected and, if there is one, pushed. *)
Definition discard_free (conn : option nat) (p : RedisPool) : RedisPool :=
  match conn with Some c => redisFree c p | None => p end.

Definition discardBrokenConn (conn : option nat) (p : RedisPool) : RedisPool :=
  let '(fresh, p) := createConn (discard_free conn p) in
  match fresh with Some c => push_conn c p | None => p end.

(** The destructor frees the idle connections. *)
Definition delete_RedisPool (p : RedisPool) : RedisPool :=
  let p' := foldl (fun p c => redisFree c p) p (rpool_ p) in
  mkRedis [] (rlive p') (rnext p') (rconnects p').

(** ** Commands *)

Section Commands.
Context {R : Type} `{RedisServer R}.

Definition redis_get (key : bytes) (s : R * RedisPool) : (R * RedisPool) * (bytes * RedisStatus) :=
  let '(r, p) := s in
  let '(conn, p) := redis_getConn p in
  match conn with
  | None => ((r, p), ([], Error))
  | Some c =>
      let '(r, reply) := redisCommand c [bs "GET"; c_str key] r in
      match reply with
      | None => ((r, discardBrokenConn (Some c) p), ([], Error))
      | Some reply =>
          let '(result, st) :=
            match reply with REDIS_REPLY_STRING str => (str, Ok) | _ => ([], NotFound) end in
          ((r, redis_releaseConn (Some c) p), (result, st))
      end
  end.

Definition redis_setex (key : bytes) (ttl : Z) (value : bytes) (s : R * RedisPool) :
    (R * RedisPool) * bool :=
  let '(r, p) := s in
  let '(conn, p) := redis_getConn p in
  match conn with
  | None => ((r, p), false)
  | Some c =>
      let '(r, reply) := redisCommand c [bs "SETEX"; c_str key; to_string ttl; c_str value] r in
      match reply with
      | None => ((r, discardBrokenConn (Some c) p), false)
      | Some reply =>
          let ok := match reply with REDIS_REPLY_ERROR _ => false | _ => true end in
          ((r, redis_releaseConn (Some c) p), ok)
      end
  end.

Definition redis_del (key : bytes) (s : R * RedisPool) : (R * RedisPool) * RedisStatus :=
  let '(r, p) := s in
  let '(conn, p) := redis_getConn p in
  match conn with
  | None => ((r, p), Error)
  | Some c =>
      let '(r, reply) := redisCommand c [bs "DEL"; c_str key] r in
      match reply with
      | None => ((r, discardBrokenConn (Some c) p), Error)
      | Some reply =>
          let st := match reply with
                    | REDIS_REPLY_INTEGER n => if 0 <? n then Ok else NotFound
                    | _ => NotFound
                    end in
          ((r, redis_releaseConn (Some c) p), st)
      end
  end.

(** A pool with an idle connection, to a server that is up. *)
Definition redis_healthy (s : R * RedisPool) : Prop := redis_up s.1 /\ rpool_ s.2 <> [].

Lemma push_conn_idle c p : rpool_ (push_conn c p) <> [].
Proof. simpl. by destruct (rpool_ p). Qed.

(** *** The pool is a session store *)

#[export] Instance redis_store : SessionStore (R * RedisPool).
Proof.
  refine {| store_get := redis_get; store_setex := redis_setex; store_del := redis_del;
            store_view s := redis_view s.1; store_healthy := redis_healthy |};
    unfold redis_get, redis_setex, redis_del, redis_healthy.
  - intros k [r p] s' v E. destruct (redis_getConn p) as [[c|] p']; [|done].
    destruct (redisCommand _ _ _) as [r' [[]|]] eqn:C; simplify_eq. by apply redis_GET in C.
  - intros k [r p] s' v st E N. destruct (redis_getConn p) as [[c|] p']; [|by simplify_eq].
    destruct (redisCommand _ _ _) as [r' [[]|]]; by simplify_eq.
  - intros k ttl v [r p] s' E. destruct (redis_getConn p) as [[c|] p']; [|done].
    destruct (redisCommand _ _ _) as [r' [rep|]] eqn:C; simplify_eq.
    apply redis_SETEX in C as [[e ->]|C]; [done|]. by destruct rep; simplify_eq.
  - intros k [r p] s' E. destruct (redis_getConn p) as [[c|] p']; [|done].
    destruct (redisCommand _ _ _) as [r' [[]|]] eqn:C; simplify_eq.
    destruct (0 <? integer) eqn:L; simplify_eq. apply redis_DEL in C; [done | bool_lia].
  - intros k [r p] [U I]. cbn [fst snd] in *. unfold redis_getConn. destruct (rpool_ p) as [|c q]; [done|]; cbv iota beta.
    destruct (redis_GET_up c (c_str k) r U) as (r' & -> & U' & V). eexists.
    split; [by destruct (redis_view r (c_str k)) | by split; [split; [|apply push_conn_idle]|]].
  - intros k ttl v [r p] [U I] T. cbn [fst snd] in *. unfold redis_getConn. destruct (rpool_ p) as [|c q]; [done|]; cbv iota beta.
    destruct (redis_SETEX_up c (c_str k) ttl (c_str v) r U T) as (r' & s & -> & U'). eexists.
    split; [done | by split; [|apply push_conn_idle]].
  - intros k [r p] [U I]. cbn [fst snd] in *. unfold redis_getConn. destruct (rpool_ p) as [|c q]; [done|]; cbv iota beta.
    destruct (redis_DEL_up c (c_str k) r U) as (r' & -> & U' & V). eexists.
    split; [by destruct (redis_view r (c_str k)) | by split; [split; [|apply push_conn_idle]|]].
Defined.

End Commands.

(** ** Clients *)

(** The pool and the database threads that use it: the connections they hold,
    the replacements connected and not yet pushed, the number of clients that
    freed a broken connection and are about to connect a new one, and how many
    of those attempts failed so far. *)
Record clients : Type := mkClients {
  cpool : RedisPool;
  held : list nat;
  connected : list nat;
  replacing : nat;
  lost : nat
}.

Inductive action : Type :=
| Acquire                (* getConn *)
| Release (c : nat)      (* releaseConn after a reply *)
| Discard (c : nat)      (* discardBrokenConn frees the connection *)
| Replace                (* and connects another one *)
| Push (c : nat).        (* which it pushes under the lock *)

Definition act (a : action) (s : clients) : option clients :=
  match a with
  | Acquire =>
      let '(conn, p) := redis_getConn (cpool s) in
      Some (mkClients p (option_list conn ++ held s) (connected s) (replacing s) (lost s))
  | Release c =>
      h ← without c (held s);
      Some (mkClients (redis_releaseConn (Some c) (cpool s)) h (connected s) (replacing s) (lost s))
  | Discard c =>
      h ← without c (held s);
      Some (mkClients (discard_free (Some c) (cpool s)) h (connected s) (S (replacing s)) (lost s))
  | Replace =>
      match replacing s with
      | O => None
      | S n =>
          let '(fresh, p) := createConn (cpool s) in
          Some (match fresh with
                | Some c => mkClients p (held s) (c :: connected s) n (lost s)
                | None => mkClients p (held s) (connected s) n (S (lost s))
                end)
      end
  | Push c =>
      f ← without c (connected s);
      Some (mkClients (push_conn c (cpool s)) (held s) f (replacing s) (lost s))
  end.

Fixpoint run_actions (l : list action) (s : clients) : option clients :=
  match l with
  | [] => Some s
  | a :: l => match act a s with Some s' => run_actions l s' | None => None end
  end.

Definition started_with (connects : list connect_ret) : clients :=
  mkClients (new_RedisPool connects) [] [] 0 0.

(** *** The invariant *)

Definition everywhere (s : clients) : list nat := rpool_ (cpool s) ++ held s ++ connected s.

(** [n] connections were opened: each live context is in one place, and each of
    the [n] is there, being replaced, or lost. *)
Record clients_inv (n : nat) (s : clients) : Prop := {
  inv_nodup : NoDup (everywhere s);
  inv_live c : c ∈ everywhere s <-> c ∈ rlive (cpool s);
  inv_next c : c ∈ rlive (cpool s) -> (c < rnext (cpool s))%nat;
  inv_count : (length (everywhere s) + replacing s + lost s = n)%nat
}.

(** The invariant only sees which contexts are somewhere, not where. *)
Lemma inv_moved n s s' :
  clients_inv n s -> everywhere s' ≡ₚ everywhere s -> rlive (cpool s') = rlive (cpool s) ->
  rnext (cpool s') = rnext (cpool s) -> replacing s' = replacing s -> lost s' = lost s ->
  clients_inv n s'.
Proof.
  intros [] P L N Er El. split.
  - by rewrite P.
  - intros c. by rewrite P, L.
  - intros c. rewrite L, N. auto.
  - by rewrite P, Er, El.
Qed.

Lemma inv_discard n s c h :
  clients_inv n s -> without c (held s) = Some h ->
  clients_inv n (mkClients (discard_free (Some c) (cpool s)) h (connected s) (S (replacing s)) (lost s)).
Proof.
  intros [Hn Hl Hx Hc] W%without_perm.
  assert (everywhere s ≡ₚ c :: rpool_ (cpool s) ++ h ++ connected s) as P.
  { unfold everywhere. rewrite W. solve_Permutation. }
  rewrite P in Hn, Hc. apply NoDup_cons in Hn as [Hn1 Hn2].
  split; unfold everywhere in *; simpl in *.
  - done.
  - intros d. rewrite elem_of_difference, <- Hl, P, elem_of_cons, elem_of_singleton.
    split; [intros D; split; [by right | by intros ->] | by intros [[->|] ?]].
  - intros d [D _]%elem_of_difference. auto.
  - lia.
Qed.

Lemma createConn_spec p conn p' :
  createConn p = (conn, p') -> (forall c, c ∈ rlive p -> (c < rnext p)%nat) ->
  rpool_ p' = rpool_ p /\ (forall c, c ∈ rlive p' -> (c < rnext p')%nat) /\
  match conn with
  | Some c => c ∉ rlive p /\ rlive p' = {[c]} ∪ rlive p
  | None => rlive p' = rlive p
  end.
Proof.
  unfold createConn, redisConnectWithTimeout. intros E B.
  assert (rnext p ∉ rlive p) as F by (intros F%B; lia).
  assert (forall c, c ∈ {[rnext p]} ∪ rlive p -> (c < S (rnext p))%nat) as B'.
  { intros c [->%elem_of_singleton|D%B]%elem_of_union; lia. }
  destruct (rconnects p) as [|[] cs]; simplify_eq; simpl; auto.
  split; [done|]. split; [intros c [D _]%elem_of_difference; auto|].
  set_solver.
Qed.

Lemma inv_replace n s k conn p :
  clients_inv n s -> replacing s = S k -> createConn (cpool s) = (conn, p) ->
  clients_inv n (match conn with
                 | Some c => mkClients p (held s) (c :: connected s) k (lost s)
                 | None => mkClients p (held s) (connected s) k (S (lost s))
                 end).
Proof.
  intros [Hn Hl Hx Hc] K E. destruct (createConn_spec _ _ _ E Hx) as (Ep & B & L).
  unfold everywhere in *. destruct conn as [c|].
  - destruct L as [F L].
    assert (rpool_ p ++ held s ++ c :: connected s ≡ₚ c :: (rpool_ (cpool s) ++ held s ++ connected s)) as P.
    { rewrite Ep. solve_Permutation. }
    split; unfold everywhere; simpl.
    + rewrite P. apply NoDup_cons. split; [by rewrite Hl | done].
    + intros d. rewrite P, L, elem_of_cons, Hl. set_solver.
    + done.
    + rewrite P. simpl. lia.
  - split; unfold everywhere; simpl; rewrite ?Ep; auto; [by rewrite L | lia].
Qed.

Lemma inv_act n a s s' : clients_inv n s -> act a s = Some s' -> clients_inv n s'.
Proof.
  intros I. destruct a as [|c|c| |c]; simpl.
  - unfold redis_getConn. intros E. destruct (rpool_ (cpool s)) as [|c q] eqn:Q; simplify_eq; simpl.
    + by eapply inv_moved.
    + eapply inv_moved; [done| |done..]. unfold everywhere. simpl. rewrite Q. solve_Permutation.
  - destruct (without c (held s)) as [h|] eqn:W; simpl; [|done]. intros [= <-].
    apply without_perm in W. eapply inv_moved; [done| |done..]. unfold everywhere. simpl.
    rewrite W. solve_Permutation.
  - destruct (without c (held s)) as [h|] eqn:W; simpl; [|done]. intros [= <-]. by apply inv_discard.
  - destruct (replacing s) as [|k] eqn:K; [done|]. destruct (createConn _) as [conn p] eqn:E.
    intros [= <-]. by eapply inv_replace.
  - destruct (without c (connected s)) as [f|] eqn:W; simpl; [|done]. intros [= <-].
    apply without_perm in W. eapply inv_moved; [done| |done..]. unfold everywhere. simpl.
    rewrite W. solve_Permutation.
Qed.

Lemma inv_acts n l s s' : clients_inv n s -> run_actions l s = Some s' -> clients_inv n s'.
Proof.
  revert s. induction l as [|a l IH]; simpl; intros s I; [by intros [= <-]|].
  destruct (act a s) eqn:E; [|done]. intros A. eapply IH; [|done]. by eapply inv_act.
Qed.

(** The constructor opens at most as many connections as it tries to. *)
Lemma open_loop_inv n k p :
  clients_inv k (mkClients p [] [] 0 0) ->
  exists k', (k' <= k + n)%nat /\ clients_inv k' (mkClients (open_loop n p) [] [] 0 0).
Proof.
  revert k p. induction n as [|n IH]; intros k p I; simpl; [exists k; split; [lia|done]|].
  destruct (createConn p) as [conn p'] eqn:E.
  assert (clients_inv (S k) (mkClients p [] [] 1 0)) as I1.
  { destruct I as [A B C D]. split; auto. unfold everywhere in *. simpl in *. lia. }
  pose proof (inv_replace _ _ _ _ _ I1 eq_refl E) as I2. destruct conn as [c|]; simpl in I2.
  - destruct (IH (S k) (push_conn c p')) as (k' & L & I').
    { by apply (inv_act _ (Push c) _ _ I2); simpl; rewrite decide_True. }
    exists k'. split; [lia | done].
  - destruct (IH k p') as (k' & L & I'); [|exists k'; split; [lia | done]].
    destruct I2 as [A B C D]. split; auto. unfold everywhere in *. simpl in *. lia.
Qed.

Lemma started_inv cs :
  exists k, (k <= Z.to_nat kRedisMaxConn)%nat /\ clients_inv k (started_with cs).
Proof.
  destruct (open_loop_inv (Z.to_nat kRedisMaxConn) 0 (mkRedis [] ∅ 0 cs)) as (k & L & I).
  { split; simpl; [constructor | set_solver | set_solver | done]. }
  exists k. split; [lia | done].
Qed.

Lemma started_count cs : clients_inv (length (rpool_ (new_RedisPool cs))) (started_with cs).
Proof.
  destruct (started_inv cs) as (k & L & [A B C D]). split; auto.
  unfold everywhere. simpl. rewrite app_nil_r. lia.
Qed.

Lemma lost_monotone l s s' : run_actions l s = Some s' -> (lost s <= lost s')%nat.
Proof.
  revert s. induction l as [|a l IH]; simpl; intros s; [intros [= <-]; lia|].
  destruct (act a s) as [t|] eqn:E; [|done]. intros R%IH. enough (lost s <= lost t)%nat by lia.
  destruct a; simpl in E.
  - destruct (redis_getConn _). by simplify_eq.
  - destruct (without _ _); simpl in E; by simplify_eq.
  - destruct (without _ _); simpl in E; by simplify_eq.
  - destruct (replacing s); [done|]. destruct (createConn _) as [[]]; simplify_eq; simpl; lia.
  - destruct (without _ _); simpl in E; by simplify_eq.
Qed.

(** The server answers connection attempts differently from now on. *)
Definition set_connects (cs : list connect_ret) (s : clients) : clients :=
  mkClients (mkRedis (rpool_ (cpool s)) (rlive (cpool s)) (rnext (cpool s)) cs)
    (held s) (connected s) (replacing s) (lost s).

Lemma set_connects_inv n cs s : clients_inv n s -> clients_inv n (set_connects cs s).
Proof. intros I. by eapply inv_moved. Qed.

(** ** Properties *)

(** Exclusive use. Whatever the clients do and however connection attempts
    end, no connection is in two hands (or in a hand and in the queue), every
    connection in the queue or in use has not been freed, and the connections in
    the pool, in use, being replaced and lost are together the ones the
    constructor opened, at most [kRedisMaxConn]. *)
Theorem redis_connections_exclusive cs l s :
  run_actions l (started_with cs) = Some s ->
  NoDup (rpool_ (cpool s) ++ held s ++ connected s) /\
  (forall c, c ∈ rpool_ (cpool s) ++ held s ++ connected s -> c ∈ rlive (cpool s)) /\
  (length (rpool_ (cpool s) ++ held s ++ connected s) + replacing s + lost s
     = length (rpool_ (new_RedisPool cs)))%nat /\
  Z.of_nat (length (rpool_ (new_RedisPool cs))) <= kRedisMaxConn.
Proof.
  intros R. destruct (inv_acts _ _ _ _ (started_count cs) R) as [A B C D].
  split; [done|]. split; [intros c; by rewrite <- B|]. split; [done|].
  destruct (started_inv cs) as (k & L & [_ _ _ K]). unfold everywhere in K. simpl in K.
  rewrite app_nil_r in K. unfold kRedisMaxConn in *. lia.
Qed.

(** C39: the pool does shrink. A connection whose replacement could not be opened
    is not replaced later: once as many replacements failed as connections were
    opened, [getConn] gives nobody a connection again, also when the server has
    come back and would accept connections. *)
Theorem redis_outage_is_permanent cs l s cs' l' s' :
  run_actions l (started_with cs) = Some s -> lost s = length (rpool_ (new_RedisPool cs)) ->
  run_actions l' (set_connects cs' s) = Some s' ->
  redis_getConn (cpool s') = (None, cpool s').
Proof.
  intros R L R'. pose proof (inv_acts _ _ _ _ (started_count cs) R) as I.
  destruct (inv_acts _ _ _ _ (set_connects_inv _ cs' _ I) R') as [_ _ _ D].
  pose proof (lost_monotone _ _ _ R') as M. simpl in M. unfold everywhere in D. rewrite length_app in D.
  unfold redis_getConn. by destruct (rpool_ (cpool s')); [|simpl in D; lia].
Qed.

(** ** Witnesses *)

(** Three connections opened; one is in use, one idle, one broken and replaced. *)
Definition three_connects : list connect_ret :=
  [ConnectOk; ConnectErr; ConnectOk; ConnectNull; ConnectOk; ConnectErr; ConnectErr; ConnectErr; ConnectOk].

Lemma redis_connections_exclusive_witness :
  let s := default (started_with three_connects)
             (run_actions [Acquire; Acquire; Discard 0; Replace] (started_with three_connects)) in
  everywhere s = [3; 2; 7]%nat /\ NoDup (everywhere s).
Proof.
  split; [by vm_compute|].
  apply (redis_connections_exclusive three_connects [Acquire; Acquire; Discard 0%nat; Replace]).
  by vm_compute.
Defined.

(** One connection was opened; it breaks during an outage. *)
Lemma redis_outage_is_permanent_witness :
  let s := default (started_with [ConnectOk])
             (run_actions [Acquire; Discard 0%nat; Replace] (started_with [ConnectOk])) in
  redis_getConn (cpool (set_connects [ConnectOk; ConnectOk] s))
  = (None, cpool (set_connects [ConnectOk; ConnectOk] s)).
Proof.
  apply (redis_outage_is_permanent [ConnectOk] [Acquire; Discard 0%nat; Replace]
           (default (started_with [ConnectOk])
             (run_actions [Acquire; Discard 0%nat; Replace] (started_with [ConnectOk])))
           [ConnectOk; ConnectOk] []); by vm_compute.
Defined.
