(* ===== verification/RedisThreads.v ===== *)
(** * Redis commands side by side (src/RedisPool.cpp)

    [get], [setex] and [del] as the database threads run them: the wait for a
    connection, the command on it, and its return to the pool, or, when it is
    broken, its release, a new connection, and the push of that one, each a step
    between which the other threads do theirs.

    Alone, the steps of a command are the functions of [Redis]
    ([command_alone]). Together, they are clients of the pool, so that no
    connection is ever in two hands ([redis_threads_exclusive]); and to a server
    that is up they are commands that take effect at once, none of which fails as
    long as there are as many connections as threads
    ([redis_commands_linearizable]). This is what [Handlers] and [Service] rely on
    when a command is one call there. *)

From S2P Require Import Prelude CppString Config Interfaces Redis.

(** ** Commands *)

Inductive command : Type :=
| CGet (key : bytes)
| CSetex (key : bytes) (ttl : Z) (value : bytes)
| CDel (key : bytes).

Inductive outcome : Type :=
| OGet (value : bytes) (st : RedisStatus)
| OSetex (ok : bool)
| ODel (st : RedisStatus).

(** What goes to [redisCommand]. *)
Definition arguments (cmd : command) : list bytes :=
  match cmd with
  | CGet key => [bs "GET"; c_str key]
  | CSetex key ttl value => [bs "SETEX"; c_str key; to_string ttl; c_str value]
  | CDel key => [bs "DEL"; c_str key]
  end.

(** What is returned without a connection, or without a reply. *)
Definition failure (cmd : command) : outcome :=
  match cmd with CGet _ => OGet [] Error | CSetex _ _ _ => OSetex false | CDel _ => ODel Error end.

(** What is returned for a reply. *)
Definition read_reply (cmd : command) (reply : redisReply) : outcome :=
  match cmd with
  | CGet _ => match reply with REDIS_REPLY_STRING str => OGet str Ok | _ => OGet [] NotFound end
  | CSetex _ _ _ => OSetex (match reply with REDIS_REPLY_ERROR _ => false | _ => true end)
  | CDel _ => ODel (match reply with REDIS_REPLY_INTEGER n => if 0 <? n then Ok else NotFound | _ => NotFound end)
  end.

(** ** Threads *)

(** Where a thread is. *)
Inductive rthread : Type :=
| Outside
| Waiting (cmd : command)                    (* in [getConn] *)
| Holding (cmd : command) (c : nat)          (* about to call [redisCommand] *)
| Releasing (c : nat) (o : outcome)          (* about to call [releaseConn] *)
| Discarding (c : nat) (o : outcome)         (* about to free the broken connection *)
| Replacing (o : outcome)                    (* about to connect another one *)
| Pushing (c : nat) (o : outcome).           (* about to push it *)

(** What is seen of the commands: a thread calls one, the server carries it out,
    the thread returns. *)
Inductive revent : Type :=
| ECalled (i : nat) (cmd : command)
| EDone (i : nat) (cmd : command) (o : outcome)
| EReturned (i : nat) (o : outcome).

Section Threads.
Context {R : Type} `{RedisServer R}.

Record redis_threads : Type := mkThreads {
  rt_server : R;
  rt_pool : RedisPool;
  rt_threads : list rthread;
  rt_log : list revent            (* history *)
}.

Inductive rlabel : Type :=
| RCall (i : nat) (cmd : command)
| RStep (i : nat)                 (* thread [i] does its next step *)
| RExpire (e : R -> R).           (* keys reach their time to live *)

(** Thread [i] is now at [t]. *)
Definition move (i : nat) (t : rthread) (r : R) (p : RedisPool) (es : list revent) (s : redis_threads) :
    redis_threads :=
  mkThreads r p (<[i := t]> (rt_threads s)) (rt_log s ++ es).

(** The next step of a thread. [getConn] on an empty queue is the wait that timed
    out. *)
Definition thread_step (i : nat) (t : rthread) (s : redis_threads) : option redis_threads :=
  let r := rt_server s in
  let p := rt_pool s in
  match t with
  | Outside => None
  | Waiting cmd =>
      let '(conn, p') := redis_getConn p in
      Some (match conn with
            | Some c => move i (Holding cmd c) r p' [] s
            | None => move i Outside r p' [EDone i cmd (failure cmd); EReturned i (failure cmd)] s
            end)
  | Holding cmd c =>
      let '(r', reply) := redisCommand c (arguments cmd) r in
      Some (match reply with
            | Some reply => let o := read_reply cmd reply in move i (Releasing c o) r' p [EDone i cmd o] s
            | None => move i (Discarding c (failure cmd)) r' p [EDone i cmd (failure cmd)] s
            end)
  | Releasing c o => Some (move i Outside r (redis_releaseConn (Some c) p) [EReturned i o] s)
  | Discarding c o => Some (move i (Replacing o) r (discard_free (Some c) p) [] s)
  | Replacing o =>
      let '(fresh, p') := createConn p in
      Some (match fresh with
            | Some c => move i (Pushing c o) r p' [] s
            | None => move i Outside r p' [EReturned i o] s
            end)
  | Pushing c o => Some (move i Outside r (push_conn c p) [EReturned i o] s)
  end.

Definition rstep (l : rlabel) (s : redis_threads) : option redis_threads :=
  match l with
  | RCall i cmd =>
      match rt_threads s !! i with
      | Some Outside => Some (move i (Waiting cmd) (rt_server s) (rt_pool s) [ECalled i cmd] s)
      | _ => None
      end
  | RStep i => t ← rt_threads s !! i; thread_step i t s
  | RExpire e => Some (mkThreads (e (rt_server s)) (rt_pool s) (rt_threads s) (rt_log s))
  end.

Fixpoint rrun (ls : list rlabel) (s : redis_threads) : option redis_threads :=
  match ls with
  | [] => Some s
  | l :: ls => match rstep l s with Some s' => rrun ls s' | None => None end
  end.

(** [n] threads on the pool [p]. *)
Definition new_threads (n : nat) (r : R) (p : RedisPool) : redis_threads :=
  mkThreads r p (replicate n Outside) [].

(** ** A command alone *)

(** The functions of [Redis]. *)
Definition run_command (cmd : command) (s : R * RedisPool) : (R * RedisPool) * outcome :=
  match cmd with
  | CGet key => let '(s', (v, st)) := redis_get key s in (s', OGet v st)
  | CSetex key ttl value => let '(s', ok) := redis_setex key ttl value s in (s', OSetex ok)
  | CDel key => let '(s', st) := redis_del key s in (s', ODel st)
  end.

(** In one formula. *)
Lemma run_command_eq cmd r p :
  run_command cmd (r, p) =
  let '(conn, p') := redis_getConn p in
  match conn with
  | None => ((r, p'), failure cmd)
  | Some c =>
      let '(r', reply) := redisCommand c (arguments cmd) r in
      match reply with
      | Some reply => ((r', redis_releaseConn (Some c) p'), read_reply cmd reply)
      | None => ((r', discardBrokenConn (Some c) p'), failure cmd)
      end
  end.
Proof.
  destruct cmd as [key|key ttl value|key]; simpl; unfold redis_get, redis_setex, redis_del;
    (destruct (redis_getConn p) as [[c|] p']; [|done]);
    (destruct (redisCommand _ _ _) as [r' [reply|]]; [|done]); try done. by destruct reply.
Qed.

(** ** Clients of the pool *)

Definition conn_of (t : rthread) : option nat :=
  match t with Holding _ c | Releasing c _ | Discarding c _ => Some c | _ => None end.

Definition fresh_of (t : rthread) : option nat := match t with Pushing c _ => Some c | _ => None end.

Definition replaces (t : rthread) : nat := match t with Replacing _ => 1 | _ => 0 end.

(** The threads are the clients [cl] of the pool. *)
Record as_clients (s : redis_threads) (cl : clients) : Prop := {
  ac_pool : cpool cl = rt_pool s;
  ac_held : held cl ≡ₚ omap conn_of (rt_threads s);
  ac_connected : connected cl ≡ₚ omap fresh_of (rt_threads s);
  ac_replacing : replacing cl = sum_list_with replaces (rt_threads s)
}.

Lemma omap_insert {A B} (f : A -> option B) l i x y :
  l !! i = Some x -> omap f (<[i:=y]> l) ++ option_list (f x) ≡ₚ omap f l ++ option_list (f y).
Proof.
  intros (l1 & l2 & -> & ->)%list_elem_of_split_length.
  rewrite insert_app_r_alt, Nat.sub_diag by lia. cbn [insert list_insert]. rewrite !omap_app. simpl.
  destruct (f x), (f y); simpl; rewrite ?app_nil_r; solve_Permutation.
Qed.

Lemma without_elem c l : c ∈ l -> exists l', without c l = Some l'.
Proof.
  induction 1 as [c l|c d l I [l' E]]; simpl; [rewrite decide_True by done; by eexists|].
  destruct (decide _); [by eexists|]. rewrite E. by eexists.
Qed.

(** A thread gives up connection [c]. *)
Lemma hand_back (ts : list rthread) i t t' c h :
  ts !! i = Some t -> conn_of t = Some c -> conn_of t' = None -> h ≡ₚ omap conn_of ts ->
  exists h', without c h = Some h' /\ h' ≡ₚ omap conn_of (<[i:=t']> ts).
Proof.
  intros L C C' P. pose proof (omap_insert conn_of ts i t t' L) as Q. rewrite C, C' in Q. simpl in Q.
  rewrite app_nil_r in Q.
  destruct (without_elem c h) as [h' W]; [rewrite P, <- Q; set_solver|]. exists h'. split; [done|].
  apply without_perm in W. apply (Permutation_cons_inv (a := c)). rewrite <- W, P, <- Q. solve_Permutation.
Qed.

Lemma conn_unchanged (f : rthread -> option nat) (ts : list rthread) i t t' h :
  ts !! i = Some t -> f t = f t' -> h ≡ₚ omap f ts -> h ≡ₚ omap f (<[i:=t']> ts).
Proof.
  intros L E P. pose proof (omap_insert f ts i t t' L) as Q. rewrite E in Q.
  rewrite P. symmetry. by apply Permutation_app_inv_r in Q.
Qed.

Lemma conn_added (f : rthread -> option nat) (ts : list rthread) i t t' c h :
  ts !! i = Some t -> f t = None -> f t' = Some c -> h ≡ₚ omap f ts -> c :: h ≡ₚ omap f (<[i:=t']> ts).
Proof.
  intros L E E' P. pose proof (omap_insert f ts i t t' L) as Q. rewrite E, E' in Q. simpl in Q.
  rewrite app_nil_r in Q. rewrite Q, P. solve_Permutation.
Qed.

Lemma step_as_clients l s s' cl :
  as_clients s cl -> rstep l s = Some s' -> exists acts cl', run_actions acts cl = Some cl' /\ as_clients s' cl'.
Proof.
  intros [Ap Ah Ac Ar] E. destruct l as [i cmd|i|e]; simpl in E.
  - destruct (rt_threads s !! i) as [[]|] eqn:L; try done. injection E as <-. exists [], cl. split; [done|].
    pose proof (sum_insert replaces _ _ _ (Waiting cmd) L). simpl in *.
    split; simpl; [done | by eapply conn_unchanged | by eapply conn_unchanged | lia].
  - destruct (rt_threads s !! i) as [t|] eqn:L; [|done]. simpl in E. pose proof (fun t' => sum_insert replaces _ _ _ t' L) as Sm.
    destruct t as [|cmd|cmd c|c o|c o|o|c o]; simpl in E; try done.
    + destruct (redis_getConn (rt_pool s)) as [conn p'] eqn:G.
      assert (run_actions [Acquire] cl = Some (mkClients p' (option_list conn ++ held cl) (connected cl) (replacing cl) (lost cl)))
        as Ra by (simpl; by rewrite Ap, G).
      destruct conn as [c|]; injection E as <-; eexists _, _; (split; [exact Ra|]);
        [specialize (Sm (Holding cmd c)) | specialize (Sm Outside)]; simpl in Sm;
        (split; simpl; [done | | by eapply conn_unchanged | lia]);
        [by eapply conn_added | by eapply conn_unchanged].
    + destruct (redisCommand _ _ _) as [r' [reply|]]; injection E as <-; exists [], cl; (split; [done|]);
        [specialize (Sm (Releasing c (read_reply cmd reply))) | specialize (Sm (Discarding c (failure cmd)))]; simpl in Sm;
        (split; simpl; [done | by eapply conn_unchanged | by eapply conn_unchanged | lia]).
    + injection E as <-. destruct (hand_back _ i _ Outside c _ L eq_refl eq_refl Ah) as (h' & W & P).
      exists [Release c]. eexists. split; [simpl; rewrite W; done|]. specialize (Sm Outside). simpl in Sm.
      split; simpl; [by rewrite Ap | done | by eapply conn_unchanged | lia].
    + injection E as <-. destruct (hand_back _ i _ (Replacing o) c _ L eq_refl eq_refl Ah) as (h' & W & P).
      exists [Discard c]. eexists. split; [simpl; rewrite W; done|]. specialize (Sm (Replacing o)). simpl in Sm.
      split; simpl; [by rewrite Ap | done | by eapply conn_unchanged | lia].
    + destruct (createConn (rt_pool s)) as [fresh p'] eqn:G.
      assert (exists k, replacing cl = S k) as [k Ek].
      { specialize (Sm Outside). simpl in Sm. destruct (replacing cl); [lia | by eexists]. }
      destruct fresh as [c|]; injection E as <-; exists [Replace]; eexists;
        (split; [simpl; rewrite Ek, Ap, G; done|]);
        [specialize (Sm (Pushing c o)) | specialize (Sm Outside)]; simpl in Sm;
        (split; simpl; [done | by eapply conn_unchanged | | lia]);
        [by eapply conn_added | by eapply conn_unchanged].
    + injection E as <-. pose proof (omap_insert fresh_of _ _ _ Outside L) as Q. simpl in Q. rewrite app_nil_r in Q.
      destruct (without_elem c (connected cl)) as [f W]; [rewrite Ac, <- Q; set_solver|].
      exists [Push c]. eexists. split; [simpl; rewrite W; done|]. specialize (Sm Outside). simpl in Sm.
      apply without_perm in W. split; simpl; [by rewrite Ap | by eapply conn_unchanged | | lia].
      apply (Permutation_cons_inv (a := c)). rewrite <- W, Ac, <- Q. solve_Permutation.
  - injection E as <-. exists [], cl. split; [done|]. by split.
Qed.

Lemma run_actions_app l l' s s1 s2 :
  run_actions l s = Some s1 -> run_actions l' s1 = Some s2 -> run_actions (l ++ l') s = Some s2.
Proof.
  revert s. induction l as [|a l IH]; intros s; simpl; [by intros [= ->]|]. destruct (act a s); [apply IH | done].
Qed.

Lemma rrun_as_clients ls s s' cl :
  as_clients s cl -> rrun ls s = Some s' -> exists acts cl', run_actions acts cl = Some cl' /\ as_clients s' cl'.
Proof.
  revert s cl. induction ls as [|l ls IH]; intros s cl As; simpl.
  { intros [= <-]. by exists [], cl. }
  destruct (rstep l s) as [s1|] eqn:E; [|done]. intros Rr.
  destruct (step_as_clients _ _ _ _ As E) as (a1 & cl1 & A1 & As1).
  destruct (IH _ _ As1 Rr) as (a2 & cl2 & A2 & As2). exists (a1 ++ a2), cl2. split; [by eapply run_actions_app | done].
Qed.

Lemma new_as_clients n r cs : as_clients (new_threads n r (new_RedisPool cs)) (started_with cs).
Proof.
  assert (forall f : rthread -> option nat, f Outside = None -> omap f (replicate n Outside) = []) as Em.
  { intros f F. induction n as [|n IH]; simpl; [done | by rewrite F]. }
  split; simpl; rewrite ?Em by done; try done. clear. induction n; [done | exact IHn].
Qed.

(** ** One store *)

(** The keys as commands change them, all at once. *)
Definition kv_step (m : bytes -> option bytes) (cmd : command) (o : outcome) (m' : bytes -> option bytes) : Prop :=
  match cmd with
  | CGet k =>
      o = match m (c_str k) with Some v => OGet v Ok | None => OGet [] NotFound end /\ forall k', m' k' = m k'
  | CSetex k _ v => o = OSetex true /\ m' (c_str k) = Some (c_str v) /\ forall k', k' <> c_str k -> m' k' = m k'
  | CDel k =>
      o = ODel (if m (c_str k) then Ok else NotFound) /\ m' (c_str k) = None /\
      forall k', k' <> c_str k -> m' k' = m k'
  end.

(** Commands one after the other, with keys expiring in between. *)
Inductive kv_run (m : bytes -> option bytes) : list (command * outcome) -> (bytes -> option bytes) -> Prop :=
| kv_nil : kv_run m [] m
| kv_cmd h m1 cmd o m2 : kv_run m h m1 -> kv_step m1 cmd o m2 -> kv_run m (h ++ [(cmd, o)]) m2
| kv_expire h m1 m2 : kv_run m h m1 -> (forall k, m2 k = m1 k \/ m2 k = None) -> kv_run m h m2.

(** What the server carried out, in order. *)
Definition effects (log : list revent) : list (command * outcome) :=
  omap (fun e => match e with EDone _ cmd o => Some (cmd, o) | _ => None end) log.

Definition event_thread (e : revent) : nat :=
  match e with ECalled i _ | EDone i _ _ | EReturned i _ => i end.

Definition events_of (i : nat) (log : list revent) : list revent := filter (fun e => event_thread e = i) log.

(** Whole commands of thread [i]: each is called, carried out and returned from. *)
Inductive whole (i : nat) : list revent -> Prop :=
| whole_nil : whole i []
| whole_cmd l cmd o : whole i l -> whole i (l ++ [ECalled i cmd; EDone i cmd o; EReturned i o]).

(** The history of a thread that is at [t]. *)
Definition at_point (i : nat) (t : rthread) (l : list revent) : Prop :=
  match t with
  | Outside => whole i l
  | Waiting cmd | Holding cmd _ => exists l0, whole i l0 /\ l = l0 ++ [ECalled i cmd]
  | Releasing _ o | Discarding _ o | Replacing o | Pushing _ o =>
      exists l0 cmd, whole i l0 /\ l = l0 ++ [ECalled i cmd; EDone i cmd o]
  end.

Definition logged (s : redis_threads) : Prop :=
  forall i t, rt_threads s !! i = Some t -> at_point i t (events_of i (rt_log s)).

Lemma events_own i log es :
  Forall (fun e => event_thread e = i) es -> events_of i (log ++ es) = events_of i log ++ es.
Proof.
  intros F. unfold events_of. rewrite filter_app. f_equal. induction F as [|e es He F IH]; [done|].
  by rewrite filter_cons, decide_True, IH.
Qed.

Lemma events_other i j log es :
  i <> j -> Forall (fun e => event_thread e = i) es -> events_of j (log ++ es) = events_of j log.
Proof.
  intros Ne F. unfold events_of. rewrite filter_app. rewrite <- (app_nil_r (filter _ log)) at 2. f_equal.
  induction F as [|e es He F IH]; [done|]. rewrite filter_cons, decide_False; [done | congruence].
Qed.

(** Thread [i] moves, with events of its own. *)
Lemma logged_move i t t' r p es s :
  logged s -> rt_threads s !! i = Some t -> Forall (fun e => event_thread e = i) es ->
  (at_point i t (events_of i (rt_log s)) -> at_point i t' (events_of i (rt_log s) ++ es)) ->
  logged (move i t' r p es s).
Proof.
  intros Lg L F Hp j u. simpl. intros [(<- & <- & _)|[Ne Lj]]%list_lookup_insert_Some.
  - rewrite events_own by done. by apply Hp, Lg.
  - rewrite (events_other i) by done. by apply Lg.
Qed.

Lemma step_logged l s s' : logged s -> rstep l s = Some s' -> logged s'.
Proof.
  intros Lg E. destruct l as [i cmd|i|e]; simpl in E; [| |by injection E as <-].
  - destruct (rt_threads s !! i) as [[]|] eqn:L; try done. injection E as <-.
    eapply logged_move; [done.. | by repeat constructor |]. simpl. intros W. by eexists.
  - destruct (rt_threads s !! i) as [t|] eqn:L; [|done]. simpl in E.
    destruct t as [|cmd|cmd c|c o|c o|o|c o]; simpl in E; try done.
    + destruct (redis_getConn _) as [[c|] p']; injection E as <-;
        (eapply logged_move; [done.. | by repeat constructor |]); simpl; intros (l0 & W & ->).
      * exists l0. by rewrite app_nil_r.
      * rewrite <- app_assoc. by apply whole_cmd.
    + destruct (redisCommand _ _ _) as [r' [reply|]]; injection E as <-;
        (eapply logged_move; [done.. | by repeat constructor |]); simpl; intros (l0 & W & ->); exists l0, cmd;
        by rewrite <- app_assoc.
    + injection E as <-. eapply logged_move; [done.. | by repeat constructor |]. simpl. intros (l0 & cmd & W & ->).
      rewrite <- app_assoc. by apply whole_cmd.
    + injection E as <-. eapply logged_move; [done.. | by repeat constructor |]. simpl. intros (l0 & cmd & W & ->).
      exists l0, cmd. by rewrite app_nil_r.
    + destruct (createConn _) as [[c|] p']; injection E as <-;
        (eapply logged_move; [done.. | by repeat constructor |]); simpl; intros (l0 & cmd & W & ->).
      * exists l0, cmd. by rewrite app_nil_r.
      * rewrite <- app_assoc. by apply whole_cmd.
    + injection E as <-. eapply logged_move; [done.. | by repeat constructor |]. simpl. intros (l0 & cmd & W & ->).
      rewrite <- app_assoc. by apply whole_cmd.
Qed.

(** *** A server that is up *)

(** Times to live are positive, and keys only expire. *)
Definition rlabel_ok (l : rlabel) : Prop :=
  match l with
  | RCall _ (CSetex _ ttl _) => 0 < ttl
  | RExpire e => forall r, redis_up r -> redis_up (e r) /\ forall k, redis_view (e r) k = redis_view r k \/ redis_view (e r) k = None
  | _ => True
  end.

(** Where threads are when no connection breaks. *)
Definition calm (t : rthread) : Prop :=
  match t with
  | Outside | Releasing _ _ => True
  | Waiting cmd | Holding cmd _ => match cmd with CSetex _ ttl _ => 0 < ttl | _ => True end
  | _ => False
  end.

Record served (n : nat) (conns : list nat) (m0 : bytes -> option bytes) (s : redis_threads) : Prop := {
  sd_up : redis_up (rt_server s);
  sd_run : kv_run m0 (effects (rt_log s)) (redis_view (rt_server s));
  sd_calm i t : rt_threads s !! i = Some t -> calm t;
  sd_conns : rpool_ (rt_pool s) ++ omap conn_of (rt_threads s) ≡ₚ conns;
  sd_threads : length (rt_threads s) = n
}.

(** The server carries out a command. *)
Lemma command_up c cmd r :
  redis_up r -> (match cmd with CSetex _ ttl _ => 0 < ttl | _ => True end) -> exists r' reply,
    redisCommand c (arguments cmd) r = (r', Some reply) /\ redis_up r' /\
    kv_step (redis_view r) cmd (read_reply cmd reply) (redis_view r').
Proof.
  intros U T. destruct cmd as [k|k ttl v|k]; cbn [arguments read_reply kv_step] in *.
  - destruct (redis_GET_up c (c_str k) r U) as (r' & -> & U' & V). eexists _, _. split; [done|]. split; [done|].
    split; [by destruct (redis_view r (c_str k)) | done].
  - destruct (redis_SETEX_up c (c_str k) ttl (c_str v) r U T) as (r' & x & E & U'). rewrite E. eexists _, _.
    split; [done|]. split; [done|]. split; [done|]. apply redis_SETEX in E as [[e [=]]|E]. done.
  - destruct (redis_DEL_up c (c_str k) r U) as (r' & -> & U' & V & W). eexists _, _. split; [done|]. split; [done|].
    split; [by destruct (redis_view r (c_str k)) | done].
Qed.

Lemma omap_short {A B} (f : A -> option B) l i x :
  l !! i = Some x -> f x = None -> (length (omap f l) < length l)%nat.
Proof.
  assert (forall y l, omap f (y :: l) = match f y with Some z => z :: omap f l | None => omap f l end) as Eq by done.
  assert (forall l, length (omap f l) <= length l)%nat as Le.
  { intros l0. induction l0 as [|y l0 IH]; [done|]. rewrite Eq. destruct (f y); simpl; lia. }
  revert i. induction l as [|y l IH]; intros [|i] L E; [done | done |..]; rewrite Eq; simpl in L.
  - injection L as ->. rewrite E. specialize (Le l). simpl. lia.
  - specialize (IH i L E). destruct (f y); simpl; lia.
Qed.

(** Thread [i] moves. *)
Lemma served_move n conns m0 i t t' r p es s :
  served n conns m0 s -> rt_threads s !! i = Some t -> calm t' -> redis_up r ->
  kv_run m0 (effects (rt_log s ++ es)) (redis_view r) ->
  rpool_ p ++ option_list (conn_of t') ≡ₚ rpool_ (rt_pool s) ++ option_list (conn_of t) ->
  served n conns m0 (move i t' r p es s).
Proof.
  intros [U Rn Cm Cs Ln] L C' U' Rn' P. split; simpl; try done.
  - intros j u [(<- & <- & _)|[_ Lj]]%list_lookup_insert_Some; [done | by apply (Cm j)].
  - rewrite <- Cs. apply (Permutation_app_inv_r (option_list (conn_of t))). rewrite <- !app_assoc.
    rewrite (omap_insert conn_of _ _ _ t' L). rewrite !(Permutation_app_comm (omap conn_of _)), !app_assoc. by rewrite P.
  - by rewrite length_insert.
Qed.

Lemma step_served n conns m0 l s s' :
  (n <= length conns)%nat -> rlabel_ok l -> served n conns m0 s -> rstep l s = Some s' -> served n conns m0 s'.
Proof.
  intros Le Hl Sv E. pose proof Sv as [U Rn Cm Cs Ln]. destruct l as [i cmd|i|e]; simpl in E.
  - destruct (rt_threads s !! i) as [[]|] eqn:L; try done. injection E as <-.
    eapply served_move; [done | done | by destruct cmd | done | by unfold effects in *; rewrite omap_app, app_nil_r | done].
  - destruct (rt_threads s !! i) as [t|] eqn:L; [|done]. simpl in E. pose proof (Cm i t L) as C.
    destruct t as [|cmd|cmd c|c o|c o|o|c o]; simpl in E, C; try done.
    + unfold redis_getConn in E. destruct (rpool_ (rt_pool s)) as [|c q] eqn:Q.
      { pose proof (omap_short conn_of _ _ _ L eq_refl). pose proof (Permutation_length Cs) as Lc.
        rewrite length_app in Lc. simpl in Lc. lia. }
      injection E as <-. eapply served_move; [done | done | done | done | by rewrite app_nil_r |].
      rewrite Q. simpl. solve_Permutation.
    + destruct (command_up c cmd _ U C) as (r' & reply & Ec & U' & St). rewrite Ec in E. injection E as <-.
      eapply served_move; [done | done | done | done | | done]. unfold effects in *. rewrite omap_app.
      by eapply kv_cmd.
    + injection E as <-.
      eapply served_move; [done | done | done | done | by unfold effects in *; rewrite omap_app, app_nil_r |].
      simpl. by rewrite app_nil_r.
  - injection E as <-. destruct (Hl _ U) as [U' V]. split; simpl; try done. by eapply kv_expire.
Qed.

(** ** Properties *)

(** Go on with the only thread that moves, to the next call; and compare. *)
Ltac go L Li := simpl; rewrite ?L; simpl; repeat (rewrite ?list_insert_insert_eq; rewrite Li; simpl).
Ltac finish := unfold move; simpl; rewrite ?list_insert_insert_eq, list_insert_id, <- ?app_assoc by done; done.

(** Step by step a command is the function of the pool. From any state of the
    pool and the server, a thread that runs a command while the others stand still
    does what [redis_get], [redis_setex] and [redis_del] say: the same commands
    reach the server, the pool ends up the same, and the same is returned. *)
Lemma command_alone i cmd s :
  rt_threads s !! i = Some Outside ->
  let '((r', p'), o) := run_command cmd (rt_server s, rt_pool s) in
  exists k, rrun (RCall i cmd :: replicate k (RStep i)) s =
    Some (mkThreads r' p' (rt_threads s) (rt_log s ++ [ECalled i cmd; EDone i cmd o; EReturned i o])).
Proof.
  intros L. rewrite run_command_eq. assert (i < length (rt_threads s))%nat as Hi by (by eapply lookup_lt_Some).
  assert (forall t, <[i:=t]> (rt_threads s) !! i = Some t) as Li by (intros t; by apply list_lookup_insert_eq).
  destruct (redis_getConn (rt_pool s)) as [[c|] p'] eqn:G; [destruct (redisCommand c (arguments cmd) (rt_server s)) as [r' [reply|]] eqn:Ec|].
  - exists 3%nat. go L Li; rewrite G; go L Li; rewrite Ec; go L Li; finish.
  - unfold discardBrokenConn. destruct (createConn (discard_free (Some c) p')) as [[c'|] p2] eqn:Cr; simpl in Cr.
    + exists 5%nat. go L Li; rewrite G; go L Li; rewrite Ec; go L Li; rewrite Cr; go L Li; finish.
    + exists 4%nat. go L Li; rewrite G; go L Li; rewrite Ec; go L Li; rewrite Cr; go L Li; finish.
  - exists 1%nat. go L Li; rewrite G; go L Li; finish.
Qed.

(** C12: the threads are clients of the pool, and no connection is in two hands. In
    every interleaving of the commands of any number of threads, whatever the
    server and the connection attempts answer, what happens to the pool is a run
    of [Redis]'s clients: a connection is idle, used by one thread, or about to be
    pushed by one; it is not used after it was freed; and there are never more
    than the constructor opened. *)
Theorem redis_threads_exclusive n r cs ls s :
  rrun ls (new_threads n r (new_RedisPool cs)) = Some s ->
  let conns := rpool_ (rt_pool s) ++ omap conn_of (rt_threads s) ++ omap fresh_of (rt_threads s) in
  (exists acts cl, run_actions acts (started_with cs) = Some cl /\ as_clients s cl) /\
  NoDup conns /\ (forall c, c ∈ conns -> c ∈ rlive (rt_pool s)) /\
  (length conns + sum_list_with replaces (rt_threads s) <= length (rpool_ (new_RedisPool cs)))%nat.
Proof.
  intros Rr conns. destruct (rrun_as_clients _ _ _ _ (new_as_clients n r cs) Rr) as (acts & cl & Ra & As).
  destruct (inv_acts _ _ _ _ (started_count cs) Ra) as [Nd Lv _ Ct]. pose proof As as [Ap Ah Ac Ar].
  assert (everywhere cl ≡ₚ conns) as P by (unfold everywhere, conns; by rewrite Ap, Ah, Ac).
  split; [by exists acts, cl|]. rewrite <- P, <- Ar, <- Ap. split; [done|]. split; [|lia].
  intros c. rewrite <- P. apply Lv.
Qed.

(** C7: the pool and its threads are one store. To a server that is up, with at
    least as many connections as threads, in every interleaving and with keys
    expiring at any moment: every command is carried out at one moment between its
    call and its return; in the order of these moments the commands and what they
    returned are a run of a single store, so that none of them fails; and when no
    thread is inside a command, every connection is back in the pool. *)
Theorem redis_commands_linearizable n r p ls s :
  redis_up r -> (n <= length (rpool_ p))%nat -> Forall rlabel_ok ls -> rrun ls (new_threads n r p) = Some s ->
  kv_run (redis_view r) (effects (rt_log s)) (redis_view (rt_server s)) /\
  (forall i t, rt_threads s !! i = Some t -> at_point i t (events_of i (rt_log s))) /\
  (Forall (fun t => t = Outside) (rt_threads s) -> rpool_ (rt_pool s) ≡ₚ rpool_ p).
Proof.
  intros U Le F Rr.
  assert (forall s0, served n (rpool_ p) (redis_view r) s0 /\ logged s0 -> rrun ls s0 = Some s ->
    served n (rpool_ p) (redis_view r) s /\ logged s) as Run.
  { clear Rr. induction F as [|l ls Hl F IH]; intros s0 [Sv Lg]; simpl; [by intros [= <-]|].
    destruct (rstep l s0) as [s1|] eqn:E; [|done]. apply IH. split; [by eapply step_served | by eapply step_logged]. }
  destruct (Run (new_threads n r p)) as [[_ Rn _ Cs _] Lg]; [|done|].
  - split; [split; simpl|].
    + done.
    + constructor.
    + by intros i t [-> _]%lookup_replicate.
    + rewrite <- (app_nil_r (rpool_ p)) at 2. f_equiv. clear. induction n; [done | exact IHn].
    + apply length_replicate.
    + intros i t [-> _]%lookup_replicate. constructor.
  - split; [done|]. split; [done|]. intros Out. rewrite <- Cs.
    assert (omap conn_of (rt_threads s) = []) as -> by (clear -Out; induction Out as [|t ts -> Out IH]; [done | exact IH]).
    by rewrite app_nil_r.
Qed.

End Threads.

(** ** Witnesses *)

(** Two threads and two connections: one thread looks a session up while the
    other one deletes it. *)
Definition two_on_a_key : list (rlabel (R := gmap bytes bytes)) :=
  [RCall 0 (CSetex (bs "session:t") 3600 (bs "ann")); RStep 0; RStep 0; RStep 0;
   RCall 0 (CGet (bs "session:t")); RCall 1 (CDel (bs "session:t")); RStep 0; RStep 1; RStep 0; RStep 1;
   RStep 1; RStep 0; RExpire id].

Definition start_threads : redis_threads := new_threads 2 (∅ : gmap bytes bytes) (new_RedisPool three_connects).

Definition after_two : redis_threads := default start_threads (rrun two_on_a_key start_threads).

Example two_effects :
  effects (rt_log after_two) =
    [(CSetex (bs "session:t") 3600 (bs "ann"), OSetex true); (CGet (bs "session:t"), OGet (bs "ann") Ok);
     (CDel (bs "session:t"), ODel Ok)].
Proof. vm_compute. reflexivity. Qed.

Lemma command_alone_witness :
  let cmd := CGet (bs "session:t") in
  let '((r', p'), o) := run_command cmd (rt_server start_threads, rt_pool start_threads) in
  exists k, rrun (RCall 0 cmd :: replicate k (RStep 0)) start_threads =
    Some (mkThreads r' p' (rt_threads start_threads)
            (rt_log start_threads ++ [ECalled 0 cmd; EDone 0 cmd o; EReturned 0 o])).
Proof. apply command_alone. reflexivity. Defined.

Definition one_takes : list (rlabel (R := gmap bytes bytes)) := [RCall 0 (CGet (bs "k")); RStep 0].
Definition after_take : redis_threads := default start_threads (rrun one_takes start_threads).

Lemma redis_threads_exclusive_witness :
  rpool_ (rt_pool after_take) ++ omap conn_of (rt_threads after_take) = [2; 3; 0]%nat /\ NoDup [2; 3; 0]%nat.
Proof.
  split; [vm_compute; reflexivity|].
  assert (rpool_ (rt_pool after_take) ++ omap conn_of (rt_threads after_take) ++ omap fresh_of (rt_threads after_take) =
    [2; 3; 0]%nat) as <- by (vm_compute; reflexivity).
  apply (redis_threads_exclusive 2 (∅ : gmap bytes bytes) three_connects one_takes). vm_compute. reflexivity.
Defined.

Lemma redis_commands_linearizable_witness :
  kv_run (fun k => (∅ : gmap bytes bytes) !! k) (effects (rt_log after_two)) (fun k => rt_server after_two !! k) /\
  rpool_ (rt_pool after_two) ≡ₚ rpool_ (new_RedisPool three_connects).
Proof.
  destruct (redis_commands_linearizable 2 (∅ : gmap bytes bytes) (new_RedisPool three_connects) two_on_a_key after_two)
    as (Rn & _ & Back); [done | vm_compute; lia | | vm_compute; reflexivity |].
  - unfold two_on_a_key. repeat constructor; simpl; auto.
  - split; [exact Rn|]. apply Back.
    assert (rt_threads after_two = [Outside; Outside]) as -> by (vm_compute; reflexivity). by repeat constructor.
Defined.
