(* ===== verification/Mysql.v ===== *)
(** * The MySQL connection pool (src/MysqlPool.cpp, include/MysqlPool.h)

    The queue of idle [MYSQL] handles, the constructor and destructor, [getConn]
    and [releaseConn]. As for the Redis pool a handle is a number that is never
    given out twice, and [mlive] holds the handles made by [mysql_init] and not
    closed. The constructor's calls are answered by a script. *)

From S2P Require Import Prelude Config.

(** ** State and operations *)

(** One turn of the constructor: [mysql_init] returns NULL, [mysql_real_connect]
    fails, or the connection is there. *)
Inductive open_ret : Type := InitFailed | ConnectFailed | Opened.

Record MysqlPool : Type := mkMysql {
  mpool_ : list nat;
  mlive : gset nat;
  mnext : nat
}.

Definition mysql_init (p : MysqlPool) : nat * MysqlPool :=
  (mnext p, mkMysql (mpool_ p) ({[mnext p]} ∪ mlive p) (S (mnext p))).

Definition mysql_close (conn : nat) (p : MysqlPool) : MysqlPool :=
  mkMysql (mpool_ p) (mlive p ∖ {[conn]}) (mnext p).

Definition mysql_push (conn : nat) (p : MysqlPool) : MysqlPool :=
  mkMysql (mpool_ p ++ [conn]) (mlive p) (mnext p).

Fixpoint mysql_open_loop (rets : list open_ret) (p : MysqlPool) : MysqlPool :=
  match rets with
  | [] => p
  | InitFailed :: rets => mysql_open_loop rets p
  | ConnectFailed :: rets =>
      let '(conn, p) := mysql_init p in mysql_open_loop rets (mysql_close conn p)
  | Opened :: rets =>
      let '(conn, p) := mysql_init p in mysql_open_loop rets (mysql_push conn p)
  end.

(** The constructor, with the outcome of each of its [maxConn_] turns. *)
Definition new_MysqlPool (turn : nat -> open_ret) : MysqlPool :=
  mysql_open_loop (turn <$> seq 0 (Z.to_nat kDbMaxConn)) (mkMysql [] ∅ 0).

Definition mysql_getConn (p : MysqlPool) : option nat * MysqlPool :=
  match mpool_ p with
  | [] => (None, p)
  | conn :: q => (Some conn, mkMysql q (mlive p) (mnext p))
  end.

Definition mysql_releaseConn (conn : option nat) (p : MysqlPool) : MysqlPool :=
  match conn with None => p | Some c => mysql_push c p end.

(** The destructor. *)
Definition delete_MysqlPool (p : MysqlPool) : MysqlPool :=
  let p' := foldl (fun p c => mysql_close c p) p (mpool_ p) in
  mkMysql [] (mlive p') (mnext p').

(** ** Clients *)

(** A client takes a connection (a [MysqlGuard]'s constructor), or gives the one
    it holds back (its destructor). *)
Inductive mysql_action : Type := MAcquire | MRelease (c : nat).

Definition mysql_act (a : mysql_action) (s : MysqlPool * list nat) : option (MysqlPool * list nat) :=
  let '(p, mheld) := s in
  match a with
  | MAcquire => let '(conn, p) := mysql_getConn p in Some (p, option_list conn ++ mheld)
  | MRelease c => h ← without c mheld; Some (mysql_releaseConn (Some c) p, h)
  end.

Fixpoint mysql_acts (l : list mysql_action) (s : MysqlPool * list nat) : option (MysqlPool * list nat) :=
  match l with
  | [] => Some s
  | a :: l => match mysql_act a s with Some s' => mysql_acts l s' | None => None end
  end.

Lemma mysql_act_perm a p h p' h' :
  mysql_act a (p, h) = Some (p', h') -> mpool_ p' ++ h' ≡ₚ mpool_ p ++ h /\ mlive p' = mlive p.
Proof.
  destruct a as [|c]; simpl.
  - unfold mysql_getConn. intros E. destruct (mpool_ p) as [|c q] eqn:Q; simplify_eq; simpl.
    + by rewrite Q.
    + split; [solve_Permutation | done].
  - destruct (without c h) as [k|] eqn:W; simpl; [|done]. intros [= <- <-].
    apply without_perm in W. simpl. rewrite W. split; [solve_Permutation | done].
Qed.

Lemma mysql_acts_perm l p h p' h' :
  mysql_acts l (p, h) = Some (p', h') -> mpool_ p' ++ h' ≡ₚ mpool_ p ++ h /\ mlive p' = mlive p.
Proof.
  revert p h. induction l as [|a l IH]; cbn [mysql_acts]; intros p h; [by intros [= <- <-]|].
  destruct (mysql_act a (p, h)) as [[p1 h1]|] eqn:E; [|done]. intros R.
  apply mysql_act_perm in E as [E1 E2]. apply IH in R as [R1 R2]. by rewrite R1, R2, E1, E2.
Qed.

(** What the constructor has built: every open handle is in the queue, once. *)
Definition all_idle (p : MysqlPool) : Prop :=
  NoDup (mpool_ p) /\ (forall c, c ∈ mpool_ p <-> c ∈ mlive p) /\
  forall c, c ∈ mlive p -> (c < mnext p)%nat.

Lemma mysql_open_loop_idle rets p :
  all_idle p -> all_idle (mysql_open_loop rets p) /\
  (length (mpool_ (mysql_open_loop rets p)) <= length (mpool_ p) + length rets)%nat.
Proof.
  revert p. induction rets as [|r rets IH]; simpl; intros p I; [split; [done|lia]|].
  assert (mnext p ∉ mlive p) as F by (intros F%I; lia).
  destruct I as (A & B & C).
  destruct r; cbn [mysql_init].
  - destruct (IH p) as [I L]; [done|]. split; [done|lia].
  - destruct (IH (mysql_close (mnext p) (snd (mysql_init p)))) as [I L]; [|split; [done|simpl in *; lia]].
    split; [done|]. simpl. split; [intros c; rewrite B; set_solver|].
    intros c [[->%elem_of_singleton|D%C]%elem_of_union _]%elem_of_difference; lia.
  - destruct (IH (mysql_push (mnext p) (snd (mysql_init p)))) as [I L].
    + split; simpl; [apply NoDup_app; set_solver by (by apply NoDup_singleton)|].
      split; [intros c; rewrite elem_of_app, B; set_solver|].
      intros c [->%elem_of_singleton|D%C]%elem_of_union; lia.
    + split; [done|]. simpl in *. rewrite length_app in L. simpl in L. lia.
Qed.

Lemma new_MysqlPool_idle turn :
  all_idle (new_MysqlPool turn) /\ Z.of_nat (length (mpool_ (new_MysqlPool turn))) <= kDbMaxConn.
Proof.
  destruct (mysql_open_loop_idle (turn <$> seq 0 (Z.to_nat kDbMaxConn)) (mkMysql [] ∅ 0)) as [I L].
  { split; [constructor|]. simpl. split; set_solver. }
  fold (new_MysqlPool turn) in I, L. rewrite length_fmap, length_seq in L. cbn [mpool_ length] in L.
  assert (0 <= kDbMaxConn) by done. split; [done | lia].
Qed.

(** ** Property *)

(** C33: the MySQL pool lends without loss. Whatever the order in which clients
    take connections and give them back, the idle and the lent connections
    together are the ones the constructor opened, at most [kDbMaxConn], all of
    them open, none of them in two hands. *)
Theorem mysql_connections_conserved turn l p h :
  mysql_acts l (new_MysqlPool turn, []) = Some (p, h) ->
  mpool_ p ++ h ≡ₚ mpool_ (new_MysqlPool turn) /\
  NoDup (mpool_ p ++ h) /\ (forall c, c ∈ mpool_ p ++ h -> c ∈ mlive p) /\
  Z.of_nat (length (mpool_ p ++ h)) <= kDbMaxConn.
Proof.
  intros R. apply mysql_acts_perm in R as [P L]. rewrite app_nil_r in P.
  destruct (new_MysqlPool_idle turn) as [(A & B & _) C]. split; [done|]. rewrite P, L.
  split; [done|]. split; [intros c; by rewrite P, B | done].
Qed.

Lemma mysql_connections_conserved_witness :
  let turn i := if decide (i < 3)%nat then Opened else ConnectFailed in
  exists p h, mysql_acts [MAcquire; MAcquire; MRelease 0%nat; MAcquire] (new_MysqlPool turn, []) = Some (p, h) /\
              mpool_ p = [0%nat] /\ h = [2; 1]%nat /\ mpool_ p ++ h ≡ₚ mpool_ (new_MysqlPool turn).
Proof.
  intros turn. eexists _, _. split; [by vm_compute|]. split; [done|]. split; [done|].
  apply (mysql_connections_conserved turn [MAcquire; MAcquire; MRelease 0%nat; MAcquire]). by vm_compute.
Defined.
