(* ===== verification/Handlers.v ===== *)
(** * Database tasks (src/Connection.cpp, the closures given to [dbPool_->add])

    The second half of [handleRegister], [handleLogin], [handleProfile] and
    [handleLogout], which runs on a database thread, with [runDbTask] around it,
    [MysqlGuard] and [generateToken]. The session store, the MySQL server and
    the random generator are parameters, the first two through their interfaces.

    A task returns, throws, or runs into undefined behaviour; the only undefined
    behaviour it could meet is an escaped string longer than its buffer. Its
    answer goes through [sendJson], on the world of the connection's model. *)

From S2P Require Import Prelude CppString Config Http Json Channel Framing Connection.
From S2P Require Import Interfaces Mysql Redis.

(** ** State and effects *)

Record Backend (K S D G : Type) : Type := mkBackend {
  b_world : World K;        (* the sockets, as far as [sendJson] goes *)
  b_mysql : MysqlPool;
  b_db : D;                 (* the MySQL server *)
  b_store : S;              (* the session store *)
  b_rng : option G;         (* the thread's generator, once it is constructed *)
  b_entropy : option G      (* what seeding one from [random_device] gives, or a throw *)
}.
Arguments mkBackend {K S D G}. Arguments b_world {K S D G}. Arguments b_mysql {K S D G}.
Arguments b_db {K S D G}. Arguments b_store {K S D G}. Arguments b_rng {K S D G}.
Arguments b_entropy {K S D G}.

(** The status code and the body of an answer. *)
Notation reply := (Z * bytes)%type.

Inductive dres (A : Type) : Type :=
| DRet (a : A)
| DThrow
| DUndefined.
Arguments DRet {A} a. Arguments DThrow {A}. Arguments DUndefined {A}.

Declare Scope db_scope.
Delimit Scope db_scope with db.

Section Effects.
Context {K S D G : Type}.
Notation Back := (Backend K S D G).

Definition DB (A : Type) : Type := Back -> Back * dres A.

Definition dret {A} (a : A) : DB A := fun b => (b, DRet a).
Definition dthrow {A} : DB A := fun b => (b, DThrow).
Definition dundefined {A} : DB A := fun b => (b, DUndefined).

Definition dbind {A B} (m : DB A) (f : A -> DB B) : DB B := fun b =>
  match m b with
  | (b', DRet a) => f a b'
  | (b', DThrow) => (b', DThrow)
  | (b', DUndefined) => (b', DUndefined)
  end.

Definition set_world w (b : Back) : Back :=
  mkBackend w (b_mysql b) (b_db b) (b_store b) (b_rng b) (b_entropy b).
Definition set_mysql p (b : Back) : Back :=
  mkBackend (b_world b) p (b_db b) (b_store b) (b_rng b) (b_entropy b).
Definition set_db d (b : Back) : Back :=
  mkBackend (b_world b) (b_mysql b) d (b_store b) (b_rng b) (b_entropy b).
Definition set_store s (b : Back) : Back :=
  mkBackend (b_world b) (b_mysql b) (b_db b) s (b_rng b) (b_entropy b).
Definition set_rng g (b : Back) : Back :=
  mkBackend (b_world b) (b_mysql b) (b_db b) (b_store b) g (b_entropy b).

(** A static member function of [Connection], called on this thread. *)
Definition on_world {A} (m : M K A) : DB A := fun b =>
  match m (b_world b) with
  | (w, Ret a) => (set_world w b, DRet a)
  | (w, _) => (set_world w b, DUndefined)
  end.

(** A call on the session store. *)
Definition on_store {A} (op : S -> S * A) : DB A := fun b =>
  let '(s, a) := op (b_store b) in (set_store s b, DRet a).

End Effects.
Arguments DB K S D G A : clear implicits.

Notation "x <- m ;; k" := (dbind m (fun x => k))
  (at level 100, m at next level, right associativity) : db_scope.
Notation "m ;; k" := (dbind m (fun _ => k))
  (at level 100, right associativity) : db_scope.

(** ** Operations *)

Section Tasks.
Context {K S D G : Type} `{SessionStore S} `{MysqlServer D}.

(** [dist(rng)]: the next number, between 0 and 35, and the next state. *)
Context (draw : G -> nat * G).

Notation DBM := (DB K S D G).
Local Open Scope db_scope.

Definition answer_json (fd statusCode : Z) (body : bytes) (keepAlive : bool) : DBM unit :=
  on_world (sendJson fd statusCode body keepAlive).

Definition charset : bytes := bs "abcdefghijklmnopqrstuvwxyz0123456789".

(** The loop of [generateToken]. *)
Fixpoint token_loop (n : nat) (g : G) (token : bytes) : bytes * G :=
  match n with
  | O => (token, g)
  | Datatypes.S n => let '(i, g) := draw g in token_loop n g (token ++ [charset !!! i])
  end.

Definition generateToken : DBM bytes := fun b =>
  match (match b_rng b with Some g => Some g | None => b_entropy b end) with
  | None => (b, DThrow)
  | Some g =>
      let '(token, g) := token_loop (Z.to_nat kTokenLen) g [] in
      (set_rng (Some g) b, DRet token)
  end.

(** [MysqlGuard guard; MYSQL *conn = guard.get();] around the rest of a block:
    the connection goes back to the pool when the block is left, by a return or
    an exception. *)
Definition with_MysqlGuard {A} (body : option nat -> DBM A) : DBM A := fun b =>
  let '(conn, p) := mysql_getConn (b_mysql b) in
  let '(b', r) := body conn (set_mysql p b) in
  (set_mysql (match conn with
              | Some _ => mysql_releaseConn conn (b_mysql b')
              | None => b_mysql b'
              end) b', r).

(** [mysql_real_escape_string(conn, buf, s.c_str(), s.size())] into a buffer of
    [cap] bytes, which also takes the terminating NUL; then the C string in it. *)
Definition escape_into (cap : Z) (s : bytes) : DBM bytes :=
  let e := mysql_real_escape_string s in
  if str_size e + 1 <=? cap then dret (c_str e) else dundefined.

Definition run_query (q : bytes) : DBM query_ret := fun b =>
  let '(d, r) := mysql_query (c_str q) (b_db b) in (set_db d b, DRet r).

(** [res && mysql_num_rows(res) > 0], with the first row. *)
Definition first_row (res : option (list bytes)) : option bytes :=
  match res with Some (row :: _) => Some row | _ => None end.

(** The body of the register task once it has a connection. *)
Definition register_rest (fd : Z) (keepAlive : bool) (username password : bytes) : DBM unit :=
  esc_user <- escape_into 129 username ;;
  esc_pass <- escape_into 257 password ;;
  r <- run_query (sql_exists esc_user) ;;
  match r with
  | QueryError => answer_json fd 500 (json1 "error" "database error") keepAlive
  | QueryOk res =>
      match first_row res with
      | Some _ => answer_json fd 409 (json1 "error" "user already exists") keepAlive
      | None =>
          r <- run_query (sql_insert esc_user esc_pass) ;;
          match r with
          | QueryError => answer_json fd 500 (json1 "error" "database error") keepAlive
          | QueryOk _ => answer_json fd 200 (json1 "message" "register success") keepAlive
          end
      end
  end.

Definition register_task (fd : Z) (keepAlive : bool) (username password : bytes) : DBM unit :=
  with_MysqlGuard (fun conn =>
    match conn with
    | None => answer_json fd 503 (json1 "error" "service unavailable") keepAlive
    | Some _ => register_rest fd keepAlive username password
    end).

Definition user_key (username : bytes) : bytes := bs "user:" ++ username.
Definition session_key (token : bytes) : bytes := bs "session:" ++ token.

(** The block of [handleLogin] that asks MySQL. [None]: it answered and
    returned; otherwise [found] and [dbPassword]. *)
Definition login_rest (fd : Z) (keepAlive : bool) (username : bytes) : DBM (option (option bytes)) :=
  esc_user <- escape_into 129 username ;;
  r <- run_query (sql_password esc_user) ;;
  match r with
  | QueryError => answer_json fd 500 (json1 "error" "database error") keepAlive ;; dret None
  | QueryOk res =>
      match first_row res with
      | Some row =>
          let dbPassword := c_str row in
          _ <- on_store (store_setex (user_key username) kUserCacheTtlSec dbPassword) ;;
          dret (Some (Some dbPassword))
      | None => dret (Some None)
      end
  end.

Definition login_query (fd : Z) (keepAlive : bool) (username : bytes) : DBM (option (option bytes)) :=
  with_MysqlGuard (fun conn =>
    match conn with
    | None => answer_json fd 503 (json1 "error" "service unavailable") keepAlive ;; dret None
    | Some _ => login_rest fd keepAlive username
    end).

Definition login_json (token : bytes) : bytes :=
  bs "{" ++ quoted (bs "message") ++ bs ":" ++ quoted (bs "login success") ++
  bs "," ++ quoted (bs "token") ++ bs ":" ++ quoted token ++ bs "}".

(** From the password on: the comparison, the token, its session, the answer. *)
Definition login_finish (fd : Z) (keepAlive : bool) (username password dbPassword : bytes) : DBM unit :=
  if bool_decide (password <> dbPassword)
  then answer_json fd 401 (json1 "error" "wrong password") keepAlive
  else
    token <- generateToken ;;
    ok <- on_store (store_setex (session_key token) kSessionTtlSec username) ;;
    if negb ok then answer_json fd 503 (json1 "error" "service unavailable") keepAlive
    else answer_json fd 200 (login_json token) keepAlive.

Definition login_task (fd : Z) (keepAlive : bool) (username password : bytes) : DBM unit :=
  cached <- on_store (store_get (user_key username)) ;;
  lookup <- (if bool_decide (cached.2 = Ok) && negb (bool_decide (cached.1 = []))
             then dret (Some (Some cached.1))
             else login_query fd keepAlive username) ;;
  match lookup with
  | None => dret tt
  | Some None => answer_json fd 401 (json1 "error" "user not found") keepAlive
  | Some (Some dbPassword) => login_finish fd keepAlive username password dbPassword
  end.

Definition profile_json (username : bytes) : bytes :=
  bs "{" ++ quoted (bs "username") ++ bs ":" ++ quoted (jsonEscape username) ++ bs "}".

Definition profile_task (fd : Z) (keepAlive : bool) (token : bytes) : DBM unit :=
  r <- on_store (store_get (session_key token)) ;;
  let '(username, st) := r in
  if bool_decide (st = Error) then answer_json fd 503 (json1 "error" "service unavailable") keepAlive
  else if bool_decide (st = NotFound) || bool_decide (username = [])
  then answer_json fd 401 (json1 "error" "invalid or expired token") keepAlive
  else answer_json fd 200 (profile_json username) keepAlive.

Definition logout_task (fd : Z) (keepAlive : bool) (token : bytes) : DBM unit :=
  st <- on_store (store_del (session_key token)) ;;
  if bool_decide (st = Error) then answer_json fd 503 (json1 "error" "service unavailable") keepAlive
  else if bool_decide (st = NotFound)
  then answer_json fd 401 (json1 "error" "invalid or expired token") keepAlive
  else answer_json fd 200 (json1 "message" "logout success") keepAlive.

Definition runDbTask (fd : Z) (keepAlive : bool) (work : DBM unit) : DBM unit := fun b =>
  match work b with
  | (b', DThrow) => answer_json fd 500 (json1 "error" "internal error") keepAlive b'
  | r => r
  end.

(** The closure of each task. *)
Definition run_task (t : db_task) : DBM unit :=
  match t with
  | TaskRegister fd ka u p => runDbTask fd ka (register_task fd ka u p)
  | TaskLogin fd ka u p => runDbTask fd ka (login_task fd ka u p)
  | TaskProfile fd ka token => runDbTask fd ka (profile_task fd ka token)
  | TaskLogout fd ka token => runDbTask fd ka (logout_task fd ka token)
  end.

(** ** Reasoning about tasks *)

Notation Back := (Backend K S D G).

(** The world after [sendJson]. *)
Definition sent (fd statusCode : Z) (body : bytes) (keepAlive : bool) (w : World K) : World K :=
  fst (sendJson fd statusCode body keepAlive w).

(** One answer went out and the MySQL pool holds the connections it held. *)
Definition answered (fd : Z) (keepAlive : bool) (code : Z) (body : bytes) (b b' : Back) : Prop :=
  b_world b' = sent fd code body keepAlive (b_world b) /\
  mpool_ (b_mysql b') ≡ₚ mpool_ (b_mysql b) /\ mlive (b_mysql b') = mlive (b_mysql b).

Lemma answer_json_run fd code body ka (b : Back) :
  answer_json fd code body ka b = (set_world (sent fd code body ka (b_world b)) b, DRet tt).
Proof.
  unfold answer_json, on_world, sent, sendJson, sendHttpResponse, bind, gets.
  by destruct (write_loop _ _ _) as [[? ?] ?].
Qed.

Lemma escape_fits cap s (b : Back) :
  2 * str_size s + 1 <= cap -> escape_into cap s b = (b, DRet (mysql_real_escape_string s)).
Proof.
  intros L. unfold escape_into. pose proof (escape_length s). unfold str_size in *.
  destruct (_ <=? _) eqn:E; [|bool_lia]. by rewrite c_str_no_nul by apply escape_no_nul.
Qed.

Lemma c_str_sql a s z : NUL ∉ a -> NUL ∉ z -> c_str (a ++ mysql_real_escape_string s ++ z)
                                             = a ++ mysql_real_escape_string s ++ z.
Proof.
  intros A Z. apply c_str_no_nul. rewrite !elem_of_app. pose proof (escape_no_nul s). tauto.
Qed.

(** The statements are C strings as they are. *)
Lemma exists_c_str u :
  c_str (sql_exists (mysql_real_escape_string u)) = sql_exists (mysql_real_escape_string u).
Proof. unfold sql_exists. by rewrite (c_str_sql _ u) by by_decide. Qed.

Lemma password_c_str u :
  c_str (sql_password (mysql_real_escape_string u)) = sql_password (mysql_real_escape_string u).
Proof. unfold sql_password. by rewrite (c_str_sql _ u) by by_decide. Qed.

Lemma insert_c_str u p :
  c_str (sql_insert (mysql_real_escape_string u) (mysql_real_escape_string p)) =
  sql_insert (mysql_real_escape_string u) (mysql_real_escape_string p).
Proof.
  apply c_str_no_nul. unfold sql_insert. rewrite !elem_of_app.
  pose proof (escape_no_nul u). pose proof (escape_no_nul p).
  assert (NUL ∉ bs "INSERT INTO users(username, password) VALUES('") by by_decide.
  assert (NUL ∉ bs "','") by by_decide. assert (NUL ∉ bs "')") by by_decide. tauto.
Qed.

Lemma run_query_exists u (b : Back) :
  run_query (sql_exists (mysql_real_escape_string u)) b =
  let '(d, r) := mysql_query (sql_exists (mysql_real_escape_string u)) (b_db b) in (set_db d b, DRet r).
Proof. unfold run_query. by rewrite exists_c_str. Qed.

Lemma run_query_password u (b : Back) :
  run_query (sql_password (mysql_real_escape_string u)) b =
  let '(d, r) := mysql_query (sql_password (mysql_real_escape_string u)) (b_db b) in (set_db d b, DRet r).
Proof. unfold run_query. by rewrite password_c_str. Qed.

Lemma run_query_insert u pw (b : Back) :
  run_query (sql_insert (mysql_real_escape_string u) (mysql_real_escape_string pw)) b =
  let '(d, r) := mysql_query (sql_insert (mysql_real_escape_string u) (mysql_real_escape_string pw)) (b_db b)
  in (set_db d b, DRet r).
Proof. unfold run_query. by rewrite insert_c_str. Qed.

(** Taking the front connection and giving it back rotates the pool. *)
Lemma guard_back p conn p' :
  mysql_getConn p = (Some conn, p') ->
  mpool_ (mysql_releaseConn (Some conn) p') ≡ₚ mpool_ p /\ mlive (mysql_releaseConn (Some conn) p') = mlive p.
Proof.
  unfold mysql_getConn. destruct (mpool_ p) as [|c q] eqn:Q; intros; simplify_eq. simpl.
  split; [solve_Permutation | done].
Qed.

(** A guarded block that leaves the pool alone. *)
Lemma guard_run {A} (body : option nat -> DBM A) conn p (b b' : Back) r :
  mysql_getConn (b_mysql b) = (Some conn, p) -> body (Some conn) (set_mysql p b) = (b', r) ->
  b_mysql b' = p ->
  with_MysqlGuard body b = (set_mysql (mysql_releaseConn (Some conn) p) b', r).
Proof. intros Hg E P. unfold with_MysqlGuard. by rewrite Hg, E, P. Qed.

Lemma guard_none {A} (body : option nat -> DBM A) (b : Back) :
  mpool_ (b_mysql b) = [] ->
  with_MysqlGuard body b = let '(b', r) := body None b in (set_mysql (b_mysql b') b', r).
Proof.
  intros P. unfold with_MysqlGuard, mysql_getConn. rewrite P. by destruct b.
Qed.

Lemma runDbTask_ret fd ka work (b b' : Back) :
  work b = (b', DRet tt) -> runDbTask fd ka work b = (b', DRet tt).
Proof. intros E. unfold runDbTask. by rewrite E. Qed.

Lemma dbind_ret_eq {A B} (m : DBM A) (f : A -> DBM B) (b b' : Back) a :
  m b = (b', DRet a) -> dbind m f b = f a b'.
Proof. intros E. unfold dbind. by rewrite E. Qed.

(** *** Registration *)

Definition user_limits (u : bytes) : Prop := str_size u <= kMaxUsernameLen.
Definition password_limits (p : bytes) : Prop := str_size p <= kMaxPasswordLen.

(** What a registration answers and what it did to the table. *)
Definition register_effect (u p : bytes) (d d' : D) (code : Z) (body : bytes) : Prop :=
  (code = 200 /\ body = json1 "message" "register success" /\
     mysql_users d u = None /\
     forall v, mysql_users d' v = if mysql_same u v then Some p else mysql_users d v) \/
  (code = 409 /\ body = json1 "error" "user already exists" /\
     is_Some (mysql_users d u) /\ forall v, mysql_users d' v = mysql_users d v) \/
  (code = 500 /\ body = json1 "error" "database error").

Lemma register_rest_run fd ka u p (b : Back) :
  user_limits u -> password_limits p -> exists d code body,
    register_rest fd ka u p b = (set_world (sent fd code body ka (b_world b)) (set_db d b), DRet tt) /\
    register_effect u p (b_db b) d code body.
Proof.
  unfold user_limits, password_limits, kMaxUsernameLen, kMaxPasswordLen. intros Hu Hp. unfold register_rest.
  erewrite dbind_ret_eq by (apply escape_fits; lia). erewrite dbind_ret_eq by (apply escape_fits; lia).
  unfold dbind. rewrite run_query_exists.
  pose proof (exists_pure u (b_db b)) as Pure.
  destruct (mysql_query (sql_exists _) _) as [d1 [|res]] eqn:Q1; simpl in Pure.
  { rewrite answer_json_run. exists d1, 500, (json1 "error" "database error"). split; [done|]. by right; right. }
  destruct (first_row res) as [row|] eqn:F.
  { rewrite answer_json_run. exists d1, 409, (json1 "error" "user already exists"). split; [done|].
    destruct res as [[|]|]; simplify_eq/=. apply exists_ok in Q1.
    right; left. repeat split; [|done]. destruct (mysql_users (b_db b) u); [by eexists|].
    by destruct Q1 as [_ Q1]; discriminate Q1. }
  rewrite run_query_insert. simpl b_db. destruct (mysql_query (sql_insert _ _) _) as [d2 [|o]] eqn:Q2.
  { rewrite answer_json_run. exists d2, 500, (json1 "error" "database error"). split; [done|]. by right; right. }
  rewrite answer_json_run. exists d2, 200, (json1 "message" "register success"). split; [done|].
  apply insert_ok in Q2 as (N & O). left. repeat split; [by rewrite <- Pure|].
  intros v. by rewrite O, Pure.
Qed.

(** The same, behind the guard. *)
Lemma register_task_run fd ka u p (b : Back) :
  user_limits u -> password_limits p -> exists b' code body,
    run_task (TaskRegister fd ka u p) b = (b', DRet tt) /\ answered fd ka code body b b' /\
    b_store b' = b_store b /\ b_rng b' = b_rng b /\ b_entropy b' = b_entropy b /\
    (register_effect u p (b_db b) (b_db b') code body \/
     code = 503 /\ body = json1 "error" "service unavailable" /\ mpool_ (b_mysql b) = [] /\ b_db b' = b_db b).
Proof.
  intros Hu Hp. destruct (mysql_getConn (b_mysql b)) as [[conn|] q] eqn:Hg.
  - destruct (register_rest_run fd ka u p (set_mysql q b) Hu Hp) as (d & code & body & E & Eff).
    eexists _, code, body. split; [apply runDbTask_ret; by eapply guard_run|].
    destruct (guard_back _ _ _ Hg). repeat split; try done. by left.
  - assert (mpool_ (b_mysql b) = []) as P.
    { unfold mysql_getConn in Hg. by destruct (mpool_ (b_mysql b)). }
    eexists _, 503, _. split.
    + apply runDbTask_ret. unfold register_task. rewrite guard_none by done. by rewrite answer_json_run.
    + repeat split; try done. by right.
Qed.

(** *** Tokens *)

(** [kTokenLen] characters of the set. *)
Definition token_shape (token : bytes) : Prop :=
  str_size token = kTokenLen /\ Forall (fun c => c ∈ charset) token.

Context (draw_range : forall g, (fst (draw g) < length charset)%nat).

Lemma token_loop_shape n g token :
  exists more g', token_loop n g token = (token ++ more, g') /\ length more = n /\
                  Forall (fun c => c ∈ charset) more.
Proof.
  revert g token. induction n as [|n IH]; intros g token; simpl.
  { exists [], g. by rewrite app_nil_r. }
  pose proof (draw_range g) as B. destruct (draw g) as [i g1]. simpl in B.
  destruct (IH g1 (token ++ [charset !!! i])) as (more & g2 & E & L & F).
  exists ((charset !!! i) :: more), g2. rewrite E, <- app_assoc. split; [done|].
  split; [simpl; lia|]. constructor; [|done]. by apply list_elem_of_lookup_total_2.
Qed.

Lemma generateToken_run (b : Back) :
  match (match b_rng b with Some g => Some g | None => b_entropy b end) with
  | None => generateToken b = (b, DThrow)
  | Some _ => exists token g, generateToken b = (set_rng (Some g) b, DRet token) /\ token_shape token
  end.
Proof.
  unfold generateToken. destruct (match b_rng b with Some g => Some g | None => b_entropy b end) as [g|]; [|done].
  destruct (token_loop_shape (Z.to_nat kTokenLen) g []) as (more & g' & E & L & F).
  rewrite E. exists more, g'. split; [done|]. split; [|done]. unfold str_size. rewrite L. done.
Qed.

Lemma charset_no_nul : NUL ∉ charset.
Proof. by_decide. Qed.

Lemma session_key_c_str token : token_shape token -> c_str (session_key token) = session_key token.
Proof.
  intros [_ F]. apply c_str_no_nul. unfold session_key. rewrite elem_of_app. intros [A|A].
  - revert A. by_decide.
  - rewrite Forall_forall in F. by apply charset_no_nul, F.
Qed.

(** *** Login *)

(** Where the password of a user came from: the cache, or the table, read
    through a C string. *)
Definition known_password (b : Back) (u pw : bytes) : Prop :=
  store_view (b_store b) (c_str (user_key u)) = Some pw \/
  exists q, mysql_users (b_db b) u = Some q /\ pw = c_str q.

Definition same_users (b b' : Back) : Prop :=
  forall v, mysql_users (b_db b') v = mysql_users (b_db b) v.

(** What asking MySQL comes to. *)
Definition login_found (fd : Z) (ka : bool) (u : bytes) (b b' : Back) (r : option (option bytes)) : Prop :=
  match r with
  | None => b_world b' = sent fd 500 (json1 "error" "database error") ka (b_world b) \/
            b_world b' = sent fd 503 (json1 "error" "service unavailable") ka (b_world b)
  | Some None => b_world b' = b_world b
  | Some (Some pw) => b_world b' = b_world b /\ exists q, mysql_users (b_db b) u = Some q /\ pw = c_str q
  end.

Lemma login_rest_run fd ka u (b : Back) :
  user_limits u -> exists b' r, login_rest fd ka u b = (b', DRet r) /\
    b_mysql b' = b_mysql b /\ b_rng b' = b_rng b /\ b_entropy b' = b_entropy b /\ same_users b b' /\
    login_found fd ka u b b' r.
Proof.
  unfold user_limits, kMaxUsernameLen. intros Hu. unfold login_rest.
  erewrite dbind_ret_eq by (apply escape_fits; lia). unfold dbind. rewrite run_query_password.
  pose proof (password_pure u (b_db b)) as Pure.
  destruct (mysql_query (sql_password _) _) as [d1 [|res]] eqn:Q1; simpl in Pure.
  { rewrite answer_json_run. eexists _, None. repeat split; try done. by left. }
  destruct (first_row res) as [row|] eqn:F; [|by eexists _, (Some None)].
  unfold on_store. destruct (store_setex _ _ _ _) as [s' ok]. eexists _, (Some (Some (c_str row))).
  repeat split; try done. destruct res as [[|? rows]|]; simplify_eq/=. apply password_ok in Q1.
  by exists row.
Qed.

(** The MySQL pool holds the connections it held. *)
Definition pool_kept (b b' : Back) : Prop :=
  mpool_ (b_mysql b') ≡ₚ mpool_ (b_mysql b) /\ mlive (b_mysql b') = mlive (b_mysql b).

Lemma login_query_run fd ka u (b : Back) :
  user_limits u -> exists b' r, login_query fd ka u b = (b', DRet r) /\
    pool_kept b b' /\ b_rng b' = b_rng b /\ b_entropy b' = b_entropy b /\ same_users b b' /\
    login_found fd ka u b b' r.
Proof.
  intros Hu. unfold login_query. destruct (mysql_getConn (b_mysql b)) as [[conn|] q] eqn:Hg.
  - destruct (login_rest_run fd ka u (set_mysql q b) Hu) as (b' & r & E & P & R & En & Us & F).
    eexists _, r. split; [by eapply guard_run|]. destruct (guard_back _ _ _ Hg).
    by repeat split.
  - assert (mpool_ (b_mysql b) = []) as P.
    { unfold mysql_getConn in Hg. by destruct (mpool_ (b_mysql b)). }
    rewrite guard_none by done. unfold dbind. rewrite answer_json_run. eexists _, None.
    repeat split; try done. by right.
Qed.

(** The ways a login ends. *)
Definition login_effect (u p : bytes) (b b' : Back) (code : Z) (body : bytes) : Prop :=
  (code = 200 /\ known_password b u p /\ exists token, body = login_json token /\ token_shape token /\
     store_view (b_store b') (session_key token) = Some (c_str u)) \/
  (code = 401 /\ (body = json1 "error" "user not found" \/
     body = json1 "error" "wrong password" /\ exists q, known_password b u q /\ p <> q)) \/
  (code = 500 /\ (body = json1 "error" "database error" \/
     body = json1 "error" "internal error" /\ b_rng b = None /\ b_entropy b = None)) \/
  (code = 503 /\ body = json1 "error" "service unavailable").

Lemma login_finish_run fd ka u p q (b b1 : Back) :
  known_password b u q -> b_world b1 = b_world b -> b_rng b1 = b_rng b -> b_entropy b1 = b_entropy b ->
  exists b' code body, runDbTask fd ka (login_finish fd ka u p q) b1 = (b', DRet tt) /\
    b_world b' = sent fd code body ka (b_world b) /\ b_mysql b' = b_mysql b1 /\ b_db b' = b_db b1 /\
    login_effect u p b b' code body.
Proof.
  intros Hk Ew Er Ee. unfold runDbTask, login_finish. case_bool_decide as Hp.
  { rewrite answer_json_run, Ew. eexists _, 401, _. repeat split; try done.
    right; left. split; [done|]. right. eauto. }
  subst q. unfold dbind. pose proof (generateToken_run b1) as Ht.
  rewrite Er, Ee in Ht.
  destruct (match b_rng b with Some g => Some g | None => b_entropy b end) as [g0|] eqn:Eg.
  - destruct Ht as (token & g & -> & Hs). unfold on_store. simpl b_store.
    destruct (store_setex (session_key token) kSessionTtlSec u (b_store b1)) as [s' [|]] eqn:E; simpl.
    + rewrite answer_json_run. simpl b_world. rewrite Ew. eexists _, 200, _. repeat split; try done.
      left. split; [done|]. split; [done|]. exists token. split; [done|]. split; [done|].
      apply store_setex_ok in E as [E _]. by rewrite session_key_c_str in E.
    + rewrite answer_json_run. simpl b_world. rewrite Ew. eexists _, 503, _. repeat split; try done.
      by right; right; right.
  - rewrite Ht, answer_json_run, Ew. eexists _, 500, _. repeat split; try done.
    right; right; left. split; [done|]. right. by destruct (b_rng b).
Qed.

Lemma runDbTask_bind {A} fd ka (m : DBM A) (f : A -> DBM unit) (b b' : Back) a :
  m b = (b', DRet a) -> runDbTask fd ka (dbind m f) b = runDbTask fd ka (f a) b'.
Proof. intros E. unfold runDbTask, dbind. by rewrite E. Qed.

Lemma login_task_run fd ka u p (b : Back) :
  user_limits u -> exists b' code body,
    run_task (TaskLogin fd ka u p) b = (b', DRet tt) /\ answered fd ka code body b b' /\
    same_users b b' /\ login_effect u p b b' code body.
Proof.
  intros Hu. unfold run_task, login_task.
  destruct (store_get (user_key u) (b_store b)) as [s1 [v st]] eqn:Eg.
  erewrite runDbTask_bind by (unfold on_store; by rewrite Eg). cbn [fst snd].
  set (b1 := set_store s1 b).
  destruct (bool_decide (st = Ok) && negb (bool_decide (v = []))) eqn:C.
  - erewrite runDbTask_bind by reflexivity.
    apply andb_true_iff in C as [C%bool_decide_eq_true _]. subst st. apply store_get_ok in Eg as [Eg _].
    destruct (login_finish_run fd ka u p v b b1) as (b' & code & body & E & W & P & Q & Eff);
      [by left | done.. |].
    exists b', code, body. unfold answered, same_users. by rewrite E, W, P, Q.
  - destruct (login_query_run fd ka u b1 Hu) as (b2 & r & E & [K1 K2] & R & En & Us & F).
    erewrite runDbTask_bind by exact E. destruct r as [[q|]|].
    + destruct F as [W (q' & U & ->)].
      destruct (login_finish_run fd ka u p (c_str q') b b2) as (b' & code & body & E' & W' & P' & Q' & Eff);
        [right; by exists q' | by rewrite ?W, ?R, ?En.. |].
      exists b', code, body. unfold answered, same_users. rewrite E', W', P', Q'. by repeat split.
    + unfold runDbTask. rewrite answer_json_run. eexists _, 401, _. split; [done|].
      unfold answered. simpl in F. cbn [b_world set_world b_mysql]. rewrite F.
      repeat split; try done. right; left. split; [done | by left].
    + unfold runDbTask, dret. destruct F as [F|F].
      * eexists b2, 500, _. split; [done|]. repeat split; [exact F | done..|].
        right; right; left. split; [done | by left].
      * eexists b2, 503, _. split; [done|]. repeat split; [exact F | done..|]. by right; right; right.
Qed.

(** *** Profile and logout *)

Lemma profile_task_run fd ka token (b : Back) :
  exists b' code body, run_task (TaskProfile fd ka token) b = (b', DRet tt) /\ answered fd ka code body b b' /\
    b_mysql b' = b_mysql b /\ b_db b' = b_db b /\ b_rng b' = b_rng b /\ b_entropy b' = b_entropy b /\
    b_store b' = fst (store_get (session_key token) (b_store b)) /\
    match snd (store_get (session_key token) (b_store b)) with
    | (_, Error) => code = 503 /\ body = json1 "error" "service unavailable"
    | (_, NotFound) | ([], Ok) => code = 401 /\ body = json1 "error" "invalid or expired token"
    | (username, Ok) => code = 200 /\ body = profile_json username
    end.
Proof.
  unfold run_task, profile_task.
  destruct (store_get (session_key token) (b_store b)) as [s1 [v st]] eqn:Eg.
  erewrite runDbTask_bind by (unfold on_store; by rewrite Eg). cbv beta iota.
  unfold runDbTask. destruct st, v as [|c v]; simpl; rewrite answer_json_run;
    (eexists _, _, _; split; [reflexivity|]); by repeat split.
Qed.

Lemma logout_task_run fd ka token (b : Back) :
  exists b' code body, run_task (TaskLogout fd ka token) b = (b', DRet tt) /\ answered fd ka code body b b' /\
    b_mysql b' = b_mysql b /\ b_db b' = b_db b /\ b_rng b' = b_rng b /\ b_entropy b' = b_entropy b /\
    b_store b' = fst (store_del (session_key token) (b_store b)) /\
    match snd (store_del (session_key token) (b_store b)) with
    | Error => code = 503 /\ body = json1 "error" "service unavailable"
    | NotFound => code = 401 /\ body = json1 "error" "invalid or expired token"
    | Ok => code = 200 /\ body = json1 "message" "logout success"
    end.
Proof.
  unfold run_task, logout_task.
  destruct (store_del (session_key token) (b_store b)) as [s1 st] eqn:Eg.
  erewrite runDbTask_bind by (unfold on_store; by rewrite Eg). cbv beta iota.
  unfold runDbTask. destruct st; simpl; rewrite answer_json_run;
    (eexists _, _, _; split; [reflexivity|]); by repeat split.
Qed.

(** *** A back end in working order *)

Record healthy (b : Back) : Prop := {
  healthy_mysql : mpool_ (b_mysql b) <> [];
  healthy_db : mysql_up (b_db b);
  healthy_store : store_healthy (b_store b);
  healthy_rng : is_Some (match b_rng b with Some g => Some g | None => b_entropy b end)
}.

Lemma healthy_conn (b : Back) : healthy b -> exists conn q, mysql_getConn (b_mysql b) = (Some conn, q).
Proof. intros [P _ _ _]. unfold mysql_getConn. destruct (mpool_ (b_mysql b)); [done | eauto]. Qed.

Lemma register_healthy fd ka u p (b : Back) :
  healthy b -> user_limits u -> password_limits p -> mysql_text u -> mysql_text p ->
  mysql_users (b_db b) u = None ->
  exists b', run_task (TaskRegister fd ka u p) b = (b', DRet tt) /\
    answered fd ka 200 (json1 "message" "register success") b b' /\ healthy b' /\
    b_store b' = b_store b /\
    forall v, mysql_users (b_db b') v = if mysql_same u v then Some p else mysql_users (b_db b) v.
Proof.
  unfold user_limits, password_limits, kMaxUsernameLen, kMaxPasswordLen. intros Hh Hu Hp Tu Tp N.
  destruct (healthy_conn b Hh) as (conn & q & Hg). destruct Hh as [_ Up Hs Hr].
  destruct (exists_up u (b_db b) Up) as (d1 & rows & Q1 & Up1).
  pose proof (exists_pure u (b_db b)) as Pure. rewrite Q1 in Pure. simpl in Pure.
  pose proof (proj2 (exists_ok _ _ _ _ Q1) N) as ->. rewrite <- Pure in N.
  destruct (insert_up u p d1 Up1 N Tu Tp) as (d2 & Q2 & Up2).
  eexists. split.
  { apply runDbTask_ret. eapply guard_run; [done| |].
    - unfold register_rest.
      erewrite dbind_ret_eq by (apply escape_fits; lia). erewrite dbind_ret_eq by (apply escape_fits; lia).
      unfold dbind. rewrite run_query_exists. cbn [b_db set_mysql]. rewrite Q1. cbn [first_row].
      rewrite run_query_insert. cbn [b_db set_db set_mysql]. rewrite Q2. by rewrite answer_json_run.
    - done. }
  destruct (guard_back _ _ _ Hg) as [B1 B2]. split; [by repeat split|]. split.
  { split; [simpl; by destruct (mpool_ q) | done..]. }
  split; [done|]. apply insert_ok in Q2 as (_ & Q2). intros v. simpl. by rewrite Q2, Pure.
Qed.

Lemma profile_healthy fd ka token (b : Back) :
  healthy b -> exists b', run_task (TaskProfile fd ka token) b = (b', DRet tt) /\
    (match store_view (b_store b) (c_str (session_key token)) with
     | None | Some [] => answered fd ka 401 (json1 "error" "invalid or expired token") b b'
     | Some u => answered fd ka 200 (profile_json u) b b'
     end) /\ healthy b' /\ forall k, store_view (b_store b') k = store_view (b_store b) k.
Proof.
  intros [P Up Hs Hr]. destruct (profile_task_run fd ka token b) as
    (b' & code & body & E & A & Em & Ed & R1 & R2 & Es & Eff).
  destruct (store_get_healthy (session_key token) (b_store b) Hs) as (s' & Eg & Hs' & V).
  rewrite Eg in Es, Eff. simpl in Es, Eff. exists b'. split; [done|]. split.
  { destruct (store_view (b_store b) _) as [[]|]; destruct Eff as [-> ->]; done. }
  rewrite Es. split; [|done]. split; [by rewrite Em | by rewrite Ed | by rewrite Es | by rewrite R1, R2].
Qed.

Lemma logout_healthy fd ka token (b : Back) :
  healthy b -> is_Some (store_view (b_store b) (c_str (session_key token))) ->
  exists b', run_task (TaskLogout fd ka token) b = (b', DRet tt) /\
    answered fd ka 200 (json1 "message" "logout success") b b' /\ healthy b' /\
    store_view (b_store b') (c_str (session_key token)) = None.
Proof.
  intros [P Up Hs Hr] [v V]. destruct (logout_task_run fd ka token b) as
    (b' & code & body & E & A & Em & Ed & R1 & R2 & Es & Eff).
  destruct (store_del_healthy (session_key token) (b_store b) Hs) as (s' & Eg & Hs' & N & _). rewrite V in Eg.
  rewrite Eg in Es, Eff. simpl in Es, Eff. destruct Eff as [-> ->]. exists b'. split; [done|]. split; [done|].
  rewrite Es. split; [|done]. split; [by rewrite Em | by rewrite Ed | by rewrite Es | by rewrite R1, R2].
Qed.

(** The password a login is checked against: a cached one that is not empty,
    or else that of the table. *)
Definition stored_password (b : Back) (u : bytes) : option bytes :=
  match store_view (b_store b) (c_str (user_key u)) with
  | Some (c :: v) => Some (c :: v)
  | _ => c_str <$> mysql_users (b_db b) u
  end.

Lemma user_session_key u token : c_str (user_key u) <> session_key token.
Proof. by destruct u. Qed.

(** The first half of a login finds a password [r], if there is one, and leaves
    it cached. *)
Definition looked_up (u : bytes) (r : option bytes) (b b1 : Back) : Prop :=
  b_world b1 = b_world b /\ pool_kept b b1 /\ same_users b b1 /\ healthy b1 /\
  (forall k, k <> c_str (user_key u) -> store_view (b_store b1) k = store_view (b_store b) k) /\
  store_view (b_store b1) (c_str (user_key u)) =
    match r with Some q => Some q | None => store_view (b_store b) (c_str (user_key u)) end.

Lemma looked_up_from u r (b b0 b1 : Back) :
  b_world b0 = b_world b -> b_mysql b0 = b_mysql b -> b_db b0 = b_db b ->
  (forall k, store_view (b_store b0) k = store_view (b_store b) k) ->
  looked_up u r b0 b1 -> looked_up u r b b1.
Proof.
  intros W M Dd V (W1 & P & U & Hh & F & Vk). unfold looked_up, pool_kept, same_users in *.
  rewrite <- W, <- M, <- Dd, <- V. repeat split; try apply P; try apply Hh; try done.
  intros k Hk. by rewrite F, V.
Qed.

(** Asking MySQL for it. *)
Lemma login_query_healthy fd ka u (b : Back) :
  healthy b -> user_limits u -> exists b1,
    login_query fd ka u b = (b1, DRet (Some (c_str <$> mysql_users (b_db b) u))) /\
    looked_up u (c_str <$> mysql_users (b_db b) u) b b1.
Proof.
  unfold user_limits, kMaxUsernameLen. intros Hh Hu. destruct (healthy_conn b Hh) as (conn & mq & Hg).
  destruct (guard_back _ _ _ Hg) as [G1 G2]. destruct Hh as [_ Up Hs Hr].
  destruct (password_up u (b_db b) Up) as (d1 & rows & Q1 & Up1).
  pose proof (password_pure u (b_db b)) as Pure. rewrite Q1 in Pure. simpl in Pure.
  rewrite <- (password_ok _ _ _ _ Q1).
  set (row0 := match rows with row :: _ => c_str row | [] => [] end) in *.
  destruct (store_setex_healthy (user_key u) kUserCacheTtlSec row0 (b_store b) Hs) as (s2 & Es & Hs2); [done|].
  set (b2 := set_db d1 (set_mysql mq (match rows with [] => b | _ => set_store s2 b end))).
  exists (set_mysql (mysql_releaseConn (Some conn) mq) b2). split.
  { eapply guard_run; [exact Hg | | by unfold b2; destruct rows]. unfold login_rest.
    erewrite dbind_ret_eq by (apply escape_fits; lia). unfold dbind. rewrite run_query_password.
    cbn [b_db set_mysql]. rewrite Q1. unfold b2.
    destruct rows as [|row rows]; cbn [first_row]; [done|]. unfold on_store.
    cbn [b_store set_db set_mysql]. subst row0. cbv iota in Es. by rewrite Es. }
  apply store_setex_ok in Es as [E1 E2]. unfold row0, b2 in *.
  destruct rows as [|row rows]; rewrite ?c_str_idem in E1;
    (do 3 (split; [done|]); split; [split; [simpl; by destruct (mpool_ mq) | done..] | by split]).
Qed.

Lemma login_lookup_healthy fd ka u p (b : Back) :
  healthy b -> user_limits u -> exists b1,
    run_task (TaskLogin fd ka u p) b =
      runDbTask fd ka (match stored_password b u with
                       | Some q => login_finish fd ka u p q
                       | None => answer_json fd 401 (json1 "error" "user not found") ka
                       end) b1 /\ looked_up u (stored_password b u) b b1.
Proof.
  intros Hh Hu. destruct (store_get_healthy (user_key u) (b_store b)) as (s1 & Eg & Hs1 & V1); [by destruct Hh|].
  set (b0 := set_store s1 b). assert (healthy b0) as Hh0 by (destruct Hh; by split).
  unfold run_task, login_task, stored_password. erewrite runDbTask_bind by (unfold on_store; by rewrite Eg).
  fold b0. destruct (login_query_healthy fd ka u b0 Hh0 Hu) as (b1 & E & L).
  apply (looked_up_from u _ b) in L; [|done..]. cbn [b_db b0 set_store] in E, L.
  destruct (store_view (b_store b) (c_str (user_key u))) as [[|c v]|] eqn:Vk; cbn [fst snd].
  2: { rewrite bool_decide_true, bool_decide_false by done. cbn [negb andb].
       erewrite runDbTask_bind by reflexivity. exists b0. split; [done|]. do 3 (split; [done|]).
       split; [done|]. split; [done|]. by rewrite <- Vk, <- V1. }
  all: exists b1; rewrite ?(bool_decide_true ([] = [])), ?(bool_decide_false (NotFound = Ok)), ?andb_false_r by done;
    cbn [andb negb]; erewrite runDbTask_bind by exact E; split; [|done]; by destruct (mysql_users (b_db b) u).
Qed.

(** With the password at hand, a session is opened or refused. *)
Lemma login_finish_healthy fd ka u p q (b : Back) :
  healthy b -> exists b' code body, runDbTask fd ka (login_finish fd ka u p q) b = (b', DRet tt) /\
    b_world b' = sent fd code body ka (b_world b) /\ b_mysql b' = b_mysql b /\ b_db b' = b_db b /\ healthy b' /\
    if bool_decide (p = q) then
      exists token, code = 200 /\ body = login_json token /\ token_shape token /\
        store_view (b_store b') (session_key token) = Some (c_str u) /\
        forall k, k <> session_key token -> store_view (b_store b') k = store_view (b_store b) k
    else code = 401 /\ body = json1 "error" "wrong password" /\ b_store b' = b_store b.
Proof.
  intros Hh. unfold runDbTask, login_finish. case_bool_decide as Hp.
  { rewrite answer_json_run, (bool_decide_false (p = q)) by done.
    eexists _, 401, _. destruct Hh. by repeat split. }
  assert (p = q) as -> by (destruct (decide (p = q)); tauto). rewrite bool_decide_true by done.
  destruct Hh as [P Up Hs [g0 Hr]]. unfold dbind. pose proof (generateToken_run b) as Ht. rewrite Hr in Ht.
  destruct Ht as (token & g & -> & Sh). unfold on_store. cbn [b_store set_rng].
  destruct (store_setex_healthy (session_key token) kSessionTtlSec u (b_store b) Hs) as (s' & E & Hs'); [done|].
  rewrite E. cbn [negb]. rewrite answer_json_run. eexists _, 200, _. split; [done|].
  apply store_setex_ok in E as [E1 E2]. rewrite session_key_c_str in E1, E2 by done.
  do 3 (split; [done|]). split; [by split; [..|by eexists]|]. exists token. by repeat split; try apply Sh.
Qed.

(** A login with the right password. *)
Lemma login_healthy fd ka u p (b : Back) :
  healthy b -> user_limits u -> stored_password b u = Some p ->
  exists b' token, run_task (TaskLogin fd ka u p) b = (b', DRet tt) /\
    answered fd ka 200 (login_json token) b b' /\ healthy b' /\ token_shape token /\
    store_view (b_store b') (session_key token) = Some (c_str u) /\
    store_view (b_store b') (c_str (user_key u)) = Some p.
Proof.
  intros Hh Hu Hl. destruct (login_lookup_healthy fd ka u p b Hh Hu) as (b1 & E & W & [P1 P2] & _ & Hh1 & _ & V).
  rewrite Hl in E, V. destruct (login_finish_healthy fd ka u p p b1 Hh1) as (b' & code & body & E' & W' & M' & _ & Hh' & F).
  rewrite bool_decide_true in F by done. destruct F as (token & -> & -> & Sh & Vt & F).
  exists b', token. rewrite E. split; [exact E'|]. split; [unfold answered; by rewrite W', W, M'|].
  split; [done|]. split; [done|]. split; [done|]. by rewrite F by apply user_session_key.
Qed.

(** *** The two halves of a handler *)

(** The credentials a task carries fit the buffers of its statements. *)
Definition task_limits (t : db_task) : Prop :=
  match t with
  | TaskRegister _ _ u p | TaskLogin _ _ u p => user_limits u /\ password_limits p
  | _ => True
  end.

Definition event_limits (e : event) : Prop := match e with Submitted t => task_limits t | _ => True end.

Lemma sendJson_trace fd code body ka (w : World K) :
  exists w' es, sendJson fd code body ka w = (w', Ret tt) /\ w_conn w' = w_conn w /\
    w_trace w' = w_trace w ++ es /\ Forall event_limits es.
Proof.
  unfold sendJson, sendHttpResponse, bind, gets, modify, emit.
  destruct (write_loop _ _ _) as [[s n] o]. eexists _, _. split; [done|]. split; [done|]. split; [done|].
  unfold sent_event. destruct (take n _); by repeat constructor.
Qed.

Lemma checkCredentials_trace fd ka u p (w : World K) :
  exists w' es ok, checkCredentials fd ka u p w = (w', Ret ok) /\
    w_trace w' = w_trace w ++ es /\ Forall event_limits es /\
    (ok = true -> user_limits u /\ password_limits p).
Proof.
  unfold checkCredentials. destruct (bool_decide _ || bool_decide _).
  { destruct (sendJson_trace fd 400 (json1 "error" "missing username or password") ka w)
      as (w' & es & E & _ & T & F). exists w', es, false. by rewrite (bind_ret_eq _ _ _ _ _ E). }
  destruct (_ || _) eqn:L.
  { destruct (sendJson_trace fd 400 (json1 "error" "username or password too long") ka w)
      as (w' & es & E & _ & T & F). exists w', es, false. by rewrite (bind_ret_eq _ _ _ _ _ E). }
  exists w, [], true. rewrite app_nil_r. repeat split; [constructor|..];
    unfold user_limits, password_limits; rewrite ?Z.gtb_ltb in L; bool_lia.
Qed.

Lemma submit_trace t (w w' : World K) r :
  submit t w = (w', r) -> task_limits t ->
  exists es, w_trace w' = w_trace w ++ es /\ Forall event_limits es.
Proof.
  unfold submit, bind, get_conn, emit, modify. destruct (w_conn w); intros E Ht; simplify_eq.
  - exists [Submitted t]. split; [done | by repeat constructor].
  - exists []. by rewrite app_nil_r.
Qed.

Lemma guarded_submit_trace fd ka u p t (w w' : World K) r :
  bind (checkCredentials fd ka u p) (fun ok => if negb ok then ret tt else submit t) w = (w', r) ->
  (user_limits u /\ password_limits p -> task_limits t) ->
  exists es, w_trace w' = w_trace w ++ es /\ Forall event_limits es.
Proof.
  intros E Ht. destruct (checkCredentials_trace fd ka u p w) as (w1 & es & ok & C & T & F & L).
  rewrite (bind_ret_eq _ _ _ _ _ C) in E. destruct ok; cbn [negb] in E.
  - apply submit_trace in E as (es' & T' & F'); [|by apply Ht, L].
    exists (es ++ es'). rewrite T', T, app_assoc. split; [done | by apply Forall_app].
  - unfold ret in E. simplify_eq. by exists es.
Qed.

Lemma token_submit_trace fd ka (token : bytes) t (w w' : World K) r :
  (if bool_decide (token = []) then sendJson fd 401 (json1 "error" "missing token") ka else submit t) w
    = (w', r) -> task_limits t ->
  exists es, w_trace w' = w_trace w ++ es /\ Forall event_limits es.
Proof.
  intros E Ht. case_bool_decide; [|by eapply submit_trace].
  destruct (sendJson_trace fd 401 (json1 "error" "missing token") ka w) as (w1 & es & C & _ & T & F).
  rewrite C in E. simplify_eq. by exists es.
Qed.

Lemma handler_trace h request fd ka (w w' : World K) r :
  run_handler h request fd ka w = (w', r) ->
  exists es, w_trace w' = w_trace w ++ es /\ Forall event_limits es.
Proof.
  destruct h; intros E.
  - by eapply guarded_submit_trace.
  - by eapply guarded_submit_trace.
  - by eapply token_submit_trace.
  - by eapply token_submit_trace.
Qed.

(** *** Every task *)

Lemma task_answers t (b : Back) :
  task_limits t -> exists b' code body,
    run_task t b = (b', DRet tt) /\ answered (task_fd t) (task_keepAlive t) code body b b' /\
    code ∈ [200; 401; 409; 500; 503].
Proof.
  destruct t as [fd ka u p|fd ka u p|fd ka token|fd ka token]; simpl task_limits; intros L.
  - destruct (register_task_run fd ka u p b) as (b' & code & body & E & A & _ & _ & _ & Eff); [by apply L..|].
    exists b', code, body. split; [done|]. split; [done|].
    destruct Eff as [[Eff|[Eff|Eff]]|Eff]; destruct Eff as [-> _]; by_decide.
  - destruct (login_task_run fd ka u p b) as (b' & code & body & E & A & _ & Eff); [by apply L|].
    exists b', code, body. split; [done|]. split; [done|].
    destruct Eff as [Eff|[Eff|[Eff|Eff]]]; destruct Eff as [-> _]; by_decide.
  - destruct (profile_task_run fd ka token b) as (b' & code & body & E & A & _ & _ & _ & _ & _ & Eff).
    exists b', code, body. split; [done|]. split; [done|].
    destruct (snd (store_get _ _)) as [[] []]; destruct Eff as [-> _]; by_decide.
  - destruct (logout_task_run fd ka token b) as (b' & code & body & E & A & _ & _ & _ & _ & _ & Eff).
    exists b', code, body. split; [done|]. split; [done|].
    destruct (snd (store_del _ _)); destruct Eff as [-> _]; by_decide.
Qed.

(** ** Properties *)

(** C17: every database request is answered once. Whatever the request, the task
    a handler submits for it, run on a back end in any state, comes back without
    a throw and without overrunning its statement buffers, writes exactly one
    response to the captured descriptor and leaves the MySQL pool with the
    connections it had. *)
Theorem submitted_task_answers_once h request fd ka (w : World K) t (b : Back) :
  Submitted t ∈ w_trace (fst (run_handler h request fd ka w)) -> Submitted t ∉ w_trace w ->
  exists b' code body, run_task t b = (b', DRet tt) /\ code ∈ [200; 401; 409; 500; 503] /\
    b_world b' = sent (task_fd t) code body (task_keepAlive t) (b_world b) /\
    mpool_ (b_mysql b') ≡ₚ mpool_ (b_mysql b).
Proof.
  destruct (run_handler h request fd ka w) as [w' r] eqn:E. simpl. intros I N.
  apply handler_trace in E as (es & T & F). rewrite T, elem_of_app in I. destruct I as [|I]; [done|].
  rewrite Forall_forall in F.
  destruct (task_answers t b (F _ I)) as (b' & code & body & R & (W & P & _) & C).
  by exists b', code, body.
Qed.

(** Registration. The answer is 200 exactly when the name was free and is
    now stored with this password, nothing else being changed; 409 means that
    the name was taken and the table is as before; 500 is a failed statement and
    503 an exhausted pool, in which case nothing was asked. *)
Theorem register_outcomes fd ka u p (b : Back) :
  str_size u <= kMaxUsernameLen -> str_size p <= kMaxPasswordLen -> exists b' code body,
    run_task (TaskRegister fd ka u p) b = (b', DRet tt) /\ answered fd ka code body b b' /\
    (register_effect u p (b_db b) (b_db b') code body \/
     code = 503 /\ body = json1 "error" "service unavailable" /\ mpool_ (b_mysql b) = [] /\ b_db b' = b_db b).
Proof.
  intros Hu Hp. destruct (register_task_run fd ka u p b Hu Hp) as (b' & code & body & E & A & _ & _ & _ & Eff).
  by exists b', code, body.
Qed.

(** C18: login. A token is handed out only if the password given is the one
    cached or stored for the user, and only if its session is in the store under
    the user's name, so that it will validate. Every other answer is a 401 (user
    not found; or wrong password, and then another one is cached or stored), a 500
    (database error; or internal error, and then the generator could not be
    seeded) or a 503. The users are as they were. *)
Theorem login_outcomes fd ka u p (b : Back) :
  str_size u <= kMaxUsernameLen -> exists b' code body,
    run_task (TaskLogin fd ka u p) b = (b', DRet tt) /\ answered fd ka code body b b' /\
    same_users b b' /\ login_effect u p b b' code body.
Proof. apply login_task_run. Qed.

(** The life of a session. On a back end in working order a new user
    registers, logs in, is told their name under the token of the login answer,
    logs out, and the token is then refused. *)
Theorem session_lifecycle fd ka u p (b : Back) :
  healthy b -> str_size u <= kMaxUsernameLen -> str_size p <= kMaxPasswordLen ->
  u <> [] -> NUL ∉ u -> NUL ∉ p -> mysql_text u -> mysql_text p ->
  mysql_users (b_db b) u = None -> store_view (b_store b) (user_key u) = None ->
  exists b1 b2 b3 b4 b5 token,
    run_task (TaskRegister fd ka u p) b = (b1, DRet tt) /\
    answered fd ka 200 (json1 "message" "register success") b b1 /\
    run_task (TaskLogin fd ka u p) b1 = (b2, DRet tt) /\
    answered fd ka 200 (login_json token) b1 b2 /\
    run_task (TaskProfile fd ka token) b2 = (b3, DRet tt) /\ answered fd ka 200 (profile_json u) b2 b3 /\
    run_task (TaskLogout fd ka token) b3 = (b4, DRet tt) /\
    answered fd ka 200 (json1 "message" "logout success") b3 b4 /\
    run_task (TaskProfile fd ka token) b4 = (b5, DRet tt) /\
    answered fd ka 401 (json1 "error" "invalid or expired token") b4 b5.
Proof.
  intros Hh Hu Hp Nu Zu Zp Tu Tp U V.
  destruct (register_healthy fd ka u p b Hh Hu Hp Tu Tp U) as (b1 & R1 & A1 & H1 & S1 & U1).
  specialize (U1 u). rewrite same_refl in U1.
  assert (c_str (user_key u) = user_key u) as Ck.
  { apply c_str_no_nul. unfold user_key. rewrite elem_of_app. intros [Z|Z]; [revert Z; by_decide | done]. }
  destruct (login_healthy fd ka u p b1 H1 Hu) as (b2 & token & R2 & A2 & H2 & Sh & V2 & _).
  { unfold stored_password. rewrite S1, Ck, V, U1. simpl. by rewrite c_str_no_nul. }
  rewrite (c_str_no_nul u Zu) in V2. pose proof (session_key_c_str token Sh) as Cs.
  destruct (profile_healthy fd ka token b2 H2) as (b3 & R3 & A3 & H3 & V3).
  rewrite Cs, V2 in A3. destruct u as [|c u]; [done|].
  destruct (logout_healthy fd ka token b3 H3) as (b4 & R4 & A4 & H4 & V4); [by rewrite Cs, V3, V2|].
  destruct (profile_healthy fd ka token b4 H4) as (b5 & R5 & A5 & _ & _). rewrite V4 in A5.
  exists b1, b2, b3, b4, b5, token. tauto.
Qed.

(** C34: names are cut at a NUL byte on their way to the store. Whoever
    registered a name that continues [u] after a NUL byte logs in with their own
    password, is [u] for the session they get, and from then on, for as long as
    the cache entry lives, logs in as [u] itself with that password. *)
Theorem nul_name_takes_over fd ka u t p (b : Back) :
  healthy b -> str_size (u ++ NUL :: t) <= kMaxUsernameLen -> u <> [] -> NUL ∉ u ->
  NUL ∉ p -> p <> [] -> mysql_users (b_db b) (u ++ NUL :: t) = Some p ->
  store_view (b_store b) (user_key u) = None ->
  exists b1 b2 b3 token token',
    run_task (TaskLogin fd ka (u ++ NUL :: t) p) b = (b1, DRet tt) /\
    answered fd ka 200 (login_json token) b b1 /\
    run_task (TaskProfile fd ka token) b1 = (b2, DRet tt) /\ answered fd ka 200 (profile_json u) b1 b2 /\
    run_task (TaskLogin fd ka u p) b2 = (b3, DRet tt) /\ answered fd ka 200 (login_json token') b2 b3.
Proof.
  intros Hh Hl Nu Zu Zp Np U V.
  assert (NUL ∉ user_key u) as Zk.
  { unfold user_key. rewrite elem_of_app. intros [Z|Z]; [revert Z; by_decide | done]. }
  assert (c_str (user_key (u ++ NUL :: t)) = user_key u) as Ck.
  { unfold user_key. rewrite app_assoc. by apply c_str_app_nul. }
  destruct (login_healthy fd ka (u ++ NUL :: t) p b Hh Hl) as (b1 & token & R1 & A1 & H1 & Sh & V1 & W1).
  { unfold stored_password. rewrite Ck, V, U. simpl. by rewrite c_str_no_nul. }
  rewrite c_str_app_nul in V1 by done. rewrite Ck in W1. pose proof (session_key_c_str token Sh) as Cs.
  destruct (profile_healthy fd ka token b1 H1) as (b2 & R2 & A2 & H2 & V2).
  rewrite Cs, V1 in A2.
  destruct (login_healthy fd ka u p b2 H2) as (b3 & token' & R3 & A3 & _).
  { unfold user_limits. unfold str_size in *. rewrite length_app in Hl. lia. }
  { unfold stored_password. rewrite (c_str_no_nul _ Zk), V2, W1. by destruct p. }
  exists b1, b2, b3, token, token'. destruct u; [done|]. tauto.
Qed.

End Tasks.

(** ** Witnesses *)

(** A connection on descriptor 7, a Redis and a MySQL server that keep their
    data in maps, two connections to each, and a generator that counts. *)
Definition demo_world : World unit :=
  mkWorld (Some (mkConn 7 (new_Channel 0 7) [] 0 [] false 0 (-1) 0 0)) tt [] [] [] [] 0 0 None [].

Definition demo_backend (users cache : gmap bytes bytes) :
    Backend unit (gmap bytes bytes * RedisPool) (gmap bytes bytes) nat :=
  mkBackend demo_world (mkMysql [0; 1]%nat {[0; 1]}%nat 2) users
    (cache, new_RedisPool [ConnectOk; ConnectOk]) None (Some 5%nat).

Definition count_draw (g : nat) : nat * nat := (Nat.modulo g 36, S g).

Lemma count_draw_range g : (fst (count_draw g) < length charset)%nat.
Proof. apply Nat.mod_upper_bound. discriminate. Qed.

Lemma demo_healthy users cache : healthy (demo_backend users cache).
Proof. split; [done | done | by vm_compute | by eexists]. Qed.

Definition login_request : bytes :=
  message [bs "POST /login HTTP/1.1"] (credentials_body (bs "ann") (bs "secret")).

Lemma submitted_task_answers_once_witness :
  exists b' code body,
    run_task count_draw (TaskLogin 7 true (bs "ann") (bs "secret")) (demo_backend ∅ ∅) = (b', DRet tt) /\
    code ∈ [200; 401; 409; 500; 503] /\ b_world b' = sent 7 code body true demo_world /\
    mpool_ (b_mysql b') ≡ₚ [0; 1]%nat.
Proof.
  apply (submitted_task_answers_once count_draw count_draw_range HLogin login_request 7 true demo_world
           (TaskLogin 7 true (bs "ann") (bs "secret")) (demo_backend ∅ ∅)).
  - replace (w_trace _) with [Submitted (TaskLogin 7 true (bs "ann") (bs "secret"))]
      by (vm_compute; reflexivity). apply list_elem_of_here.
  - apply not_elem_of_nil.
Defined.

Lemma register_outcomes_witness :
  let b := demo_backend {[bs "bob" := bs "pw"]} ∅ in
  exists b' code body,
    run_task count_draw (TaskRegister 7 true (bs "ann") (bs "secret")) b = (b', DRet tt) /\
    answered 7 true code body b b' /\
    (register_effect (bs "ann") (bs "secret") (b_db b) (b_db b') code body \/
     code = 503 /\ body = json1 "error" "service unavailable" /\ mpool_ (b_mysql b) = [] /\ b_db b' = b_db b).
Proof.
  apply (register_outcomes count_draw 7 true (bs "ann") (bs "secret") (demo_backend {[bs "bob" := bs "pw"]} ∅));
    by vm_compute.
Defined.

Lemma login_outcomes_witness :
  let b := demo_backend {[bs "bob" := bs "pw"]} ∅ in
  exists b' code body,
    run_task count_draw (TaskLogin 7 true (bs "bob") (bs "pw")) b = (b', DRet tt) /\
    answered 7 true code body b b' /\ same_users b b' /\ login_effect (bs "bob") (bs "pw") b b' code body.
Proof.
  apply (login_outcomes count_draw count_draw_range 7 true (bs "bob") (bs "pw")
           (demo_backend {[bs "bob" := bs "pw"]} ∅)).
  by vm_compute.
Defined.

Lemma session_lifecycle_witness :
  exists b1 b2 token,
    run_task count_draw (TaskRegister 7 true (bs "ann") (bs "secret")) (demo_backend ∅ ∅) = (b1, DRet tt) /\
    run_task count_draw (TaskLogin 7 true (bs "ann") (bs "secret")) b1 = (b2, DRet tt) /\
    answered 7 true 200 (login_json token) b1 b2.
Proof.
  destruct (session_lifecycle count_draw count_draw_range 7 true (bs "ann") (bs "secret") (demo_backend ∅ ∅))
    as (b1 & b2 & b3 & b4 & b5 & token & R1 & A1 & R2 & A2 & _).
  - apply demo_healthy.
  - by vm_compute.
  - by vm_compute.
  - discriminate.
  - by_decide.
  - by_decide.
  - exact I.
  - exact I.
  - by vm_compute.
  - by vm_compute.
  - exists b1, b2, token. split; [exact R1|]. split; [exact R2 | exact A2].
Defined.

Lemma nul_name_takes_over_witness :
  let b := demo_backend {[bs "ann" := bs "secret"; bs "ann" ++ [NUL] := bs "mine"]} ∅ in
  exists b1 b2 b3 token token',
    run_task count_draw (TaskLogin 7 true (bs "ann" ++ [NUL]) (bs "mine")) b = (b1, DRet tt) /\
    answered 7 true 200 (login_json token) b b1 /\
    run_task count_draw (TaskProfile 7 true token) b1 = (b2, DRet tt) /\
    answered 7 true 200 (profile_json (bs "ann")) b1 b2 /\
    run_task count_draw (TaskLogin 7 true (bs "ann") (bs "mine")) b2 = (b3, DRet tt) /\
    answered 7 true 200 (login_json token') b2 b3.
Proof.
  intros b.
  apply (nul_name_takes_over count_draw count_draw_range 7 true (bs "ann") [] (bs "mine") b).
  - apply demo_healthy.
  - by vm_compute.
  - discriminate.
  - by_decide.
  - by_decide.
  - discriminate.
  - by vm_compute.
  - by vm_compute.
Defined.

(** The answers of a whole session, as bytes on the wire. *)
Example session_on_the_wire :
  let b := demo_backend ∅ ∅ in
  let b1 := fst (run_task count_draw (TaskRegister 7 true (bs "ann") (bs "secret")) b) in
  let b2 := fst (run_task count_draw (TaskRegister 7 true (bs "ann") (bs "other")) b1) in
  let b3 := fst (run_task count_draw (TaskLogin 7 true (bs "ann") (bs "secret")) b2) in
  let token := bs "fghijklmnopqrstuvwxyz0123456789a" in
  let b4 := fst (run_task count_draw (TaskProfile 7 true token) b3) in
  w_trace (b_world b4) =
    [Sent 7 (buildHttpResponse 200 (bs "application/json") (json1 "message" "register success") true);
     Sent 7 (buildHttpResponse 409 (bs "application/json") (json1 "error" "user already exists") true);
     Sent 7 (buildHttpResponse 200 (bs "application/json") (login_json token) true);
     Sent 7 (buildHttpResponse 200 (bs "application/json") (profile_json (bs "ann")) true)].
Proof. vm_compute. reflexivity. Qed.
