(* ===== verification/Accounts.v ===== *)
(** * The account service as a whole (src/Connection.cpp over both back ends)

    What the four database routes promise together, as an abstract state machine
    that knows only which users exist and which sessions are open: no pools, no
    statements, no cache, no keys. The code refines it: any sequence of tasks run
    by the database thread on a back end in working order, with sessions and cache
    entries expiring in between, gives answers the abstract machine can give, in
    particular the password cache is never visible. What the abstract machine
    guarantees about sessions is then a fact about the code. *)

From S2P Require Import Prelude CppString Config Http Json Channel Framing Connection WritePath ReadPath.
From S2P Require Import Interfaces Mysql Redis Handlers.

(** ** The abstract service *)

Record accounts : Type := mkAccounts {
  acc_users : bytes -> option bytes;      (* name to password *)
  acc_sessions : bytes -> option bytes    (* token to name *)
}.

Section Spec.
(** How names are compared. *)
Context (same : bytes -> bytes -> bool).

Definition add_user (u p : bytes) (a : accounts) : accounts :=
  mkAccounts (fun v => if same u v then Some p else acc_users a v) (acc_sessions a).

Definition set_session (token : bytes) (u : option bytes) (a : accounts) : accounts :=
  mkAccounts (acc_users a) (fun t => if decide (t = token) then u else acc_sessions a t).

Inductive accounts_step : accounts -> db_task -> reply -> accounts -> Prop :=
| step_register a fd ka u p : acc_users a u = None ->
    accounts_step a (TaskRegister fd ka u p) (200, json1 "message" "register success") (add_user u p a)
| step_register_taken a fd ka u p q : acc_users a u = Some q ->
    accounts_step a (TaskRegister fd ka u p) (409, json1 "error" "user already exists") a
| step_login a fd ka u p token : acc_users a u = Some p -> token_shape token ->
    accounts_step a (TaskLogin fd ka u p) (200, login_json token) (set_session token (Some u) a)
| step_login_wrong a fd ka u p q : acc_users a u = Some q -> p <> q ->
    accounts_step a (TaskLogin fd ka u p) (401, json1 "error" "wrong password") a
| step_login_unknown a fd ka u p : acc_users a u = None ->
    accounts_step a (TaskLogin fd ka u p) (401, json1 "error" "user not found") a
| step_profile a fd ka token u : acc_sessions a token = Some u ->
    accounts_step a (TaskProfile fd ka token) (200, profile_json u) a
| step_profile_refused a fd ka token : acc_sessions a token = None ->
    accounts_step a (TaskProfile fd ka token) (401, json1 "error" "invalid or expired token") a
| step_logout a fd ka token u : acc_sessions a token = Some u ->
    accounts_step a (TaskLogout fd ka token) (200, json1 "message" "logout success") (set_session token None a)
| step_logout_refused a fd ka token : acc_sessions a token = None ->
    accounts_step a (TaskLogout fd ka token) (401, json1 "error" "invalid or expired token") a.

(** Sessions may expire at any time. *)
Definition expired (a a' : accounts) : Prop :=
  (forall u, acc_users a' u = acc_users a u) /\
  forall t, acc_sessions a' t = acc_sessions a t \/ acc_sessions a' t = None.

Inductive accounts_run : accounts -> list (db_task * reply) -> accounts -> Prop :=
| run_done a : accounts_run a [] a
| run_step a t r a1 h a2 :
    accounts_step a t r a1 -> accounts_run a1 h a2 -> accounts_run a ((t, r) :: h) a2
| run_expire a a1 h a2 : expired a a1 -> accounts_run a1 h a2 -> accounts_run a h a2.

(** *** What the abstract service guarantees *)

(** [p] is the password of [u]: from the start, or by a registration in [h]. *)
Definition registered_in (a0 : accounts) (h : list (db_task * reply)) (u p : bytes) : Prop :=
  acc_users a0 u = Some p \/
  exists fd ka u', same u' u = true /\
    (TaskRegister fd ka u' p, (200, json1 "message" "register success")) ∈ h.

Definition logged_out (token : bytes) (e : db_task * reply) : Prop :=
  match e with (TaskLogout _ _ t, (code, _)) => t = token /\ code = 200 | _ => False end.

(** The last that [h] says of [token] is that it was given to [u], who had
    presented their password. *)
Definition logged_in (a0 : accounts) (h : list (db_task * reply)) (token u : bytes) : Prop :=
  exists h1 h2 fd ka p, h = h1 ++ (TaskLogin fd ka u p, (200, login_json token)) :: h2 /\
    registered_in a0 h1 u p /\ Forall (fun e => ~ logged_out token e) h2.

(** The state is explained by the history. *)
Record explained (a0 : accounts) (h : list (db_task * reply)) (a : accounts) : Prop := {
  ex_users u p : acc_users a u = Some p -> registered_in a0 h u p;
  ex_sessions t u : acc_sessions a t = Some u -> logged_in a0 h t u
}.

Lemma registered_in_app a0 h h' u p : registered_in a0 h u p -> registered_in a0 (h ++ h') u p.
Proof. intros [|(fd & ka & u' & E & I)]; [by left | right]. exists fd, ka, u'. set_solver. Qed.

Lemma logged_in_snoc a0 h e t u : logged_in a0 h t u -> ~ logged_out t e -> logged_in a0 (h ++ [e]) t u.
Proof.
  intros (h1 & h2 & fd & ka & p & -> & R & F) N. exists h1, (h2 ++ [e]), fd, ka, p.
  rewrite <- app_assoc. split; [done|]. split; [done|]. apply Forall_app. by repeat constructor.
Qed.

Lemma explained_step a0 h a t r a1 :
  explained a0 h a -> accounts_step a t r a1 -> explained a0 (h ++ [(t, r)]) a1.
Proof.
  intros [U Se] St. split.
  - intros u p E. destruct St; try by apply registered_in_app, U.
    simpl in E. destruct (same u0 u) eqn:Sm; [|by apply registered_in_app, U]. injection E as <-.
    right. exists fd, ka, u0. split; [done|]. set_solver.
  - intros tk u E.
    destruct St; try by (apply logged_in_snoc; [by apply Se | simpl; intros X; destruct_and?]).
    all: unfold set_session in E; cbn [acc_sessions] in E.
    + case_decide; [subst tk; injection E as <- | by apply logged_in_snoc; [apply Se | intros []]].
      exists h, [], fd, ka, p. split; [done|]. split; [by apply U | done].
    + case_decide; [done|]. apply logged_in_snoc; [by apply Se|]. simpl. intros [-> _]. done.
Qed.

Lemma explained_expired a0 h a a1 : explained a0 h a -> expired a a1 -> explained a0 h a1.
Proof.
  intros [U Se] [Eu Es]. split.
  - intros u p. rewrite Eu. apply U.
  - intros t u E. destruct (Es t) as [X|X]; [by rewrite X in E; apply Se | congruence].
Qed.

(** Whoever is told a name was logged in under it. *)
Lemma run_profile a0 h0 a h a' i fd ka token body :
  explained a0 h0 a -> accounts_run a h a' ->
  h !! i = Some (TaskProfile fd ka token, (200, body)) ->
  exists u, body = profile_json u /\ logged_in a0 (h0 ++ take i h) token u.
Proof.
  intros Ex R. revert h0 i Ex. induction R as [a|a t r a1 h a2 St R IH|a a1 h a2 X R IH]; intros h0 i Ex L.
  - done.
  - destruct i as [|i]; simpl in L.
    + injection L as -> ->. inversion St; subst. exists u. split; [done|]. rewrite app_nil_r. by apply Ex.
    + destruct (IH (h0 ++ [(t, r)]) i) as (u & B & Lg); [by eapply explained_step | done |].
      exists u. split; [done|]. by rewrite <- app_assoc in Lg.
  - apply IH; [by eapply explained_expired | done].
Qed.

End Spec.

(** ** The code *)

Section Service.
Context {K S D G : Type} `{SessionStore S} `{MysqlServer D}.
Context (draw : G -> nat * G).
Notation Back := (Backend K S D G).
Notation run_task := (run_task draw).

(** A database thread runs its tasks one after the other. Before each one,
    entries of the store may have reached the end of their time to live. *)
Fixpoint serve_tasks (ops : list ((S -> S) * db_task)) : DB K S D G unit :=
  match ops with
  | [] => dret tt
  | (expire, t) :: ops => fun b =>
      dbind (run_task t) (fun _ => serve_tasks ops) (set_store (expire (b_store b)) b)
  end.

Definition expiry (e : S -> S) : Prop :=
  forall s, store_healthy s -> store_healthy (e s) /\
    forall k, store_view (e s) k = store_view s k \/ store_view (e s) k = None.

(** The answers, in order, on their descriptors. *)
Definition send_answers (h : list (db_task * reply)) (w : World K) : World K :=
  foldl (fun w '(t, (code, body)) => sent (task_fd t) code body (task_keepAlive t) w) w h.

(** Requests without NUL bytes, whose text the columns accept. *)
Definition task_plain (t : db_task) : Prop :=
  task_limits t /\
  match t with
  | TaskRegister _ _ u p => u <> [] /\ NUL ∉ u /\ NUL ∉ p /\ mysql_text u /\ mysql_text p
  | TaskLogin _ _ u _ => u <> [] /\ NUL ∉ u
  | TaskProfile _ _ token | TaskLogout _ _ token => NUL ∉ token
  end.

(** The table and the store hold the abstract state: the table is the users, the
    entries under "session:" are the sessions, and what is cached is right. *)
Record stores (d : D) (s : S) (a : accounts) : Prop := {
  st_users u : mysql_users d u = acc_users a u;
  st_plain u q : acc_users a u = Some q -> NUL ∉ q;
  st_sessions t : NUL ∉ t -> store_view s (session_key t) = acc_sessions a t;
  st_named t u : acc_sessions a t = Some u -> u <> [];
  st_cache u q : NUL ∉ u -> store_view s (user_key u) = Some q -> acc_users a u = Some q
}.

(** The back end represents it when it is in working order besides. *)
Record represents (b : Back) (a : accounts) : Prop := {
  rep_healthy : healthy b;
  rep_stores : stores (b_db b) (b_store b) a
}.

Lemma user_key_c_str u : NUL ∉ u -> c_str (user_key u) = user_key u.
Proof.
  intros Hu. apply c_str_no_nul. unfold user_key. rewrite elem_of_app. intros [Z|Z]; [revert Z; by_decide | done].
Qed.

Lemma session_key_plain t : NUL ∉ t -> c_str (session_key t) = session_key t.
Proof.
  intros Ht. apply c_str_no_nul. unfold session_key. rewrite elem_of_app.
  intros [Z|Z]; [revert Z; by_decide | done].
Qed.

Lemma keys_differ u t : user_key u <> session_key t.
Proof. by unfold user_key, session_key. Qed.

Lemma token_shape_plain t : token_shape t -> NUL ∉ t.
Proof. intros [_ F] N. rewrite Forall_forall in F. by apply charset_no_nul, F. Qed.

(** *** What can be done to the stores *)

Lemma stores_same d s d' s' a :
  stores d s a -> (forall u, mysql_users d' u = mysql_users d u) ->
  (forall k, store_view s' k = store_view s k) -> stores d' s' a.
Proof.
  intros [U P Se N C] Us V. split; try done.
  - intros u. by rewrite Us.
  - intros t Ht. rewrite V. by apply Se.
  - intros u q Hu. rewrite V. by apply C.
Qed.

(** Time passes. *)
Lemma stores_expire d s s' a :
  stores d s a -> (forall k, store_view s' k = store_view s k \/ store_view s' k = None) ->
  exists a', expired a a' /\ stores d s' a'.
Proof.
  intros [U P Se N C] V.
  exists (mkAccounts (acc_users a) (fun t => if decide (NUL ∈ t) then acc_sessions a t
                                             else store_view s' (session_key t))).
  split.
  - split; [done|]. intros t. simpl. case_decide as Ht; [by left|]. rewrite <- Se by done. apply V.
  - split; simpl; try done.
    + intros t Ht. by rewrite decide_False.
    + intros t u. case_decide as Ht; [apply N|]. destruct (V (session_key t)) as [-> | ->]; [|done].
      rewrite Se by done. apply N.
    + intros u q Hu. destruct (V (user_key u)) as [-> | ->]; [by apply C | done].
Qed.

(** A user registers. *)
Lemma stores_add_user d d' s a u p :
  stores d s a -> acc_users a u = None -> NUL ∉ p ->
  (forall v, mysql_users d' v = if mysql_same u v then Some p else mysql_users d v) ->
  stores d' s (add_user mysql_same u p a).
Proof.
  intros [U P Se N C] Ua Zp Us. split; simpl; try done.
  - intros v. rewrite Us. by destruct (mysql_same u v).
  - intros v q. destruct (mysql_same u v); [by intros [= <-] | apply P].
  - intros v q Zv V. apply C in V; [|done]. destruct (mysql_same u v) eqn:Sm; [|done].
    apply (same_users_eq _ _ d) in Sm. rewrite !U in Sm. congruence.
Qed.

(** The cache is filled. *)
Lemma stores_cached d s s' a u q :
  stores d s a -> NUL ∉ u -> acc_users a u = Some q -> store_view s' (user_key u) = Some q ->
  (forall k, k <> user_key u -> store_view s' k = store_view s k) -> stores d s' a.
Proof.
  intros [U P Se N C] Zu Ua V F. split; try done.
  - intros t Ht. rewrite F; [by apply Se | by apply not_eq_sym, keys_differ].
  - intros v w Zv Vw. destruct (decide (v = u)) as [->|Ne]; [congruence|].
    apply C; [done|]. rewrite <- F; [done|]. unfold user_key. by intros X%app_inv_head.
Qed.

(** A session is opened or closed. *)
Lemma stores_session d s s' a t o :
  stores d s a -> o <> Some [] -> store_view s' (session_key t) = o ->
  (forall k, k <> session_key t -> store_view s' k = store_view s k) ->
  stores d s' (set_session t o a).
Proof.
  intros [U P Se N C] No V F. split; simpl; try done.
  - intros t' Ht'. case_decide; [by subst|]. rewrite F, Se; [done..|].
    unfold session_key. by intros X%app_inv_head.
  - intros t' v. case_decide; [by intros ->; intros -> | apply N].
  - intros v q Zv. rewrite F; [by apply C | apply keys_differ].
Qed.

(** The represented state does not depend on the socket side. *)
Lemma represents_same (b b' : Back) a :
  represents b a -> healthy b' -> same_users b b' ->
  (forall k, store_view (b_store b') k = store_view (b_store b) k) -> represents b' a.
Proof. intros [Hh St] Hh' Us V. split; [done|]. by eapply stores_same. Qed.

Lemma represents_expire e (b : Back) a :
  expiry e -> represents b a -> exists a', expired a a' /\ represents (set_store (e (b_store b)) b) a'.
Proof.
  intros He [Hh St]. destruct (He (b_store b) (healthy_store _ Hh)) as [Hs V].
  destruct (stores_expire _ _ _ _ St V) as (a' & X & St'). exists a'. split; [done|].
  split; [by destruct Hh; split | done].
Qed.

(** *** Each task simulates a step *)

Definition simulates (t : db_task) (b : Back) (a : accounts) : Prop :=
  exists b' code body a', run_task t b = (b', DRet tt) /\
    b_world b' = sent (task_fd t) code body (task_keepAlive t) (b_world b) /\
    accounts_step mysql_same a t (code, body) a' /\ represents b' a'.

Lemma register_taken fd ka u p q (b : Back) :
  healthy b -> user_limits u -> password_limits p -> mysql_users (b_db b) u = Some q ->
  exists b', run_task (TaskRegister fd ka u p) b = (b', DRet tt) /\
    answered fd ka 409 (json1 "error" "user already exists") b b' /\ healthy b' /\
    b_store b' = b_store b /\ same_users b b'.
Proof.
  unfold user_limits, password_limits, kMaxUsernameLen, kMaxPasswordLen. intros Hh Hu Hp U.
  destruct (healthy_conn b Hh) as (conn & mq & Hg). destruct Hh as [_ Up Hs Hr].
  destruct (exists_up u (b_db b) Up) as (d1 & rows & Q1 & Up1).
  pose proof (exists_pure u (b_db b)) as Pure. rewrite Q1 in Pure. simpl in Pure.
  destruct rows as [|row rows]; [by apply exists_ok in Q1 as [Q1 _]; rewrite Q1 in U|].
  eexists. split.
  { apply runDbTask_ret. eapply guard_run; [done| |].
    - unfold register_rest.
      erewrite dbind_ret_eq by (apply escape_fits; lia). erewrite dbind_ret_eq by (apply escape_fits; lia).
      unfold dbind. rewrite run_query_exists. cbn [b_db set_mysql]. rewrite Q1. cbn [first_row].
      by rewrite answer_json_run.
    - done. }
  destruct (guard_back _ _ _ Hg) as [B1 B2]. split; [by repeat split|]. split; [|by split].
  split; [simpl; by destruct (mpool_ mq) | done..].
Qed.

Lemma register_simulates fd ka u p (b : Back) a :
  represents b a -> task_plain (TaskRegister fd ka u p) -> simulates (TaskRegister fd ka u p) b a.
Proof.
  intros R ([Lu Lp] & Nu & Zu & Zp & Tu & Tp). pose proof R as [Hh St]. pose proof St as [U P Se N C]. specialize (U u) as Uu.
  destruct (acc_users a u) as [q|] eqn:Ua.
  - destruct (register_taken fd ka u p q b) as (b' & E & A & Hh' & Es & Us); [done..|].
    exists b', 409, (json1 "error" "user already exists"), a. split; [done|]. split; [apply A|].
    split; [by econstructor|]. eapply represents_same; [done..|]. by rewrite Es.
  - destruct (register_healthy draw fd ka u p b) as (b' & E & A & Hh' & Es & Us); [done..|].
    eexists b', 200, _, _. split; [done|]. split; [apply A|]. split; [by apply step_register|].
    split; [done|]. rewrite Es. by eapply stores_add_user.
Qed.

Lemma profile_simulates fd ka t (b : Back) a :
  represents b a -> task_plain (TaskProfile fd ka t) -> simulates (TaskProfile fd ka t) b a.
Proof.
  intros R [_ Zt]. pose proof R as [Hh St]. pose proof St as [U P Se N C].
  destruct (profile_healthy draw fd ka t b Hh) as (b' & E & A & Hh' & V).
  destruct (profile_task_run draw fd ka t b) as (b0 & _ & _ & E0 & _ & _ & Ed & _).
  rewrite E in E0. injection E0 as <-.
  assert (represents b' a) as R'.
  { eapply represents_same; [done | done | by intros v; rewrite Ed | done]. }
  rewrite session_key_plain, Se in A by done. destruct (acc_sessions a t) as [u|] eqn:Sa.
  - pose proof (N _ _ Sa) as Nu. destruct u as [|c u]; [done|].
    eexists b', 200, _, a. split; [done|]. split; [apply A|]. split; [by constructor | done].
  - eexists b', 401, _, a. split; [done|]. split; [apply A|]. split; [by constructor | done].
Qed.

Lemma logout_simulates fd ka t (b : Back) a :
  represents b a -> task_plain (TaskLogout fd ka t) -> simulates (TaskLogout fd ka t) b a.
Proof.
  intros R [_ Zt]. pose proof R as [Hh St]. pose proof St as [U P Se N C]. pose proof Hh as [Hp Up Hs Hr].
  destruct (logout_task_run draw fd ka t b) as (b' & code & body & E & A & Em & Ed & R1 & R2 & Es & Eff).
  destruct (store_del_healthy (session_key t) (b_store b) Hs) as (s' & Eg & Hs' & Vn & Vf).
  rewrite Eg in Es, Eff. cbn [fst snd] in Es, Eff. rewrite session_key_plain in Eff, Vn, Vf by done.
  assert (healthy b') as Hh' by (split; [by rewrite Em | by rewrite Ed | by rewrite Es | by rewrite R1, R2]).
  rewrite Se in Eff by done. destruct (acc_sessions a t) as [u|] eqn:Sa; destruct Eff as [-> ->].
  - eexists b', 200, _, _. split; [done|]. split; [apply A|]. split; [by eapply step_logout|].
    split; [done|]. rewrite Ed, Es. by eapply stores_session.
  - eexists b', 401, _, a. split; [done|]. split; [apply A|]. split; [by constructor|].
    eapply represents_same; [done | done | by intros v; rewrite Ed |]. intros k. rewrite Es.
    destruct (decide (k = session_key t)) as [->|]; [by rewrite Vn, Se | by apply Vf].
Qed.

Context (draw_range : forall g, (fst (draw g) < length charset)%nat).

(** The cache does not show: a login is checked against the user's password. *)
Lemma stored_password_right (b : Back) a u :
  represents b a -> NUL ∉ u -> stored_password b u = acc_users a u.
Proof.
  intros R Zu. pose proof R as [Hh St]. pose proof St as [U P Se N C]. unfold stored_password. rewrite user_key_c_str by done.
  assert (c_str <$> mysql_users (b_db b) u = acc_users a u) as E.
  { rewrite U. destruct (acc_users a u) as [q|] eqn:Ua; [|done]. simpl. by rewrite c_str_no_nul by eauto. }
  destruct (store_view (b_store b) (user_key u)) as [[|c v]|] eqn:V; [done | | done].
  by rewrite (C u (c :: v)).
Qed.

(** Looking the password up fills the cache at most. *)
Lemma represents_looked_up (b b1 : Back) a u :
  represents b a -> NUL ∉ u -> looked_up u (stored_password b u) b b1 -> represents b1 a.
Proof.
  intros R Zu (_ & _ & Us & Hh1 & Vf & Vk). pose proof (stored_password_right b a u R Zu) as Sp.
  rewrite user_key_c_str in Vf, Vk by done. rewrite Sp in Vk. destruct R as [Hh St]. split; [done|].
  eapply (stores_same (b_db b) (b_store b1)); [|done..]. destruct (acc_users a u) as [q|] eqn:Ua.
  - by eapply stores_cached.
  - eapply stores_same; [done..|]. intros k. destruct (decide (k = user_key u)) as [->|]; auto.
Qed.

Lemma login_simulates fd ka u p (b : Back) a :
  represents b a -> task_plain (TaskLogin fd ka u p) -> simulates (TaskLogin fd ka u p) b a.
Proof.
  intros R ([Lu _] & Nu & Zu). pose proof (stored_password_right b a u R Zu) as Sp.
  destruct (login_lookup_healthy draw fd ka u p b (rep_healthy _ _ R) Lu) as (b1 & E & Lk).
  pose proof (represents_looked_up b b1 a u R Zu Lk) as R1. destruct Lk as (W & _). rewrite Sp in E.
  unfold simulates. rewrite E. destruct (acc_users a u) as [q|] eqn:Ua.
  - destruct (login_finish_healthy draw draw_range fd ka u p q b1 (rep_healthy _ _ R1))
      as (b' & code & body & E' & W' & _ & Ed & Hh' & Eff).
    exists b', code, body. rewrite E', W', W. case_bool_decide as Hp.
    + destruct Eff as (t & -> & -> & Sh & V & F). exists (set_session t (Some u) a).
      do 2 (split; [done|]). split; [by subst q; constructor|]. rewrite c_str_no_nul in V by done.
      split; [done|]. rewrite Ed. eapply stores_session; [apply R1 | congruence | done..].
    + destruct Eff as (-> & -> & Es). exists a. do 2 (split; [done|]). split; [by econstructor|].
      eapply represents_same; [exact R1 | done | by intros v; rewrite Ed | by rewrite Es].
  - unfold runDbTask. rewrite answer_json_run, W. eexists _, 401, _, a. do 2 (split; [done|]).
    split; [by constructor|]. eapply represents_same; [exact R1 | by destruct R1 as [[] _]; split | done..].
Qed.

Lemma task_simulates t (b : Back) a : represents b a -> task_plain t -> simulates t b a.
Proof.
  destruct t; [apply register_simulates | apply login_simulates | apply profile_simulates | apply logout_simulates].
Qed.

Lemma serve_tasks_run ops (b : Back) a :
  represents b a -> Forall (fun op => expiry op.1 /\ task_plain op.2) ops ->
  exists b' h a', serve_tasks ops b = (b', DRet tt) /\ fst <$> h = snd <$> ops /\
    accounts_run mysql_same a h a' /\ represents b' a' /\ b_world b' = send_answers h (b_world b).
Proof.
  intros R F. revert b a R. induction F as [|[e t] ops [He Ht] F IH]; intros b a R; simpl in *.
  { exists b, [], a. do 2 (split; [done|]). split; [constructor | done]. }
  destruct (represents_expire e b a He R) as (a0 & X & R0).
  destruct (task_simulates t _ a0 R0 Ht) as (b1 & code & body & a1 & E & W & St & R1).
  destruct (IH b1 a1 R1) as (b' & h & a' & E' & Ts & Run & R' & W').
  exists b', ((t, (code, body)) :: h), a'. rewrite (dbind_ret_eq _ _ _ _ _ E). split; [done|].
  split; [exact (f_equal (cons t) Ts)|]. split; [eapply run_expire; [done|]; by econstructor|].
  split; [done|]. rewrite W', W. done.
Qed.

(** *** A readable event together with its tasks *)

Context `{EpollKernel K} (env : environment) (fs_open : bytes -> Z) (fs_fstat : Z -> option (bool * Z)).

(** The reactor handles the event; the tasks it submitted then run, in order, on
    the database thread. *)
Definition exchange : DB K S D G unit := fun b =>
  match handleMessage env fs_open fs_fstat (b_world b) with
  | (w, Ret _) =>
      let ts := tasks_of (drop (length (w_trace (b_world b))) (w_trace w)) in
      serve_tasks ((fun t => (id, t)) <$> ts) (set_world w b)
  | (w, _) => (set_world w b, DUndefined)
  end.

(** The responses of the database tasks as they go out. *)
Definition reply_items (h : list (db_task * reply)) : list out_item :=
  mjoin ((fun '(t, (code, body)) => json_out code body (task_keepAlive t)) <$> h).

Lemma sent_steady fd code body ka (w : World K) :
  scripts_steady w -> exists es, w_trace (sent fd code body ka w) = w_trace w ++ es /\
    wire es = json_out code body ka /\ scripts_steady (sent fd code body ka w).
Proof.
  intros [F1 F2]. unfold sent, sendJson, sendHttpResponse, bind, gets, modify, emit.
  destruct (write_loop _ _ _) as [[s n] o] eqn:L. eexists. split; [done|].
  pose proof (write_loop_steady _ _ _ _ _ _ F1 L) as [Fs ->].
  apply write_loop_spec in L as (Hn & [Hd _] & _); [|lia]. specialize (Hd eq_refl).
  split; [|by split]. by rewrite wire_sent, Hd, take_ge.
Qed.

Lemma send_answers_steady h (w : World K) :
  scripts_steady w -> exists es, w_trace (send_answers h w) = w_trace w ++ es /\ wire es = reply_items h.
Proof.
  revert w. induction h as [|[t [code body]] h IH]; intros w Hs.
  { exists []. by rewrite app_nil_r. }
  destruct (sent_steady (task_fd t) code body (task_keepAlive t) w Hs) as (es & T & Hw & Hs').
  destruct (IH _ Hs') as (es' & T' & Hw'). exists (es ++ es'). split.
  - change (send_answers ((t, (code, body)) :: h) w)
      with (send_answers h (sent (task_fd t) code body (task_keepAlive t) w)). by rewrite T', T, <- app_assoc.
  - by rewrite wire_app, Hw, Hw'.
Qed.

Lemma expiry_id : expiry id.
Proof. intros s Hs. split; [done|]. by left. Qed.

Lemma represents_world w (b : Back) a : represents b a -> represents (set_world w b) a.
Proof. intros R. eapply represents_same; [done | by destruct R as [[] _]; split | done..]. Qed.

(** ** Properties *)

(** C6: the account service refines its specification. Conditions: the back end is
    in working order and represents an abstract state, and the tasks are plain: no NUL
    byte in a name, in the password of a registration or in a token, no empty
    name, and registered text that the columns accept. (For names with NUL bytes
    it is false, by [nul_name_takes_over].)
    Then every sequence of tasks, one after the other, with
    entries of the store expiring in between, is answered, and the answers on
    the wire are those of a run of the abstract service on the same requests;
    the back end then represents the state this run ends in. *)
Theorem tasks_refine_accounts ops (b : Back) a :
  represents b a -> Forall (fun op => expiry op.1 /\ task_plain op.2) ops ->
  exists b' h a', serve_tasks ops b = (b', DRet tt) /\ fst <$> h = snd <$> ops /\
    accounts_run mysql_same a h a' /\ represents b' a' /\ b_world b' = send_answers h (b_world b).
Proof. apply serve_tasks_run. Qed.

(** Sessions are authentic. Start from a store without sessions. Whenever
    a request for a profile is answered 200, the answer names a user who, earlier
    on, logged in with the password of their account, there from the start or
    registered before that, and got exactly this token; and the token was not
    logged out since. *)
Theorem profile_names_logged_in_user ops (b : Back) a :
  represents b a -> (forall t, acc_sessions a t = None) ->
  Forall (fun op => expiry op.1 /\ task_plain op.2) ops ->
  exists b' h, serve_tasks ops b = (b', DRet tt) /\ fst <$> h = snd <$> ops /\
    b_world b' = send_answers h (b_world b) /\
    forall i fd ka token body, h !! i = Some (TaskProfile fd ka token, (200, body)) ->
    exists u, body = profile_json u /\ logged_in mysql_same a (take i h) token u.
Proof.
  intros R N F. destruct (serve_tasks_run ops b a R F) as (b' & h & a' & E & Ts & Run & _ & W).
  exists b', h. do 3 (split; [done|]). intros i fd ka token body.
  apply (run_profile mysql_same a [] a h a' i fd ka token body); [|done].
  split; [by left | by intros t u; rewrite N].
Qed.

(** A readable event from end to end. On a socket that does not push back,
    with complete requests in the buffer, the wire gets the direct answers of
    the service and then, for the database requests, the answers of a run of the
    abstract account service on them. *)
Theorem exchange_refines (b : Back) a c cs out ts closed rest :
  let w := b_world b in
  represents b a -> w_conn w = Some c -> conn_ok (w_kern w) c -> pending c = [] -> scripts_steady w ->
  delivers (w_reads w) cs -> str_size (c_inputBuffer c ++ mjoin cs) <= LONG_MAX ->
  serve (static_of env fs_open fs_fstat w) (c_fd c) (c_inputBuffer c ++ mjoin cs) = (out, ts, closed, rest) ->
  Forall task_plain ts ->
  exists b' es h a', exchange b = (b', DRet tt) /\ fst <$> h = ts /\
    accounts_run mysql_same a h a' /\ represents b' a' /\
    w_trace (b_world b') = w_trace w ++ es /\ wire es = out ++ reply_items h.
Proof.
  intros w R E Hok Hp Hs Dl Hsz Sv Ft.
  destruct (handleMessage_run env fs_open fs_fstat w c cs E Hok (steady_scripts_benign w Hs) Dl Hsz)
    as (w1 & es & Em & T & _ & _ & P). specialize (P Hs Hp). rewrite Sv in P.
  destruct P as [(Hs1 & Hw & Ht & _) _].
  destruct (serve_tasks_run ((fun t => (id, t)) <$> ts) (set_world w1 b) a) as (b' & h & a' & Er & Th & Run & R' & W').
  { by apply represents_world. }
  { rewrite Forall_fmap. eapply Forall_impl; [exact Ft|]. intros t Pt. by split; [apply expiry_id|]. }
  destruct (send_answers_steady h w1 Hs1) as (es' & T' & Hw').
  exists b', (es ++ es'), h, a'. unfold exchange. fold w. rewrite Em, T, drop_app_length, Ht. split; [done|].
  split; [by rewrite Th, <- list_fmap_compose, list_fmap_id|]. do 2 (split; [done|]).
  rewrite W'. simpl b_world. rewrite T', T, app_assoc, wire_app, Hw, Hw'. done.
Qed.

End Service.

(** ** Witnesses *)

(** The servers of the handlers' witnesses, behind a fresh connection. *)
Definition service_backend (w : World (gmap Z (nat * Z))) :
    Backend (gmap Z (nat * Z)) (gmap bytes bytes * RedisPool) (gmap bytes bytes) nat :=
  let b := demo_backend {[bs "bob" := bs "pw"]} ∅ in
  mkBackend w (b_mysql b) (b_db b) (b_store b) (b_rng b) (b_entropy b).

Definition bob_only : accounts :=
  mkAccounts (fun u => ({[bs "bob" := bs "pw"]} : gmap bytes bytes) !! u) (fun _ => None).

Lemma service_represents w : represents (service_backend w) bob_only.
Proof.
  split; [split; [done | done | by vm_compute | by eexists]|]. split.
  - done.
  - intros u q E. simpl in E. apply lookup_singleton_Some in E as [_ <-]. by_decide.
  - intros t _. apply lookup_empty.
  - done.
  - intros u q _ E. change (@lookup bytes bytes (gmap bytes bytes) _ (user_key u) ∅ = Some q) in E. by rewrite lookup_empty in E.
Qed.

Definition first_token : bytes := bs "fghijklmnopqrstuvwxyz0123456789a".

(** Everything in the store reaches its end of life. *)
Definition expire_all (s : gmap bytes bytes * RedisPool) : gmap bytes bytes * RedisPool := (∅, s.2).

Lemma expire_all_expiry : expiry expire_all.
Proof. intros s Hs. split; [exact Hs|]. intros k. right. apply lookup_empty. Qed.

Definition demo_ops : list ((gmap bytes bytes * RedisPool -> gmap bytes bytes * RedisPool) * db_task) :=
  [(id, TaskRegister 7 true (bs "ann") (bs "secret")); (id, TaskLogin 7 true (bs "ann") (bs "secret"));
   (id, TaskProfile 7 true first_token); (id, TaskLogin 7 true (bs "ann") (bs "guess"));
   (expire_all, TaskProfile 7 true first_token)].

Lemma demo_ops_plain : Forall (fun op => expiry op.1 /\ task_plain (D := gmap bytes bytes) op.2) demo_ops.
Proof.
  repeat constructor; simpl; try first [by apply expiry_id | by apply expire_all_expiry]; try by_decide; try done;
    by vm_compute.
Qed.

Lemma tasks_refine_accounts_witness :
  exists b' h a', serve_tasks count_draw demo_ops (service_backend fresh_world) = (b', DRet tt) /\
    fst <$> h = snd <$> demo_ops /\ accounts_run mysql_same bob_only h a' /\ represents b' a' /\
    b_world b' = send_answers h fresh_world.
Proof.
  apply (tasks_refine_accounts count_draw count_draw_range demo_ops (service_backend fresh_world) bob_only);
    [apply service_represents | apply demo_ops_plain].
Defined.

Lemma profile_names_logged_in_user_witness :
  exists b' h, serve_tasks count_draw demo_ops (service_backend fresh_world) = (b', DRet tt) /\
    fst <$> h = snd <$> demo_ops /\ b_world b' = send_answers h fresh_world /\
    forall i fd ka token body, h !! i = Some (TaskProfile fd ka token, (200, body)) ->
    exists u, body = profile_json u /\ logged_in mysql_same bob_only (take i h) token u.
Proof.
  apply (profile_names_logged_in_user count_draw count_draw_range demo_ops (service_backend fresh_world) bob_only);
    [apply service_represents | done | apply demo_ops_plain].
Defined.

(** Two requests in one read: a page and a login. *)
Definition page_and_login : bytes :=
  wire_request hello_request ++
  message [bs "POST /login HTTP/1.1"; bs "Content-Length: 34"] (credentials_body (bs "bob") (bs "pw")).

Definition page_out : list out_item :=
  OByte <$> buildHttpResponse 200 (bs "text/html") (getResponse (bs "/hello")) true.

Lemma exchange_refines_witness :
  exists b' es h a',
    exchange count_draw no_env no_file no_stat (service_backend (arriving page_and_login)) = (b', DRet tt) /\
    fst <$> h = [TaskLogin 7 true (bs "bob") (bs "pw")] /\
    accounts_run mysql_same bob_only h a' /\ represents b' a' /\
    w_trace (b_world b') = w_trace (arriving page_and_login) ++ es /\ wire es = page_out ++ reply_items h.
Proof.
  apply (exchange_refines count_draw count_draw_range no_env no_file no_stat
           (service_backend (arriving page_and_login)) bob_only fresh_conn [page_and_login]
           page_out [TaskLogin 7 true (bs "bob") (bs "pw")] false []).
  - apply service_represents.
  - reflexivity.
  - apply fresh_ok.
  - reflexivity.
  - by split.
  - apply delivers_one; [done | vm_compute; lia].
  - by vm_compute.
  - vm_compute. reflexivity.
  - repeat constructor; by_decide.
Defined.

(** The answers of the tasks above, evaluated. *)
Example demo_ops_answers :
  let b' := fst (serve_tasks count_draw demo_ops (service_backend fresh_world)) in
  w_trace (b_world b') = w_trace fresh_world ++
    [Sent 7 (buildHttpResponse 200 (bs "application/json") (json1 "message" "register success") true);
     Sent 7 (buildHttpResponse 200 (bs "application/json") (login_json first_token) true);
     Sent 7 (buildHttpResponse 200 (bs "application/json") (profile_json (bs "ann")) true);
     Sent 7 (buildHttpResponse 401 (bs "application/json") (json1 "error" "wrong password") true);
     Sent 7 (buildHttpResponse 401 (bs "application/json") (json1 "error" "invalid or expired token") true)].
Proof. vm_compute. reflexivity. Qed.
