(* ===== verification/NoRedis.v ===== *)
(** * The build without Redis (src/Connection.cpp without [USE_REDIS])

    What the preprocessor leaves of the login task when [USE_REDIS] is not defined,
    and the other branch of [handleProfile] and [handleLogout]. Login then is the
    login of the other build on a healthy store that has nothing cached, but for
    what it stores; the session it announces is nowhere. *)

From S2P Require Import Prelude CppString Config Http Json Channel Framing Connection WritePath ReadPath.
From S2P Require Import Interfaces Mysql Redis Handlers Accounts.

(** ** Operations *)

Section NoRedis.
Context {K S D G : Type} `{SessionStore S} `{MysqlServer D}.
Context (draw : G -> nat * G).
Notation DBM := (DB K S D G).
Notation Back := (Backend K S D G).
Local Open Scope db_scope.

Definition login_rest_plain (fd : Z) (keepAlive : bool) (username : bytes) : DBM (option (option bytes)) :=
  esc_user <- escape_into 129 username ;;
  r <- run_query (sql_password esc_user) ;;
  match r with
  | QueryError => answer_json fd 500 (json1 "error" "database error") keepAlive ;; dret None
  | QueryOk res =>
      match first_row res with
      | Some row => dret (Some (Some (c_str row)))
      | None => dret (Some None)
      end
  end.

Definition login_query_plain (fd : Z) (keepAlive : bool) (username : bytes) : DBM (option (option bytes)) :=
  with_MysqlGuard (fun conn =>
    match conn with
    | None => answer_json fd 503 (json1 "error" "service unavailable") keepAlive ;; dret None
    | Some _ => login_rest_plain fd keepAlive username
    end).

Definition login_finish_plain (fd : Z) (keepAlive : bool) (password dbPassword : bytes) : DBM unit :=
  if bool_decide (password <> dbPassword)
  then answer_json fd 401 (json1 "error" "wrong password") keepAlive
  else token <- generateToken draw ;; answer_json fd 200 (login_json token) keepAlive.

Definition login_plain (fd : Z) (keepAlive : bool) (username password : bytes) : DBM unit :=
  lookup <- login_query_plain fd keepAlive username ;;
  match lookup with
  | None => dret tt
  | Some None => answer_json fd 401 (json1 "error" "user not found") keepAlive
  | Some (Some dbPassword) => login_finish_plain fd keepAlive password dbPassword
  end.

(** [handleProfile] and [handleLogout]: no task, no store. *)
Definition handleProfile_off (request : bytes) (fd : Z) (keepAlive : bool) : M K unit :=
  if bool_decide (parseBearerToken request = []) then sendJson fd 401 (json1 "error" "missing token") keepAlive
  else sendJson fd 503 (json1 "error" "session store disabled") keepAlive.

Definition handleLogout_off (request : bytes) (fd : Z) (keepAlive : bool) : M K unit :=
  if bool_decide (parseBearerToken request = []) then sendJson fd 401 (json1 "error" "missing token") keepAlive
  else sendJson fd 503 (json1 "error" "session store disabled") keepAlive.

(** ** Agreement of the two builds *)

(** The back ends differ in the store at most, which is healthy on the left. *)
Definition like (b b' : Back) : Prop := b = set_store (b_store b) b' /\ store_healthy (b_store b).

(** Programs that do the same to like back ends. *)
Definition agree {A} (m m' : DBM A) : Prop :=
  forall b b', like b b' -> (m b).2 = (m' b').2 /\ like (m b).1 (m' b').1.

Lemma agree_bind {A B} (m m' : DBM A) (f f' : A -> DBM B) :
  agree m m' -> (forall a, agree (f a) (f' a)) -> agree (dbind m f) (dbind m' f').
Proof.
  intros Am Af b b' L. unfold dbind. destruct (Am b b' L) as [E L1].
  destruct (m b) as [b1 r], (m' b') as [b1' r']. simpl in E, L1. subst r'.
  destruct r as [a| |]; [by apply Af | by split..].
Qed.

(** What does not look at the store. *)
Lemma agree_blind {A} (m : DBM A) :
  (forall s b, m (set_store s b) = (set_store s (m b).1, (m b).2)) -> agree m m.
Proof.
  intros Bl b b' [-> Hs]. rewrite Bl. simpl. by split.
Qed.

Lemma agree_ret {A} (a : A) : agree (dret a) (dret a).
Proof. by apply agree_blind. Qed.

Lemma agree_json fd code body ka : agree (answer_json fd code body ka) (answer_json fd code body ka).
Proof. apply agree_blind. intros s b. by rewrite !answer_json_run. Qed.

Lemma agree_escape cap x : agree (escape_into cap x) (escape_into cap x).
Proof. unfold escape_into. destruct (_ <=? _); by apply agree_blind. Qed.

Lemma agree_query q : agree (run_query q) (run_query q).
Proof. apply agree_blind. intros s b. unfold run_query. simpl. by destruct (mysql_query _ _). Qed.

Lemma agree_token : agree (generateToken draw) (generateToken draw).
Proof.
  apply agree_blind. intros s b. unfold generateToken. cbn [b_rng b_entropy set_store].
  destruct (match b_rng b with Some g => Some g | None => b_entropy b end) as [g|]; [|done].
  by destruct (token_loop draw (Z.to_nat kTokenLen) g []).
Qed.

Lemma agree_guard {A} (f f' : option nat -> DBM A) :
  (forall c, agree (f c) (f' c)) -> agree (with_MysqlGuard f) (with_MysqlGuard f').
Proof.
  intros Af b b' [E Hs]. unfold with_MysqlGuard. assert (b_mysql b = b_mysql b') as -> by (by rewrite E).
  destruct (mysql_getConn _) as [c q].
  destruct (Af c (set_mysql q b) (set_mysql q b')) as [Er [Eb Hs']]; [split; [by rewrite E | done]|].
  destruct (f c _) as [b1 r], (f' c _) as [b1' r']. simpl in *. subst r'. split; [done|].
  assert (b_mysql b1 = b_mysql b1') as Em by (by rewrite Eb). split; [|by destruct c].
  rewrite Em. simpl. by rewrite Eb at 1.
Qed.

Lemma agree_catch fd ka (m m' : DBM unit) : agree m m' -> agree (runDbTask fd ka m) (runDbTask fd ka m').
Proof.
  intros Am b b' L. unfold runDbTask. destruct (Am b b' L) as [E L1].
  destruct (m b) as [b1 r], (m' b') as [b1' r']. simpl in E, L1. subst r'. destruct r; [by split| |by split].
  by apply agree_json.
Qed.

(** A write to the store, on the left. *)
Lemma agree_setex {A} k ttl v (f : bool -> DBM A) (m' : DBM A) :
  0 < ttl -> agree (f true) m' -> agree (dbind (on_store (store_setex k ttl v)) f) m'.
Proof.
  intros Ht Af b b' [E Hs]. destruct (store_setex_healthy k ttl v _ Hs Ht) as (s & Ex & Hs').
  unfold dbind, on_store. rewrite Ex. apply Af. split; [by rewrite E | done].
Qed.

Hint Resolve agree_ret agree_json agree_escape agree_query agree_token : core.

Lemma agree_query_login fd ka u : agree (login_query fd ka u) (login_query_plain fd ka u).
Proof.
  apply agree_guard. intros [c|]; [|by apply agree_bind].
  apply agree_bind; [done|]. intros e. apply agree_bind; [done|]. intros [|res]; [by apply agree_bind|].
  destruct (first_row res); [|done]. by apply agree_setex.
Qed.

Lemma agree_finish_login fd ka u p q : agree (login_finish draw fd ka u p q) (login_finish_plain fd ka p q).
Proof.
  unfold login_finish, login_finish_plain. case_bool_decide; [done|].
  apply agree_bind; [done|]. intros token. apply agree_setex; [done | apply agree_json].
Qed.

(** C28: login without Redis is login with a healthy, empty cache. Compiled
    without [USE_REDIS], the login task ends the same way, sends the same bytes
    and leaves the table, the connection pool and the generator in the same state
    as the task of the Redis build does on a healthy store that has nothing cached
    for the user; the two back ends differ in the store at most. *)
Theorem login_without_redis fd ka u p (b : Back) :
  store_healthy (b_store b) -> store_view (b_store b) (c_str (user_key u)) = None ->
  let '(b1, r1) := runDbTask fd ka (login_task draw fd ka u p) b in
  let '(b2, r2) := runDbTask fd ka (login_plain fd ka u p) b in
  r1 = r2 /\ b1 = set_store (b_store b1) b2.
Proof.
  intros Hs Hv. assert (like b b) as L by (split; [by destruct b | done]).
  destruct (store_get_healthy (user_key u) _ Hs) as (s & Eg & Hs1 & _). rewrite Hv in Eg.
  set (rest := fun lookup : option (option bytes) => match lookup with
    | None => dret tt
    | Some None => answer_json fd 401 (json1 "error" "user not found") ka
    | Some (Some dbPassword) => login_finish draw fd ka u p dbPassword
    end : DBM unit).
  assert (runDbTask fd ka (login_task draw fd ka u p) b =
          runDbTask fd ka (dbind (login_query fd ka u) rest) (set_store s b)) as ->.
  { unfold runDbTask, login_task. unfold dbind at 1, on_store. by rewrite Eg. }
  assert (agree (runDbTask fd ka (dbind (login_query fd ka u) rest)) (runDbTask fd ka (login_plain fd ka u p))) as Ag.
  { apply agree_catch, agree_bind; [apply agree_query_login|]. intros [[q|]|]; [apply agree_finish_login | apply agree_json | apply agree_ret]. }
  destruct (Ag (set_store s b) b) as [Er [Eb _]]; [by split|].
  destruct (runDbTask _ _ _ _) as [b1 r1], (runDbTask _ _ _ b) as [b2 r2]. by split.
Qed.

End NoRedis.

(** ** Witnesses *)

Lemma login_without_redis_witness :
  let b := service_backend fresh_world in
  let '(b1, r1) := runDbTask 7 true (login_task count_draw 7 true (bs "bob") (bs "pw")) b in
  let '(b2, r2) := runDbTask 7 true (login_plain count_draw 7 true (bs "bob") (bs "pw")) b in
  r1 = r2 /\ b1 = set_store (b_store b1) b2.
Proof. apply login_without_redis; by vm_compute. Defined.

(** Without Redis a login succeeds, and the token it hands out is of no use. *)
Example token_of_no_use :
  b_world (runDbTask 7 true (login_plain count_draw 7 true (bs "bob") (bs "pw")) (service_backend fresh_world)).1 =
    sent 7 200 (login_json first_token) true fresh_world /\
  handleProfile_off (message [bs "GET /profile HTTP/1.1"; bs "Authorization: Bearer " ++ first_token] []) 7 true fresh_world =
    sendJson 7 503 (json1 "error" "session store disabled") true fresh_world.
Proof. by split; vm_compute. Qed.
