(* ===== verification/Interleaved.v ===== *)
(** * Database tasks that interleave (src/Connection.cpp on several threads)

    The pool has [kDbThreads] threads, so the tasks of [Handlers] run side by side
    on one MySQL pool, one table and one session store. Here a task is a program
    of atomic calls (a pool operation, a statement, a store operation, a token),
    each on the shared back end, with answers in between; run alone it is the
    task of [Handlers], call by call. The theorems are about every interleaving
    of any tasks: each is answered once after a bounded number of steps, the
    connections go back to the pool, and a name is registered by one task at
    most. *)

From S2P Require Import Prelude CppString Config Http Json Channel Framing Connection.
From S2P Require Import Interfaces Mysql Redis Handlers.

Declare Scope prog_scope.
Delimit Scope prog_scope with prog.

Section Programs.
Context {K S D G : Type} `{SessionStore S} `{MysqlServer D}.
Context (draw : G -> nat * G).
Notation Back := (Backend K S D G).

(** ** Programs *)

(** A program ends, makes a call on the shared back end and goes on with its
    result, or sends an answer. *)
Inductive prog (A : Type) : Type :=
| End_ (r : dres A)
| Call {X : Type} (f : Back -> Back * X) (k : X -> prog A)
| Answer (fd code : Z) (body : bytes) (keepAlive : bool) (k : prog A).
Arguments End_ {A} r. Arguments Call {A X} f k. Arguments Answer {A} fd code body keepAlive k.

Fixpoint pseq {A B} (m : prog A) (f : A -> prog B) : prog B :=
  match m with
  | End_ (DRet a) => f a
  | End_ DThrow => End_ DThrow
  | End_ DUndefined => End_ DUndefined
  | Call g k => Call g (fun x => pseq (k x) f)
  | Answer fd code body ka k => Answer fd code body ka (pseq k f)
  end.

Local Notation "x <- m ;; k" := (pseq m (fun x => k)) (at level 100, m at next level, right associativity).
Local Notation "m ;; k" := (pseq m (fun _ => k)) (at level 100, right associativity).

Definition atomic {X} (f : Back -> Back * X) : prog X := Call f (fun x => End_ (DRet x)).
Definition say (fd code : Z) (body : bytes) (ka : bool) : prog unit := Answer fd code body ka (End_ (DRet tt)).

(** A handler for exceptions, and code that runs on every way out. *)
Fixpoint catch {A} (m : prog A) (h : prog A) : prog A :=
  match m with
  | End_ DThrow => h
  | End_ r => End_ r
  | Call g k => Call g (fun x => catch (k x) h)
  | Answer fd code body ka k => Answer fd code body ka (catch k h)
  end.

Fixpoint finally {A} (m : prog A) (f : Back -> Back) : prog A :=
  match m with
  | End_ r => Call (fun b => (f b, tt)) (fun _ => End_ r)
  | Call g k => Call g (fun x => finally (k x) f)
  | Answer fd code body ka k => Answer fd code body ka (finally k f)
  end.

(** Alone on the back end. *)
Fixpoint exec {A} (m : prog A) (b : Back) : Back * dres A :=
  match m with
  | End_ r => (b, r)
  | Call f k => let '(b', x) := f b in exec (k x) b'
  | Answer fd code body ka k => exec k (set_world (sent fd code body ka (b_world b)) b)
  end.

(** ** The tasks *)

Definition escape_prog (cap : Z) (s : bytes) : prog bytes :=
  let e := mysql_real_escape_string s in
  if str_size e + 1 <=? cap then End_ (DRet (c_str e)) else End_ DUndefined.

Definition query_prog (q : bytes) : prog query_ret :=
  atomic (fun b => let '(d, r) := mysql_query (c_str q) (b_db b) in (set_db d b, r)).

Definition store_prog {A} (op : S -> S * A) : prog A :=
  atomic (fun b => let '(s, a) := op (b_store b) in (set_store s b, a)).

Definition token_prog : prog bytes :=
  Call (fun b => match generateToken draw b with
                 | (b', DRet t) => (b', Some t)
                 | (b', _) => (b', None)
                 end)
       (fun t => match t with Some t => End_ (DRet t) | None => End_ DThrow end).

Definition guard_prog {A} (body : option nat -> prog A) : prog A :=
  Call (fun b => let '(conn, p) := mysql_getConn (b_mysql b) in (set_mysql p b, conn))
       (fun conn => match conn with
                    | Some _ => finally (body conn) (fun b => set_mysql (mysql_releaseConn conn (b_mysql b)) b)
                    | None => body None
                    end).

Definition register_prog (fd : Z) (ka : bool) (u p : bytes) : prog unit :=
  guard_prog (fun conn =>
    match conn with
    | None => say fd 503 (json1 "error" "service unavailable") ka
    | Some _ =>
        esc_user <- escape_prog 129 u ;;
        esc_pass <- escape_prog 257 p ;;
        r <- query_prog (sql_exists esc_user) ;;
        match r with
        | QueryError => say fd 500 (json1 "error" "database error") ka
        | QueryOk res =>
            match first_row res with
            | Some _ => say fd 409 (json1 "error" "user already exists") ka
            | None =>
                r <- query_prog (sql_insert esc_user esc_pass) ;;
                match r with
                | QueryError => say fd 500 (json1 "error" "database error") ka
                | QueryOk _ => say fd 200 (json1 "message" "register success") ka
                end
            end
        end
    end).

Definition login_query_prog (fd : Z) (ka : bool) (u : bytes) : prog (option (option bytes)) :=
  guard_prog (fun conn =>
    match conn with
    | None => say fd 503 (json1 "error" "service unavailable") ka ;; End_ (DRet None)
    | Some _ =>
        esc_user <- escape_prog 129 u ;;
        r <- query_prog (sql_password esc_user) ;;
        match r with
        | QueryError => say fd 500 (json1 "error" "database error") ka ;; End_ (DRet None)
        | QueryOk res =>
            match first_row res with
            | Some row =>
                _ <- store_prog (store_setex (user_key u) kUserCacheTtlSec (c_str row)) ;;
                End_ (DRet (Some (Some (c_str row))))
            | None => End_ (DRet (Some None))
            end
        end
    end).

Definition login_finish_prog (fd : Z) (ka : bool) (u p dbPassword : bytes) : prog unit :=
  if bool_decide (p <> dbPassword) then say fd 401 (json1 "error" "wrong password") ka
  else
    token <- token_prog ;;
    ok <- store_prog (store_setex (session_key token) kSessionTtlSec u) ;;
    if negb ok then say fd 503 (json1 "error" "service unavailable") ka
    else say fd 200 (login_json token) ka.

Definition login_prog (fd : Z) (ka : bool) (u p : bytes) : prog unit :=
  cached <- store_prog (store_get (user_key u)) ;;
  lookup <- (if bool_decide (cached.2 = Ok) && negb (bool_decide (cached.1 = []))
             then End_ (DRet (Some (Some cached.1)))
             else login_query_prog fd ka u) ;;
  match lookup with
  | None => End_ (DRet tt)
  | Some None => say fd 401 (json1 "error" "user not found") ka
  | Some (Some dbPassword) => login_finish_prog fd ka u p dbPassword
  end.

Definition profile_prog (fd : Z) (ka : bool) (token : bytes) : prog unit :=
  r <- store_prog (store_get (session_key token)) ;;
  let '(username, st) := r in
  if bool_decide (st = Error) then say fd 503 (json1 "error" "service unavailable") ka
  else if bool_decide (st = NotFound) || bool_decide (username = [])
  then say fd 401 (json1 "error" "invalid or expired token") ka
  else say fd 200 (profile_json username) ka.

Definition logout_prog (fd : Z) (ka : bool) (token : bytes) : prog unit :=
  st <- store_prog (store_del (session_key token)) ;;
  if bool_decide (st = Error) then say fd 503 (json1 "error" "service unavailable") ka
  else if bool_decide (st = NotFound) then say fd 401 (json1 "error" "invalid or expired token") ka
  else say fd 200 (json1 "message" "logout success") ka.

Definition task_prog (t : db_task) : prog unit :=
  let guarded fd ka m := catch m (say fd 500 (json1 "error" "internal error") ka) in
  match t with
  | TaskRegister fd ka u p => guarded fd ka (register_prog fd ka u p)
  | TaskLogin fd ka u p => guarded fd ka (login_prog fd ka u p)
  | TaskProfile fd ka token => guarded fd ka (profile_prog fd ka token)
  | TaskLogout fd ka token => guarded fd ka (logout_prog fd ka token)
  end.

(** ** Alone, a program is the task *)

Lemma exec_pseq {A B} (m : prog A) (f : A -> prog B) b :
  exec (pseq m f) b = dbind (exec m) (fun a => exec (f a)) b.
Proof.
  revert b. induction m as [[a| |]|X g k IH|fd code body ka k IH]; intros b; unfold dbind in *; simpl; try done.
  destruct (g b) as [b' x]. apply IH.
Qed.

Lemma exec_catch (m : prog unit) fd code body ka b :
  exec (catch m (say fd code body ka)) b =
  match exec m b with (b', DThrow) => answer_json fd code body ka b' | r => r end.
Proof.
  revert b. induction m as [[a| |]|X g k IH|fd' code' body' ka' k IH]; intros b; simpl; try done.
  - by rewrite answer_json_run.
  - destruct (g b) as [b' x]. apply IH.
Qed.

Lemma exec_finally {A} (m : prog A) f b :
  exec (finally m f) b = let '(b', r) := exec m b in (f b', r).
Proof.
  revert b. induction m as [r|X g k IH|fd' code' body' ka' k IH]; intros b; simpl; try done.
  destruct (g b) as [b' x]. apply IH.
Qed.

Lemma exec_guard {A} (prog_body : option nat -> prog A) (body : option nat -> DB K S D G A) b :
  (forall c b, exec (prog_body c) b = body c b) -> exec (guard_prog prog_body) b = with_MysqlGuard body b.
Proof.
  intros E. unfold guard_prog, with_MysqlGuard. cbn [exec].
  destruct (mysql_getConn (b_mysql b)) as [[c|] p]; cbv iota.
  - rewrite exec_finally, E. by destruct (body _ _).
  - rewrite E. destruct (body _ _) as [b' r]. by destruct b'.
Qed.

Lemma exec_query q b : exec (query_prog q) b = run_query q b.
Proof. unfold run_query. simpl. by destruct (mysql_query _ _). Qed.

Lemma exec_store {A} (op : S -> S * A) b : exec (store_prog op) b = on_store op b.
Proof. unfold on_store. simpl. by destruct (op _). Qed.

Lemma exec_escape cap s b : exec (escape_prog cap s) b = escape_into cap s b.
Proof. unfold escape_prog, escape_into. by destruct (_ <=? _). Qed.

Lemma exec_say fd code body ka b : exec (say fd code body ka) b = answer_json fd code body ka b.
Proof. by rewrite answer_json_run. Qed.

Lemma exec_token b : exec token_prog b = generateToken draw b.
Proof.
  unfold token_prog, generateToken. cbn [exec].
  destruct (match b_rng b with Some g => Some g | None => b_entropy b end) as [g|]; [|done].
  by destruct (token_loop draw (Z.to_nat kTokenLen) g []).
Qed.

Lemma dbind_ext {A B} (m m' : DB K S D G A) (f f' : A -> DB K S D G B) b :
  m b = m' b -> (forall a b, f a b = f' a b) -> dbind m f b = dbind m' f' b.
Proof. intros E F. unfold dbind. rewrite E. destruct (m' b) as [b' [a| |]]; [apply F | done..]. Qed.

(** Go through two sequences side by side. *)
Ltac side_by_side :=
  repeat first
    [ reflexivity
    | rewrite exec_pseq
    | rewrite exec_query | rewrite exec_store | rewrite exec_escape | rewrite exec_say | rewrite exec_token
    | apply dbind_ext; intros
    | apply exec_guard; intros
    | progress cbv beta
    | match goal with |- context [match ?x with _ => _ end] => destruct x end ].

Lemma exec_register fd ka u p b : exec (register_prog fd ka u p) b = register_task fd ka u p b.
Proof. unfold register_prog, register_task, register_rest. side_by_side. Qed.

Lemma exec_login fd ka u p b : exec (login_prog fd ka u p) b = login_task draw fd ka u p b.
Proof.
  unfold login_prog, login_task, login_query_prog, login_query, login_rest, login_finish_prog, login_finish.
  side_by_side.
Qed.

Lemma exec_profile fd ka t b : exec (profile_prog fd ka t) b = profile_task fd ka t b.
Proof. unfold profile_prog, profile_task. side_by_side. Qed.

Lemma exec_logout fd ka t b : exec (logout_prog fd ka t) b = logout_task fd ka t b.
Proof. unfold logout_prog, logout_task. side_by_side. Qed.

Lemma exec_task t b : exec (task_prog t) b = run_task draw t b.
Proof.
  unfold task_prog, run_task, runDbTask. cbv zeta. destruct t; rewrite exec_catch;
    rewrite ?exec_register, ?exec_login, ?exec_profile, ?exec_logout; done.
Qed.

(** ** Threads *)

(** A thread has its program and its own generator. The steps taken (which
    thread, the back end before and after) and the answers given are kept as
    history. *)
Record thread : Type := mkThread { th_prog : prog unit; th_rng : option G }.

Record config : Type := mkConfig {
  cf_back : Back;
  cf_threads : list thread;
  cf_steps : list (nat * Back * Back);
  cf_answers : list (nat * reply)
}.

(** Thread [i] takes its next step. *)
Definition tstep (i : nat) (c : config) : option config :=
  t ← cf_threads c !! i;
  let b := set_rng (th_rng t) (cf_back c) in
  match th_prog t with
  | End_ _ => None
  | Call f k =>
      let '(b', x) := f b in
      Some (mkConfig b' (<[i := mkThread (k x) (b_rng b')]> (cf_threads c))
              (cf_steps c ++ [(i, b, b')]) (cf_answers c))
  | Answer fd code body ka k =>
      Some (mkConfig (set_world (sent fd code body ka (b_world b)) b)
              (<[i := mkThread k (th_rng t)]> (cf_threads c))
              (cf_steps c) (cf_answers c ++ [(i, (code, body))]))
  end.

Fixpoint crun (sched : list nat) (c : config) : option config :=
  match sched with
  | [] => Some c
  | i :: sched => match tstep i c with Some c' => crun sched c' | None => None end
  end.

(** One thread per task, each with its generator or none yet. *)
Definition start (ts : list (db_task * option G)) (b : Back) : config :=
  mkConfig b ((fun t => mkThread (task_prog t.1) t.2) <$> ts) [] [].

Lemma crun_ind (I : config -> Prop) sched c c' :
  (forall i c c', I c -> tstep i c = Some c' -> I c') -> I c -> crun sched c = Some c' -> I c'.
Proof.
  intros St. revert c. induction sched as [|i sched IH]; intros c Ic; simpl; [by intros [= <-]|].
  destruct (tstep i c) eqn:E; [|done]. apply IH. by eapply St.
Qed.

(** Threads that have all come to their end take no step. *)
Definition ended (t : thread) : bool := match th_prog t with End_ _ => true | _ => false end.

Lemma ended_rest c : forallb ended (cf_threads c) = true -> forall i, tstep i c = None.
Proof.
  rewrite forallb_forall. intros E i. unfold tstep. destruct (cf_threads c !! i) as [t|] eqn:T; [|done].
  simpl. apply list_elem_of_lookup_2, list_elem_of_In, E in T. unfold ended in T. by destruct (th_prog t).
Qed.

(** *** One answer each *)

(** At most [n] steps are left, and no answer is among them; or exactly one. *)
Fixpoint quiet (m : prog unit) (n : nat) : Prop :=
  match m with
  | End_ r => r = DRet tt
  | Call f k => match n with O => False | Datatypes.S n => forall x, quiet (k x) n end
  | Answer _ _ _ _ _ => False
  end.

Fixpoint once (m : prog unit) (n : nat) : Prop :=
  match m with
  | End_ _ => False
  | Call f k => match n with O => False | Datatypes.S n => forall x, once (k x) n end
  | Answer _ _ _ _ k => match n with O => False | Datatypes.S n => quiet k n end
  end.

Lemma escape_prog_fits cap s :
  2 * str_size s + 1 <= cap -> escape_prog cap s = End_ (DRet (mysql_real_escape_string s)).
Proof.
  intros L. unfold escape_prog. pose proof (escape_length s). unfold str_size in *.
  destruct (_ <=? _) eqn:E; [|bool_lia]. by rewrite c_str_no_nul by apply escape_no_nul.
Qed.

(** Follow a program through the results its calls can have. *)
Ltac follow :=
  repeat first
    [ done
    | progress intros
    | progress simpl
    | match goal with
      | |- context [match ?x with _ => _ end] => destruct x
      end ].

Lemma once_task t : task_limits t -> once (task_prog t) 8.
Proof.
  destruct t as [fd ka u p|fd ka u p|fd ka tk|fd ka tk]; simpl task_limits;
    unfold user_limits, password_limits, kMaxUsernameLen, kMaxPasswordLen; intros L; unfold task_prog; cbv zeta.
  - unfold register_prog. cbn [catch guard_prog]. intros [c|]; [|done].
    rewrite !escape_prog_fits by lia. follow.
  - unfold login_prog, login_query_prog, login_finish_prog. rewrite escape_prog_fits by lia. follow.
  - unfold profile_prog. follow.
  - unfold logout_prog. follow.
Qed.

Definition answers_of (i : nat) (c : config) : list (nat * reply) := filter (fun a => a.1 = i) (cf_answers c).

(** Thread by thread, with the steps each has left. *)
Definition paced (c : config) (ns : list nat) : Prop :=
  length ns = length (cf_threads c) /\
  forall i t n, cf_threads c !! i = Some t -> ns !! i = Some n ->
    answers_of i c = [] /\ once (th_prog t) n \/ length (answers_of i c) = 1%nat /\ quiet (th_prog t) n.

Lemma answers_snoc i j r l :
  filter (fun a : nat * reply => a.1 = j) (l ++ [(i, r)]) =
  filter (fun a : nat * reply => a.1 = j) l ++ if decide (i = j) then [(i, r)] else [].
Proof. by rewrite filter_app. Qed.

Lemma tstep_paced i c c' ns :
  paced c ns -> tstep i c = Some c' -> exists ns', paced c' ns' /\ Datatypes.S (sum_list ns') = sum_list ns.
Proof.
  intros [Ln P] E. unfold tstep in E. destruct (cf_threads c !! i) as [t|] eqn:T; [|done]. simpl in E.
  assert (exists n, ns !! i = Some n) as [n N].
  { apply lookup_lt_is_Some_2. rewrite Ln. by eapply lookup_lt_Some. }
  pose proof (P i t n T N) as Pi.
  assert (forall n', sum_list (<[i:=n']> ns) + n = sum_list ns + n')%nat as Sum.
  { intros n'. apply list_elem_of_split_length in N as (l1 & l2 & -> & ->).
    rewrite insert_app_r_alt, Nat.sub_diag by lia. simpl. rewrite !sum_list_with_app. simpl. lia. }
  destruct (th_prog t) as [r|X f k|fd code body ka k] eqn:Pr; [done| |].
  - destruct (f (set_rng (th_rng t) (cf_back c))) as [b' x]. injection E as <-.
    destruct n as [|n]; [by destruct Pi as [[_ []]|[_ []]]|].
    exists (<[i:=n]> ns). split; [|pose proof (Sum n); lia]. split; [simpl; by rewrite !length_insert|].
    intros j t' m T' N'. cbn [cf_threads cf_answers] in T', N' |- *. unfold answers_of. cbn [cf_answers].
    destruct (decide (i = j)) as [<-|Dj].
    + rewrite list_lookup_insert_eq in T' by (eapply lookup_lt_Some; done).
      rewrite list_lookup_insert_eq in N' by (eapply lookup_lt_Some; done). simplify_eq. simpl.
      destruct Pi as [[? O]|[? O]]; [left | right]; (split; [done | apply O]).
    + rewrite list_lookup_insert_ne in T' by done. rewrite list_lookup_insert_ne in N' by done. by apply P.
  - injection E as <-. destruct n as [|n]; [by destruct Pi as [[_ []]|[_ []]]|].
    destruct Pi as [[A O]|[_ []]].
    exists (<[i:=n]> ns). split; [|pose proof (Sum n); lia]. split; [simpl; by rewrite !length_insert|].
    intros j t' m T' N'. cbn [cf_threads] in T'. unfold answers_of in *. cbn [cf_answers].
    rewrite answers_snoc. destruct (decide (i = j)) as [<-|Dj].
    + rewrite list_lookup_insert_eq in T' by (eapply lookup_lt_Some; done).
      rewrite list_lookup_insert_eq in N' by (eapply lookup_lt_Some; done). simplify_eq. simpl.
      right. by rewrite A.
    + rewrite list_lookup_insert_ne in T' by done. rewrite list_lookup_insert_ne in N' by done. rewrite app_nil_r. by apply P.
Qed.

Lemma crun_paced sched c c' ns :
  paced c ns -> crun sched c = Some c' ->
  exists ns', paced c' ns' /\ (length sched + sum_list ns' = sum_list ns)%nat.
Proof.
  revert c ns. induction sched as [|i sched IH]; intros c ns P; simpl; [intros [= <-]; by exists ns|].
  destruct (tstep i c) as [c1|] eqn:E; [|done]. intros R.
  destruct (tstep_paced _ _ _ _ P E) as (ns1 & P1 & S1). destruct (IH _ _ P1 R) as (ns2 & P2 & S2).
  exists ns2. split; [done | lia].
Qed.

Lemma start_paced ts b :
  Forall (fun t => task_limits t.1) ts -> paced (start ts b) (replicate (length ts) 8%nat).
Proof.
  intros F. split; [simpl; by rewrite length_replicate, length_fmap|]. intros i t n T N.
  simpl in T. apply list_lookup_fmap_Some in T as (tt & -> & T).
  apply lookup_replicate in N as [-> _]. left. split; [done|]. simpl. apply once_task.
  by rewrite Forall_lookup in F; apply (F i).
Qed.

(** *** Connections *)

(** The program gives back the connection [o] it holds, and every one it takes. *)
Fixpoint leases {A} (m : prog A) (o : option nat) : Prop :=
  match m with
  | End_ _ => o = None
  | Call f k => forall b, let '(b', x) := f b in exists o', leases (k x) o' /\
      mpool_ (b_mysql b') ++ option_list o' ≡ₚ mpool_ (b_mysql b) ++ option_list o
  | Answer _ _ _ _ k => leases k o
  end.

(** It does not touch the pool at all. *)
Fixpoint pool_free {A} (m : prog A) : Prop :=
  match m with
  | End_ _ => True
  | Call f k => (forall b, b_mysql (f b).1 = b_mysql b) /\ forall x, pool_free (k x)
  | Answer _ _ _ _ k => pool_free k
  end.

Lemma leases_free {A} (m : prog A) : pool_free m -> leases m None.
Proof.
  induction m as [r|X f k IH|fd code body ka k IH]; simpl; try done. intros [Ff Fk] b.
  pose proof (Ff b) as E. destruct (f b) as [b' x]. simpl in E. exists None. rewrite E. auto.
Qed.

Lemma leases_finally {A} (m : prog A) c :
  pool_free m -> leases (finally m (fun b => set_mysql (mysql_releaseConn (Some c) (b_mysql b)) b)) (Some c).
Proof.
  induction m as [r|X f k IH|fd code body ka k IH]; simpl; try done.
  - intros _ b. exists None. simpl. split; [done|]. by rewrite app_nil_r.
  - intros [Ff Fk] b. pose proof (Ff b) as E. destruct (f b) as [b' x]. simpl in E. exists (Some c).
    rewrite E. auto.
Qed.

Lemma leases_guard {A} (body : option nat -> prog A) :
  (forall c, pool_free (body c)) -> leases (guard_prog body) None.
Proof.
  intros F. cbn [guard_prog leases]. intros b. unfold mysql_getConn.
  destruct (mpool_ (b_mysql b)) as [|c q] eqn:Q.
  - exists None. split; [by apply leases_free|]. simpl. by rewrite Q.
  - exists (Some c). split; [by apply leases_finally|]. simpl. rewrite app_nil_r. solve_Permutation.
Qed.

Lemma leases_pseq {A B} (m : prog A) (f : A -> prog B) o :
  leases m o -> (forall a, leases (f a) None) -> leases (pseq m f) o.
Proof.
  intros Lm Lf. revert o Lm. induction m as [[a| |]|X g k IH|fd code body ka k IH]; simpl; intros o Lm;
    [subst o; auto | done | done | | auto].
  intros b. specialize (Lm b). destruct (g b) as [b' x]. destruct Lm as (o' & L & P). exists o'. auto.
Qed.

Lemma leases_catch {A} (m h : prog A) o : leases m o -> leases h None -> leases (catch m h) o.
Proof.
  intros Lm Lh. revert o Lm. induction m as [[a| |]|X g k IH|fd code body ka k IH]; simpl; intros o Lm;
    [done | by subst o | done | | auto].
  intros b. specialize (Lm b). destruct (g b) as [b' x]. destruct Lm as (o' & L & P). exists o'. auto.
Qed.

Lemma pool_free_pseq {A B} (m : prog A) (f : A -> prog B) :
  pool_free m -> (forall a, pool_free (f a)) -> pool_free (pseq m f).
Proof.
  intros Fm Ff. induction m as [[a| |]|X g k IH|fd code body ka k IH]; simpl in *; auto.
  destruct Fm. auto.
Qed.

Lemma query_mysql q (b : Back) :
  b_mysql (let '(d, r) := mysql_query (c_str q) (b_db b) in (set_db d b, r)).1 = b_mysql b.
Proof. by destruct (mysql_query _ _). Qed.

Lemma store_mysql {A} (op : S -> S * A) (b : Back) :
  b_mysql (let '(s, a) := op (b_store b) in (set_store s b, a)).1 = b_mysql b.
Proof. by destruct (op _). Qed.

Lemma token_mysql (b : Back) :
  b_mysql (match generateToken draw b with (b', DRet t) => (b', Some t) | (b', _) => (b', None) end).1 = b_mysql b.
Proof.
  unfold generateToken. destruct (match b_rng b with Some g => Some g | None => b_entropy b end); [|done].
  by destruct (token_loop draw (Z.to_nat kTokenLen) g []).
Qed.

Lemma free_escape cap t : pool_free (escape_prog cap t).
Proof. unfold escape_prog. by destruct (_ <=? _). Qed.
Lemma free_query q : pool_free (query_prog q).
Proof. split; [apply query_mysql | done]. Qed.
Lemma free_store {A} (op : S -> S * A) : pool_free (store_prog op).
Proof. split; [apply store_mysql | done]. Qed.
Lemma free_token : pool_free token_prog.
Proof. split; [apply token_mysql | by intros [|]]. Qed.
Lemma free_say fd code body ka : pool_free (say fd code body ka).
Proof. done. Qed.
Hint Resolve free_escape free_query free_store free_token free_say : core.

(** A block between two pool operations. *)
Ltac pool_freely :=
  repeat first
    [ solve [auto]
    | exact I
    | progress intros
    | apply pool_free_pseq
    | match goal with |- context [match ?x with _ => _ end] => destruct x end ].

Lemma leases_task t : leases (task_prog t) None.
Proof.
  unfold task_prog. cbv zeta. destruct t as [fd ka u p|fd ka u p|fd ka tk|fd ka tk]; (apply leases_catch; [|done]).
  - apply leases_guard. pool_freely.
  - apply leases_pseq; [by apply leases_free|]. intros [v st]. apply leases_pseq.
    + destruct (_ && _); [done|]. apply leases_guard. pool_freely.
    + unfold login_finish_prog. intros [[q|]|]; apply leases_free; pool_freely.
  - apply leases_free. unfold profile_prog. pool_freely.
  - apply leases_free. unfold logout_prog. pool_freely.
Qed.

(** Idle and held connections together. *)
Definition lent (pool0 : list nat) (c : config) : Prop :=
  exists held, Forall2 (fun t o => leases (th_prog t) o) (cf_threads c) held /\
    mpool_ (b_mysql (cf_back c)) ++ mjoin (option_list <$> held) ≡ₚ pool0.

Lemma tstep_lent pool0 i c c' : lent pool0 c -> tstep i c = Some c' -> lent pool0 c'.
Proof.
  intros (held & F & P) E. unfold tstep in E. destruct (cf_threads c !! i) as [t|] eqn:T; [|done]. simpl in E.
  destruct (Forall2_lookup_l _ _ _ _ _ F T) as (o & O & L).
  assert (forall m' o' b' g, leases m' o' ->
    mpool_ (b_mysql b') ++ option_list o' ≡ₚ mpool_ (b_mysql (cf_back c)) ++ option_list o ->
    forall st an, lent pool0 (mkConfig b' (<[i := mkThread m' g]> (cf_threads c)) st an)) as Upd.
  { intros m' o' b' g L' P' st an. exists (<[i:=o']> held). split; [by apply Forall2_insert|]. simpl.
    apply list_elem_of_split_length in O as (l1 & l2 & -> & ->).
    rewrite insert_app_r_alt, Nat.sub_diag by lia. rewrite <- P. cbn [list_insert insert].
    rewrite !fmap_app, !join_app, !fmap_cons. cbn [mjoin list_join].
    rewrite (Permutation_app_swap_app _ (option_list o') _), (Permutation_app_swap_app _ (option_list o) _).
    rewrite !app_assoc. by rewrite P'. }
  destruct (th_prog t) as [r|X f k|fd code body ka k]; [done| |]; simpl in L.
  - specialize (L (set_rng (th_rng t) (cf_back c))).
    destruct (f (set_rng (th_rng t) (cf_back c))) as [b' x]. destruct L as (o' & L' & P'). injection E as <-.
    by eapply Upd.
  - injection E as <-. by eapply Upd.
Qed.

Lemma start_lent ts b : lent (mpool_ (b_mysql b)) (start ts b).
Proof.
  exists (replicate (length ts) None). split.
  - apply Forall2_fmap_l. induction ts; simpl; constructor; [apply leases_task | done].
  - simpl. assert (mjoin (option_list <$> replicate (length ts) (@None nat)) = []) as ->.
    { induction ts; [done|]. simpl. done. }
    by rewrite app_nil_r.
Qed.

(** When all programs have ended, nothing is held. *)
Lemma lent_at_rest pool0 c :
  (forall t, t ∈ cf_threads c -> exists r, th_prog t = End_ r) -> lent pool0 c ->
  mpool_ (b_mysql (cf_back c)) ≡ₚ pool0.
Proof.
  intros En (held & F & P). assert (mjoin (option_list <$> held) = []) as E.
  { clear P. induction F as [|t o l k L F IH]; [done|]. destruct (En t) as [r Er]; [set_solver|].
    rewrite Er in L. simpl in L. subst o. simpl. apply IH. intros t' Ht. apply En. set_solver. }
  by rewrite E, app_nil_r in P.
Qed.

Lemma crun_threads sched c c' : crun sched c = Some c' -> length (cf_threads c') = length (cf_threads c).
Proof.
  apply (crun_ind (fun c' => length (cf_threads c') = length (cf_threads c))); [|done].
  intros i c1 c2 L1 E. unfold tstep in E. destruct (cf_threads c1 !! i) as [t|]; [|done]. simpl in E.
  destruct (th_prog t) as [r|X f k|]; [done | destruct (f _) |]; injection E as <-; simpl; by rewrite length_insert.
Qed.

(** *** Registrations *)

(** The table only grows. *)
Definition grows (b b' : Back) : Prop :=
  forall u q, mysql_users (b_db b) u = Some q -> mysql_users (b_db b') u = Some q.

Lemma grows_trans b1 b2 b3 : grows b1 b2 -> grows b2 b3 -> grows b1 b3.
Proof. unfold grows. auto. Qed.

Lemma grows_same b b' : b_db b' = b_db b -> grows b b'.
Proof. intros E u q. by rewrite E. Qed.

Fixpoint growing {A} (m : prog A) : Prop :=
  match m with
  | End_ _ => True
  | Call f k => (forall b, grows b (f b).1) /\ forall x, growing (k x)
  | Answer _ _ _ _ k => growing k
  end.

Lemma growing_pseq {A B} (m : prog A) (f : A -> prog B) :
  growing m -> (forall a, growing (f a)) -> growing (pseq m f).
Proof.
  intros Fm Ff. induction m as [[a| |]|X g k IH|fd code body ka k IH]; simpl in *; auto.
  destruct Fm. auto.
Qed.

Lemma growing_catch {A} (m h : prog A) : growing m -> growing h -> growing (catch m h).
Proof.
  intros Fm Fh. induction m as [[a| |]|X g k IH|fd code body ka k IH]; simpl in *; auto.
  destruct Fm. auto.
Qed.

Lemma growing_guard {A} (body : option nat -> prog A) : (forall c, growing (body c)) -> growing (guard_prog body).
Proof.
  intros F. split.
  - intros b. apply grows_same. by destruct (mysql_getConn _).
  - intros [c|]; [|done]. generalize (F (Some c)). generalize (body (Some c)). clear body F.
    intros m Fm. induction m as [r|X g k IH|fd code body ka k IH]; simpl in *.
    + split; [intros b; by apply grows_same | done].
    + destruct Fm. auto.
    + auto.
Qed.

Lemma escape_prog_cases cap t :
  escape_prog cap t = End_ (DRet (mysql_real_escape_string t)) \/ escape_prog cap t = End_ DUndefined.
Proof.
  unfold escape_prog. destruct (_ <=? _); [left | by right].
  by rewrite c_str_no_nul by apply escape_no_nul.
Qed.

Definition statement (q : bytes) : Prop :=
  (exists u, q = sql_exists (mysql_real_escape_string u)) \/
  (exists u, q = sql_password (mysql_real_escape_string u)) \/
  exists u p, q = sql_insert (mysql_real_escape_string u) (mysql_real_escape_string p).

Lemma inserted_grows u p d d' q v :
  mysql_users d u = None -> (forall v, mysql_users d' v = if mysql_same u v then Some p else mysql_users d v) ->
  mysql_users d v = Some q -> mysql_users d' v = Some q.
Proof.
  intros N E V. rewrite E. destruct (mysql_same u v) eqn:Sm; [|done].
  apply (same_users_eq _ _ d) in Sm. congruence.
Qed.

Lemma growing_query q : statement q -> growing (query_prog q).
Proof.
  intros Hq. split; [|done]. intros b v w V. destruct Hq as [[u ->]|[[u ->]|(u & p & ->)]].
  - rewrite exists_c_str. pose proof (exists_pure u (b_db b) v) as E. destruct (mysql_query _ _) as [d r]. simpl in *. by rewrite E.
  - rewrite password_c_str. pose proof (password_pure u (b_db b) v) as E. destruct (mysql_query _ _) as [d r]. simpl in *. by rewrite E.
  - rewrite insert_c_str. destruct (mysql_query _ _) as [d [|o]] eqn:E; simpl.
    + destruct (insert_error _ _ _ _ E) as [Es|[N Es]]; [by rewrite Es | by eapply inserted_grows].
    + destruct (insert_ok _ _ _ _ _ E) as [N Es]. by eapply inserted_grows.
Qed.

Lemma growing_store {A} (op : S -> S * A) : growing (store_prog op).
Proof. split; [|done]. intros b. apply grows_same. by destruct (op _). Qed.

Lemma growing_token : growing token_prog.
Proof.
  split; [|by intros [|]]. intros b. apply grows_same. unfold generateToken.
  destruct (match b_rng b with Some g => Some g | None => b_entropy b end); [|done].
  by destruct (token_loop draw (Z.to_nat kTokenLen) g []).
Qed.

Lemma growing_escape {B} cap t (f : bytes -> prog B) :
  growing (f (mysql_real_escape_string t)) -> growing (pseq (escape_prog cap t) f).
Proof. intros F. by destruct (escape_prog_cases cap t) as [-> | ->]. Qed.

Ltac grow :=
  repeat first
    [ exact I
    | apply growing_store | apply growing_token
    | progress intros
    | apply growing_escape
    | apply growing_pseq
    | apply growing_query; unfold statement; by eauto 6
    | match goal with |- context [match ?x with _ => _ end] => destruct x end ].

Lemma growing_task t : growing (task_prog t).
Proof.
  unfold task_prog. cbv zeta. destruct t as [fd ka u p|fd ka u p|fd ka tk|fd ka tk]; (apply growing_catch; [|done]).
  - apply growing_guard. grow.
  - apply growing_pseq; [apply growing_store|]. intros [v st]. apply growing_pseq.
    + destruct (_ && _); [done|]. apply growing_guard. grow.
    + unfold login_finish_prog. grow.
  - unfold profile_prog. grow.
  - unfold logout_prog. grow.
Qed.

(** Thread [i] added the name with this password in one of the steps [h]. *)
Definition inserted (i : nat) (u p : bytes) (h : list (nat * Back * Back)) : Prop :=
  exists b b', (i, b, b') ∈ h /\ mysql_users (b_db b) u = None /\ mysql_users (b_db b') u = Some p.

(** If thread [i] answers 200, it has. *)
Fixpoint honest (i : nat) (u p : bytes) (m : prog unit) (h : list (nat * Back * Back)) : Prop :=
  match m with
  | End_ _ => True
  | Call f k => forall h' b, honest i u p (k (f b).2) (h' ++ [(i, b, (f b).1)])
  | Answer _ code _ _ k => (code = 200 -> inserted i u p h) /\ honest i u p k h
  end.

Lemma inserted_app i u p h h' : inserted i u p h -> inserted i u p (h ++ h').
Proof. intros (b & b' & I & R). exists b, b'. split; [set_solver | done]. Qed.

Lemma honest_app i u p m h h' : honest i u p m h -> honest i u p m (h ++ h').
Proof.
  induction m as [r|X f k IH|fd code body ka k IH]; simpl; try done.
  intros [A B]. split; [|auto]. intros C. by apply inserted_app, A.
Qed.

(** Programs that give no 200, followed by the clean-up of a task. *)
Fixpoint modest (m : prog unit) : Prop :=
  match m with
  | End_ _ => True
  | Call f k => forall x, modest (k x)
  | Answer _ code _ _ k => code <> 200 /\ modest k
  end.

Lemma modest_honest i u p m h : modest m -> honest i u p m h.
Proof.
  revert h. induction m as [r|X f k IH|fd code body ka k IH]; simpl; intros h Hm; [done | |].
  - intros h' b. by apply IH.
  - destruct Hm as [Hc Hk]. split; [done | by apply IH].
Qed.

Lemma honest_register i fd ka u p h : honest i u p (task_prog (TaskRegister fd ka u p)) h.
Proof.
  unfold task_prog. cbv zeta. unfold register_prog. cbn [catch guard_prog honest].
  intros h1 b1. destruct (mysql_getConn (b_mysql b1)) as [[c|] q]; [|by apply modest_honest]. cbn [snd fst].
  destruct (escape_prog_cases 129 u) as [-> | ->]; [|done]. destruct (escape_prog_cases 257 p) as [-> | ->]; [|done].
  cbn [pseq query_prog atomic finally catch honest]. intros h2 b2.
  destruct (mysql_query _ (b_db b2)) as [d2 [|res]]; [by apply modest_honest|]. cbn [snd fst].
  destruct (first_row res); [by apply modest_honest|]. cbn [pseq query_prog atomic finally catch honest].
  intros h3 b3. rewrite insert_c_str.
  destruct (mysql_query _ (b_db b3)) as [d3 [|o]] eqn:E; [by apply modest_honest|]. cbn [snd fst].
  cbn [pseq say finally catch honest]. split; [|done]. intros _. apply insert_ok in E as [N E].
  exists b3, (set_db d3 b3). split; [set_solver|]. split; [done|]. simpl. by rewrite E, same_refl.
Qed.

(** The race as a whole. *)
Record raced (ts : list (db_task * option G)) (c : config) : Prop := {
  ra_growing i t : cf_threads c !! i = Some t -> growing (th_prog t);
  ra_honest i fd ka u p g t : ts !! i = Some (TaskRegister fd ka u p, g) -> cf_threads c !! i = Some t ->
    honest i u p (th_prog t) (cf_steps c);
  ra_answers i fd ka u p g body : ts !! i = Some (TaskRegister fd ka u p, g) ->
    (i, (200, body)) ∈ cf_answers c -> inserted i u p (cf_steps c);
  ra_now i b b' : (i, b, b') ∈ cf_steps c -> grows b' (cf_back c);
  ra_order k l sk sl : (k < l)%nat -> cf_steps c !! k = Some sk -> cf_steps c !! l = Some sl -> grows sk.2 sl.1.2
}.

Lemma start_raced ts b : raced ts (start ts b).
Proof.
  split; simpl.
  - intros i t T. apply list_lookup_fmap_Some in T as (x & -> & _). apply growing_task.
  - intros i fd ka u p g t Ti T. apply list_lookup_fmap_Some in T as (x & -> & T). rewrite Ti in T.
    injection T as <-. apply honest_register.
  - by intros i fd ka u p g body _ ?%elem_of_nil.
  - by intros i b1 b2 ?%elem_of_nil.
  - by intros k l sk sl _ ?.
Qed.

Lemma raced_call ts c i t X (f : Back -> Back * X) k :
  raced ts c -> cf_threads c !! i = Some t -> th_prog t = Call f k ->
  let b := set_rng (th_rng t) (cf_back c) in
  raced ts (mkConfig (f b).1 (<[i := mkThread (k (f b).2) (b_rng (f b).1)]> (cf_threads c))
              (cf_steps c ++ [(i, b, (f b).1)]) (cf_answers c)).
Proof.
  intros [Rg Rh Ra Rn Ro] T Pr b. pose proof (Rg i t T) as Gt. rewrite Pr in Gt. destruct Gt as [Gf Gk].
  assert (grows (cf_back c) b) as Gb by by apply grows_same.
  split; simpl.
  - intros j t' [(<- & <- & _)|[_ Tj]]%list_lookup_insert_Some; [apply Gk | by eapply Rg].
  - intros j fd ka u p g t' Tj [(<- & <- & _)|[_ Ej]]%list_lookup_insert_Some.
    + pose proof (Rh _ _ _ _ _ _ _ Tj T) as Hh. rewrite Pr in Hh. apply Hh.
    + by eapply honest_app, Rh.
  - intros j fd ka u p g body Tj Aj. by eapply inserted_app, Ra.
  - intros j b1 b2 [I|I]%elem_of_app.
    + eapply grows_trans; [by eapply Rn|]. eapply grows_trans; [exact Gb | apply Gf].
    + apply list_elem_of_singleton in I. simplify_eq. by apply grows_same.
  - intros m l sm sl Lt Em [El|[Hl El]]%lookup_app_Some.
    + rewrite lookup_app_l in Em by (apply lookup_lt_Some in El; lia). by eapply Ro.
    + apply list_lookup_singleton_Some in El as [L0 <-]. rewrite lookup_app_l in Em by lia.
      simpl. eapply grows_trans; [|exact Gb]. destruct sm as [[im b1] b2].
      eapply Rn. by eapply list_elem_of_lookup_2.
Qed.

Lemma raced_answer ts c i t fd0 code0 body0 ka0 k :
  raced ts c -> cf_threads c !! i = Some t -> th_prog t = Answer fd0 code0 body0 ka0 k ->
  forall b', b_db b' = b_db (cf_back c) ->
  raced ts (mkConfig b' (<[i := mkThread k (th_rng t)]> (cf_threads c)) (cf_steps c)
              (cf_answers c ++ [(i, (code0, body0))])).
Proof.
  intros [Rg Rh Ra Rn Ro] T Pr b' Eb. pose proof (Rg i t T) as Gt. rewrite Pr in Gt. split; simpl.
  - intros j t' [(<- & <- & _)|[_ Tj]]%list_lookup_insert_Some; [exact Gt | by eapply Rg].
  - intros j fd ka u p g t' Tj [(<- & <- & _)|[_ Ej]]%list_lookup_insert_Some; [|by eapply Rh].
    pose proof (Rh _ _ _ _ _ _ _ Tj T) as Hh. rewrite Pr in Hh. apply Hh.
  - intros j fd ka u p g body Tj [A|A]%elem_of_app; [by eapply Ra|].
    apply list_elem_of_singleton in A. simplify_eq. pose proof (Rh _ _ _ _ _ _ _ Tj T) as Hh.
    rewrite Pr in Hh. by apply Hh.
  - intros j b1 b2 I. eapply grows_trans; [by eapply Rn|]. by apply grows_same.
  - exact Ro.
Qed.

Lemma tstep_raced ts i c c' : raced ts c -> tstep i c = Some c' -> raced ts c'.
Proof.
  intros R E. unfold tstep in E. destruct (cf_threads c !! i) as [t|] eqn:T; [|done]. simpl in E.
  destruct (th_prog t) as [r|X f k|fd code body ka k] eqn:Pr; [done| |].
  - pose proof (raced_call ts c i t X f k R T Pr) as Rc. cbv zeta in Rc.
    destruct (f (set_rng (th_rng t) (cf_back c))) as [b' x]. by injection E as <-.
  - injection E as <-. by eapply raced_answer.
Qed.

Lemma tstep_grows ts i c c' : raced ts c -> tstep i c = Some c' -> grows (cf_back c) (cf_back c').
Proof.
  intros R E. unfold tstep in E. destruct (cf_threads c !! i) as [t|] eqn:T; [|done]. simpl in E.
  destruct (th_prog t) as [r|X f k|fd code body ka k] eqn:Pr; [done| |].
  - pose proof (ra_growing _ _ R i t T) as Gt. rewrite Pr in Gt. destruct Gt as [Gf _].
    specialize (Gf (set_rng (th_rng t) (cf_back c))). destruct (f _) as [b' x]. injection E as <-. exact Gf.
  - injection E as <-. by apply grows_same.
Qed.

Lemma crun_raced ts b sched c : crun sched (start ts b) = Some c -> raced ts c /\ grows b (cf_back c).
Proof.
  apply (crun_ind (fun c => raced ts c /\ grows b (cf_back c))).
  - intros i c1 c2 [R Gr] E. split; [by eapply tstep_raced|]. eapply grows_trans; [exact Gr | by eapply tstep_grows].
  - split; [apply start_raced | by apply grows_same].
Qed.

(** ** Properties *)

(** Tasks that interleave are answered once each. However the threads run,
    no more than eight steps are taken per task, and when no thread can go on,
    every task has been answered exactly once and the MySQL pool holds the
    connections it held at the start. *)
Theorem interleaved_tasks_answered_once ts b sched c :
  Forall (fun t => task_limits t.1) ts -> crun sched (start ts b) = Some c ->
  (length sched <= 8 * length ts)%nat /\
  ((forall i, tstep i c = None) ->
   (forall i, (i < length ts)%nat -> exists r, answers_of i c = [(i, r)]) /\
   mpool_ (b_mysql (cf_back c)) ≡ₚ mpool_ (b_mysql b)).
Proof.
  intros F R. destruct (crun_paced _ _ _ _ (start_paced ts b F) R) as (ns & [Ln P] & Sum).
  assert (sum_list (replicate (length ts) 8%nat) = 8 * length ts)%nat as Tot.
  { clear. induction ts; simpl in *; lia. }
  split; [lia|]. intros Rest.
  assert (forall i t, cf_threads c !! i = Some t -> exists r, th_prog t = End_ r) as Ended.
  { intros i t T. specialize (Rest i). unfold tstep in Rest. rewrite T in Rest. simpl in Rest.
    destruct (th_prog t) as [r|X f k|]; [by exists r | by destruct (f _) | done]. }
  assert (lent (mpool_ (b_mysql b)) c) as Hl.
  { eapply crun_ind; [|apply start_lent | exact R]. intros i c1 c2. apply tstep_lent. }
  assert (length (cf_threads c) = length ts) as Lt.
  { rewrite (crun_threads _ _ _ R). simpl. apply length_fmap. }
  split.
  - intros i Hi. destruct (lookup_lt_is_Some_2 (cf_threads c) i) as [t T]; [lia|].
    destruct (lookup_lt_is_Some_2 ns i) as [n N]; [lia|]. destruct (Ended i t T) as [r Er].
    destruct (P i t n T N) as [[_ O]|[O _]]; [by rewrite Er in O|].
    destruct (answers_of i c) as [|[j r'] [|]] eqn:A; try done. exists r'.
    assert ((j, r') ∈ answers_of i c) as I by (rewrite A; apply list_elem_of_here).
    apply list_elem_of_filter in I as [Ej _]. simpl in Ej. by subst j.
  - eapply lent_at_rest; [|done]. intros t [i T]%list_elem_of_lookup. by eapply Ended.
Qed.

(** A name is registered once. In every interleaving of any tasks, of the
    registrations for names that the server takes for the same at most one is
    answered 200, its password is the one in the table from then on, and the
    password of a user that was there at the start stays what it was. *)
Theorem one_registration_wins ts b sched c :
  crun sched (start ts b) = Some c ->
  (forall i fd ka u p g body, ts !! i = Some (TaskRegister fd ka u p, g) -> (i, (200, body)) ∈ cf_answers c ->
     mysql_users (b_db (cf_back c)) u = Some p) /\
  (forall u p, mysql_users (b_db b) u = Some p -> mysql_users (b_db (cf_back c)) u = Some p) /\
  (forall i j fd ka u p g body fd' ka' u' p' g' body',
     ts !! i = Some (TaskRegister fd ka u p, g) -> (i, (200, body)) ∈ cf_answers c ->
     ts !! j = Some (TaskRegister fd' ka' u' p', g') -> (j, (200, body')) ∈ cf_answers c ->
     mysql_same u u' = true -> i = j).
Proof.
  intros R. destruct (crun_raced _ _ _ _ R) as [[Rg Rh Ra Rn Ro] Gr]. split_and!; [|exact Gr|].
  - intros i fd ka u p g body Ti A. destruct (Ra _ _ _ _ _ _ _ Ti A) as (b1 & b2 & I & _ & V). by eapply Rn.
  - intros i j fd ka u p g body fd' ka' u' p' g' body' Ti Ai Tj Aj Sm.
    destruct (Ra _ _ _ _ _ _ _ Ti Ai) as (b1 & b2 & I & N1 & V1).
    destruct (Ra _ _ _ _ _ _ _ Tj Aj) as (b3 & b4 & J & N2 & V2).
    apply list_elem_of_lookup in I as [k I]. apply list_elem_of_lookup in J as [l J].
    destruct (lt_eq_lt_dec k l) as [[Lt|Eq]|Lt].
    + pose proof (Ro _ _ _ _ Lt I J u p V1) as V. simpl in V. apply (same_users_eq _ _ (b_db b3)) in Sm. congruence.
    + subst l. congruence.
    + pose proof (Ro _ _ _ _ Lt J I u' p' V2) as V. simpl in V. apply (same_users_eq _ _ (b_db b1)) in Sm. congruence.
Qed.

End Programs.
Arguments End_ {K S D G A} r. Arguments Call {K S D G A X} f k. Arguments Answer {K S D G A} fd code body keepAlive k.

(** ** Witnesses *)

(** Two clients register one name at the same time: both find it free, the
    second thread inserts first. *)
Definition race : list (db_task * option nat) :=
  [(TaskRegister 7 true (bs "ann") (bs "one"), None); (TaskRegister 8 true (bs "ann") (bs "two"), Some 3%nat)].

Definition race_schedule : list nat := [0; 1; 0; 1; 1; 0; 0; 1; 0; 1]%nat.

Definition race_end : config :=
  default (start count_draw race (demo_backend ∅ ∅)) (crun race_schedule (start count_draw race (demo_backend ∅ ∅))).

Lemma race_runs : crun race_schedule (start count_draw race (demo_backend ∅ ∅)) = Some race_end.
Proof.
  unfold race_end.
  assert (bool_decide (is_Some (crun race_schedule (start count_draw race (demo_backend ∅ ∅)))) = true) as E
    by (vm_compute; reflexivity).
  by destruct (crun race_schedule (start count_draw race (demo_backend ∅ ∅))).
Qed.

(** The one that comes second has found no such user, and is told of a database
    error, not of a user that exists. *)
Example race_answers :
  cf_answers race_end = [(0%nat, (500, json1 "error" "database error")); (1%nat, (200, json1 "message" "register success"))].
Proof. vm_compute; reflexivity. Qed.

Lemma interleaved_tasks_answered_once_witness :
  (10 <= 8 * 2)%nat /\
  (forall i, (i < 2)%nat -> exists r, answers_of i race_end = [(i, r)]) /\
  mpool_ (b_mysql (cf_back race_end)) ≡ₚ [0; 1]%nat.
Proof.
  destruct (interleaved_tasks_answered_once count_draw race (demo_backend ∅ ∅) race_schedule race_end) as [B Rest].
  - repeat constructor; by vm_compute.
  - apply race_runs.
  - split; [exact B|]. apply Rest. apply ended_rest. vm_compute; reflexivity.
Defined.

Lemma one_registration_wins_witness :
  mysql_users (b_db (cf_back race_end)) (bs "ann") = Some (bs "two").
Proof.
  destruct (one_registration_wins count_draw race (demo_backend ∅ ∅) race_schedule race_end race_runs) as [W _].
  apply (W 1%nat 8 true (bs "ann") (bs "two") (Some 3%nat) (json1 "message" "register success")).
  - reflexivity.
  - rewrite race_answers. apply list_elem_of_further, list_elem_of_here.
Defined.
