(* ===== verification/Atomic.v ===== *)
(** * Database tasks take effect once (src/Connection.cpp, against the accounts)

    What clients are promised by database threads that run side by side: the
    account service of [Accounts], with the two answers only concurrency brings
    about. And why each task keeps the promise: the programs of [Interleaved] are
    followed call by call, with anything happening in between, and there is one
    moment at which a task takes effect: the INSERT, the look-up that decides,
    the storing or deleting of the session. The theorems are in [Service]. *)

From S2P Require Import Prelude CppString Config Http Json Channel Framing Connection.
From S2P Require Import Interfaces Mysql Redis Handlers Accounts Interleaved.

(** ** What clients are promised *)

Section Promise.
Context (same : bytes -> bytes -> bool).
(** More threads than connections: a task may find the pool empty. *)
Context (scarce : bool).

Definition asks_mysql (t : db_task) : bool :=
  match t with TaskRegister _ _ _ _ | TaskLogin _ _ _ _ => true | _ => false end.

Inductive service_step : accounts -> db_task -> reply -> accounts -> Prop :=
| serve_accounts a t r a' : accounts_step same a t r a' -> service_step a t r a'
| serve_raced a fd ka u p q : acc_users a u = Some q ->
    service_step a (TaskRegister fd ka u p) (500, json1 "error" "database error") a
| serve_busy a t : scarce = true -> asks_mysql t = true ->
    service_step a t (503, json1 "error" "service unavailable") a.

Inductive service_run : accounts -> list (db_task * reply) -> accounts -> Prop :=
| serve_nothing a : service_run a [] a
| serve_one a h t r a1 a2 :
    service_run a h a1 -> service_step a1 t r a2 -> service_run a (h ++ [(t, r)]) a2
| serve_expire a h a1 a2 : service_run a h a1 -> expired a1 a2 -> service_run a h a2.

Lemma explained_service_step a0 h a t r a1 :
  explained same a0 h a -> service_step a t r a1 -> explained same a0 (h ++ [(t, r)]) a1.
Proof.
  intros Ex St. destruct St as [a t r a' St|a fd ka u p q U|a t Sc As]; [by eapply explained_step| |];
    destruct Ex as [Eu Es]; split.
  - intros v w V. by apply registered_in_app, Eu.
  - intros tk v V. apply logged_in_snoc; [by apply Es | by intros []].
  - intros v w V. by apply registered_in_app, Eu.
  - intros tk v V. apply logged_in_snoc; [by apply Es|]. destruct t; simpl in *; try done; tauto.
Qed.

Lemma explained_run a h a' :
  (forall t, acc_sessions a t = None) -> service_run a h a' -> explained same a h a'.
Proof.
  intros N R. induction R as [a|a h t r a1 a2 R IH St|a h a1 a2 R IH X].
  - split; [by left | by intros t u; rewrite N].
  - eapply explained_service_step; eauto.
  - eapply explained_expired; eauto.
Qed.

(** Whoever is told a name was logged in under it. *)
Lemma service_run_profile a h a' i fd ka token body :
  (forall t, acc_sessions a t = None) -> service_run a h a' ->
  h !! i = Some (TaskProfile fd ka token, (200, body)) ->
  exists u, body = profile_json u /\ logged_in same a (take i h) token u.
Proof.
  intros N R. induction R as [a|a h t r a1 a2 R IH St|a h a1 a2 R IH X]; intros L; [done | | by apply IH].
  apply lookup_app_Some in L as [L|[Hl L]].
  - rewrite take_app_le by (apply lookup_lt_Some in L; lia). by apply IH.
  - apply list_lookup_singleton_Some in L as [Hi [= -> ->]]. replace i with (length h) by lia.
    rewrite take_app_length. apply explained_run in R; [|done]. inversion St as [? ? ? ? As| |]; subst.
    inversion As; subst. exists u. split; [done|]. by apply R.
Qed.

End Promise.

(** ** A task takes effect once *)

(** How far a task is: not decided, its reply decided by its effect, replied. *)
Inductive phase : Type := Pending | Decided (r : reply) | Replied.

Section Tasks.
Context {K S D G : Type} `{SessionStore S} `{MysqlServer D}.
Context (draw : G -> nat * G) (draw_range : forall g, (fst (draw g) < length charset)%nat).
Context (scarce : bool).
Notation Back := (Backend K S D G).
Notation Prog := (@prog K S D G unit).
Notation service_step := (service_step mysql_same scarce).
Notation task_prog := (task_prog draw).

(** The shared back end, apart from the connections that are lent. *)
Record backs (b : Back) (a : accounts) : Prop := {
  bk_up : mysql_up (b_db b);
  bk_store : store_healthy (b_store b);
  bk_entropy : is_Some (b_entropy b);
  bk_stores : stores (b_db b) (b_store b) a
}.

(** Users stay. *)
Definition knows (a a' : accounts) : Prop := forall u p, acc_users a u = Some p -> acc_users a' u = Some p.

Definition decides (t : db_task) (ph : phase) (a : accounts) (ph' : phase) (a' : accounts) : Prop :=
  ph' = ph /\ a' = a \/ ph = Pending /\ exists r, ph' = Decided r /\ service_step a t r a'.

(** The program [m] of the task [t], holding the connection [o], in phase [ph],
    with what it has seen of the users in [a0], is good from here on: whatever the
    others do in between, its calls decide it at most once, its answer is what
    was decided, and it gives its connection back. *)
Fixpoint serves (t : db_task) (m : Prog) (o : option nat) (ph : phase) (a0 : accounts) : Prop :=
  match m with
  | End_ r => r = DRet tt /\ o = None /\ ph = Replied
  | Call f k => forall b a, knows a0 a -> backs b a ->
      (scarce = false -> o = None -> mpool_ (b_mysql b) <> []) ->
      exists o' ph' a', decides t ph a ph' a' /\ backs (f b).1 a' /\
        mpool_ (b_mysql (f b).1) ++ option_list o' ≡ₚ mpool_ (b_mysql b) ++ option_list o /\
        serves t (k (f b).2) o' ph' a'
  | Answer fd code body ka k => fd = task_fd t /\ ka = task_keepAlive t /\
      (ph = Decided (code, body) \/ ph = Pending /\ forall a, knows a0 a -> service_step a t (code, body) a) /\
      serves t k o Replied a0
  end.

Lemma knows_trans a b c : knows a b -> knows b c -> knows a c.
Proof. unfold knows. auto. Qed.

Lemma serves_mono t m o ph a0 a1 : knows a0 a1 -> serves t m o ph a0 -> serves t m o ph a1.
Proof.
  intros Kn. revert o ph. induction m as [r|X f k IH|fd code body ka k IH]; simpl; intros o ph Sv; [done| |].
  - intros b a Ka. apply Sv. by eapply knows_trans.
  - destruct Sv as (Ef & Ek & Hd & Sk). split; [done|]. split; [done|]. split; [|by apply IH].
    destruct Hd as [Hd|[Hp Hd]]; [by left | right]. split; [done|]. intros a Ka. apply Hd. by eapply knows_trans.
Qed.

Lemma decides_knows t ph a ph' a' d s : stores d s a -> decides t ph a ph' a' -> knows a a'.
Proof.
  intros St [[_ ->]|(_ & r & _ & Sp)] u p U; [done|]. destruct Sp as [a t r a' Sp| |]; [|done..].
  destruct Sp as [a fd ka u' p' U'| | | | | | | |]; try done. simpl. destruct (mysql_same u' u) eqn:Sm; [|done].
  apply (same_users_eq _ _ d) in Sm. rewrite !(st_users _ _ _ St) in Sm. congruence.
Qed.

(** *** Rules for the calls *)

Lemma decides_not t ph a : decides t ph a ph a.
Proof. by left. Qed.

Lemma decides_now t a r a' : service_step a t r a' -> decides t Pending a (Decided r) a'.
Proof. intros St. right. split; [done|]. by exists r. Qed.

Lemma knows_refl a : knows a a.
Proof. by intros u p. Qed.

Hint Resolve decides_not knows_refl : core.

(** Taking a connection. *)
Lemma serves_getConn t (k : option nat -> Prog) ph a0 :
  (forall c a, knows a0 a -> serves t (k (Some c)) (Some c) ph a) ->
  (scarce = true -> forall a, knows a0 a -> serves t (k None) None ph a) ->
  serves t (Call (fun b => let '(conn, p) := mysql_getConn (b_mysql b) in (set_mysql p b, conn)) k) None ph a0.
Proof.
  intros Hs Hn b a Kn Bk Av. unfold mysql_getConn. destruct (mpool_ (b_mysql b)) as [|c q] eqn:Q.
  - exists None, ph, a. split; [done|]. split; [by destruct Bk; split|]. split; [simpl; by rewrite Q|].
    apply Hn; [|done]. destruct scarce; [done|]. by destruct (Av eq_refl eq_refl).
  - exists (Some c), ph, a. split; [done|]. split; [by destruct Bk; split|].
    split; [simpl; rewrite app_nil_r; solve_Permutation | by apply Hs].
Qed.

(** Giving it back. *)
Lemma serves_release t (k : unit -> Prog) c ph a0 :
  (forall a, knows a0 a -> serves t (k tt) None ph a) ->
  serves t (Call (fun b => (set_mysql (mysql_releaseConn (Some c) (b_mysql b)) b, tt)) k) (Some c) ph a0.
Proof.
  intros Hk b a Kn Bk _. exists None, ph, a. split; [done|]. split; [by destruct Bk; split|].
  split; [by rewrite app_nil_r | by apply Hk].
Qed.

(** A call that leaves the pool alone. *)
Lemma serves_call t X (f : Back -> Back * X) k o ph a0 :
  (forall b, b_mysql (f b).1 = b_mysql b) ->
  (forall b a, knows a0 a -> backs b a -> exists ph' a', decides t ph a ph' a' /\ backs (f b).1 a' /\
     serves t (k (f b).2) o ph' a') ->
  serves t (Call f k) o ph a0.
Proof.
  intros Fm Hf b a Kn Bk _. destruct (Hf b a Kn Bk) as (ph' & a' & De & Bk' & Sv).
  exists o, ph', a'. by rewrite Fm.
Qed.

Lemma backs_same (b : Back) a d s :
  backs b a -> mysql_up d -> store_healthy s -> (forall u, mysql_users d u = mysql_users (b_db b) u) ->
  (forall k, store_view s k = store_view (b_store b) k) -> backs (set_store s (set_db d b)) a.
Proof. intros [Bu Bs Be Bt] Up Hs Us V. split; try done. by eapply stores_same. Qed.

(** The replies that follow a decision. *)
Lemma serves_reply t code body a0 :
  serves t (Answer (task_fd t) code body (task_keepAlive t) (End_ (DRet tt))) None (Decided (code, body)) a0.
Proof. simpl. split_and!; try done. by left. Qed.

Lemma serves_reply_release t code body c a0 :
  serves t (Answer (task_fd t) code body (task_keepAlive t)
              (Call (fun b => (set_mysql (mysql_releaseConn (Some c) (b_mysql b)) b, tt))
                 (fun _ => End_ (DRet tt)))) (Some c) (Decided (code, body)) a0.
Proof. split; [done|]. split; [done|]. split; [by left|]. by apply serves_release. Qed.

Lemma serves_busy t a0 (k : Prog) :
  scarce = true -> asks_mysql t = true -> serves t k None Replied a0 ->
  serves t (Answer (task_fd t) 503 (json1 "error" "service unavailable") (task_keepAlive t) k) None Pending a0.
Proof.
  intros Sc As Sk. split; [done|]. split; [done|]. split; [|done]. right. split; [done|]. intros a _.
  by apply serve_busy.
Qed.

(** *** Each task *)

Lemma serves_register fd ka u p a0 :
  task_plain (D := D) (TaskRegister fd ka u p) ->
  serves (TaskRegister fd ka u p) (task_prog (TaskRegister fd ka u p)) None Pending a0.
Proof.
  intros ([Lu Lp] & Nu & Zu & Zp & Tu & Tp). unfold user_limits, password_limits, kMaxUsernameLen, kMaxPasswordLen in *.
  unfold Interleaved.task_prog, register_prog. cbn [catch guard_prog].
  apply serves_getConn; [|by intros Sc a _; apply (serves_busy (TaskRegister fd ka u p))].
  intros c a1 _. rewrite !escape_prog_fits by lia. cbn [pseq query_prog atomic finally catch].
  apply serves_call; [intros b; apply query_mysql|]. intros b a _ [Bu Bs Be Bt].
  rewrite exists_c_str. destruct (exists_up u (b_db b) Bu) as (d1 & rows & Q1 & Up1).
  pose proof (exists_pure u (b_db b)) as Pure. pose proof (exists_ok _ _ _ _ Q1) as Ex. rewrite Q1 in Pure |- *. cbn [fst snd].
  simpl in Pure. rewrite (st_users _ _ _ Bt) in Ex.
  assert (backs (set_db d1 b) a) as Bk1 by (split; try done; by eapply stores_same).
  destruct rows as [|row rows]; cbn [first_row pseq query_prog atomic finally catch say].
  - exists Pending, a. split; [done|]. split; [done|]. clear b Bu Bs Be Bt Q1 Pure Bk1 Ex.
    apply serves_call; [intros b; apply query_mysql|]. intros b a2 _ [Bu Bs Be Bt]. rewrite insert_c_str.
    destruct (acc_users a2 u) as [q|] eqn:Ua.
    + pose proof (st_users _ _ _ Bt u) as Us. rewrite Ua in Us.
      destruct (insert_taken u p (b_db b) q Bu Us) as (d2 & Q2 & Up2). rewrite Q2. cbn [fst snd].
      exists (Decided (500, json1 "error" "database error")), a2. split; [by eapply decides_now, serve_raced|].
      split; [|apply (serves_reply_release (TaskRegister fd ka u p))].
      apply insert_error in Q2 as [Sm|[Nn _]]; [|congruence]. split; try done. by eapply stores_same.
    + pose proof (st_users _ _ _ Bt u) as Us. rewrite Ua in Us.
      destruct (insert_up u p (b_db b) Bu Us Tu Tp) as (d2 & Q2 & Up2). rewrite Q2. cbn [fst snd].
      exists (Decided (200, json1 "message" "register success")), (add_user mysql_same u p a2).
      split; [by apply decides_now, serve_accounts, step_register|].
      split; [|apply (serves_reply_release (TaskRegister fd ka u p))].
      apply insert_ok in Q2 as [_ Eff]. split; try done. by eapply stores_add_user.
  - exists (Decided (409, json1 "error" "user already exists")), a. split; [|split; [done|]].
    + destruct (acc_users a u) as [q|] eqn:Ua; [by eapply decides_now, serve_accounts, step_register_taken|].
      by destruct Ex as [_ Ex]; discriminate (Ex eq_refl).
    + apply (serves_reply_release (TaskRegister fd ka u p)).
Qed.

(** A call on a store that works. *)
Lemma backs_store (b : Back) a a' s :
  backs b a -> store_healthy s -> stores (b_db b) s a' -> backs (set_store s b) a'.
Proof. by intros [Bu Bs Be Bt]; split. Qed.

Lemma serves_profile fd ka tk a0 :
  NUL ∉ tk -> serves (TaskProfile fd ka tk) (task_prog (TaskProfile fd ka tk)) None Pending a0.
Proof.
  intros Zt. unfold Interleaved.task_prog, profile_prog. cbn [catch pseq store_prog atomic].
  apply serves_call; [intros b; apply store_mysql|]. intros b a _ Bk.
  destruct (store_get_healthy (session_key tk) (b_store b) (bk_store _ _ Bk)) as (s & E & Hs & V). rewrite E. cbn [fst snd].
  assert (backs (set_store s b) a) as Bk1.
  { eapply backs_store; [done..|]. eapply stores_same; [apply Bk | done..]. }
  rewrite session_key_plain, (st_sessions _ _ _ (bk_stores _ _ Bk)) by done.
  destruct (acc_sessions a tk) as [u|] eqn:Sa.
  - exists (Decided (200, profile_json u)), a. split; [by apply decides_now, serve_accounts, step_profile|].
    split; [done|]. pose proof (st_named _ _ _ (bk_stores _ _ Bk) _ _ Sa) as Nu.
    rewrite !bool_decide_false by done. apply (serves_reply (TaskProfile fd ka tk)).
  - exists (Decided (401, json1 "error" "invalid or expired token")), a.
    split; [by apply decides_now, serve_accounts, step_profile_refused|]. split; [done|].
    apply (serves_reply (TaskProfile fd ka tk)).
Qed.

Lemma serves_logout fd ka tk a0 :
  NUL ∉ tk -> serves (TaskLogout fd ka tk) (task_prog (TaskLogout fd ka tk)) None Pending a0.
Proof.
  intros Zt. unfold Interleaved.task_prog, logout_prog. cbn [catch pseq store_prog atomic].
  apply serves_call; [intros b; apply store_mysql|]. intros b a _ Bk.
  destruct (store_del_healthy (session_key tk) (b_store b) (bk_store _ _ Bk)) as (s & E & Hs & Vn & Vf). rewrite E. cbn [fst snd].
  rewrite session_key_plain in Vn, Vf by done.
  rewrite session_key_plain, (st_sessions _ _ _ (bk_stores _ _ Bk)) by done.
  destruct (acc_sessions a tk) as [u|] eqn:Sa.
  - exists (Decided (200, json1 "message" "logout success")), (set_session tk None a).
    split; [by eapply decides_now, serve_accounts, step_logout|].
    split; [|apply (serves_reply (TaskLogout fd ka tk))].
    eapply backs_store; [done..|]. eapply stores_session; [apply Bk | done..].
  - exists (Decided (401, json1 "error" "invalid or expired token")), a.
    split; [by apply decides_now, serve_accounts, step_logout_refused|].
    split; [|apply (serves_reply (TaskLogout fd ka tk))].
    eapply backs_store; [done..|]. eapply stores_same; [apply Bk | done|]. intros k.
    destruct (decide (k = session_key tk)) as [->|]; [|auto].
    by rewrite Vn, (st_sessions _ _ _ (bk_stores _ _ Bk)).
Qed.

(** From the comparison on, with a password that is right. *)
Lemma serves_login_finish fd ka u p q a0 h :
  u <> [] -> NUL ∉ u -> acc_users a0 u = Some q ->
  serves (TaskLogin fd ka u p) (catch (login_finish_prog draw fd ka u p q) h) None Pending a0.
Proof.
  intros Nu Zu Ua. unfold login_finish_prog. case_bool_decide as Hp; cbn [catch pseq say].
  { split; [done|]. split; [done|]. split; [|done]. right. split; [done|]. intros a Kn.
    eapply serve_accounts, step_login_wrong; [by apply Kn | done]. }
  cbn [pseq token_prog catch]. apply serves_call; [intros b; apply token_mysql|]. intros b a Kn Bk.
  pose proof (generateToken_run draw draw_range b) as Gt. destruct (bk_entropy _ _ Bk) as [g0 Eg]. rewrite Eg in Gt.
  assert (exists token g, generateToken draw b = (set_rng (Some g) b, DRet token) /\ token_shape token)
    as (token & g & E & Sh) by (by destruct (b_rng b)). rewrite E. cbn [fst snd catch pseq store_prog atomic].
  exists Pending, a. split; [done|]. split; [by destruct Bk; split|]. clear b Bk Eg E Gt.
  apply serves_call; [intros b; apply store_mysql|]. intros b a2 Kn2 Bk.
  destruct (store_setex_healthy (session_key token) kSessionTtlSec u (b_store b) (bk_store _ _ Bk)) as (s & E & Hs);
    [done|]. rewrite E. cbn [fst snd negb catch say].
  exists (Decided (200, login_json token)), (set_session token (Some u) a2). split; [|split].
  - destruct (decide (p = q)) as [->|]; [|done].
    apply decides_now, serve_accounts, step_login; [apply Kn2, Kn, Ua | done].
  - apply store_setex_ok in E as [E1 E2]. rewrite session_key_c_str in E1, E2 by done.
    rewrite c_str_no_nul in E1 by done. eapply backs_store; [done..|].
    eapply stores_session; [apply Bk | congruence | done..].
  - apply (serves_reply (TaskLogin fd ka u p)).
Qed.

(** What MySQL is asked for a login, in front of what is done with the answer. *)
Lemma serves_login_query fd ka u p a0 h :
  task_plain (D := D) (TaskLogin fd ka u p) ->
  serves (TaskLogin fd ka u p)
    (catch (pseq (login_query_prog fd ka u)
       (fun lookup => match lookup with
                      | None => End_ (DRet tt)
                      | Some None => say fd 401 (json1 "error" "user not found") ka
                      | Some (Some q) => login_finish_prog draw fd ka u p q
                      end)) h) None Pending a0.
Proof.
  intros ([Lu _] & Nu & Zu). unfold user_limits, kMaxUsernameLen in *.
  unfold login_query_prog. cbn [catch guard_prog pseq].
  apply serves_getConn; [|by intros Sc a _; apply (serves_busy (TaskLogin fd ka u p))].
  intros c a1 _. rewrite !escape_prog_fits by lia. cbn [pseq query_prog atomic finally catch].
  apply serves_call; [intros b; apply query_mysql|]. intros b a _ [Bu Bs Be Bt].
  rewrite password_c_str. destruct (password_up u (b_db b) Bu) as (d1 & rows & Q1 & Up1).
  pose proof (password_pure u (b_db b)) as Pure. pose proof (password_ok _ _ _ _ Q1) as Pw. rewrite Q1 in Pure |- *.
  cbn [fst snd]. simpl in Pure. rewrite (st_users _ _ _ Bt) in Pw. symmetry in Pw.
  assert (backs (set_db d1 b) a) as Bk1 by (split; try done; by eapply stores_same).
  destruct rows as [|q rows]; simpl in Pw; cbn [first_row pseq store_prog atomic finally catch say].
  - exists (Decided (401, json1 "error" "user not found")), a.
    split; [by eapply decides_now, serve_accounts, step_login_unknown|]. split; [done|].
    apply serves_release. intros a2 _. apply (serves_reply (TaskLogin fd ka u p)).
  - rewrite (c_str_no_nul q) by (eapply st_plain; [apply Bt | done]).
    exists Pending, a. split; [done|]. split; [done|]. pose proof (st_plain _ _ _ Bt u q Pw) as Zq.
    clear b Bu Bs Be Bt Q1 Pure Bk1.
    apply serves_call; [intros b; apply store_mysql|]. intros b a2 Kn Bk.
    destruct (store_setex_healthy (user_key u) kUserCacheTtlSec q (b_store b) (bk_store _ _ Bk)) as (s & E & Hs);
      [done|]. rewrite E. cbn [fst snd finally catch pseq]. exists Pending, a2. split; [done|]. split.
    + apply store_setex_ok in E as [E1 E2]. rewrite user_key_c_str in E1, E2 by done.
      rewrite c_str_no_nul in E1 by done. eapply backs_store; [done..|].
      eapply (stores_cached _ _ _ _ u q); [apply Bk | done | by apply Kn | done..].
    + apply serves_release. intros a3 Kn3. apply serves_login_finish; [done..|]. apply Kn3, Kn. done.
Qed.

Lemma serves_login fd ka u p a0 :
  task_plain (D := D) (TaskLogin fd ka u p) ->
  serves (TaskLogin fd ka u p) (task_prog (TaskLogin fd ka u p)) None Pending a0.
Proof.
  intros Pl. pose proof Pl as (_ & Nu & Zu). unfold Interleaved.task_prog, login_prog.
  cbn [catch pseq store_prog atomic]. apply serves_call; [intros b; apply store_mysql|]. intros b a _ Bk.
  destruct (store_get_healthy (user_key u) (b_store b) (bk_store _ _ Bk)) as (s & E & Hs & V). rewrite E. cbn [fst snd].
  rewrite user_key_c_str by done. exists Pending, a. split; [done|]. split.
  { eapply backs_store; [done..|]. eapply stores_same; [apply Bk | done..]. }
  destruct (store_view (b_store b) (user_key u)) as [[|c v]|] eqn:Vu; [by apply serves_login_query | | by apply serves_login_query].
  cbn [fst snd]. rewrite bool_decide_true, bool_decide_false by done. cbn [andb negb pseq].
  apply serves_login_finish; [done..|]. by eapply (st_cache _ _ _ (bk_stores _ _ Bk)).
Qed.

Lemma serves_task t a0 : task_plain (D := D) t -> serves t (task_prog t) None Pending a0.
Proof.
  destruct t; [apply serves_register | apply serves_login | intros [_ Z]; by apply serves_profile
              | intros [_ Z]; by apply serves_logout].
Qed.

End Tasks.
