(* ===== verification/Service.v ===== *)
(** * The database pool at work (src/ThreadPool.cpp with the tasks of src/Connection.cpp)

    The threads of [dbPool_] run the tasks that the reactors submit: the queue,
    the wake-ups and the loop of [ThreadPool], and inside [task()] the programs of
    [Interleaved], call by call, on one MySQL pool, one table and one session
    store. Submissions, the steps of all threads and the expiry of store entries
    come in any order.

    Here are the state, the steps, and what holds of the pool whatever its tasks
    do; [Linear] and [Progress] have the theorems. *)

From S2P Require Import Prelude Config Connection ThreadPool Interfaces Mysql Handlers Interleaved.

Section Service.
Context {K S D G : Type} `{SessionStore S} `{MysqlServer D}.
Context (draw : G -> nat * G).
Notation Back := (Backend K S D G).
Notation Prog := (@prog K S D G unit).

(** ** State and steps *)

(** What can be seen of the service: tasks begin, and are answered. Tasks are
    numbered in the order of their submission. *)
Inductive log_event : Type :=
| LBegan (n : nat) (t : db_task)
| LReplied (n : nat) (r : reply).

Record service : Type := mkService {
  sv_pool : ThreadPool (nat * db_task);
  sv_back : Back;
  sv_rngs : list (option G);     (* the [thread_local] generator of each thread *)
  sv_progs : list Prog;          (* where each thread is in its task *)
  sv_log : list log_event        (* history *)
}.

Definition set_pool (p : ThreadPool (nat * db_task)) (s : service) : service :=
  mkService p (sv_back s) (sv_rngs s) (sv_progs s) (sv_log s).

Inductive slabel : Type :=
| Submit (t : db_task)         (* a reactor calls [dbPool_->add] *)
| Wake (o : option nat)        (* its [notify_one] *)
| Begin (i : nat)              (* thread [i] in the locked section of its loop *)
| Exec (i : nat)               (* the next call of the task of thread [i] *)
| Finish (i : nat)             (* [task()] returns *)
| Rouse (i : nat)              (* a spurious wake-up *)
| Shut                         (* the destructor sets [stop_] *)
| ShutAll                      (* and wakes everybody *)
| Expire (e : S -> S).         (* entries of the store reach their time to live *)

Definition pool_step (l : label (nat * db_task)) (s : service) : option service :=
  p ← step l (sv_pool s); Some (set_pool p s).

(** The task of thread [i] makes its next call, or sends its answer. *)
Definition exec_step (i n : nat) (m : Prog) (g : option G) (s : service) : option service :=
  let b := set_rng g (sv_back s) in
  match m with
  | End_ _ => None
  | Call f k =>
      let '(b', x) := f b in
      Some (mkService (sv_pool s) b' (<[i := b_rng b']> (sv_rngs s)) (<[i := k x]> (sv_progs s)) (sv_log s))
  | Answer fd code body ka k =>
      Some (mkService (sv_pool s) (set_world (sent fd code body ka (b_world b)) b) (sv_rngs s)
              (<[i := k]> (sv_progs s)) (sv_log s ++ [LReplied n (code, body)]))
  end.

Definition sstep (l : slabel) (s : service) : option service :=
  match l with
  | Submit t => pool_step (Add (length (accepted (sv_pool s)), t)) s
  | Wake o => pool_step (Notify o) s
  | Begin i =>
      s' ← pool_step (Section_ i) s;
      match threads_ (sv_pool s') !! i with
      | Some (Running (n, t)) =>
          Some (mkService (sv_pool s') (sv_back s') (sv_rngs s') (<[i := task_prog draw t]> (sv_progs s'))
                  (sv_log s' ++ [LBegan n t]))
      | _ => Some s'
      end
  | Exec i =>
      match threads_ (sv_pool s) !! i, sv_progs s !! i, sv_rngs s !! i with
      | Some (Running (n, _)), Some m, Some g => exec_step i n m g s
      | _, _, _ => None
      end
  | Finish i =>
      match sv_progs s !! i with Some (End_ _) => pool_step (Done i) s | _ => None end
  | Rouse i => pool_step (Spurious i) s
  | Shut => pool_step Stop s
  | ShutAll => pool_step NotifyAll s
  | Expire e => Some (mkService (sv_pool s) (set_store (e (b_store (sv_back s))) (sv_back s)) (sv_rngs s)
                        (sv_progs s) (sv_log s))
  end.

Fixpoint srun (ls : list slabel) (s : service) : option service :=
  match ls with
  | [] => Some s
  | l :: ls => match sstep l s with Some s' => srun ls s' | None => None end
  end.

(** [size] threads on the back end [b]. *)
Definition new_service (size : Z) (b : Back) : service :=
  mkService (new_ThreadPool size) b (replicate (Z.to_nat size) None)
    (replicate (Z.to_nat size) (End_ (DRet tt))) [].

Lemma srun_ind (ok : slabel -> Prop) (I : service -> Prop) ls s s' :
  (forall l s s', ok l -> I s -> sstep l s = Some s' -> I s') ->
  Forall ok ls -> I s -> srun ls s = Some s' -> I s'.
Proof.
  intros St F. revert s. induction F as [|l ls Hl F IH]; intros s Is; simpl; [by intros [= <-]|].
  destruct (sstep l s) eqn:E; [|done]. apply IH. by eapply St.
Qed.

(** What the threads do of themselves. *)
Definition own (l : slabel) : bool :=
  match l with Wake _ | Begin _ | Exec _ | Finish _ => true | _ => false end.

(** No thread has anything to do. *)
Definition at_rest (s : service) : Prop := forall l, own l = true -> sstep l s = None.

(** The answers to task [n]. *)
Definition replies (n : nat) (log : list log_event) : list reply :=
  omap (fun e => match e with LReplied n' r => if decide (n' = n) then Some r else None | _ => None end) log.

Lemma replies_app n l l' : replies n (l ++ l') = replies n l ++ replies n l'.
Proof. apply omap_app. Qed.

(** ** The pool and its tasks *)

Context (size : nat) (conns : list nat).

(** What holds of the pool whatever the tasks do: [size] threads; tasks numbered
    in order, each with [T]; [P] for the program of a running task and the
    connection it holds, [F] for tasks that have not begun, [Q] for those that
    are finished; idle and held connections together are [conns]. *)
Record staffed (T : db_task -> Prop) (P : nat -> db_task -> Prog -> option nat -> Prop)
    (F : nat -> Prop) (Q : nat -> db_task -> Prop) (s : service) (held : list (option nat)) : Prop := {
  sf_pool : pool_inv size (sv_pool s);
  sf_ids : fst <$> accepted (sv_pool s) = seq 0 (length (accepted (sv_pool s)));
  sf_tasks x : x ∈ accepted (sv_pool s) -> T x.2;
  sf_worker i w : threads_ (sv_pool s) !! i = Some w ->
    exists m o, sv_progs s !! i = Some m /\ held !! i = Some o /\
      match w with Running (n, t) => P n t m o | _ => o = None end;
  sf_held : mpool_ (b_mysql (sv_back s)) ++ mjoin (option_list <$> held) ≡ₚ conns;
  sf_size : length held = size;
  sf_fresh n : n ∉ fst <$> started (sv_pool s) -> F n;
  sf_done n t : (n, t) ∈ finished (sv_pool s) -> Q n t
}.

(** *** Task numbers *)

Lemma started_ids (p : ThreadPool (nat * db_task)) :
  pool_inv size p -> fst <$> accepted p = seq 0 (length (accepted p)) ->
  NoDup (fst <$> finished p ++ running (threads_ p)) /\ NoDup ((fst <$> started p) ++ (fst <$> tasks_ p)).
Proof.
  intros I E. assert (NoDup (fst <$> accepted p)) as N by (rewrite E; apply NoDup_seq).
  rewrite (inv_fifo _ _ I), fmap_app in N. split; [|done].
  rewrite <- (inv_once _ _ I). by apply NoDup_app in N as [? _].
Qed.

Lemma running_elem (ws : list (worker (nat * db_task))) i x : ws !! i = Some (Running x) -> x ∈ running ws.
Proof. intros E. apply list_elem_of_omap. exists (Running x). split; [by eapply list_elem_of_lookup_2 | done]. Qed.

Lemma running_distinct (ws : list (worker (nat * db_task))) i j x y :
  NoDup (fst <$> running ws) -> ws !! i = Some (Running x) -> ws !! j = Some (Running y) -> x.1 = y.1 -> i = j.
Proof.
  unfold running. revert i j. induction ws as [|w ws IH]; intros [|i] [|j] N Ei Ej E; simplify_eq/=; try done.
  - apply NoDup_cons in N as [N _]. destruct N. rewrite E. apply list_elem_of_fmap_2. by eapply running_elem.
  - apply NoDup_cons in N as [N _]. destruct N. rewrite <- E. apply list_elem_of_fmap_2. by eapply running_elem.
  - f_equal. apply IH; try done. destruct w; simpl in N; try done. by apply NoDup_cons in N as [_ N].
Qed.

(** A running task has begun, is not finished, and runs on one thread. *)
Lemma running_begun (p : ThreadPool (nat * db_task)) i n t :
  pool_inv size p -> fst <$> accepted p = seq 0 (length (accepted p)) -> threads_ p !! i = Some (Running (n, t)) ->
  n ∈ fst <$> started p /\ n ∉ fst <$> finished p /\
  forall j x, threads_ p !! j = Some (Running x) -> x.1 = n -> j = i.
Proof.
  intros Ip Id Ti. destruct (started_ids _ Ip Id) as [Nd _]. rewrite fmap_app in Nd.
  apply NoDup_app in Nd as (_ & Nf & Nr).
  assert (n ∈ fst <$> running (threads_ p)) as Rr
    by (apply (list_elem_of_fmap_2 fst _ (n, t)); by eapply running_elem).
  split; [rewrite (inv_once _ _ Ip), fmap_app; apply elem_of_app; by right|].
  split; [intros I; by apply (Nf n)|]. intros j x Tj E. by eapply running_distinct.
Qed.

(** *** Connections *)

Lemma held_insert (held : list (option nat)) i o o' p p' :
  held !! i = Some o -> p' ++ option_list o' ≡ₚ p ++ option_list o ->
  p' ++ mjoin (option_list <$> <[i:=o']> held) ≡ₚ p ++ mjoin (option_list <$> held).
Proof.
  intros O P. apply list_elem_of_split_length in O as (l1 & l2 & -> & ->).
  rewrite insert_app_r_alt, Nat.sub_diag by lia. cbn [list_insert insert].
  rewrite !fmap_app, !join_app, !fmap_cons. cbn [mjoin list_join].
  rewrite (Permutation_app_swap_app _ (option_list o') _), (Permutation_app_swap_app _ (option_list o) _).
  rewrite !app_assoc. by rewrite P.
Qed.

(** Whether the pool can be empty when a task asks. *)
Definition scarce : bool := negb (size <=? length conns)%nat.

(** Whoever asks for a connection is not one of those that hold one. *)
Lemma pool_available T P F Q s held i :
  staffed T P F Q s held -> scarce = false -> held !! i = Some None -> mpool_ (b_mysql (sv_back s)) <> [].
Proof.
  intros L Sc Hi E. pose proof (Permutation_length (sf_held _ _ _ _ _ _ L)) as Pm. rewrite E in Pm. simpl in Pm.
  assert (size <= length conns)%nat by (unfold scarce in Sc; apply negb_false_iff, Nat.leb_le in Sc; lia).
  assert (forall l : list (option nat), length (mjoin (option_list <$> l)) <= length l)%nat as Le.
  { induction l as [|o l IHl]; [done|]. rewrite fmap_cons. cbn [mjoin list_join]. rewrite length_app.
    destruct o; simpl; unfold mjoin in *; lia. }
  apply list_elem_of_split_length in Hi as (l1 & l2 & Eh & _). pose proof (sf_size _ _ _ _ _ _ L) as Ls. subst held.
  rewrite fmap_app, join_app, fmap_cons, length_app in Pm. cbn [mjoin list_join option_list] in Pm. simpl in Pm.
  rewrite length_app in Ls. simpl in Ls. pose proof (Le l1). pose proof (Le l2). unfold mjoin in *. lia.
Qed.

(** *** Steps keep it *)

Section Steps.
Context (T : db_task -> Prop) (P P' : nat -> db_task -> Prog -> option nat -> Prop)
  (F F' : nat -> Prop) (Q Q' : nat -> db_task -> Prop).

(** The task of thread [i] makes a step, which says nothing of other tasks. *)
Lemma staffed_exec s held i n t o b' g' m' o' log :
  staffed T P F Q s held -> threads_ (sv_pool s) !! i = Some (Running (n, t)) -> held !! i = Some o ->
  mpool_ (b_mysql b') ++ option_list o' ≡ₚ mpool_ (b_mysql (sv_back s)) ++ option_list o -> P' n t m' o' ->
  (forall n' t' m o, n' <> n -> P n' t' m o -> P' n' t' m o) ->
  (forall n', n' <> n -> F n' -> F' n') -> (forall n' t', n' <> n -> Q n' t' -> Q' n' t') ->
  staffed T P' F' Q' (mkService (sv_pool s) b' g' (<[i:=m']> (sv_progs s)) log) (<[i:=o']> held).
Proof.
  intros [Ip Id Ts Wk Hd Sz Fr Dn] Ti Ho Pm Hp HP HF HQ.
  destruct (running_begun _ _ _ _ Ip Id Ti) as (Bg & Nf & Un). split; simpl; try done.
  - intros j w Tj. destruct (Wk j w Tj) as (m & oj & Pj & Hj & Wj). destruct (decide (i = j)) as [<-|Ne].
    + exists m', o'. rewrite Ti in Tj. simplify_eq. by rewrite !list_lookup_insert_eq by (by eapply lookup_lt_Some).
    + exists m, oj. rewrite !list_lookup_insert_ne by done. do 2 (split; [done|]).
      destruct w as [| |[n' t']|]; try done. apply HP; [|done]. intros ->. by apply Ne; symmetry; eapply Un.
  - rewrite <- Hd. by eapply held_insert.
  - by rewrite length_insert.
  - intros n' Hn'. apply HF; [by intros -> | by apply Fr].
  - intros n' t' Fn. apply HQ; [|by apply Dn]. intros ->. apply Nf. by apply (list_elem_of_fmap_2 fst _ (n, t')).
Qed.

(** The predicates change, and the back end, but not its pool. *)
Lemma staffed_impl s s' held :
  staffed T P F Q s held -> sv_pool s' = sv_pool s -> sv_progs s' = sv_progs s ->
  b_mysql (sv_back s') = b_mysql (sv_back s) -> (forall n t m o, P n t m o -> P' n t m o) ->
  (forall n, F n -> F' n) -> (forall n t, Q n t -> Q' n t) -> staffed T P' F' Q' s' held.
Proof.
  intros [Ip Id Ts Wk Hd Sz Fr Dn] Ep Em Eb HP HF HQ. split; rewrite ?Ep, ?Em, ?Eb; try done; auto.
  intros i w Ti. destruct (Wk i w Ti) as (m & o & Pi & Ho & W). exists m, o. do 2 (split; [done|]).
  destruct w as [| |[n t]|]; auto.
Qed.

(** A task begins. *)
Lemma staffed_begin s held i n t rest b' g' log p' :
  staffed T P F Q s held -> threads_ (sv_pool s) !! i = Some Ready -> tasks_ (sv_pool s) = (n, t) :: rest ->
  pool_inv size p' -> threads_ p' = <[i:=Running (n, t)]> (threads_ (sv_pool s)) ->
  accepted p' = accepted (sv_pool s) -> started p' = started (sv_pool s) ++ [(n, t)] ->
  finished p' = finished (sv_pool s) -> b_mysql b' = b_mysql (sv_back s) ->
  (T t -> F n -> P' n t (task_prog draw t) None) ->
  (forall n' t' m o, n' <> n -> P n' t' m o -> P' n' t' m o) ->
  (forall n', n' <> n -> F n' -> F' n') -> (forall n' t', n' <> n -> Q n' t' -> Q' n' t') ->
  staffed T P' F' Q' (mkService p' b' g' (<[i := task_prog draw t]> (sv_progs s)) log) held.
Proof.
  intros [Ip Id Ts Wk Hd Sz Fr Dn] Ti Hq Ip' Et Ea Es Ef Eb Hn HP HF HQ.
  destruct (started_ids _ Ip Id) as [_ Ns]. rewrite Hq in Ns. apply NoDup_app in Ns as (_ & Nn & _).
  assert (n ∉ fst <$> started (sv_pool s)) as Nb by (intros I; apply (Nn n I); simpl; apply list_elem_of_here).
  assert (forall x, x ∈ finished (sv_pool s) ++ running (threads_ (sv_pool s)) -> x.1 <> n) as No.
  { intros x I <-. apply Nb. rewrite (inv_once _ _ Ip). by apply list_elem_of_fmap_2. }
  split; simpl; rewrite ?Ea, ?Eb, ?Ef; try done.
  - intros j w. rewrite Et. intros [(<- & <- & _)|[Ne Tj]]%list_lookup_insert_Some.
    + destruct (Wk i _ Ti) as (m & o & Pi & Ho & ->). exists (task_prog draw t), None.
      rewrite list_lookup_insert_eq by (by eapply lookup_lt_Some). do 2 (split; [done|]).
      apply Hn; [|by apply Fr]. apply (Ts (n, t)). rewrite (inv_fifo _ _ Ip), Hq. set_solver.
    + destruct (Wk j w Tj) as (m & o & Pj & Ho & W). exists m, o. rewrite list_lookup_insert_ne by done.
      do 2 (split; [done|]). destruct w as [| |[n' t']|]; try done. apply HP; [|done].
      apply (No (n', t')). apply elem_of_app. right. by eapply running_elem.
  - intros n' Hn'. rewrite Es, fmap_app, elem_of_app in Hn'. apply HF; [|apply Fr; tauto].
    intros ->. apply Hn'. right. simpl. apply list_elem_of_here.
  - intros n' t' Fn. apply HQ; [|by apply Dn]. apply (No (n', t')). apply elem_of_app. by left.
Qed.

End Steps.

Section PoolSteps.
Context (T : db_task -> Prop) (P : nat -> db_task -> Prog -> option nat -> Prop)
  (F : nat -> Prop) (Q : nat -> db_task -> Prop).
Notation staffed := (staffed T P F Q).

(** Steps of the pool that start and end no task. *)
Lemma staffed_idle s held p' :
  staffed s held -> pool_inv size p' -> accepted p' = accepted (sv_pool s) ->
  started p' = started (sv_pool s) -> finished p' = finished (sv_pool s) ->
  (forall i w', threads_ p' !! i = Some w' -> exists w, threads_ (sv_pool s) !! i = Some w /\
     (w' = w \/ task_of w = None /\ task_of w' = None)) ->
  staffed (set_pool p' s) held.
Proof.
  intros [Ip Id Ts Wk Hd Sz Fr Dn] Ip' Ea Es Ef Et. split; simpl; rewrite ?Ea, ?Es, ?Ef; try done.
  intros i w' T'. destruct (Et i w' T') as (w & Ti & Ew). destruct (Wk i w Ti) as (m & o & Pi & Ho & W).
  exists m, o. do 2 (split; [done|]). destruct Ew as [-> | [E E']]; [done|]. destruct w, w'; done.
Qed.

Lemma insert_idle (ws : list (worker (nat * db_task))) j w0 w1 i w' :
  ws !! j = Some w0 -> task_of w0 = None -> task_of w1 = None -> <[j:=w1]> ws !! i = Some w' ->
  exists w, ws !! i = Some w /\ (w' = w \/ task_of w = None /\ task_of w' = None).
Proof.
  intros E0 N0 N1 [(<- & <- & _)|[_ E]]%list_lookup_insert_Some; [exists w0 | exists w']; auto.
Qed.

Lemma staffed_pool_step l s s' held :
  (match l with Notify _ | Spurious _ | Stop | NotifyAll => True | _ => False end) ->
  staffed s held -> pool_step l s = Some s' -> staffed s' held.
Proof.
  intros Hl L E. unfold pool_step in E. destruct (step l (sv_pool s)) as [p'|] eqn:Es; [|done]. injection E as <-.
  apply staffed_idle; try done; [by eapply inv_step, Es; apply L| ..];
    destruct l as [t|[j|]|j|j|j| |]; simpl in Es; try done;
    repeat match goal with
    | H : context [decide ?P] |- _ => destruct (decide P); [|done]
    | H : context [if ?c then _ else _] |- _ => destruct c; try done
    | H : context [match threads_ ?p !! ?j with _ => _ end] |- _ => destruct (threads_ p !! j) as [[]|] eqn:?; try done
    end; injection Es as <-; simpl; try done; try (intros i w'; by eapply insert_idle); eauto.
  intros i w' Ti. apply list_lookup_fmap_Some in Ti as (w & -> & Ti). exists w. split; [done|]. destruct w; auto.
Qed.

Lemma staffed_submit t s s' held :
  T t -> staffed s held -> sstep (Submit t) s = Some s' -> staffed s' held.
Proof.
  intros Pt L E. simpl in E. unfold pool_step in E.
  destruct (step _ (sv_pool s)) as [p'|] eqn:Es; [|done]. injection E as <-.
  pose proof (inv_step _ _ _ _ (sf_pool _ _ _ _ _ _ L) Es) as Ip'. destruct L as [Ip Id Ts Wk Hd Sz Fr Dn].
  simpl in Es. unfold add in Es. destruct (stop_ (sv_pool s)); injection Es as <-; [by destruct s; split|].
  split; simpl; try done.
  - rewrite fmap_app, length_app, seq_app, Id. done.
  - intros x [I|I]%elem_of_app; [by apply Ts|]. apply list_elem_of_singleton in I as ->. done.
Qed.

Lemma staffed_finish i s s' held :
  (forall n t r o, P n t (End_ r) o -> o = None /\ Q n t) ->
  staffed s held -> sstep (Finish i) s = Some s' -> staffed s' held.
Proof.
  intros HE L E. simpl in E. destruct (sv_progs s !! i) as [[r| |]|] eqn:Pi; try done. unfold pool_step, step in E.
  destruct (threads_ (sv_pool s) !! i) as [[| |[n t]|]|] eqn:Ti; try done. injection E as <-.
  pose proof (inv_done _ _ _ _ (sf_pool _ _ _ _ _ _ L) Ti) as Ip'. destruct L as [Ip Id Ts Wk Hd Sz Fr Dn].
  destruct (Wk i _ Ti) as (m & o & Pi' & Ho & W). rewrite Pi in Pi'. injection Pi' as <-.
  destruct (HE _ _ _ _ W) as [-> Hq]. split; simpl; try done.
  - intros j w [(<- & <- & _)|[_ Tj]]%list_lookup_insert_Some; [|by apply Wk].
    eexists _, None. done.
  - intros n' t' [I|I]%elem_of_app; [by apply Dn|]. by apply list_elem_of_singleton in I as [= -> ->].
Qed.

(** The locked section of the loop: a task begins, or none does. *)
Lemma begin_cases i s s' held :
  staffed s held -> sstep (Begin i) s = Some s' ->
  threads_ (sv_pool s) !! i = Some Ready /\
  (staffed s' held /\ sv_log s' = sv_log s /\ sv_back s' = sv_back s \/
   exists n t rest p', tasks_ (sv_pool s) = (n, t) :: rest /\ pool_inv size p' /\
     threads_ p' = <[i:=Running (n, t)]> (threads_ (sv_pool s)) /\ accepted p' = accepted (sv_pool s) /\
     started p' = started (sv_pool s) ++ [(n, t)] /\ finished p' = finished (sv_pool s) /\
     s' = mkService p' (sv_back s) (sv_rngs s) (<[i := task_prog draw t]> (sv_progs s)) (sv_log s ++ [LBegan n t])).
Proof.
  intros L E. simpl in E. unfold pool_step, step in E.
  destruct (threads_ (sv_pool s) !! i) as [[]|] eqn:Ti; try done. split; [done|].
  simpl in E. pose proof (inv_section _ _ _ (sf_pool _ _ _ _ _ _ L) Ti) as Ip'. unfold worker_section in *.
  assert (i < length (threads_ (sv_pool s)))%nat as Hi by (by eapply lookup_lt_Some).
  destruct (tasks_ (sv_pool s)) as [|[n t] rest] eqn:Hq.
  - left. destruct (stop_ (sv_pool s)); simpl in *; rewrite list_lookup_insert_eq in E by done;
      injection E as <-; (split; [apply staffed_idle; [done..|]; intros j w'; by eapply insert_idle | done]).
  - right. rewrite orb_true_r in *. simpl in E. rewrite list_lookup_insert_eq in E by done. injection E as <-.
    eexists n, t, rest, _. split; [done|]. split; [exact Ip'|]. done.
Qed.

Lemma new_staffed sz b :
  size = Z.to_nat sz -> conns = mpool_ (b_mysql b) -> (forall n, F n) ->
  staffed (new_service sz b) (replicate size None).
Proof.
  intros Es Ec HF. split; simpl; try done.
  - rewrite Es. apply inv_init.
  - by intros x I%not_elem_of_nil.
  - intros i w [-> L]%lookup_replicate. exists (End_ (DRet tt)), None.
    by rewrite !lookup_replicate_2 by (rewrite ?Es; lia).
  - rewrite Ec. clear. induction size; [by rewrite app_nil_r | done].
  - apply length_replicate.
  - by intros n t I%not_elem_of_nil.
Qed.

End PoolSteps.

End Service.
