(* ===== verification/Linear.v ===== *)
(** * The database pool is linearizable (src/ThreadPool.cpp with src/Connection.cpp)

    Whatever the schedule, every task takes effect at one moment between its start
    and its answer, and the effects in the order of these moments are a run of the
    account service, on a back end that works. The history of the service is
    marked where tasks take effect; the marks come from [Atomic]. *)

From S2P Require Import Prelude CppString Config Http Json Channel Framing Connection WritePath ReadPath.
From S2P Require Import ThreadPool Interfaces Mysql Redis Handlers Accounts Interleaved Atomic Service.

(** ** Marking the moments *)

(** A marked history: the log, with a mark where a task takes effect. *)
Inductive mark : Type :=
| MBegan (n : nat) (t : db_task)
| MTakes (n : nat) (t : db_task) (r : reply)
| MReplied (n : nat) (r : reply).

Definition mark_task (m : mark) : nat :=
  match m with MBegan n _ | MTakes n _ _ | MReplied n _ => n end.

Definition marks_of (n : nat) (tr : list mark) : list mark := filter (fun m => mark_task m = n) tr.

Definition erase (tr : list mark) : list log_event :=
  omap (fun m => match m with
                 | MBegan n t => Some (LBegan n t) | MTakes _ _ _ => None | MReplied n r => Some (LReplied n r)
                 end) tr.

(** The effects, in order. *)
Definition takes (tr : list mark) : list (db_task * reply) :=
  omap (fun m => match m with MTakes _ t r => Some (t, r) | _ => None end) tr.

(** The answers to a task are among its marks. *)
Lemma replies_erase n tr :
  replies n (erase tr) =
  omap (fun m => match m with MReplied n' r => if decide (n' = n) then Some r else None | _ => None end) (marks_of n tr).
Proof.
  unfold replies, erase, marks_of. induction tr as [|m tr IH]; [done|]. rewrite filter_cons.
  destruct m as [n' t|n' t r|n' r]; simpl; repeat case_decide; simplify_eq/=; rewrite ?decide_True by done; by rewrite ?IH.
Qed.

(** What the history says of a task, by its phase. *)
Definition lived (n : nat) (t : db_task) (ph : phase) (l : list mark) : Prop :=
  match ph with
  | Pending => l = [MBegan n t]
  | Decided r => l = [MBegan n t; MTakes n t r]
  | Replied => exists r, l = [MBegan n t; MTakes n t r; MReplied n r]
  end.

Lemma marks_of_app n tr tr' : marks_of n (tr ++ tr') = marks_of n tr ++ marks_of n tr'.
Proof. apply filter_app. Qed.

Lemma marks_of_own n tr : Forall (fun m => mark_task m = n) tr -> marks_of n tr = tr.
Proof.
  unfold marks_of. induction 1 as [|m tr E F IH]; [done|]. by rewrite filter_cons_True, IH.
Qed.

Lemma marks_of_other n n' tr : Forall (fun m => mark_task m = n) tr -> n' <> n -> marks_of n' tr = [].
Proof.
  intros F Ne. unfold marks_of. induction F as [|m tr E F IH]; [done|]. rewrite filter_cons_False; [done | congruence].
Qed.

Lemma takes_app tr tr' : takes (tr ++ tr') = takes tr ++ takes tr'.
Proof. apply omap_app. Qed.

Lemma erase_app tr tr' : erase (tr ++ tr') = erase tr ++ erase tr'.
Proof. apply omap_app. Qed.

(** Marks of task [n] leave the others as they are. *)
Lemma lived_other n n' t ph tr more :
  Forall (fun mk => mark_task mk = n) more -> n' <> n -> lived n' t ph (marks_of n' tr) ->
  lived n' t ph (marks_of n' (tr ++ more)).
Proof. intros F Ne Lv. by rewrite marks_of_app, (marks_of_other n n' more), app_nil_r. Qed.

Lemma marks_other_nil n n' tr more :
  Forall (fun mk => mark_task mk = n) more -> n' <> n -> marks_of n' tr = [] -> marks_of n' (tr ++ more) = [].
Proof. intros F Ne E. by rewrite marks_of_app, E, (marks_of_other n n' more). Qed.

(** ** The invariant *)

Section Linear.
Context {K S D G : Type} `{SessionStore S} `{MysqlServer D}.
Context (draw : G -> nat * G) (draw_range : forall g, (fst (draw g) < length charset)%nat).
Context (size : nat) (a0 : accounts) (conns : list nat).
Notation Back := (Backend K S D G).
Notation Prog := (@prog K S D G unit).
Notation service := (@service K S D G).
Notation scarce := (scarce size conns).

(** What may be submitted, and how entries may expire. *)
Definition label_ok (l : slabel (S := S)) : Prop :=
  match l with Submit t => task_plain (D := D) t | Expire e => expiry e | _ => True end.

(** A running task is as good as its phase says, and marked accordingly. *)
Definition task_ok (tr : list mark) (a : accounts) (n : nat) (t : db_task) (m : Prog) (o : option nat) : Prop :=
  exists ph, serves scarce t m o ph a /\ lived n t ph (marks_of n tr).

(** [tr] marks the history, [a] is the abstract state it leads to, [held] the
    connection each thread holds. *)
Record linear (s : service) (tr : list mark) (a : accounts) (held : list (option nat)) : Prop := {
  ln_log : erase tr = sv_log s;
  ln_run : service_run mysql_same scarce a0 (takes tr) a;
  ln_backs : backs (sv_back s) a;
  ln_staffed : staffed size conns (task_plain (D := D)) (task_ok tr a) (fun n => marks_of n tr = [])
                 (fun n t => lived n t Replied (marks_of n tr)) s held
}.

Lemma task_ok_other n n' t tr more a a' m o :
  knows a a' -> Forall (fun mk => mark_task mk = n) more -> n' <> n -> task_ok tr a n' t m o ->
  task_ok (tr ++ more) a' n' t m o.
Proof.
  intros Kn F Ne (ph & Sv & Lv). exists ph. split; [by eapply serves_mono | by eapply lived_other].
Qed.

(** ** Steps keep it *)

(** The task of thread [i] makes a step. *)
Lemma linear_exec s tr a held i n t o b' g' m' o' ph' a' more :
  linear s tr a held -> threads_ (sv_pool s) !! i = Some (Running (n, t)) -> held !! i = Some o ->
  knows a a' -> backs b' a' -> service_run mysql_same scarce a0 (takes (tr ++ more)) a' ->
  mpool_ (b_mysql b') ++ option_list o' ≡ₚ mpool_ (b_mysql (sv_back s)) ++ option_list o ->
  Forall (fun mk => mark_task mk = n) more -> lived n t ph' (marks_of n tr ++ more) -> serves scarce t m' o' ph' a' ->
  linear (mkService (sv_pool s) b' g' (<[i:=m']> (sv_progs s)) (sv_log s ++ erase more)) (tr ++ more) a' (<[i:=o']> held).
Proof.
  intros [Lg Rn Bk Sf] T Ho Kn Bk' Rn' Pm Fm Lv Sv. split; simpl; try done; [by rewrite erase_app, Lg|].
  eapply staffed_exec; [done..| | | |].
  - exists ph'. split; [done|]. by rewrite marks_of_app, (marks_of_own n more).
  - intros n' t' m1 o1 Ne. by eapply task_ok_other.
  - intros n' Ne. by eapply marks_other_nil.
  - intros n' t' Ne. by apply (lived_other n n' t' Replied).
Qed.

(** A call of the task, with its effect, or an answer. *)
Lemma exec_linear s s' tr a held i n t m g :
  linear s tr a held -> threads_ (sv_pool s) !! i = Some (Running (n, t)) -> sv_progs s !! i = Some m ->
  exec_step i n m g s = Some s' -> exists tr' a' held', linear s' tr' a' held'.
Proof.
  intros L T Pm E. destruct (sf_worker _ _ _ _ _ _ _ _ (ln_staffed _ _ _ _ L) i _ T) as (m1 & o & Pm1 & Ho & ph & Sv & Lv).
  rewrite Pm in Pm1. injection Pm1 as <-. unfold exec_step in E.
  assert (backs (set_rng g (sv_back s)) a) as Bg by (by destruct (ln_backs _ _ _ _ L); split).
  destruct m as [r|X f k|fd code body ka k]; [done| |].
  - destruct (Sv (set_rng g (sv_back s)) a) as (o' & ph' & a' & De & Bk' & Pmm & Sv'); [by intros u p | done | |].
    { intros Sc ->. eapply pool_available; [apply L | done..]. }
    pose proof (decides_knows _ _ _ _ _ _ _ _ (bk_stores _ _ (ln_backs _ _ _ _ L)) De) as Kn.
    destruct (f (set_rng g (sv_back s))) as [b' x]. simpl in *. injection E as <-.
    destruct De as [[-> ->]|(-> & r & -> & St)].
    + exists (tr ++ []), a, (<[i:=o']> held). rewrite <- (app_nil_r (sv_log s)).
      eapply (linear_exec _ _ _ _ _ _ _ _ _ _ _ _ ph _ []); try done; [|by rewrite app_nil_r].
      rewrite app_nil_r. apply L.
    + exists (tr ++ [MTakes n t r]), a', (<[i:=o']> held). rewrite <- (app_nil_r (sv_log s)).
      eapply (linear_exec _ _ _ _ _ _ _ _ _ _ _ _ (Decided r) _ [MTakes n t r]); try done;
        [| by constructor | by rewrite Lv].
      rewrite takes_app. eapply serve_one; [apply L | done].
  - injection E as <-. assert (knows a a) as Kn by by intros u p. destruct Sv as (-> & -> & Hd & Sk). destruct Hd as [-> | [-> St]].
    + exists (tr ++ [MReplied n (code, body)]), a, (<[i:=o]> held).
      eapply (linear_exec _ _ _ _ _ _ _ _ _ _ _ _ Replied _ [MReplied n (code, body)]); try done;
        [by destruct Bg; split | | by constructor | exists (code, body); by rewrite Lv].
      rewrite takes_app, app_nil_r. apply L.
    + exists (tr ++ [MTakes n t (code, body); MReplied n (code, body)]), a, (<[i:=o]> held).
      eapply (linear_exec _ _ _ _ _ _ _ _ _ _ _ _ Replied _ [MTakes n t (code, body); MReplied n (code, body)]);
        try done; [by destruct Bg; split | | by repeat constructor | exists (code, body); by rewrite Lv].
      rewrite takes_app. eapply serve_one; [apply L | by apply St].
Qed.

Lemma linear_pool_step l s s' tr a held :
  (match l with Notify _ | Spurious _ | Stop | NotifyAll => True | _ => False end) ->
  linear s tr a held -> pool_step l s = Some s' -> linear s' tr a held.
Proof.
  intros Hl [Lg Rn Bk Sf] E. pose proof (staffed_pool_step _ _ _ _ _ _ _ _ _ _ Hl Sf E) as Sf'.
  unfold pool_step in E. destruct (step l (sv_pool s)); [|done]. injection E as <-. by split.
Qed.

Lemma begin_linear i s s' tr a held :
  linear s tr a held -> sstep draw (Begin i) s = Some s' -> exists tr', linear s' tr' a held.
Proof.
  intros [Lg Rn Bk Sf] E. destruct (begin_cases _ _ _ _ _ _ _ _ _ _ _ Sf E)
    as (Ti & [(Sf' & El & Eb)|(n & t & rest & p' & Q & Ip' & Et & Ea & Es & Ef & ->)]).
  { exists tr. split; rewrite ?El, ?Eb; done. }
  exists (tr ++ [MBegan n t]). assert (Forall (fun mk => mark_task mk = n) [MBegan n t]) as Fm by by repeat constructor.
  split; simpl; [by rewrite erase_app, Lg | by rewrite takes_app, app_nil_r | done|].
  eapply staffed_begin; try done.
  - intros Pt Fr. exists Pending. split; [by apply serves_task|]. by rewrite marks_of_app, Fr, (marks_of_own n).
  - intros n' t' m o Ne. eapply task_ok_other; [by intros u p | done..].
  - intros n' Ne. by eapply marks_other_nil.
  - intros n' t' Ne. by apply (lived_other n n' t' Replied).
Qed.

Lemma expire_linear e s s' tr a held :
  expiry e -> linear s tr a held -> sstep draw (Expire e) s = Some s' -> exists a', linear s' tr a' held.
Proof.
  intros He [Lg Rn Bk Sf] [= <-]. destruct (He (b_store (sv_back s)) (bk_store _ _ Bk)) as [Hs V].
  destruct (stores_expire _ _ _ _ (bk_stores _ _ Bk) V) as (a' & X & St'). exists a'. split; simpl; try done.
  - by eapply serve_expire.
  - by destruct Bk; split.
  - eapply staffed_impl; try done. intros n t m o (ph & Sv & Lv). exists ph. split; [|done].
    eapply serves_mono; [|done]. intros u p. by rewrite (proj1 X).
Qed.

Lemma sstep_linear l s s' tr a held :
  label_ok l -> linear s tr a held -> sstep draw l s = Some s' -> exists tr' a' held', linear s' tr' a' held'.
Proof.
  intros Hl L E. destruct l as [t|o|i|i|i|i| | |e].
  - exists tr, a, held. pose proof L as [Lg Rn Bk Sf].
    pose proof (staffed_submit _ _ _ _ _ _ _ _ _ _ _ Hl Sf E) as Sf'. simpl in E. unfold pool_step in E.
    destruct (step _ _); [|done]. injection E as <-. by split.
  - exists tr, a, held. by eapply (linear_pool_step (Notify o)).
  - destruct (begin_linear i s s' tr a held L E) as [tr' L']. by exists tr', a, held.
  - simpl in E. destruct (threads_ (sv_pool s) !! i) as [[| |[n t]|]|] eqn:T; try done.
    destruct (sv_progs s !! i) as [m|] eqn:Pm; [|done]. destruct (sv_rngs s !! i); [|done]. by eapply exec_linear.
  - exists tr, a, held. pose proof L as [Lg Rn Bk Sf].
    assert (forall n t r o, task_ok tr a n t (End_ r) o -> o = None /\ lived n t Replied (marks_of n tr)) as HE.
    { intros n t r o (ph & (_ & -> & ->) & Lv). done. }
    pose proof (staffed_finish _ _ _ _ _ _ _ _ _ _ _ HE Sf E) as Sf'. simpl in E.
    destruct (sv_progs s !! i) as [[]|]; try done. unfold pool_step in E.
    destruct (step _ _); [|done]. injection E as <-. by split.
  - exists tr, a, held. by eapply (linear_pool_step (Spurious i)).
  - exists tr, a, held. by eapply (linear_pool_step Stop).
  - exists tr, a, held. by eapply (linear_pool_step NotifyAll).
  - exists tr. destruct (expire_linear e s s' tr a held) as [a' L']; [done..|]. by exists a', held.
Qed.

Lemma srun_linear ls sz b s :
  size = Z.to_nat sz -> backs b a0 -> conns = mpool_ (b_mysql b) -> Forall label_ok ls ->
  srun draw ls (new_service sz b) = Some s -> exists tr a held, linear s tr a held.
Proof.
  intros Es Bk Ec F. apply (srun_ind draw label_ok (fun s => exists tr a held, linear s tr a held)); [|done|].
  - intros l s1 s2 Hl (tr & a & held & L). by eapply sstep_linear.
  - exists [], a0, (replicate size None). split; simpl; [done | constructor | done|]. by apply new_staffed.
Qed.

(** ** Reading the marks *)

Lemma lived_prefix n t ph l : lived n t ph l -> exists r, l `prefix_of` [MBegan n t; MTakes n t r; MReplied n r].
Proof.
  destruct ph as [|r|]; simpl.
  - intros ->. exists (0, []). by eexists.
  - intros ->. exists r. by eexists.
  - intros [r ->]. by exists r.
Qed.

(** Every task begins, takes effect and is answered, in this order and once. *)
Definition marked (s : service) (tr : list mark) : Prop :=
  erase tr = sv_log s /\
  forall n, marks_of n tr = [] \/ exists t r, (n, t) ∈ accepted (sv_pool s) /\
    marks_of n tr `prefix_of` [MBegan n t; MTakes n t r; MReplied n r].

Lemma linear_marked s tr a held : linear s tr a held -> marked s tr.
Proof.
  intros [Lg Rn Bk [Ip Id Ts Wk Hd Sz Fr Dn]]. split; [done|]. intros n.
  destruct (decide (n ∈ fst <$> started (sv_pool s))) as [I|I]; [|left; by apply Fr]. right.
  apply list_elem_of_fmap in I as ([n' t] & E & I). simpl in E. subst n'. exists t.
  assert (exists ph, lived n t ph (marks_of n tr)) as (ph & Lv).
  { rewrite (inv_once _ _ Ip) in I. apply elem_of_app in I as [I|I]; [exists Replied; by apply Dn|].
    apply list_elem_of_omap in I as (w & I & Ew). apply list_elem_of_lookup in I as [i T].
    destruct w as [| |x|]; try done. injection Ew as ->.
    destruct (Wk i _ T) as (m & o & _ & _ & ph & _ & Lv). by exists ph. }
  destruct (lived_prefix _ _ _ _ Lv) as [r Hr]. exists r. split; [|done].
  rewrite (inv_fifo _ _ Ip). apply elem_of_app. by left.
Qed.

End Linear.

(** ** Properties *)

Section Properties.
Context {K S D G : Type} `{SessionStore S} `{MysqlServer D}.
Context (draw : G -> nat * G) (draw_range : forall g, (fst (draw g) < length charset)%nat).
Context (size : Z) (b : Backend K S D G) (a : accounts).

(** The abstract service behind [size] threads and the connections of [b]. *)
Notation service_run :=
  (service_run mysql_same (scarce (Z.to_nat size) (mpool_ (b_mysql b)))).

(** C5: the database pool is linearizable. Conditions: MySQL is up, the store is
    healthy, the generator can be seeded and draws within its alphabet, table and store hold the state [a] of
    the account service, and the submitted tasks are plain: no NUL
    byte in a name, in the password of a registration or in a token, no empty
    name, and registered text that the columns accept. (For names with NUL bytes
    it is false, by [nul_name_takes_over].)
    Whichever such tasks are then submitted and however the threads interleave,
    call by call, with store entries expiring at any moment, every task takes
    effect at one moment between its start and its answer, and in the order of these moments the requests with their answers are
    a run of the account service, where a lost race for a name is answered 500 and
    a task is turned away with 503 only if there are fewer connections than
    threads. The table and the store hold the state this run ends in. *)
Theorem service_linearizable ls s :
  backs b a -> Forall label_ok ls -> srun draw ls (new_service size b) = Some s ->
  exists tr a', marked s tr /\ service_run a (takes tr) a' /\ backs (sv_back s) a'.
Proof.
  intros Bk F R.
  destruct (srun_linear draw draw_range (Z.to_nat size) a (mpool_ (b_mysql b)) ls size b s) as (tr & a' & held & L); try done.
  exists tr, a'. split; [by eapply linear_marked|]. split; apply L.
Qed.

(** C13: sessions are authentic under concurrency. Conditions: MySQL is up, the
    store is healthy and holds no session at the start, the generator can be
    seeded and draws within its alphabet, and the submitted tasks are plain: no NUL
    byte in a name, in the password of a registration or in a token, no empty
    name, and registered text that the columns accept. (For names with NUL bytes
    it is false, by [nul_name_takes_over].)
    Then, whenever a request for a profile takes effect with 200, the answer
    names a user who logged in before that, with the password of their account,
    and got exactly this token, and the token was not logged out in between. *)
Theorem service_sessions_authentic ls s :
  backs b a -> (forall t, acc_sessions a t = None) -> Forall label_ok ls ->
  srun draw ls (new_service size b) = Some s ->
  exists tr, marked s tr /\ forall i fd ka token body,
    takes tr !! i = Some (TaskProfile fd ka token, (200, body)) ->
    exists u, body = profile_json u /\ logged_in mysql_same a (take i (takes tr)) token u.
Proof.
  intros Bk N F R.
  destruct (srun_linear draw draw_range (Z.to_nat size) a (mpool_ (b_mysql b)) ls size b s) as (tr & a' & held & L); try done.
  exists tr. split; [by eapply linear_marked|]. intros i fd ka token body.
  eapply service_run_profile; [done | apply L].
Qed.

End Properties.

(** ** Witnesses *)

(** Two threads, two connections. Two clients register one name at the same
    time; the winner logs in, and asks for the profile. *)
Definition demo_schedule : list (slabel (S := gmap bytes bytes * RedisPool)) :=
  [Submit (TaskRegister 7 true (bs "ann") (bs "one")); Submit (TaskRegister 8 true (bs "ann") (bs "two"));
   Wake None; Wake None; Begin 0; Begin 1; Exec 0; Exec 1; Exec 0; Exec 1; Exec 1; Exec 0; Exec 0; Exec 0;
   Exec 1; Exec 1; Finish 0; Finish 1; Expire id;
   Submit (TaskLogin 8 true (bs "ann") (bs "two")); Submit (TaskProfile 8 true first_token); Wake None; Wake None;
   Begin 0; Exec 0; Exec 0; Exec 0; Exec 0; Exec 0; Exec 0; Exec 0; Exec 0; Begin 1; Exec 1; Exec 1;
   Finish 0; Finish 1; Begin 0; Begin 1].

Definition demo_service : service := new_service 2 (service_backend fresh_world).

Definition demo_end : service := default demo_service (srun count_draw demo_schedule demo_service).

Lemma demo_runs : srun count_draw demo_schedule demo_service = Some demo_end.
Proof.
  unfold demo_end.
  assert (bool_decide (is_Some (srun count_draw demo_schedule demo_service)) = true) as E by (vm_compute; reflexivity).
  by destruct (srun count_draw demo_schedule demo_service).
Qed.

Lemma demo_labels : Forall (label_ok (D := gmap bytes bytes)) demo_schedule.
Proof.
  unfold demo_schedule. repeat (apply Forall_cons_2; [first [exact I | apply expiry_id | idtac]|]); [..|apply Forall_nil_2];
    repeat split; try by_decide; try done; by vm_compute.
Qed.

Lemma demo_backs : backs (service_backend fresh_world) bob_only.
Proof. split; [done | by vm_compute | by eexists | apply service_represents]. Qed.

Example demo_log :
  sv_log demo_end =
    [LBegan 0 (TaskRegister 7 true (bs "ann") (bs "one")); LBegan 1 (TaskRegister 8 true (bs "ann") (bs "two"));
     LReplied 0 (500, json1 "error" "database error"); LReplied 1 (200, json1 "message" "register success");
     LBegan 2 (TaskLogin 8 true (bs "ann") (bs "two")); LReplied 2 (200, login_json first_token);
     LBegan 3 (TaskProfile 8 true first_token); LReplied 3 (200, profile_json (bs "ann"))].
Proof. vm_compute. reflexivity. Qed.

Lemma service_linearizable_witness :
  exists tr a', marked demo_end tr /\ service_run mysql_same false bob_only (takes tr) a' /\ backs (sv_back demo_end) a'.
Proof.
  apply (service_linearizable count_draw count_draw_range 2 (service_backend fresh_world) bob_only demo_schedule demo_end);
    [apply demo_backs | apply demo_labels | apply demo_runs].
Defined.

Lemma service_sessions_authentic_witness :
  exists tr, marked demo_end tr /\ forall i fd ka token body,
    takes tr !! i = Some (TaskProfile fd ka token, (200, body)) ->
    exists u, body = profile_json u /\ logged_in mysql_same bob_only (take i (takes tr)) token u.
Proof.
  apply (service_sessions_authentic count_draw count_draw_range 2 (service_backend fresh_world) bob_only demo_schedule demo_end);
    [apply demo_backs | done | apply demo_labels | apply demo_runs].
Defined.
