(* ===== verification/Progress.v ===== *)
(** * The database pool answers (src/ThreadPool.cpp with src/Connection.cpp)

    On any back end, one that fails included: in every schedule the threads take a
    bounded number of steps per submission, and when they come to rest every task
    they accepted was answered, exactly once, and every connection is back. *)

From S2P Require Import Prelude CppString Config Http Json Channel Framing Connection WritePath ReadPath.
From S2P Require Import ThreadPool Interfaces Mysql Redis Handlers Accounts Interleaved Service Linear.

Section Progress.
Context {K S D G : Type} `{SessionStore S} `{MysqlServer D}.
Context (draw : G -> nat * G) (size : nat) (conns : list nat).
Notation Prog := (@prog K S D G unit).
Notation service := (@service K S D G).

(** Credentials that fit, as the handlers check before they submit a task. *)
Definition label_limits (l : slabel (S := S)) : Prop :=
  match l with Submit t => task_limits t | _ => True end.

(** ** One answer each *)

(** The program answers on the descriptor of its task, and does not touch the
    sockets otherwise. *)
Fixpoint addressed {A} (t : db_task) (m : @prog K S D G A) : Prop :=
  match m with
  | End_ _ => True
  | Call f k => (forall b, b_world (f b).1 = b_world b) /\ forall x, addressed t (k x)
  | Answer fd _ _ ka k => fd = task_fd t /\ ka = task_keepAlive t /\ addressed t k
  end.

Lemma addressed_pseq {A B} t (m : @prog K S D G A) (f : A -> @prog K S D G B) :
  addressed t m -> (forall a, addressed t (f a)) -> addressed t (pseq m f).
Proof.
  intros Am Af. induction m as [[a| |]|X g k IH|fd code body ka k IH]; simpl in *; auto; naive_solver.
Qed.

Lemma addressed_catch {A} t (m h : @prog K S D G A) : addressed t m -> addressed t h -> addressed t (catch m h).
Proof.
  intros Am Ah. induction m as [[a| |]|X g k IH|fd code body ka k IH]; simpl in *; auto; naive_solver.
Qed.

Lemma addressed_finally {A} t (m : @prog K S D G A) f :
  addressed t m -> (forall b, b_world (f b) = b_world b) -> addressed t (finally m f).
Proof.
  intros Am Hf. induction m as [r|X g k IH|fd code body ka k IH]; simpl in *; auto; naive_solver.
Qed.

Lemma addressed_guard {A} t (body : option nat -> @prog K S D G A) :
  (forall c, addressed t (body c)) -> addressed t (guard_prog body).
Proof.
  intros Ab. split; [intros b; by destruct (mysql_getConn _)|]. intros [c|]; [by apply addressed_finally | done].
Qed.

Lemma addressed_query t q : addressed t (query_prog (K := K) (S := S) (D := D) (G := G) q).
Proof. split; [|done]. intros b. by destruct (mysql_query _ _). Qed.

Lemma addressed_store {A} t (op : S -> S * A) : addressed t (store_prog (K := K) (D := D) (G := G) op).
Proof. split; [|done]. intros b. by destruct (op _). Qed.

Lemma addressed_token t : addressed t (token_prog (K := K) (S := S) (D := D) draw).
Proof.
  split; [|by intros [|]]. intros b. unfold generateToken.
  destruct (match b_rng b with Some g => Some g | None => b_entropy b end); [|done].
  by destruct (token_loop draw (Z.to_nat kTokenLen) g []).
Qed.

Lemma addressed_escape t cap s : addressed t (escape_prog (K := K) (S := S) (D := D) (G := G) cap s).
Proof. unfold escape_prog. by destruct (_ <=? _). Qed.

Hint Resolve addressed_query addressed_store addressed_token addressed_escape : core.

(** Go through a program. *)
Ltac address :=
  repeat first
    [ solve [auto] | exact I | solve [repeat split]
    | progress intros
    | apply addressed_pseq
    | apply addressed_guard
    | match goal with |- context [match ?x with _ => _ end] => destruct x end ].

Lemma addressed_task t : addressed t (task_prog draw t).
Proof.
  unfold task_prog. cbv zeta. destruct t; (apply addressed_catch; [|done]);
    [unfold register_prog | unfold login_prog, login_query_prog, login_finish_prog | unfold profile_prog
    | unfold logout_prog]; address.
Qed.

(** A running task gives its connection back, answers on its descriptor, and has
    been answered, or will be once. *)
Definition answering (log : list log_event) (n : nat) (t : db_task) (m : Prog) (o : option nat) : Prop :=
  leases m o /\ addressed t m /\ ((exists k, once m k) /\ replies n log = [] \/
                 (exists k, quiet m k) /\ exists r, replies n log = [r]).

Definition tidy (s : service) (held : list (option nat)) : Prop :=
  staffed size conns task_limits (answering (sv_log s)) (fun n => replies n (sv_log s) = [])
    (fun n t => exists r, replies n (sv_log s) = [r]) s held.

Lemma replies_own n r log : replies n (log ++ [LReplied n r]) = replies n log ++ [r].
Proof. rewrite replies_app. simpl. by rewrite decide_True. Qed.

Lemma replies_other n n' r log : n' <> n -> replies n' (log ++ [LReplied n r]) = replies n' log.
Proof. intros Ne. rewrite replies_app. simpl. rewrite decide_False by done. apply app_nil_r. Qed.

Lemma replies_began n n' t log : replies n' (log ++ [LBegan n t]) = replies n' log.
Proof. rewrite replies_app. apply app_nil_r. Qed.

Lemma tidy_exec s s' held i n t m g :
  tidy s held -> threads_ (sv_pool s) !! i = Some (Running (n, t)) -> sv_progs s !! i = Some m ->
  exec_step i n m g s = Some s' -> exists held', tidy s' held'.
Proof.
  intros Td T Pm E. destruct (sf_worker _ _ _ _ _ _ _ _ Td i _ T) as (m1 & o & Pm1 & Ho & Ls & Ad & An).
  rewrite Pm in Pm1. injection Pm1 as <-. unfold exec_step in E.
  destruct m as [r|X f k|fd code body ka k]; [done| |].
  - simpl in Ls. specialize (Ls (set_rng g (sv_back s))). destruct (f (set_rng g (sv_back s))) as [b' x].
    destruct Ls as (o' & Ls & Pmm). injection E as <-. exists (<[i:=o']> held).
    eapply (staffed_exec size conns task_limits); try done. split; [done|]. split; [apply Ad|].
    destruct An as [[[[|n'] O] Rp]|[[[|n'] O] Rp]]; try done; [left | right]; (split; [exists n'; apply O | done]).
  - injection E as <-. exists (<[i:=o]> held). destruct An as [[[[|k'] O] Rp]|[[[|k'] O] Rp]]; try done.
    eapply (staffed_exec size conns task_limits); try done; simpl.
    + split; [done|]. split; [apply Ad|]. right. split; [by exists k'|]. exists (code, body). by rewrite replies_own, Rp.
    + intros n' t' m1 o1 Ne. unfold answering. by rewrite replies_other.
    + intros n' Ne Rn. by rewrite replies_other.
    + intros n' t' Ne Rn. by rewrite replies_other.
Qed.

Lemma tidy_log (s s' : service) held :
  staffed size conns task_limits (answering (sv_log s)) (fun n => replies n (sv_log s) = [])
    (fun n t => exists r, replies n (sv_log s) = [r]) s' held -> sv_log s' = sv_log s -> tidy s' held.
Proof. unfold tidy. by intros Sf ->. Qed.

Lemma pool_step_log l (s s' : service) : pool_step l s = Some s' -> sv_log s' = sv_log s.
Proof. unfold pool_step. destruct (step l (sv_pool s)); [|done]. by intros [= <-]. Qed.

Lemma sstep_tidy l s s' held :
  label_limits l -> tidy s held -> sstep draw l s = Some s' -> exists held', tidy s' held'.
Proof.
  intros Hl Td E. destruct l as [t|o|i|i|i|i| | |e].
  - exists held. eapply tidy_log; [by eapply staffed_submit | by eapply pool_step_log].
  - exists held. eapply tidy_log; [by eapply (staffed_pool_step _ _ _ _ _ _ (Notify o)) | by eapply pool_step_log].
  - exists held. destruct (begin_cases _ _ _ _ _ _ _ _ _ _ _ Td E)
      as (Ti & [(Sf' & El & _)|(n & t & rest & p' & Q & Ip' & Et & Ea & Es & Ef & ->)]); [by eapply tidy_log|].
    eapply staffed_begin; try done; simpl; intros *; rewrite ?replies_began; try done.
    + intros Lt Rn. split; [apply leases_task|]. split; [apply addressed_task|]. left. split; [exists 8%nat; by apply once_task|]. by rewrite replies_began.
    + unfold answering. by rewrite replies_began.
  - simpl in E. destruct (threads_ (sv_pool s) !! i) as [[| |[n t]|]|] eqn:T; try done.
    destruct (sv_progs s !! i) as [m|] eqn:Pm; [|done]. destruct (sv_rngs s !! i); [|done]. by eapply tidy_exec.
  - exists held. eapply tidy_log; [eapply staffed_finish; [|done..]|].
    + intros n t r o (Ls & _ & An). split; [exact Ls|]. by destruct An as [[[k []] _]|[_ An]].
    + simpl in E. destruct (sv_progs s !! i) as [[]|]; try done. by eapply pool_step_log.
  - exists held. eapply tidy_log; [by eapply (staffed_pool_step _ _ _ _ _ _ (Spurious i)) | by eapply pool_step_log].
  - exists held. eapply tidy_log; [by eapply (staffed_pool_step _ _ _ _ _ _ Stop) | by eapply pool_step_log].
  - exists held. eapply tidy_log; [by eapply (staffed_pool_step _ _ _ _ _ _ NotifyAll) | by eapply pool_step_log].
  - injection E as <-. exists held. by eapply staffed_impl.
Qed.

Lemma srun_tidy ls sz b s :
  size = Z.to_nat sz -> conns = mpool_ (b_mysql b) -> Forall label_limits ls ->
  srun draw ls (new_service sz b) = Some s -> exists held, tidy s held.
Proof.
  intros Es Ec F. apply (srun_ind draw label_limits (fun s => exists held, tidy s held)); [|done|].
  - intros l s1 s2 Hl (held & Td). by eapply sstep_tidy.
  - exists (replicate size None). by apply new_staffed.
Qed.

(** ** Steps that are left *)

(** Steps a thread has left, with [k] for the task it runs; and all threads. *)
Definition budget (w : worker (nat * db_task)) (k : nat) : nat :=
  match w with Running _ => k + 2 | Ready => 1 | Asleep | Exited => 0 end.

Fixpoint budgets (ws : list (worker (nat * db_task))) (ks : list nat) : nat :=
  match ws, ks with w :: ws, k :: ks => budget w k + budgets ws ks | _, _ => 0 end%nat.

Definition steps_left (s : service) (ks : list nat) : nat :=
  (10 * length (tasks_ (sv_pool s)) + 2 * notifies (sv_pool s) + budgets (threads_ (sv_pool s)) ks
   + if notified_all (sv_pool s) then 0 else length (threads_ (sv_pool s)))%nat.

(** What the environment adds to that. *)
Definition adds (l : slabel (S := S)) : nat := match l with Submit _ => 12 | Rouse _ => 1 | _ => 0 end.

Record timed (s : service) (ks : list nat) : Prop := {
  tm_ks : length ks = length (threads_ (sv_pool s));
  tm_progs : length (sv_progs s) = length (threads_ (sv_pool s));
  tm_rngs : length (sv_rngs s) = length (threads_ (sv_pool s));
  tm_queue x : x ∈ tasks_ (sv_pool s) -> task_limits x.2;
  tm_task i x m k : threads_ (sv_pool s) !! i = Some (Running x) -> sv_progs s !! i = Some m -> ks !! i = Some k ->
    once m k \/ quiet m k
}.

Lemma budgets_insert ws ks i w k w' k' :
  ws !! i = Some w -> ks !! i = Some k ->
  (budgets (<[i:=w']> ws) (<[i:=k']> ks) + budget w k = budgets ws ks + budget w' k')%nat.
Proof.
  revert ks i. induction ws as [|v ws IH]; intros [|c ks] [|i] Ew Ek; simplify_eq/=; [lia|].
  specialize (IH ks i Ew Ek). lia.
Qed.

Lemma budgets_insert_l ws ks i w k w' :
  ws !! i = Some w -> ks !! i = Some k ->
  (budgets (<[i:=w']> ws) ks + budget w k = budgets ws ks + budget w' k)%nat.
Proof. intros Ew Ek. rewrite <- (list_insert_id ks i k Ek) at 1. by apply budgets_insert. Qed.

Lemma budgets_wake ws ks : (budgets (wake <$> ws) ks <= budgets ws ks + length ws)%nat.
Proof.
  revert ks. induction ws as [|w ws IH]; intros [|k ks]; [simpl; lia..|]. specialize (IH ks).
  rewrite fmap_cons. destruct w; simpl in *; lia.
Qed.

(** A pool step that starts no task. *)
Lemma timed_idle s ks p' :
  timed s ks -> length (threads_ p') = length (threads_ (sv_pool s)) ->
  (forall x, x ∈ tasks_ p' -> task_limits x.2) ->
  (forall i x, threads_ p' !! i = Some (Running x) -> threads_ (sv_pool s) !! i = Some (Running x)) ->
  timed (set_pool p' s) ks.
Proof. intros [] L Q R. split; simpl; try congruence; eauto. Qed.

Lemma insert_not_running (ws : list (worker (nat * db_task))) i w j x :
  task_of w = None -> <[i:=w]> ws !! j = Some (Running x) -> ws !! j = Some (Running x).
Proof. intros N [(<- & -> & _)|[_ E]]%list_lookup_insert_Some; done. Qed.

Lemma pool_timed l s s' ks :
  (match l with Add x => task_limits x.2 | Section_ _ => False | _ => True end) ->
  timed s ks -> pool_step l s = Some s' -> timed s' ks.
Proof.
  intros Hl Tm E. unfold pool_step in E. destruct (step l (sv_pool s)) as [p'|] eqn:Es; [|done]. injection E as <-.
  pose proof (tm_queue _ _ Tm) as Tq. apply timed_idle; try done;
    destruct l as [t|[j|]|j|j|j| |]; simpl in Es; try done; unfold add in Es;
    repeat match goal with
    | H : context [decide ?P] |- _ => destruct (decide P); [|done]
    | H : context [if ?c then _ else _] |- _ => destruct c; try done
    | H : context [match threads_ ?p !! ?j with _ => _ end] |- _ => destruct (threads_ p !! j) as [[]|] eqn:?; try done
    end; injection Es as <-; simpl; rewrite ?length_insert, ?length_fmap; try done;
    try (intros i x; by apply insert_not_running).
  - intros x [I|I]%elem_of_app; [by apply Tq|]. by apply list_elem_of_singleton in I as ->.
  - intros i x T. apply list_lookup_fmap_Some in T as ([] & E & T); try done. simpl in E. by simplify_eq.
Qed.

(** *** Every own step uses one up *)

Definition spends (l : slabel (S := S)) (s s' : service) (ks ks' : list nat) : Prop :=
  ((if own l then 1 else 0) + steps_left s' ks' <= steps_left s ks + adds l)%nat.

(** A pool step in numbers. *)
Ltac in_numbers Es :=
  repeat match type of Es with
  | context [decide ?P] => destruct (decide P); [|done]
  | context [if ?c then _ else _] => destruct c eqn:?; try done
  | context [match threads_ ?p !! ?j with _ => _ end] => destruct (threads_ p !! j) as [[]|] eqn:?; try done
  end; injection Es as <-.

Lemma pool_spends l' l s s' ks :
  (l' = Notify None \/ (exists i, l' = Notify (Some i) \/ l' = Spurious i) \/ l' = Stop \/ l' = NotifyAll \/
   exists x, l' = Add x) ->
  timed s ks -> pool_step l' s = Some s' ->
  (if own l then 1 else 0)%nat = match l' with Notify _ => 1 | _ => 0 end%nat ->
  adds l = match l' with Add _ => 12 | Spurious _ => 1 | _ => 0 end%nat -> spends l s s' ks ks.
Proof.
  intros Hl Tm E Ow Ad. unfold pool_step in E. destruct (step l' (sv_pool s)) as [p'|] eqn:Es; [|done].
  injection E as <-. unfold spends, steps_left. rewrite Ow, Ad.
  destruct Hl as [->|[(i & [->| ->])|[->|[->|(x & ->)]]]]; simpl in Es; unfold add in Es; in_numbers Es;
    simpl; rewrite ?length_insert, ?length_fmap, ?length_app; simpl; try lia.
  - destruct (lookup_lt_is_Some_2 ks i) as [k Ek]; [rewrite (tm_ks _ _ Tm); by eapply lookup_lt_Some|].
    pose proof (budgets_insert_l _ _ _ _ _ Ready Heqo Ek). simpl in *. lia.
  - destruct (lookup_lt_is_Some_2 ks i) as [k Ek]; [rewrite (tm_ks _ _ Tm); by eapply lookup_lt_Some|].
    pose proof (budgets_insert_l _ _ _ _ _ Ready Heqo Ek). simpl in *. lia.
  - pose proof (budgets_wake (threads_ (sv_pool s)) ks). apply andb_prop in Heqb as [_ Nt].
    apply negb_true_iff in Nt. rewrite Nt. lia.
Qed.

Lemma begin_spends i s s' ks :
  timed s ks -> sstep draw (Begin i) s = Some s' -> exists ks', timed s' ks' /\ spends (Begin i) s s' ks ks'.
Proof.
  intros Tm E. simpl in E. unfold pool_step, step in E.
  destruct (threads_ (sv_pool s) !! i) as [[]|] eqn:T; try done. simpl in E. unfold worker_section in *.
  assert (i < length (threads_ (sv_pool s)))%nat as Hi by (by eapply lookup_lt_Some).
  destruct (lookup_lt_is_Some_2 ks i) as [k Ek]; [by rewrite (tm_ks _ _ Tm)|].
  destruct (tasks_ (sv_pool s)) as [|[n t] rest] eqn:Q.
  - exists ks. destruct (stop_ (sv_pool s)); simpl in E; rewrite list_lookup_insert_eq in E by done; injection E as <-;
      (split; [apply timed_idle; simpl; [done | by rewrite length_insert | apply Tm |
                 intros j x; by apply insert_not_running]|]);
      unfold spends, steps_left; simpl; rewrite length_insert;
      [pose proof (budgets_insert_l _ _ _ _ _ Exited T Ek) | pose proof (budgets_insert_l _ _ _ _ _ Asleep T Ek)];
      simpl in *; lia.
  - rewrite orb_true_r in *. simpl in E. rewrite list_lookup_insert_eq in E by done. injection E as <-.
    pose proof (tm_queue _ _ Tm) as Tq. rewrite Q in Tq. exists (<[i:=8%nat]> ks). split.
    + destruct Tm as [Tk Tp Tr _ Tt]. split; simpl; rewrite ?length_insert; try done.
      * intros x I. apply Tq. by right.
      * intros j x m kj Tj Pj Kj. destruct (decide (i = j)) as [<-|Ne].
        -- rewrite list_lookup_insert_eq in Tj by done. rewrite list_lookup_insert_eq in Pj by lia.
           rewrite list_lookup_insert_eq in Kj by lia. simplify_eq. left. apply once_task, (Tq (n, t)). apply list_elem_of_here.
        -- rewrite list_lookup_insert_ne in Tj by done. rewrite list_lookup_insert_ne in Pj by done.
           rewrite list_lookup_insert_ne in Kj by done. by eapply Tt.
    + unfold spends, steps_left. simpl. rewrite Q, length_insert.
      pose proof (budgets_insert _ _ _ _ _ (Running (n, t)) 8%nat T Ek). simpl in *. lia.
Qed.

Lemma exec_spends i s s' ks :
  timed s ks -> sstep draw (Exec i) s = Some s' -> exists ks', timed s' ks' /\ spends (Exec i) s s' ks ks'.
Proof.
  intros Tm E. simpl in E. destruct (threads_ (sv_pool s) !! i) as [[| |[n t]|]|] eqn:T; try done.
  destruct (sv_progs s !! i) as [m|] eqn:Pm; [|done]. destruct (sv_rngs s !! i) as [g|] eqn:Rg; [|done].
  destruct (lookup_lt_is_Some_2 ks i) as [k Ek]; [rewrite (tm_ks _ _ Tm); by eapply lookup_lt_Some|].
  pose proof (tm_task _ _ Tm i _ m k T Pm Ek) as Ok.
  assert (exists m' k' b' g' lg, k = Datatypes.S k' /\ (once m' k' \/ quiet m' k') /\ length g' = length (sv_rngs s) /\
    s' = mkService (sv_pool s) b' g' (<[i:=m']> (sv_progs s)) lg) as (m' & k' & b' & g' & lg & -> & Ok' & Lg & ->).
  { unfold exec_step in E. destruct m as [r|X f q|fd code body ka q]; [done| |].
    - destruct (f _) as [b' x]. injection E as <-. destruct k as [|k]; [by destruct Ok as [[]|[]]|].
      eexists _, k, _, _, _. split; [done|]. split; [|split; [|done]; by rewrite length_insert].
      destruct Ok as [O|O]; [left | right]; apply O.
    - injection E as <-. destruct k as [|k]; [by destruct Ok as [[]|[]]|]. destruct Ok as [O|[]].
      eexists _, k, _, _, _. split; [done|]. split; [by right | done]. }
  exists (<[i:=k']> ks). destruct Tm as [Tk Tp Tr Tq Tt]. split.
  - split; simpl; rewrite ?length_insert; try congruence; [done|]. intros j x mj kj Tj Pj Kj.
    destruct (decide (i = j)) as [<-|Ne].
    + rewrite list_lookup_insert_eq in Pj by (by eapply lookup_lt_Some).
      rewrite list_lookup_insert_eq in Kj by (by eapply lookup_lt_Some). by simplify_eq.
    + rewrite list_lookup_insert_ne in Pj by done. rewrite list_lookup_insert_ne in Kj by done. by eapply Tt.
  - unfold spends, steps_left. simpl.
    pose proof (budgets_insert _ _ _ _ _ (Running (n, t)) k' T Ek) as B. rewrite (list_insert_id _ _ _ T) in B.
    simpl in B. lia.
Qed.

Lemma finish_spends i s s' ks :
  timed s ks -> sstep draw (Finish i) s = Some s' -> timed s' ks /\ spends (Finish i) s s' ks ks.
Proof.
  intros Tm E. simpl in E. destruct (sv_progs s !! i) as [[r| |]|] eqn:Pi; try done.
  split; [by apply (pool_timed (Done i) s s' ks)|]. unfold pool_step, step in E.
  destruct (threads_ (sv_pool s) !! i) as [[| |[n t]|]|] eqn:T; try done. injection E as <-.
  destruct (lookup_lt_is_Some_2 ks i) as [k Ek]; [rewrite (tm_ks _ _ Tm); by eapply lookup_lt_Some|].
  unfold spends, steps_left. simpl. rewrite length_insert.
  pose proof (budgets_insert_l _ _ _ _ _ Ready T Ek). simpl in *. lia.
Qed.

Lemma sstep_spends l s s' ks :
  label_limits l -> timed s ks -> sstep draw l s = Some s' -> exists ks', timed s' ks' /\ spends l s s' ks ks'.
Proof.
  intros Hl Tm E. destruct l as [t|o|i|i|i|i| | |e].
  - exists ks. split; [eapply pool_timed; [|done..]; apply Hl | eapply pool_spends; [|done..]; eauto 6].
  - exists ks. split; [by eapply (pool_timed (Notify o)) | eapply pool_spends; [|done..]]. destruct o; eauto.
  - by apply begin_spends.
  - by apply exec_spends.
  - exists ks. by apply finish_spends.
  - exists ks. split; [by eapply (pool_timed (Spurious i)) | eapply pool_spends; [|done..]; eauto].
  - exists ks. split; [by eapply (pool_timed Stop) | eapply pool_spends; [|done..]; eauto].
  - exists ks. split; [by eapply (pool_timed NotifyAll) | eapply pool_spends; [|done..]; eauto 6].
  - injection E as <-. exists ks. split; [by destruct Tm; split|]. unfold spends, steps_left. simpl. lia.
Qed.

Lemma new_timed sz b : timed (new_service sz b) (replicate (Z.to_nat sz) 0%nat).
Proof.
  split; simpl; rewrite ?length_replicate; try done; [by intros x I%not_elem_of_nil|].
  intros i x m k [T _]%lookup_replicate. done.
Qed.

Lemma srun_spends ls s s' ks :
  Forall label_limits ls -> timed s ks -> srun draw ls s = Some s' -> exists ks', timed s' ks' /\
    (length (List.filter own ls) + steps_left s' ks' <= steps_left s ks + sum_list_with adds ls)%nat.
Proof.
  intros F. revert s ks. induction F as [|l ls Hl F IH]; intros s ks Tm R; simpl in R.
  { injection R as <-. exists ks. split; [done | simpl; lia]. }
  destruct (sstep draw l s) as [s1|] eqn:E; [|done]. destruct (sstep_spends l s s1 ks Hl Tm E) as (ks1 & Tm1 & Sp).
  destruct (IH s1 ks1 Tm1 R) as (ks' & Tm' & Le). exists ks'. split; [done|]. unfold spends in Sp.
  simpl. destruct (own l); simpl; lia.
Qed.

Lemma new_steps_left sz b :
  steps_left (new_service sz b) (replicate (Z.to_nat sz) 0%nat) = (2 * Z.to_nat sz)%nat.
Proof.
  unfold steps_left. simpl. rewrite length_replicate.
  assert (forall n, budgets (replicate n Ready) (replicate n 0) = n)%nat as E by (induction n; simpl; lia).
  rewrite E. lia.
Qed.

(** *** At rest *)

Lemma rest_workers (s : service) ks i w :
  timed s ks -> at_rest draw s -> threads_ (sv_pool s) !! i = Some w -> w = Asleep \/ w = Exited.
Proof.
  intros Tm Rt T. destruct w as [| |[n t]|]; auto; exfalso.
  - pose proof (Rt (Begin i) eq_refl) as E. simpl in E. unfold pool_step, step in E. rewrite T in E. simpl in E.
    by destruct (threads_ (worker_section i (sv_pool s)) !! i) as [[| |[]|]|].
  - assert (i < length (threads_ (sv_pool s)))%nat as Hi by (by eapply lookup_lt_Some).
    destruct (lookup_lt_is_Some_2 (sv_progs s) i) as [m Pm]; [by rewrite (tm_progs _ _ Tm)|].
    destruct (lookup_lt_is_Some_2 (sv_rngs s) i) as [g Rg]; [by rewrite (tm_rngs _ _ Tm)|].
    pose proof (Rt (Exec i) eq_refl) as Ex. pose proof (Rt (Finish i) eq_refl) as Fi. simpl in Ex, Fi.
    rewrite T, Pm, Rg in Ex. rewrite Pm in Fi. destruct m as [r|X f k|]; [|by simpl in Ex; destruct (f _) | done].
    unfold pool_step, step in Fi. by rewrite T in Fi.
Qed.

Lemma rest_notified (s : service) : at_rest draw s -> notifies (sv_pool s) = 0%nat.
Proof.
  intros Rt. destruct (notifies (sv_pool s)) as [|k] eqn:E; [done|]. exfalso.
  destruct (existsb is_asleep (threads_ (sv_pool s))) eqn:A.
  - apply existsb_exists in A as (w & I & Aw). apply list_elem_of_In, list_elem_of_lookup in I as [i T].
    pose proof (Rt (Wake (Some i)) eq_refl) as N. simpl in N. unfold pool_step, step in N.
    rewrite E in N. rewrite decide_True in N by lia. rewrite T in N. by destruct w.
  - pose proof (Rt (Wake None) eq_refl) as N. simpl in N. unfold pool_step, step in N.
    rewrite E in N. rewrite decide_True in N by lia. by rewrite A in N.
Qed.

(** Conversely, threads that sleep or are gone have nothing to do. *)
Definition resting (s : service) : bool :=
  (notifies (sv_pool s) =? 0)%nat &&
  forallb (fun w => match w with Asleep | Exited => true | _ => false end) (threads_ (sv_pool s)).

Lemma resting_rest (s : service) : resting s = true -> at_rest draw s.
Proof.
  unfold resting. intros [N F]%andb_prop l Ol. apply Nat.eqb_eq in N. rewrite forallb_forall in F.
  assert (forall i w, threads_ (sv_pool s) !! i = Some w -> w = Asleep \/ w = Exited) as W.
  { intros i w T. apply list_elem_of_lookup_2, list_elem_of_In, F in T. destruct w; by auto. }
  destruct l as [t|o|i|i|i|i| | |e]; try done; simpl; unfold pool_step, step.
  - by rewrite N.
  - destruct (threads_ (sv_pool s) !! i) as [w|] eqn:T; [|done]. by destruct (W i w T) as [-> | ->].
  - destruct (threads_ (sv_pool s) !! i) as [w|] eqn:T; [|done]. by destruct (W i w T) as [-> | ->].
  - destruct (sv_progs s !! i) as [[]|]; try done.
    destruct (threads_ (sv_pool s) !! i) as [w|] eqn:T; [|done]. by destruct (W i w T) as [-> | ->].
Qed.

Lemma rest_finished (s : service) ks :
  (0 < size)%nat -> timed s ks -> pool_inv size (sv_pool s) -> at_rest draw s ->
  finished (sv_pool s) ≡ₚ accepted (sv_pool s).
Proof.
  intros Ps Tm Ip Rt. pose proof (rest_workers s ks) as Rw. pose proof Ip as [Sz Ff On Wk Ex En].
  rewrite (rest_notified s Rt) in Wk.
  assert (weigh ready (threads_ (sv_pool s)) = 0 /\ weigh active (threads_ (sv_pool s)) = 0)%nat as [Wr Wa].
  { split; apply Nat.le_0_r, Nat.nlt_ge; intros (i & w & T & Pw)%weigh_pos;
      destruct (Rw i w Tm Rt T) as [-> | ->]; simpl in Pw; lia. }
  assert (running (threads_ (sv_pool s)) = []) as Rn.
  { destruct (running (threads_ (sv_pool s))) as [|x l] eqn:E; [done|].
    assert (x ∈ running (threads_ (sv_pool s))) as I by (rewrite E; apply list_elem_of_here).
    apply list_elem_of_omap in I as (w & I & Ew). apply list_elem_of_lookup in I as [i T].
    by destruct (Rw i w Tm Rt T) as [-> | ->]. }
  assert (tasks_ (sv_pool s) = []) as Q.
  { destruct Wk as [As|Lq]; [|rewrite Wr in Lq; by apply nil_length_inv, Nat.le_0_r].
    apply Ex. pose proof (weigh_total (threads_ (sv_pool s))). lia. }
  rewrite Rn, app_nil_r in On. by rewrite Ff, Q, app_nil_r, On.
Qed.

Lemma rest_returned s ks held :
  timed s ks -> tidy s held -> at_rest draw s -> mpool_ (b_mysql (sv_back s)) ≡ₚ conns.
Proof.
  intros Tm [Ip Id Ts Wk Hd Sz Fr Dn] Rt.
  assert (Forall (fun o => o = None) held) as F.
  { apply Forall_lookup. intros i o Ho. assert (i < length held)%nat as Hi by (by eapply lookup_lt_Some).
    rewrite Sz, <- (inv_size _ _ Ip) in Hi.
    apply lookup_lt_is_Some_2 in Hi as [w T]. destruct (Wk i w T) as (m & o' & _ & Ho' & W).
    destruct (rest_workers s ks i w Tm Rt T) as [-> | ->]; simpl in W; congruence. }
  assert (mjoin (option_list <$> held) = []) as E
    by (clear - F; induction F as [|o l -> F IH]; [done | exact IH]).
  by rewrite E, app_nil_r in Hd.
Qed.

End Progress.

(** ** Properties *)

Section Properties.
Context {K S D G : Type} `{SessionStore S} `{MysqlServer D}.
Context (draw : G -> nat * G).

(** C14: every submitted task is answered, on any back end. In any run the
    threads take at most twelve steps per submission, one per spurious wake-up
    and two each besides; and when none of them can go on, each accepted task was
    answered exactly once, and the MySQL pool holds the connections it held at
    the start. *)
Theorem service_answers_all size (b : Backend K S D G) ls s :
  0 < size -> Forall label_limits ls -> srun draw ls (new_service size b) = Some s ->
  (length (List.filter own ls) <= 2 * Z.to_nat size + sum_list_with adds ls)%nat /\
  (at_rest draw s ->
   (forall n t, (n, t) ∈ accepted (sv_pool s) -> exists r, replies n (sv_log s) = [r]) /\
   mpool_ (b_mysql (sv_back s)) ≡ₚ mpool_ (b_mysql b)).
Proof.
  intros Ps F R.
  destruct (srun_tidy draw (Z.to_nat size) (mpool_ (b_mysql b)) ls size b s) as (held & Td); try done.
  destruct (srun_spends draw ls _ s _ F (new_timed size b) R) as (ks & Tm & Le). rewrite new_steps_left in Le.
  split; [lia|]. intros Rt. split; [|by eapply rest_returned].
  intros n t I. rewrite <- (rest_finished draw (Z.to_nat size) s ks) in I; [|lia | done | apply Td | done].
  by apply (sf_done _ _ _ _ _ _ _ _ Td n t).
Qed.

End Properties.

(** ** Witnesses *)

(** The schedule of [Linear]. *)
Lemma demo_limits : Forall label_limits demo_schedule.
Proof. repeat constructor; by vm_compute. Qed.

Lemma service_answers_all_witness :
  (length (List.filter own demo_schedule) <= 4 + sum_list_with adds demo_schedule)%nat /\
  (forall n t, (n, t) ∈ accepted (sv_pool demo_end) -> exists r, replies n (sv_log demo_end) = [r]) /\
  mpool_ (b_mysql (sv_back demo_end)) ≡ₚ [0; 1]%nat.
Proof.
  destruct (service_answers_all count_draw 2 (service_backend fresh_world) demo_schedule demo_end)
    as [Le Rest]; [done | apply demo_limits | apply demo_runs|].
  split; [exact Le|]. apply Rest, resting_rest. vm_compute. reflexivity.
Defined.
