(* ===== verification/Server.v ===== *)
(** * The server (src/Server.cpp, EventLoop.cpp, Epoll.cpp and test/server.cpp)

    First the event loop. Then the table of connections as
    the acceptor thread, the reactors, the database threads and the main loop
    share it: a step is what one of them does while it holds [connMtx_], or
    between two such sections, and the steps interleave in any order. Next to the
    table stand the descriptors the kernel has given out, with the connection
    each belongs to, so that a descriptor that is closed and given out again
    shows. *)

From S2P Require Import Prelude Config Channel Connection.

(** ** The event loop (EventLoop.cpp, Epoll.cpp) *)

(** What [epoll_wait] returns: the ready channels with their masks, at most
    [kMaxEvents], or -1. *)
Definition kMaxEvents : Z := 4096.

Inductive wait_ret (C : Type) : Type := Events (evs : list (C * Z)) | WaitErrno (e : Z).
Arguments Events {C} evs. Arguments WaitErrno {C} e.

Definition activeChannels {C} (r : wait_ret C) : list (C * Z) :=
  match r with
  | WaitErrno _ => []
  | Events evs => take (Z.to_nat kMaxEvents) evs
  end.

Section Loop.
Context {St C : Type}.
Context (quit_ : St -> bool) (handle : C -> Z -> St -> St) (loopCallback_ : option (St -> St)).

(** One turn: every ready channel in order, then the callback. *)
Definition loop_turn (r : wait_ret C) (s : St) : St :=
  let s := foldl (fun s '(ch, revents) => handle ch revents s) s (activeChannels r) in
  match loopCallback_ with Some cb => cb s | None => s end.

(** [loop()] over the answers of [epoll_wait]; the answers not asked for come
    back, and [false] where the loop still runs at the end of the script. *)
Fixpoint loop (waits : list (wait_ret C)) (s : St) : St * list (wait_ret C) * bool :=
  if quit_ s then (s, waits, true)
  else match waits with
       | [] => (s, [], false)
       | r :: waits => loop waits (loop_turn r s)
       end.

End Loop.

(** ** The connection table (Server.cpp) *)

(** A [Connection] object as the table sees it: its descriptor, an identity, the
    reactor it is registered with and its last activity. *)
Record conn_obj : Type := mkObj { o_fd : Z; o_id : nat; o_reactor : Z; o_lastActive : Z }.

Record Server : Type := mkServer {
  connections_ : gmap Z conn_obj;
  subReactors_ : Z;                 (* subReactors_.size() *)
  inserting : option conn_obj;      (* constructed by newConnection, not yet in the table *)
  opened : gmap Z nat;              (* open descriptors and whose they are *)
  destroyed : list nat;             (* connections whose destructor ran *)
  next_id : nat;
  db_queue : list (Z * nat);        (* submitted tasks: captured descriptor, and who asked *)
  delivered : list (nat * option nat) (* answers: who asked, who received *)
}.

Definition new_Server (size : Z) : Server := mkServer ∅ size None ∅ [] 0 [] [].

(** [fd % subReactors_.size()]; a division by zero is undefined. *)
Definition reactor_index (fd : Z) (size : Z) : option Z :=
  if size =? 0 then None else Some (to_size_t fd mod size).

(** [newConnection], up to the lock: the connection is constructed, which
    registers it with its reactor. *)
Definition newConnection (fd now : Z) (s : Server) : option Server :=
  if fd =? -1 then Some s
  else
    idx ← reactor_index fd (subReactors_ s);
    Some (mkServer (connections_ s) (subReactors_ s)
            (Some (mkObj fd (next_id s) idx now)) (<[fd := next_id s]> (opened s))
            (destroyed s) (S (next_id s)) (db_queue s) (delivered s)).

(** The destructor of a connection closes its descriptor. *)
Definition destroy (o : conn_obj) (s : Server) : Server :=
  mkServer (connections_ s) (subReactors_ s) (inserting s) (delete (o_fd o) (opened s))
    (destroyed s ++ [o_id o]) (next_id s) (db_queue s) (delivered s).

Definition set_table t ins (s : Server) : Server :=
  mkServer t (subReactors_ s) ins (opened s) (destroyed s) (next_id s) (db_queue s) (delivered s).

(** [connections_[fd] = std::move(conn)] under the lock; an entry that was there
    is destroyed by the assignment. *)
Definition insert_connection (o : conn_obj) (s : Server) : Server :=
  let s' := set_table (<[o_fd o := o]> (connections_ s)) None s in
  match connections_ s !! o_fd o with Some old => destroy old s' | None => s' end.

Definition deleteConnection (fd : Z) (s : Server) : Server :=
  if fd =? -1 then s
  else match connections_ s !! fd with
       | Some o => destroy o (set_table (delete fd (connections_ s)) (inserting s) s)
       | None => s
       end.

(** [sweepIdle]: the descriptors it shuts down, for a configured timeout. *)
Definition sweepIdle (timeout now : Z) (s : Server) : gset Z :=
  if timeout <=? 0 then ∅
  else dom (filter (fun kv => now - o_lastActive kv.2 > timeout) (connections_ s)).

(** A readable event sets [lastActiveSec_] of the connection on [fd]. *)
Definition touch (fd now : Z) (s : Server) : Server :=
  let upd o := mkObj (o_fd o) (o_id o) (o_reactor o) now in
  mkServer (alter upd fd (connections_ s)) (subReactors_ s)
    (match inserting s with
     | Some o => Some (if o_fd o =? fd then upd o else o)
     | None => None
     end) (opened s) (destroyed s) (next_id s) (db_queue s) (delivered s).

(** ** The main loop (test/server.cpp) *)

(** The signal flag, the [quit_] of the main reactor and of the others, the
    table, and the descriptors shut down by the sweeps so far. *)
Record Main : Type := mkMain {
  g_shutdown : bool;
  main_quit : bool;
  sub_quits : list bool;
  serv : Server;
  shut_down : gset Z
}.

(** [Server::stop]. *)
Definition stop (m : Main) : Main :=
  mkMain (g_shutdown m) true ((fun _ => true) <$> sub_quits m) (serv m) (shut_down m).

Definition onSignal (m : Main) : Main :=
  mkMain true (main_quit m) (sub_quits m) (serv m) (shut_down m).

(** The callback of [main], at time [now]. *)
Definition main_callback (now : Z) (m : Main) : Main :=
  if g_shutdown m then stop m
  else mkMain (g_shutdown m) (main_quit m) (sub_quits m) (serv m)
         (sweepIdle kIdleTimeoutSec now (serv m) ∪ shut_down m).

(** ** Interleavings *)

Inductive server_label : Type :=
| SAccept (fd now : Z)     (* the acceptor: newConnection up to the lock *)
| SInsert                  (* and its locked section *)
| SDelete (fd : Z)         (* a reactor: deleteConnectionCallback_ of a live connection *)
| STouch (fd now : Z)      (* a reactor: a readable event *)
| SSubmit (fd : Z)         (* a reactor: a handler of the connection submits a task *)
| SRunTask (k : nat).      (* a database thread answers the [k]-th outstanding task *)

(** A connection that exists and is on descriptor [fd]. *)
Definition live_on (fd : Z) (s : Server) : option nat :=
  match connections_ s !! fd with
  | Some o => Some (o_id o)
  | None => match inserting s with
            | Some o => if o_fd o =? fd then Some (o_id o) else None
            | None => None
            end
  end.

(** The kernel gives out a descriptor that is not open; the acceptor thread
    finishes one connection before it accepts the next. *)
Definition server_step (l : server_label) (s : Server) : option Server :=
  match l with
  | SAccept fd now =>
      match inserting s, opened s !! fd with
      | None, None => if 0 <=? fd then newConnection fd now s else None
      | _, _ => None
      end
  | SInsert => o ← inserting s; Some (insert_connection o s)
  | SDelete fd => _ ← live_on fd s; Some (deleteConnection fd s)
  | STouch fd now => _ ← live_on fd s; Some (touch fd now s)
  | SSubmit fd =>
      i ← live_on fd s;
      Some (mkServer (connections_ s) (subReactors_ s) (inserting s) (opened s) (destroyed s)
              (next_id s) (db_queue s ++ [(fd, i)]) (delivered s))
  | SRunTask k =>
      '(fd, i) ← db_queue s !! k;
      Some (mkServer (connections_ s) (subReactors_ s) (inserting s) (opened s) (destroyed s)
              (next_id s) (delete k (db_queue s)) (delivered s ++ [(i, opened s !! fd)]))
  end.

Fixpoint server_run (ls : list server_label) (s : Server) : option Server :=
  match ls with
  | [] => Some s
  | l :: ls => match server_step l s with Some s' => server_run ls s' | None => None end
  end.

(** ** The invariant *)

Definition reactor_ok (size : Z) (o : conn_obj) : Prop :=
  o_reactor o = to_size_t (o_fd o) mod size /\ 0 <= o_reactor o < size.

(** Objects and open descriptors correspond: a connection in the table, or on
    its way there, owns the descriptor it is filed under, and an open descriptor
    has its connection; nobody is destroyed twice; a task's descriptor still
    belongs to who submitted it unless that connection is gone. *)
Record server_inv (size : Z) (s : Server) : Prop := {
  si_size : subReactors_ s = size;
  si_table fd o : connections_ s !! fd = Some o ->
    o_fd o = fd /\ opened s !! fd = Some (o_id o) /\ reactor_ok size o;
  si_inserting o : inserting s = Some o ->
    opened s !! o_fd o = Some (o_id o) /\ connections_ s !! o_fd o = None /\ reactor_ok size o;
  si_owner fd i : opened s !! fd = Some i -> live_on fd s = Some i;
  si_fresh fd i : opened s !! fd = Some i -> (i < next_id s)%nat /\ i ∉ destroyed s;
  si_inj fd fd' i : opened s !! fd = Some i -> opened s !! fd' = Some i -> fd = fd';
  si_old i : i ∈ destroyed s -> (i < next_id s)%nat;
  si_once : NoDup (destroyed s);
  si_tasks fd i : (fd, i) ∈ db_queue s -> i ∈ destroyed s \/ opened s !! fd = Some i
}.

Lemma new_Server_inv size : server_inv size (new_Server size).
Proof. split; simpl; try done; try (intros *; by rewrite ?lookup_empty); try constructor; set_solver. Qed.

Lemma reactor_index_ok fd size i now n :
  0 < size -> reactor_index fd size = Some i -> reactor_ok size (mkObj fd n i now).
Proof.
  unfold reactor_index. intros Hs. destruct (size =? 0) eqn:E; [bool_lia|]. intros [= <-].
  split; [done|]. by apply Z.mod_pos_bound.
Qed.

Lemma inv_accept size fd now s s' :
  0 < size -> server_inv size s -> server_step (SAccept fd now) s = Some s' -> server_inv size s'.
Proof.
  intros Hs [] E. simpl in E. destruct (inserting s) eqn:I; [done|]. destruct (opened s !! fd) eqn:O; [done|].
  destruct (0 <=? fd) eqn:P; [|done]. unfold newConnection in E. destruct (fd =? -1) eqn:M; [bool_lia|].
  rewrite si_size0 in E. destruct (reactor_index fd size) as [i|] eqn:R; simpl in E; [|done].
  injection E as <-. apply (reactor_index_ok _ _ _ now (next_id s) Hs) in R.
  assert (connections_ s !! fd = None) as N.
  { destruct (connections_ s !! fd) eqn:C; [|done]. apply si_table0 in C as (_ & C & _). congruence. }
  split; simpl; try done.
  - intros k o C. destruct (si_table0 k o C) as (? & ? & ?). split; [done|]. split; [|done].
    rewrite lookup_insert_ne; [done | congruence].
  - intros o [= <-]. simpl. by rewrite lookup_insert_eq.
  - intros k j. unfold live_on. simpl. destruct (decide (k = fd)) as [->|D].
    + rewrite lookup_insert_eq, N, Z.eqb_refl. done.
    + rewrite lookup_insert_ne by done. intros C. apply si_owner0 in C. unfold live_on in C.
      rewrite I in C. by destruct (connections_ s !! k).
  - intros k j. rewrite lookup_insert_Some. intros [[-> <-]|[_ C]].
    + split; [lia|]. intros F%si_old0. lia.
    + apply si_fresh0 in C as [? ?]. split; [lia | done].
  - intros k k' j. rewrite !lookup_insert_Some.
    intros [[-> <-]|[_ C]] [[-> E]|[_ C']]; [done | apply si_fresh0 in C'; lia | subst; apply si_fresh0 in C; lia | by eapply si_inj0].
  - intros j F%si_old0. lia.
  - intros k j F. destruct (si_tasks0 k j F) as [|C]; [by left|]. right.
    rewrite lookup_insert_ne; [done | congruence].
Qed.

Lemma inv_insert size s s' : server_inv size s -> server_step SInsert s = Some s' -> server_inv size s'.
Proof.
  intros [] E. simpl in E. destruct (inserting s) as [o|] eqn:I; simpl in E; [|done]. injection E as <-.
  destruct (si_inserting0 o eq_refl) as (O & N & R). unfold insert_connection. rewrite N.
  split; simpl; try done.
  - intros k p. rewrite lookup_insert_Some. intros [[<- <-]|[_ C]]; auto.
  - intros k j C. apply si_owner0 in C. unfold live_on in *. simpl. rewrite I in C.
    destruct (decide (k = o_fd o)) as [->|D].
    + rewrite lookup_insert_eq. by rewrite N, Z.eqb_refl in C.
    + rewrite lookup_insert_ne by done. destruct (connections_ s !! k); [done|].
      destruct (o_fd o =? k) eqn:E; [bool_lia | done].
Qed.

Lemma inv_delete size fd s s' : server_inv size s -> server_step (SDelete fd) s = Some s' -> server_inv size s'.
Proof.
  intros [] E. simpl in E. destruct (live_on fd s) as [i|] eqn:L; simpl in E; [|done]. injection E as <-.
  unfold deleteConnection. destruct (fd =? -1); [done|].
  destruct (connections_ s !! fd) as [o|] eqn:C; [|done].
  destruct (si_table0 fd o C) as (Ef & O & R). subst fd. destruct (si_fresh0 _ _ O) as [F1 F2].
  split; simpl; try done.
  - intros k p. rewrite lookup_delete_Some. intros [D P]. destruct (si_table0 k p P) as (? & ? & ?).
    by rewrite lookup_delete_ne.
  - intros p P. destruct (si_inserting0 p P) as (Op & N & ?).
    assert (o_fd o <> o_fd p) by congruence. by rewrite !lookup_delete_ne.
  - intros k j. rewrite lookup_delete_Some. intros [D J]. apply si_owner0 in J. unfold live_on in *. simpl.
    by rewrite lookup_delete_ne.
  - intros k j. rewrite lookup_delete_Some. intros [D J]. destruct (si_fresh0 _ _ J) as [? ?].
    split; [done|]. rewrite elem_of_app, list_elem_of_singleton. intros [?| ->]; [done|].
    by apply D, (si_inj0 _ _ _ O J).
  - intros k k' j. rewrite !lookup_delete_Some. intros [_ J] [_ J']. by eapply si_inj0.
  - intros j. rewrite elem_of_app, list_elem_of_singleton. intros [J%si_old0| ->]; done.
  - apply NoDup_app. split; [done|]. split; [|apply NoDup_singleton].
    intros j J ->%list_elem_of_singleton. done.
  - intros k j J. rewrite elem_of_app, list_elem_of_singleton. destruct (si_tasks0 k j J) as [|K]; [tauto|].
    destruct (decide (k = o_fd o)) as [->|D]; [left; right; congruence | right; by rewrite lookup_delete_ne].
Qed.

Lemma inv_touch size fd now s s' :
  server_inv size s -> server_step (STouch fd now) s = Some s' -> server_inv size s'.
Proof.
  intros [] E. simpl in E. destruct (live_on fd s) as [i|] eqn:L; simpl in E; [|done]. injection E as <-.
  split; simpl; try done.
  - intros k p. rewrite lookup_alter_Some. intros [(-> & o & C & ->)|[_ C]]; apply si_table0 in C; done.
  - intros p. destruct (inserting s) as [o|] eqn:I; [|done]. intros [= <-].
    destruct (si_inserting0 o eq_refl) as (O & N & R).
    destruct (o_fd o =? fd); simpl; by rewrite lookup_alter_None.
  - intros k j J. apply si_owner0 in J. revert J. unfold live_on. simpl.
    destruct (decide (k = fd)) as [->|D]; [rewrite lookup_alter_eq | rewrite lookup_alter_ne by done];
      (destruct (connections_ s !! _); [done|]; simpl; destruct (inserting s) as [o|]; [|done]);
      destruct (o_fd o =? fd) eqn:Q; simpl; by rewrite ?Q.
Qed.

Lemma inv_tasks size l s s' :
  (exists fd, l = SSubmit fd) \/ (exists k, l = SRunTask k) ->
  server_inv size s -> server_step l s = Some s' -> server_inv size s'.
Proof.
  intros [[fd ->]|[k ->]] [] E; simpl in E.
  - destruct (live_on fd s) as [i|] eqn:L; simpl in E; [|done]. injection E as <-. split; simpl; try done.
    intros k j. rewrite elem_of_app, list_elem_of_singleton. intros [J|[= -> ->]]; [by apply si_tasks0|].
    right. unfold live_on in L. destruct (connections_ s !! fd) as [o|] eqn:C.
    + apply si_table0 in C as (_ & C & _). congruence.
    + destruct (inserting s) as [o|] eqn:I; [|done]. destruct (o_fd o =? fd) eqn:F; [|done].
      destruct (si_inserting0 o eq_refl) as (O & _ & _). apply Z.eqb_eq in F as <-. congruence.
  - destruct (db_queue s !! k) as [[fd i]|] eqn:Q; simpl in E; [|done]. injection E as <-.
    split; simpl; try done. intros fd' j J. apply si_tasks0.
    revert J. rewrite !list_elem_of_lookup. intros [m J]. rewrite list_lookup_delete in J. eauto.
Qed.

Lemma server_step_inv size l s s' :
  0 < size -> server_inv size s -> server_step l s = Some s' -> server_inv size s'.
Proof.
  intros Hs I E. destruct l; [by eapply inv_accept | by eapply inv_insert | by eapply inv_delete
    | by eapply inv_touch | eapply inv_tasks; [|done..]; eauto ..].
Qed.

Lemma server_run_inv size ls s s' :
  0 < size -> server_inv size s -> server_run ls s = Some s' -> server_inv size s'.
Proof.
  intros Hs. revert s. induction ls as [|l ls IH]; simpl; intros s I; [by intros [= <-]|].
  destruct (server_step l s) eqn:E; [|done]. intros R. eapply IH; [|done]. by eapply server_step_inv.
Qed.

(** ** The loops end *)

(** A loop leaves at the first turn after which [quit_] is set: no further
    [epoll_wait] is made. *)
Lemma loop_quits {St C} (quit_ : St -> bool) (handle : C -> Z -> St -> St) cb r waits s :
  quit_ s = false -> quit_ (loop_turn handle cb r s) = true ->
  loop quit_ handle cb (r :: waits) s = (loop_turn handle cb r s, waits, true).
Proof. intros Q Q'. cbn [loop]. rewrite Q. by destruct waits; cbn [loop]; rewrite Q'. Qed.

(** A signal that is there before a turn of the main loop ends it with that
    turn, and by then every reactor has been told to quit; accepting connections
    on the way, in whatever number, does not delay it. *)
Lemma signal_ends_main {C} (handle : C -> Z -> Main -> Main) now r waits m :
  (forall ch ev m, g_shutdown (handle ch ev m) = g_shutdown m) ->
  main_quit m = false -> g_shutdown m = true ->
  exists m', loop main_quit handle (Some (main_callback now)) (r :: waits) m = (m', waits, true) /\
             Forall (fun q => q = true) (sub_quits m').
Proof.
  intros Hh Q G. exists (loop_turn handle (Some (main_callback now)) r m).
  assert (forall evs m, g_shutdown m = true ->
            g_shutdown (foldl (fun s '(ch, ev) => handle ch ev s) m evs) = true) as Hf.
  { induction evs as [|[ch ev] evs IH]; intros n E; simpl; [done|]. apply IH. by rewrite Hh. }
  unfold loop_turn at 2, main_callback. split.
  - apply loop_quits; [done|]. unfold loop_turn, main_callback. by rewrite Hf.
  - rewrite Hf by done. simpl. apply Forall_fmap, Forall_true. done.
Qed.

(** ** Properties *)

(** C22: descriptors and connections correspond. In every interleaving of the
    acceptor, the reactors and the database threads, each connection in the table
    is filed under the descriptor it owns and assigned to the reactor
    [fd % subReactors_.size()], which exists; each open descriptor belongs to a
    connection that is in the table or being inserted, so none leaks; and no
    connection is destroyed twice or has its descriptor closed while it lives. *)
Theorem connections_own_descriptors size ls s :
  0 < size -> server_run ls (new_Server size) = Some s ->
  (forall fd o, connections_ s !! fd = Some o ->
     o_fd o = fd /\ opened s !! fd = Some (o_id o) /\
     o_reactor o = to_size_t fd mod size /\ 0 <= o_reactor o < size) /\
  (forall fd i, opened s !! fd = Some i -> live_on fd s = Some i /\ i ∉ destroyed s) /\
  NoDup (destroyed s).
Proof.
  intros Hs R. destruct (server_run_inv _ _ _ _ Hs (new_Server_inv size) R). split; [|split; [|done]].
  - intros fd o C. destruct (si_table0 fd o C) as (E & O & [R1 R2]). rewrite E in R1. done.
  - intros fd i O. split; [by apply si_owner0 | by apply (si_fresh0 fd)].
Qed.

(** The idle sweep. A descriptor is shut down exactly when it is open and
    belongs to a connection of the table whose last activity is more than the
    timeout ago. *)
Theorem sweep_shuts_down_idle size ls s timeout now fd :
  0 < size -> 0 < timeout -> server_run ls (new_Server size) = Some s ->
  fd ∈ sweepIdle timeout now s <->
  exists o, connections_ s !! fd = Some o /\ opened s !! fd = Some (o_id o) /\
            now - o_lastActive o > timeout.
Proof.
  intros Hs Ht R. destruct (server_run_inv _ _ _ _ Hs (new_Server_inv size) R).
  unfold sweepIdle. destruct (timeout <=? 0) eqn:T; [bool_lia|]. rewrite elem_of_dom. split.
  - intros [o E]. apply map_lookup_filter_Some in E as [C D]. exists o. split; [done|].
    split; [by apply si_table0 in C as (_ & ? & _) | done].
  - intros (o & C & _ & D). exists o. by apply map_lookup_filter_Some.
Qed.

(** C35: where a database answer goes. It reaches the connection that asked as
    long as that connection has not been destroyed. Once it has, and the kernel
    has given its descriptor to a new connection, the answer (which may hold a
    session token) is written to that stranger. *)
Theorem db_answer_destination size ls s k fd i :
  0 < size -> server_run ls (new_Server size) = Some s -> db_queue s !! k = Some (fd, i) ->
  (i ∉ destroyed s ->
   exists s', server_run [SRunTask k] s = Some s' /\ delivered s' = delivered s ++ [(i, Some i)]) /\
  (forall now, i ∈ destroyed s -> opened s !! fd = None -> inserting s = None -> 0 <= fd ->
   exists s', server_run [SAccept fd now; SInsert; SRunTask k] s = Some s' /\
     delivered s' = delivered s ++ [(i, Some (next_id s))] /\ next_id s <> i).
Proof.
  intros Hs R Q. destruct (server_run_inv _ _ _ _ Hs (new_Server_inv size) R).
  assert (i ∈ destroyed s \/ opened s !! fd = Some i) as T.
  { apply si_tasks0. rewrite list_elem_of_lookup. eauto. }
  split.
  - intros D. destruct T as [|O]; [done|]. eexists. cbn [server_run server_step]. rewrite Q. simpl.
    by rewrite O.
  - intros now D O I P. assert (0 <=? fd = true) as P' by (by apply Z.leb_le).
    assert (fd =? -1 = false) as P2 by (apply Z.eqb_neq; lia).
    assert (size =? 0 = false) as P3 by (apply Z.eqb_neq; lia).
    assert (connections_ s !! fd = None) as N.
    { destruct (connections_ s !! fd) eqn:C; [|done]. apply si_table0 in C as (_ & C & _). congruence. }
    eexists. cbn [server_run server_step]. rewrite I, O, P'. unfold newConnection, reactor_index.
    rewrite P2, si_size0, P3. cbn [mbind option_bind inserting]. unfold insert_connection. cbn [o_fd connections_].
    rewrite N. cbn [db_queue set_table]. rewrite Q. cbn [mbind option_bind]. split; [done|]. simpl.
    rewrite lookup_insert_eq. split; [done|]. apply si_old0 in D. lia.
Qed.

(** ** Witnesses *)

(** Two connections; the first submits a login task and closes. *)
Definition two_clients : list server_label :=
  [SAccept 7 100; SInsert; SAccept 8 100; STouch 8 130; SInsert; SSubmit 7; SDelete 7].

Definition serving (ls : list server_label) : Server := default (new_Server 4) (server_run ls (new_Server 4)).

Lemma connections_own_descriptors_witness :
  connections_ (serving two_clients) !! 8 = Some (mkObj 8 1 0 130) /\
  (forall fd i, opened (serving two_clients) !! fd = Some i ->
     live_on fd (serving two_clients) = Some i /\ i ∉ destroyed (serving two_clients)).
Proof.
  split; [by vm_compute|]. apply (connections_own_descriptors 4 two_clients); [lia | by vm_compute].
Defined.

Lemma sweep_shuts_down_idle_witness :
  8 ∈ sweepIdle kIdleTimeoutSec 191 (serving two_clients) <->
  exists o, connections_ (serving two_clients) !! 8 = Some o /\
    opened (serving two_clients) !! 8 = Some (o_id o) /\ 191 - o_lastActive o > kIdleTimeoutSec.
Proof. apply (sweep_shuts_down_idle 4 two_clients); [lia | by vm_compute | by vm_compute]. Defined.

Lemma db_answer_destination_witness :
  exists s', server_run [SAccept 7 140; SInsert; SRunTask 0] (serving two_clients) = Some s' /\
    delivered s' = [(0%nat, Some 2%nat)].
Proof.
  destruct (db_answer_destination 4 two_clients (serving two_clients) 0 7 0) as [_ D];
    [lia | by vm_compute | by vm_compute |].
  destruct (D 140) as (s' & R & E & _); [|by vm_compute | by vm_compute | lia | exists s'; split; [exact R | exact E]].
  replace (destroyed (serving two_clients)) with [0%nat] by (vm_compute; reflexivity).
  apply list_elem_of_here.
Defined.

(** A connection whose peer closes before the acceptor thread has filed it: the
    reactor's [deleteConnection] finds no entry, and the connection stays in the
    table with its close event used up, until the idle sweep. *)
Example early_close_is_missed :
  let s := serving [SAccept 7 100; SDelete 7; SInsert] in
  connections_ s !! 7 = Some (mkObj 7 0 3 100) /\ destroyed s = [].
Proof. split; vm_compute; reflexivity. Qed.
