(* ===== verification/ServerLife.v ===== *)
(** * Start and shutdown of the server (include/Server.h, src/Server.cpp,
    test/server.cpp)

    The constructor starts one reactor per thread of [thPool_]: the first part
    shows that each of them gets its thread. The rest is about the end: what
    happens after [stop()] has set [quit_] on every reactor and the main
    loop has left: the main thread runs the destructor of [Server], which
    destroys its members in the reverse of the order they are declared in, while
    the reactors finish the turn they are in. A reactor in its last turn still
    uses members of the server: it submits tasks to [dbPool_], re-arms its
    channels with its [EventLoop], and erases closed connections from the table.
    Both pools are the thread pools of ThreadPool.v; the workers of [thPool_] run
    the reactors. *)

From S2P Require Import Prelude Config ThreadPool.

(** ** Start *)

(** The tasks the constructor adds to [thPool_], for [hardware_concurrency()]
    threads: the task [i] is [subReactors_[i]->loop()]; and the pool of the
    database threads. *)
Definition reactor_tasks (size : Z) : list nat := seq 0 (Z.to_nat size).
Definition new_thPool (size : Z) : ThreadPool nat := new_ThreadPool size.
Definition new_dbPool : ThreadPool unit := new_ThreadPool kDbThreads.

(** The steps of a pool that are neither its clients' calls nor its destructor's. *)
Definition of_worker {T} (l : label T) : bool :=
  match l with Notify _ | Section_ _ | Done _ | Spurious _ => true | _ => false end.

Definition spurious {T} (l : label T) : bool := match l with Spurious _ => true | _ => false end.

(** While the server starts: nobody returns from [loop()], and the pool is not
    being destroyed. *)
Definition starting {T} (l : label T) : bool :=
  match l with Done _ | Stop | NotifyAll => false | _ => true end.

Definition adds {T} (ls : list (label T)) : list T := omap (fun l => match l with Add t => Some t | _ => None end) ls.

Lemma starting_run {T} (ls : list (label T)) (p p' : ThreadPool T) :
  Forall (fun l => starting l = true) ls -> stop_ p = false -> run ls p = Some p' ->
  accepted p' = accepted p ++ adds ls /\ finished p' = finished p /\ stop_ p' = false.
Proof.
  intros F. revert p. induction F as [|l ls Hl F IH]; intros p St; cbn [run].
  { intros [= <-]. unfold adds. simpl. by rewrite app_nil_r. }
  destruct (step l p) as [q|] eqn:E; [|done]. intros R.
  assert (accepted q = accepted p ++ adds [l] /\ finished q = finished p /\ stop_ q = false) as (A & B & C).
  { destruct l as [t|o|i|i|i| |]; simpl in E; try done; cbn [adds omap list_omap]; rewrite ?app_nil_r.
    - unfold add in E. rewrite St in E. by injection E as <-.
    - destruct (decide _); [|done]. destruct o as [i|].
      + by destruct (threads_ p !! i) as [[]|]; simplify_eq.
      + by destruct (existsb _ _); simplify_eq.
    - destruct (threads_ p !! i) as [[]|]; simplify_eq. unfold worker_section.
      destruct (_ || _); [|done]. by destruct (tasks_ p).
    - by destruct (threads_ p !! i) as [[]|]; simplify_eq. }
  destruct (IH q C R) as (A' & B' & C'). rewrite A', A, B', B, <- app_assoc. split; [|done].
  f_equal. unfold adds. by rewrite <- omap_app.
Qed.

Lemma running_length {T} (ws : list (worker T)) :
  (length (running ws) + weigh ready ws = weigh active ws)%nat.
Proof. unfold running, weigh in *. induction ws as [|[] ws IH]; cbn in *; lia. Qed.

(** Every reactor gets a thread. In whatever order the constructor's calls
    of [add], their notifications and the new threads run, once the threads have
    nothing left to do but their reactors (or wake up for no reason), each of the
    reactors is running, on a thread of its own. *)
Theorem reactors_all_started size ls p :
  run ls (new_thPool size) = Some p -> adds ls = reactor_tasks size ->
  Forall (fun l => starting l = true) ls ->
  (forall l, of_worker l && starting l && negb (spurious l) = true -> step l p = None) ->
  running (threads_ p) ≡ₚ reactor_tasks size /\ length (running (threads_ p)) = length (threads_ p) /\
  tasks_ p = [].
Proof.
  intros R A F Stuck. destruct (starting_run ls (new_thPool size) p F eq_refl R) as (Ac & Fi & St).
  simpl in Ac, Fi. rewrite A in Ac. destruct (reachable_inv size p) as [Sz Fifo Once Wake Exit _]; [by exists ls|].
  pose proof (weigh_total (threads_ p)) as Tot. pose proof (running_length (threads_ p)) as Rl.
  assert (weigh gone (threads_ p) = 0%nat) as G.
  { destruct (weigh gone (threads_ p)) eqn:G; [done|]. destruct Exit; [lia | congruence]. }
  assert (weigh ready (threads_ p) = 0%nat) as Rd.
  { destruct (weigh ready (threads_ p)) eqn:E; [done|].
    destruct (weigh_pos ready (threads_ p)) as (i & w & Ei & Pw); [lia|]. destruct w; simpl in Pw; try lia.
    specialize (Stuck (Section_ i) eq_refl). simpl in Stuck. by rewrite Ei in Stuck. }
  assert (notifies p = 0%nat) as N.
  { destruct (notifies p) eqn:E; [done|].
    destruct (existsb is_asleep (threads_ p)) eqn:Sl.
    - apply existsb_exists in Sl as (w & I & Hw). apply list_elem_of_In, list_elem_of_lookup in I as (i & I).
      destruct w; try done. specialize (Stuck (Notify (Some i)) eq_refl). simpl in Stuck.
      by rewrite decide_True, I in Stuck by lia.
    - specialize (Stuck (Notify None) eq_refl). simpl in Stuck. by rewrite decide_True, Sl in Stuck by lia. }
  assert (length (started p) = length (running (threads_ p))) as Ls.
  { by rewrite Once, Fi. }
  assert (length (accepted p) = Z.to_nat size) as La by (rewrite Ac; apply length_seq).
  rewrite Fifo, length_app in La. rewrite Rd, N in *.
  assert (tasks_ p = []) as Q.
  { apply length_zero_iff_nil. destruct Wake as [W|W]; lia. }
  rewrite Q in *. rewrite app_nil_r in Fifo. rewrite <- Ac, Fifo, Once, Fi. simpl in La. split; [done|].
  split; [lia | done].
Qed.

(** ** Shutdown: state *)

(** The members with a destructor that does something. *)
Inductive member : Type := MAcceptor | MConnections | MConnMtx | MSubReactors | MThPool | MDbPool.

#[export] Instance member_eq_dec : EqDecision member.
Proof. solve_decision. Defined.

(** In the order of the class definition; destroyed from the last to the
    first. *)
Definition declared : list member :=
  [MAcceptor; MConnections; MConnMtx; MSubReactors; MThPool; MDbPool].

(** What a reactor does with the server inside a turn. *)
Inductive use : Type :=
| Submit     (* a handler: dbPool_->add *)
| Rearm      (* a channel operation: loop_->updateChannel *)
| Erase.     (* deleteConnectionCallback_: Server::deleteConnection *)

Definition touches (u : use) : list member :=
  match u with
  | Submit => [MConnections; MDbPool]
  | Rearm => [MConnections; MSubReactors]
  | Erase => [MConnMtx; MConnections]
  end.

(** The pools, what each reactor still has to do in its turn, and the members
    that are not destroyed yet, the next one first. *)
Record Closing : Type := mkClosing {
  cl_db : ThreadPool unit;
  cl_th : ThreadPool nat;          (* the task [i] is [subReactors_[i]->loop()] *)
  cl_turns : list (list use);
  cl_left : list member
}.

Definition set_db p s := mkClosing p (cl_th s) (cl_turns s) (cl_left s).
Definition set_th p s := mkClosing (cl_db s) p (cl_turns s) (cl_left s).
Definition set_turn i us s := mkClosing (cl_db s) (cl_th s) (<[i:=us]> (cl_turns s)) (cl_left s).
Definition set_left ms s := mkClosing (cl_db s) (cl_th s) (cl_turns s) ms.

Definition turn (i : nat) (s : Closing) : list use := default [] (cl_turns s !! i).

(** A step succeeds, or uses a member that is already destroyed. *)
Inductive next : Type := Next (s : Closing) | Dangling (m : member).

(** ** Steps *)

(** [~ThreadPool], the next thing it does: set [stop_], notify, or come back
    from the joins ([None] inside); [None] while a join blocks. *)
Definition pool_dtor {T} (p : ThreadPool T) : option (option (ThreadPool T)) :=
  if negb (stop_ p) then Some (Some (request_stop p))
  else if negb (notified_all p) then Some (Some (notify_all p))
  else if joined p then Some None
  else None.

(** The main thread inside [~Server]. *)
Definition main_step (s : Closing) : option Closing :=
  match cl_left s with
  | [] => None
  | MDbPool :: rest =>
      match pool_dtor (cl_db s) with
      | Some (Some p) => Some (set_db p s)
      | Some None => Some (set_left rest s)
      | None => None
      end
  | MThPool :: rest =>
      match pool_dtor (cl_th s) with
      | Some (Some p) => Some (set_th p s)
      | Some None => Some (set_left rest s)
      | None => None
      end
  | _ :: rest => Some (set_left rest s)
  end.

Definition is_running (i : nat) (p : ThreadPool nat) : bool := bool_decide (Running i ∈ threads_ p).

(** The first member the use needs that is gone. *)
Definition missing (u : use) (s : Closing) : option member :=
  head (filter (fun m => m ∉ cl_left s) (touches u)).

(** Reactor [i] does the next thing of its turn. An exception of [add] leaves
    [loop()]. *)
Definition reactor_use (i : nat) (s : Closing) : option next :=
  if is_running i (cl_th s) then
    match turn i s with
    | [] => None
    | u :: us =>
        match missing u s with
        | Some m => Some (Dangling m)
        | None =>
            match u with
            | Submit => match add tt (cl_db s) with
                        | inl _ => Some (Next (set_turn i [] s))
                        | inr p => Some (Next (set_turn i us (set_db p s)))
                        end
            | _ => Some (Next (set_turn i us s))
            end
        end
    end
  else None.

Inductive close_label : Type :=
| MainThread
| DbPool_ (l : label unit)    (* a database thread, or the notification owed by an [add] *)
| ThPool_ (l : label nat)     (* a thread that runs reactors *)
| Reactor (i : nat).

(** [loop()] of a reactor that was told to quit returns at the end of its
    turn. *)
Definition may_return (l : label nat) (s : Closing) : bool :=
  match l with
  | Done j => match threads_ (cl_th s) !! j with
              | Some (Running i) => bool_decide (turn i s = [])
              | _ => false
              end
  | _ => true
  end.

Definition close_step (l : close_label) (s : Closing) : option next :=
  match l with
  | MainThread => Next <$> main_step s
  | DbPool_ l =>
      if of_worker l then
        p ← step l (cl_db s);
        Some (if bool_decide (MDbPool ∈ cl_left s) then Next (set_db p s) else Dangling MDbPool)
      else None
  | ThPool_ l =>
      if of_worker l && may_return l s then
        p ← step l (cl_th s);
        Some (if bool_decide (MThPool ∈ cl_left s) then Next (set_th p s) else Dangling MThPool)
      else None
  | Reactor i => reactor_use i s
  end.

Fixpoint close_run (ls : list close_label) (s : Closing) : option next :=
  match ls with
  | [] => Some (Next s)
  | l :: ls =>
      match close_step l s with
      | Some (Next s') => close_run ls s'
      | Some (Dangling m) => match ls with [] => Some (Dangling m) | _ => None end
      | None => None
      end
  end.

(** When the destructor starts: the pools in any state they can be in, the
    calls of [add] by the constructor long over, any turns in progress. *)
Record closing (n k : Z) (s : Closing) : Prop := {
  cg_db : reachable n (cl_db s);
  cg_th : reachable k (cl_th s);
  cg_started : notifies (cl_th s) = 0%nat;
  cg_left : cl_left s = rev declared
}.

(** ** The invariant *)

Record close_inv (n k : nat) (s : Closing) : Prop := {
  ci_db : pool_inv n (cl_db s);
  ci_th : pool_inv k (cl_th s);
  ci_quiet : notifies (cl_th s) = 0%nat;
  ci_left : cl_left s `suffix_of` rev declared;
  ci_joined : MThPool ∉ cl_left s -> joined (cl_th s) = true
}.

Lemma closing_inv n k s : closing n k s -> close_inv (Z.to_nat n) (Z.to_nat k) s.
Proof.
  intros [Hd Ht Hn Hl]. split; [by apply reachable_inv | by apply reachable_inv | done | by rewrite Hl|].
  rewrite Hl. intros N. exfalso. apply N. by_decide.
Qed.

Lemma pool_dtor_step {T} (p p' : ThreadPool T) :
  pool_dtor p = Some (Some p') -> exists l, step l p = Some p' /\ (l = Stop \/ l = NotifyAll).
Proof.
  unfold pool_dtor. destruct (stop_ p) eqn:St; simpl.
  - destruct (notified_all p) eqn:N; simpl; [by destruct (joined p)|]. intros [= <-].
    exists NotifyAll. simpl. rewrite St, N. eauto.
  - intros [= <-]. exists Stop. simpl. rewrite St. eauto.
Qed.

Lemma pool_dtor_joined {T} (p : ThreadPool T) : pool_dtor p = Some None -> joined p = true.
Proof. unfold pool_dtor. destruct (stop_ p), (notified_all p), (joined p); done. Qed.

(** Threads that are joined do not move. *)
Lemma joined_still {T} (p : ThreadPool T) l :
  joined p = true -> notifies p = 0%nat -> of_worker l = true -> step l p = None.
Proof.
  unfold joined. intros [_ J]%andb_true_iff N W. rewrite forallb_forall in J.
  assert (forall i w, threads_ p !! i = Some w -> w = Exited) as X.
  { intros i w E. apply list_elem_of_lookup_2, list_elem_of_In in E. apply J in E. by destruct w. }
  destruct l as [t|o|i|i|i| |]; simpl; try done.
  - by rewrite N, decide_False by lia.
  - destruct (threads_ p !! i) as [w|] eqn:E; [|done]. by rewrite (X i w).
  - destruct (threads_ p !! i) as [w|] eqn:E; [|done]. by rewrite (X i w).
  - destruct (threads_ p !! i) as [w|] eqn:E; [|done]. by rewrite (X i w).
Qed.

(** A running reactor keeps the joins of [thPool_] from returning. *)
Lemma running_unjoined i p : is_running i p = true -> joined p = false.
Proof.
  unfold is_running. intros R%bool_decide_eq_true. apply not_true_iff_false.
  unfold joined. intros [_ J]%andb_true_iff. rewrite forallb_forall in J.
  apply list_elem_of_In, J in R. done.
Qed.

Lemma worker_quiet {T} l (p p' : ThreadPool T) :
  of_worker l = true -> notifies p = 0%nat -> step l p = Some p' -> notifies p' = 0%nat.
Proof.
  intros W N. destruct l as [t|o|i|i|i| |]; simpl; try done.
  - by rewrite N, decide_False by lia.
  - destruct (threads_ p !! i) as [[]|]; intros [= <-]. unfold worker_section.
    destruct (_ || _); [|done]. by destruct (tasks_ p).
  - by destruct (threads_ p !! i) as [[]|]; intros [= <-].
  - by destruct (threads_ p !! i) as [[]|]; intros [= <-].
Qed.

(** What is left is what comes after the members that were destroyed. *)
Lemma left_cases ms : ms `suffix_of` rev declared ->
  ms ∈ [ [MDbPool; MThPool; MSubReactors; MConnMtx; MConnections; MAcceptor];
         [MThPool; MSubReactors; MConnMtx; MConnections; MAcceptor];
         [MSubReactors; MConnMtx; MConnections; MAcceptor];
         [MConnMtx; MConnections; MAcceptor]; [MConnections; MAcceptor]; [MAcceptor]; [] ].
Proof.
  intros [pre E]. simpl in E. rewrite !elem_of_cons.
  do 6 (destruct pre as [|? pre]; [simpl in E; subst; tauto | injection E as _ E]).
  destruct pre; [simpl in E; subst; tauto | done].
Qed.

Lemma main_step_inv n k s s' : close_inv n k s -> main_step s = Some s' -> close_inv n k s'.
Proof.
  intros [Hd Ht Hq Hl Hj] E. pose proof (left_cases _ Hl) as C. unfold main_step in E.
  destruct (cl_left s) as [|m rest] eqn:L; [done|].
  assert (rest `suffix_of` rev declared) as Hr by by eapply suffix_cons_l.
  assert (m <> MThPool -> MThPool ∉ rest -> joined (cl_th s) = true) as Hj'.
  { intros Nm Nr. apply Hj. rewrite not_elem_of_cons. auto. }
  destruct m.
  - injection E as <-. split; try done. by apply Hj'.
  - injection E as <-. split; try done. by apply Hj'.
  - injection E as <-. split; try done. by apply Hj'.
  - injection E as <-. split; try done. by apply Hj'.
  - destruct (pool_dtor (cl_th s)) as [[p|]|] eqn:P; simplify_eq.
    + apply pool_dtor_step in P as (l & P & Hc). split; simpl; try done.
      * by eapply inv_step.
      * destruct Hc as [-> | ->]; simpl in P.
        -- destruct (stop_ (cl_th s)); by simplify_eq.
        -- destruct (_ && _); by simplify_eq.
      * by rewrite L.
      * rewrite L. intros N. exfalso. apply N. by apply list_elem_of_here.
    + apply pool_dtor_joined in P. by split.
  - destruct (pool_dtor (cl_db s)) as [[p|]|] eqn:P; simplify_eq.
    + apply pool_dtor_step in P as (l & P & _). split; simpl; try done; [by eapply inv_step | by rewrite L | by rewrite L].
    + split; try done. by apply Hj'.
Qed.

Lemma close_step_inv n k l s s' :
  close_inv n k s -> close_step l s = Some (Next s') -> close_inv n k s'.
Proof.
  intros I. pose proof I as [Hd Ht Hq Hl Hj]. destruct l as [|l|l|i]; simpl.
  - destruct (main_step s) eqn:E; simpl; [|done]. intros [= <-]. by eapply main_step_inv.
  - destruct (of_worker l); [|done]. destruct (step l (cl_db s)) as [p|] eqn:E; simpl; [|done].
    case_bool_decide; [|done]. intros [= <-]. split; simpl; try done. by eapply inv_step.
  - destruct (of_worker l) eqn:W; [|done]. destruct (may_return l s); simpl; [|done].
    destruct (step l (cl_th s)) as [p|] eqn:E; simpl; [|done]. case_bool_decide as A; [|done].
    intros [= <-]. split; simpl; try done; [by eapply inv_step | by eapply worker_quiet].
  - unfold reactor_use. destruct (is_running i (cl_th s)); [|done]. destruct (turn i s) as [|u us]; [done|].
    destruct (missing u s); [done|].
    destruct u; try (intros [= <-]; by split). destruct (add tt (cl_db s)) as [e|p] eqn:A; intros [= <-]; [by split|].
    split; simpl; try done. by eapply inv_add.
Qed.

Lemma close_step_dangling n k l s m :
  close_inv n k s -> close_step l s = Some (Dangling m) -> m = MDbPool /\ MDbPool ∉ cl_left s.
Proof.
  intros [Hd Ht Hq Hl Hj]. destruct l as [|l|l|i]; simpl.
  - by destruct (main_step s).
  - destruct (of_worker l); [|done]. destruct (step l (cl_db s)); simpl; [|done].
    case_bool_decide; [done|]. by intros [= <-].
  - destruct (of_worker l) eqn:W; [|done]. destruct (may_return l s); simpl; [|done].
    destruct (step l (cl_th s)) as [p|] eqn:E; simpl; [|done]. case_bool_decide as A; [done|].
    rewrite joined_still in E; [done | by apply Hj | done | done].
  - unfold reactor_use. destruct (is_running i (cl_th s)) eqn:R; [|done].
    assert (MThPool ∈ cl_left s) as T.
    { destruct (decide (MThPool ∈ cl_left s)) as [|N]; [done|]. apply Hj in N.
      apply running_unjoined in R. congruence. }
    destruct (turn i s) as [|u us]; [done|]. destruct (missing u s) as [m'|] eqn:Ms.
    + intros [= <-]. unfold missing in Ms. apply left_cases in Hl. rewrite !elem_of_cons in Hl.
      destruct Hl as [X|[X|Hl]]; [rewrite X in * | rewrite X in * |].
      * destruct u; vm_compute in Ms; done.
      * destruct u; vm_compute in Ms; simplify_eq. split; [done|]. by_decide.
      * exfalso. destruct_or! Hl; first [by apply elem_of_nil in Hl | rewrite Hl in T; revert T; by_decide].
    + destruct u; try done. by destruct (add tt (cl_db s)).
Qed.

Lemma close_run_dangling n k ls s m :
  close_inv n k s -> close_run ls s = Some (Dangling m) -> m = MDbPool.
Proof.
  revert s. induction ls as [|l ls IH]; intros s I; simpl; [done|].
  destruct (close_step l s) as [[s'|m']|] eqn:E; [|destruct ls; [|done] | done].
  - apply IH. by eapply close_step_inv.
  - intros [= ->]. by apply (close_step_dangling n k) in E as [? _].
Qed.

(** ** Termination *)

(** Steps that are not wake-ups without a reason, which a condition variable may
    produce in any number. *)
Definition regular (l : close_label) : bool :=
  match l with DbPool_ (Spurious _) | ThPool_ (Spurious _) => false | _ => true end.

Definition heft {T} (w : worker T) : nat :=
  match w with Exited => 0 | Asleep => 1 | Ready => 2 | Running _ => 3 end.

Definition pool_work {T} (p : ThreadPool T) : nat :=
  (2 * length (tasks_ p) + 2 * notifies p + weigh heft (threads_ p))%nat.

Definition dtor_work {T} (p : ThreadPool T) : nat :=
  ((if stop_ p then 0 else 1) + (if notified_all p then 0 else 1))%nat.

(** The destructors' steps left, each of which may wake up every thread. *)
Definition main_work (s : Closing) : nat :=
  (dtor_work (cl_db s) + dtor_work (cl_th s) + length (cl_left s))%nat.

Definition uses_left (s : Closing) : nat := sum_list_with length (cl_turns s).

Definition close_work (n k : nat) (s : Closing) : nat :=
  (pool_work (cl_db s) + pool_work (cl_th s) + 5 * uses_left s + S (n + k) * main_work s)%nat.

Lemma worker_work {T} l (p p' : ThreadPool T) :
  of_worker l = true -> (forall i, l <> Spurious i) -> step l p = Some p' ->
  (pool_work p' < pool_work p)%nat /\ dtor_work p' = dtor_work p.
Proof.
  intros W Ns. unfold pool_work, dtor_work. destruct l as [t|o|i|i|i| |]; simpl; try done.
  - destruct (decide _); [|done]. destruct o as [i|].
    + destruct (threads_ p !! i) as [[]|] eqn:E; intros; simplify_eq. simpl.
      pose proof (weigh_insert heft _ _ _ Ready E). simpl in *. split; [lia | done].
    + destruct (existsb _ _); intros; simplify_eq. simpl. split; [lia | done].
  - destruct (threads_ p !! i) as [[]|] eqn:E; intros; simplify_eq. unfold worker_section.
    destruct (tasks_ p) as [|t rest] eqn:Q; simpl.
    + destruct (stop_ p) eqn:St; simpl; rewrite Q, St; simpl.
      * pose proof (weigh_insert heft _ _ _ Exited E). simpl in *. split; [lia | done].
      * pose proof (weigh_insert heft _ _ _ Asleep E). simpl in *. split; [lia | done].
    + rewrite orb_true_r. simpl. pose proof (weigh_insert heft _ _ _ (Running t) E). simpl in *.
      split; [lia | done].
  - destruct (threads_ p !! i) as [[]|] eqn:E; intros; simplify_eq. simpl.
    pose proof (weigh_insert heft _ _ _ Ready E). simpl in *. split; [lia | done].
  - by destruct (Ns i).
Qed.

Lemma wake_heft {T} (ws : list (worker T)) : (weigh heft (wake <$> ws) <= weigh heft ws + length ws)%nat.
Proof. unfold weigh. induction ws as [|[] ws IH]; csimpl; lia. Qed.

Lemma dtor_work_step {T} m (p p' : ThreadPool T) :
  pool_inv m p -> pool_dtor p = Some (Some p') ->
  (pool_work p' <= pool_work p + m)%nat /\ S (dtor_work p') = dtor_work p.
Proof.
  intros I. unfold pool_dtor, dtor_work, pool_work. destruct (stop_ p) eqn:St; simpl.
  - destruct (notified_all p) eqn:N; simpl; [by destruct (joined p)|]. intros [= <-]. simpl.
    pose proof (wake_heft (threads_ p)). rewrite (inv_size _ _ I) in *. rewrite St. split; [lia | done].
  - intros [= <-]. simpl. split; [lia|]. by destruct (notified_all p).
Qed.

Lemma main_step_work n k s s' :
  close_inv n k s -> main_step s = Some s' -> (close_work n k s' < close_work n k s)%nat.
Proof.
  intros [Hd Ht _ _ _] E. unfold main_step in E. destruct (cl_left s) as [|m rest] eqn:L; [done|].
  unfold close_work, main_work, uses_left. rewrite L.
  destruct m; simplify_eq; cbn [cl_db cl_th cl_turns cl_left set_left length]; try nia.
  - destruct (pool_dtor (cl_th s)) as [[p|]|] eqn:P; simplify_eq;
      cbn [cl_db cl_th cl_turns cl_left set_left set_th length]; [|nia].
    destruct (dtor_work_step _ _ _ Ht P) as [A <-]. rewrite L. cbn [length]. nia.
  - destruct (pool_dtor (cl_db s)) as [[p|]|] eqn:P; simplify_eq;
      cbn [cl_db cl_th cl_turns cl_left set_left set_db length]; [|nia].
    destruct (dtor_work_step _ _ _ Hd P) as [A <-]. rewrite L. cbn [length]. nia.
Qed.

Lemma uses_set_turn i us s u vs :
  turn i s = u :: vs -> (length us <= length vs)%nat -> (S (uses_left (set_turn i us s)) <= uses_left s)%nat.
Proof.
  unfold turn, uses_left. simpl. destruct (cl_turns s !! i) as [ws|] eqn:E; simpl; [|done]. intros -> Hle.
  apply list_elem_of_split_length in E as (l1 & l2 & -> & ->).
  rewrite insert_app_r_alt, Nat.sub_diag by lia. simpl. rewrite !sum_list_with_app. simpl. lia.
Qed.

Lemma reactor_use_work n k i s s' :
  reactor_use i s = Some (Next s') -> (close_work n k s' < close_work n k s)%nat.
Proof.
  unfold reactor_use. destruct (is_running _ _); [|done]. destruct (turn i s) as [|u us] eqn:T; [done|].
  destruct (missing u s); [done|].
  pose proof (uses_set_turn i us s u us T) as A. pose proof (uses_set_turn i [] s u us T) as B. simpl in B.
  unfold close_work, main_work, pool_work, dtor_work.
  destruct u; try (intros [= <-]; simpl; specialize (A (le_n _)); lia).
  unfold add. destruct (stop_ (cl_db s)) eqn:St; intros [= <-]; simpl; rewrite ?St.
  - specialize (B ltac:(lia)). lia.
  - specialize (A (le_n _)). unfold set_turn, uses_left in *. simpl in *. rewrite length_app. simpl. lia.
Qed.

Lemma close_step_work n k l s s' :
  close_inv n k s -> regular l = true -> close_step l s = Some (Next s') ->
  (close_work n k s' < close_work n k s)%nat.
Proof.
  intros I Rg. destruct l as [|l|l|i]; simpl.
  - destruct (main_step s) eqn:E; simpl; [|done]. intros [= <-]. by eapply main_step_work.
  - destruct (of_worker l) eqn:W; [|done]. destruct (step l (cl_db s)) as [p|] eqn:E; simpl; [|done].
    case_bool_decide; [|done]. intros [= <-]. apply worker_work in E as [E1 E2]; [|done|by intros i ->].
    unfold close_work, main_work, uses_left. cbn [cl_db cl_th cl_turns cl_left set_db set_th]. rewrite E2. lia.
  - destruct (of_worker l) eqn:W; [|done]. destruct (may_return l s); simpl; [|done].
    destruct (step l (cl_th s)) as [p|] eqn:E; simpl; [|done]. case_bool_decide; [|done]. intros [= <-].
    apply worker_work in E as [E1 E2]; [|done|by intros i ->].
    unfold close_work, main_work, uses_left. cbn [cl_db cl_th cl_turns cl_left set_db set_th]. rewrite E2. lia.
  - apply reactor_use_work.
Qed.

Lemma close_run_work n k ls s s' :
  close_inv n k s -> Forall (fun l => regular l = true) ls -> close_run ls s = Some (Next s') ->
  (length ls + close_work n k s' <= close_work n k s)%nat /\ close_inv n k s'.
Proof.
  intros I F. revert s I. induction F as [|l ls Hl F IH]; intros s I; simpl; [by intros [= <-]|].
  destruct (close_step l s) as [[s1|m]|] eqn:E; [|by destruct ls|done]. intros R.
  pose proof (close_step_work _ _ _ _ _ I Hl E). apply IH in R as [B I']; [|by eapply close_step_inv].
  split; [lia | done].
Qed.

(** *** Progress *)

Lemma pool_dtor_blocked {T} m (p : ThreadPool T) :
  pool_inv m p -> pool_dtor p = None ->
  exists i, threads_ p !! i = Some Ready \/ exists t, threads_ p !! i = Some (Running t).
Proof.
  unfold pool_dtor. intros I. destruct (stop_ p); [|done]. destruct (notified_all p) eqn:N; [|done]. simpl.
  destruct (joined p) eqn:J; [done|]. intros _. by eapply unjoined_worker.
Qed.

Lemma close_progress n k s :
  close_inv n k s -> cl_left s <> [] -> exists l o, regular l = true /\ close_step l s = Some o.
Proof.
  intros [Hd Ht _ _ _] Nl. destruct (main_step s) as [s'|] eqn:M.
  { exists MainThread, (Next s'). simpl. by rewrite M. }
  unfold main_step in M. destruct (cl_left s) as [|m rest] eqn:L; [done|]. destruct m; try done.
  - destruct (pool_dtor (cl_th s)) as [[]|] eqn:P; [done..|].
    destruct (pool_dtor_blocked _ _ Ht P) as (j & [E|(i & E)]).
    + exists (ThPool_ (Section_ j)). simpl. rewrite E. simpl. by eexists.
    + destruct (turn i s) as [|u us] eqn:T.
      * exists (ThPool_ (Done j)). simpl. rewrite E, T. simpl. by eexists.
      * exists (Reactor i). simpl. unfold reactor_use.
        assert (is_running i (cl_th s) = true) as ->.
        { apply bool_decide_eq_true. by eapply list_elem_of_lookup_2. }
        rewrite T. destruct (missing u s); [by eexists|].
        destruct u; [destruct (add tt (cl_db s))| |]; by eexists.
  - destruct (pool_dtor (cl_db s)) as [[]|] eqn:P; [done..|].
    destruct (pool_dtor_blocked _ _ Hd P) as (j & [E|([] & E)]).
    + exists (DbPool_ (Section_ j)). simpl. rewrite E. simpl. by eexists.
    + exists (DbPool_ (Done j)). simpl. rewrite E. simpl. by eexists.
Qed.

(** *** The database pool goes first *)

Lemma close_run_cons l ls s s' : close_step l s = Some (Next s') -> close_run (l :: ls) s = close_run ls s'.
Proof. intros E. simpl. by rewrite E. Qed.

(** Its destructor can come to its end while the reactors do nothing. *)
Lemma db_pool_destroyed n k s rest :
  close_inv n k s -> cl_left s = MDbPool :: rest ->
  exists ls p, forall ls', close_run (ls ++ ls') s = close_run ls' (set_left rest (set_db p s)).
Proof.
  remember (close_work n k s) as w eqn:W. revert s W.
  induction w as [w IH] using lt_wf_ind. intros s -> I L.
  assert (forall l p, regular l = true -> close_step l s = Some (Next (set_db p s)) ->
    exists ls p, forall ls', close_run (ls ++ ls') s = close_run ls' (set_left rest (set_db p s))) as Move.
  { intros l p Rg E. pose proof (close_step_work _ _ _ _ _ I Rg E) as Lt.
    destruct (IH _ Lt (set_db p s) eq_refl) as (ls & q & R); [by eapply close_step_inv | done |].
    exists (l :: ls), q. intros ls'. rewrite <- app_comm_cons. by rewrite (close_run_cons _ _ _ _ E), R. }
  assert (bool_decide (MDbPool ∈ cl_left s) = true) as A.
  { apply bool_decide_eq_true. rewrite L. apply list_elem_of_here. }
  destruct (pool_dtor (cl_db s)) as [[p|]|] eqn:P.
  - apply (Move MainThread p); [done|]. simpl. unfold main_step. by rewrite L, P.
  - exists [MainThread], (cl_db s). intros ls'. simpl. unfold main_step. rewrite L, P. by destruct s.
  - destruct (pool_dtor_blocked _ _ (ci_db _ _ _ I) P) as (j & [E|([] & E)]).
    + eapply (Move (DbPool_ (Section_ j))); [done|]. simpl. rewrite E. simpl. by rewrite A.
    + eapply (Move (DbPool_ (Done j))); [done|]. simpl. rewrite E. simpl. by rewrite A.
Qed.

(** ** Properties *)

(** C25: order of destruction. In every interleaving of [~Server] with the
    reactors' last turns and the threads of both pools, the table of connections,
    its mutex, the reactors and [thPool_] are never used after they are
    destroyed; the only member that can be is [dbPool_]. *)
Theorem only_db_pool_dangles n k s ls m :
  closing n k s -> close_run ls s = Some (Dangling m) -> m = MDbPool.
Proof. intros C. apply (close_run_dangling _ _ _ _ _ (closing_inv _ _ _ C)). Qed.

(** C40: [dbPool_] is destroyed too early. Whenever shutdown begins while some
    reactor still has a database request to handle in its turn, there is a
    schedule in which the pool is gone by the time it does. *)
Theorem late_request_uses_dead_pool n k s i us :
  closing n k s -> is_running i (cl_th s) = true -> turn i s = Submit :: us ->
  exists ls, close_run ls s = Some (Dangling MDbPool).
Proof.
  intros C R T. pose proof (cg_left _ _ _ C) as L. apply closing_inv in C.
  destruct (db_pool_destroyed _ _ s _ C L) as (ls & p & E). exists (ls ++ [Reactor i]). rewrite E.
  simpl. unfold reactor_use. cbn [cl_th set_left set_db]. rewrite R.
  change (turn i (set_left _ _)) with (turn i s). by rewrite T.
Qed.

(** C23: shutdown ends. Leaving aside wake-ups without a reason, the destructor
    of the server, the reactors and the pools take a bounded number of steps, and
    a state without further steps is one where every member is destroyed. *)
Theorem shutdown_terminates n k s ls s' :
  closing n k s -> Forall (fun l => regular l = true) ls -> close_run ls s = Some (Next s') ->
  (length ls <= close_work (Z.to_nat n) (Z.to_nat k) s)%nat /\
  ((forall l, regular l = true -> close_step l s' = None) -> cl_left s' = []).
Proof.
  intros C F R. apply closing_inv in C. destruct (close_run_work _ _ _ _ _ C F R) as [B I].
  split; [lia|]. intros Stuck. destruct (decide (cl_left s' = [])) as [|N]; [done|].
  destruct (close_progress _ _ _ I N) as (l & o & Hl & E). by rewrite (Stuck l Hl) in E.
Qed.

(** ** Witnesses *)

(** Two reactors; one thread sleeps before the first task comes. *)
Definition two_starts : list (label nat) :=
  [Section_ 0; Add 0; Notify (Some 0); Section_ 0; Add 1; Notify None; Section_ 1]%nat.

Definition both_running : ThreadPool nat :=
  mkPool [Running 0; Running 1]%nat [] false 0 false [0; 1]%nat [0; 1]%nat [].

Lemma reactors_all_started_witness :
  running (threads_ both_running) ≡ₚ reactor_tasks 2 /\
  length (running (threads_ both_running)) = length (threads_ both_running) /\ tasks_ both_running = [].
Proof.
  apply (reactors_all_started 2 two_starts both_running); [reflexivity | reflexivity | by repeat constructor|].
  intros [t|o|[|[|i]]|i|[|[|i]]| |]; done.
Defined.

(** One reactor in a turn with a database request and a close, two database
    threads. *)
Definition one_reactor : ThreadPool nat := default (new_ThreadPool 1)
  (run [Add 0; Notify None; Section_ 0]%nat (new_ThreadPool 1)).

Definition last_turn (us : list use) : Closing :=
  mkClosing (new_ThreadPool 2) one_reactor [us] (rev declared).

Lemma last_turn_closing us : closing 2 1 (last_turn us).
Proof.
  split; [by exists [] | | done | done].
  exists [Add 0; Notify None; Section_ 0]%nat. reflexivity.
Qed.

(** The destructor of [dbPool_] runs to its end before the request. *)
Definition early_destruction : list close_label :=
  [MainThread; MainThread; DbPool_ (Section_ 0); DbPool_ (Section_ 1); MainThread; Reactor 0].

Lemma only_db_pool_dangles_witness :
  close_run early_destruction (last_turn [Submit; Erase]) = Some (Dangling MDbPool) /\ MDbPool = MDbPool.
Proof.
  split; [reflexivity|]. apply (only_db_pool_dangles 2 1 (last_turn [Submit; Erase]) early_destruction);
    [apply last_turn_closing | reflexivity].
Defined.

Lemma late_request_uses_dead_pool_witness :
  exists ls, close_run ls (last_turn [Submit; Erase]) = Some (Dangling MDbPool).
Proof.
  apply (late_request_uses_dead_pool 2 1 _ 0 [Erase]); [apply last_turn_closing | reflexivity | reflexivity].
Defined.

(** The request comes after [stop_] is set: [add] throws, which ends the
    reactor; then the rest is destroyed. *)
Definition clean_destruction : list close_label :=
  [MainThread; Reactor 0; MainThread; DbPool_ (Section_ 0); DbPool_ (Section_ 1); MainThread;
   MainThread; MainThread; ThPool_ (Done 0); ThPool_ (Section_ 0); MainThread;
   MainThread; MainThread; MainThread; MainThread].

Definition clean_end : Closing :=
  match close_run clean_destruction (last_turn [Submit; Erase]) with Some (Next s) => s | _ => last_turn [] end.

Lemma clean_run : close_run clean_destruction (last_turn [Submit; Erase]) = Some (Next clean_end).
Proof. vm_compute. reflexivity. Qed.

Lemma shutdown_terminates_witness :
  (length clean_destruction <= close_work (Z.to_nat 2) (Z.to_nat 1) (last_turn [Submit; Erase]))%nat /\
  ((forall l, regular l = true -> close_step l clean_end = None) -> cl_left clean_end = []).
Proof.
  apply (shutdown_terminates 2 1 (last_turn [Submit; Erase]) clean_destruction clean_end);
    [apply last_turn_closing | by repeat constructor | apply clean_run].
Defined.
