(* ===== verification/Boot.v ===== *)
(** * The main thread (test/server.cpp, include/EventLoop.h, src/EventLoop.cpp and
    the constructor of Server)

    [main] from its first system call to the end of its loop. The start makes the
    event loop of the main thread, the acceptor on it and the reactors, and ends
    the process where one of these cannot be had. The loop then runs the acceptor
    for the events of the listening socket, which puts every accepted connection
    into the table of the server, and, once per turn, the callback that sweeps
    the idle connections or, after a signal, stops all reactors. What the other
    threads do to the table between the turns is given from outside. *)

From S2P Require Import Prelude CppString Config Channel Socket Connection Server.

(** ** EventLoop *)

Section EventLoops.
Context {K : Type} `{EpollKernel K} {CB : Type}.
Local Open Scope proc_scope.

Record EventLoop : Type := mkLoop { ep_ : Z; quit_ : bool; loopCallback_ : option CB }.

Definition new_EventLoop : Proc K EventLoop :=
  ep <- new_Epoll ;; pret (mkLoop ep false None).

Definition setLoopCallback (cb : CB) (lp : EventLoop) : EventLoop := mkLoop (ep_ lp) (quit_ lp) (Some cb).

(** ** Server::Server *)

(** The loop over the reactors. *)
Fixpoint make_reactors (size : nat) : Proc K (list EventLoop) :=
  match size with
  | O => pret []
  | S size => lp <- new_EventLoop ;; rest <- make_reactors size ;; pret (lp :: rest)
  end.

(** The constructor, for [size = hardware_concurrency()]; the pools it starts
    are those of [ServerLife]. *)
Definition Server_ctor (env : environment) (inet_addr : bytes -> Z) (ptr : nat) (size : Z) :
    Proc K (Acceptor * list EventLoop) :=
  acceptor_ <- new_Acceptor env inet_addr ptr ;;
  subReactors <- make_reactors (Z.to_nat size) ;;
  pret (acceptor_, subReactors).

End EventLoops.
Arguments EventLoop CB : clear implicits.

(** ** main *)

(** What comes from outside around a turn of the main loop: what the other
    threads did to the table, whether a signal came in, and the time. *)
Record weather : Type := mkWeather { w_steps : list server_label; w_signal : bool; w_now : Z }.

(** The process, as its main thread sees it: running, in the given turn; out of
    bounds; or after [exit]. *)
Inductive mstate (K : Type) : Type :=
| Alive (n : Net K) (m : Main) (turn : nat)
| Undefined
| Exited (n : Net K).
Arguments Alive {K} n m turn. Arguments Undefined {K}. Arguments Exited {K} n.

Section MainThread.
Context {K : Type} `{EpollKernel K}.
Context (around : nat -> weather).
Local Open Scope proc_scope.

Definition set_serv (s : Server) (m : Main) : Main :=
  mkMain (g_shutdown m) (main_quit m) (sub_quits m) s (shut_down m).

Definition set_script (script : list sys_ret) (n : Net K) : Net K :=
  mkNet (n_socks n) script (n_errno n) (n_perrors n) (n_kern n) (n_handed n).

(** [newConnectionCallback_], bound to [Server::newConnection], for the sockets
    that are handed over. *)
Fixpoint newConnections (now : Z) (fds : list Z) (s : Server) : option Server :=
  match fds with
  | [] => Some s
  | fd :: fds =>
      s ← newConnection fd now s;
      newConnections now fds (match inserting s with Some o => insert_connection o s | None => s end)
  end.

(** The one channel of the main loop; an event comes with the answers to the
    system calls of the handler. *)
Definition main_handle (a : Acceptor) (script : list sys_ret) (revents : Z) (st : mstate K) : mstate K :=
  match st with
  | Alive n m i =>
      match handleEvent (setRevents revents (acceptChannel_ a)) with
      | Some acceptConnection_cb =>
          match acceptConnection a (set_script script n) with
          | (n', PExit) => Exited n'
          | (n', PRet _) =>
              match newConnections (w_now (around i)) (drop (length (n_handed n)) (n_handed n')) (serv m) with
              | Some s => Alive n' (set_serv s m) i
              | None => Undefined
              end
          end
      | _ => st
      end
  | _ => st
  end.

(** The callback, after what came from outside. *)
Definition main_housekeeping (st : mstate K) : mstate K :=
  match st with
  | Alive n m i =>
      let w := around i in
      let m := match server_run (w_steps w) (serv m) with Some s => set_serv s m | None => m end in
      let m := if w_signal w then onSignal m else m in
      Alive n (main_callback (w_now w) m) (S i)
  | _ => st
  end.

Definition main_stops (st : mstate K) : bool :=
  match st with Alive _ m _ => main_quit m | _ => true end.

Definition main_start (env : environment) (inet_addr : bytes -> Z) (ptr : nat) (size : Z) :
    Proc K (EventLoop (mstate K -> mstate K) * (Acceptor * list (EventLoop unit))) :=
  lp <- new_EventLoop ;;
  serv <- Server_ctor env inet_addr ptr size ;;
  pret (setLoopCallback main_housekeeping lp, serv).

(** [main]; [waits] are the answers of [epoll_wait] of the main loop. *)
Definition main (env : environment) (inet_addr : bytes -> Z) (ptr : nat) (size : Z)
    (waits : list (wait_ret (list sys_ret))) (n : Net K) :
    mstate K * list (wait_ret (list sys_ret)) * bool :=
  match main_start env inet_addr ptr size n with
  | (n', PExit) => (Exited n', waits, true)
  | (n', PRet (lp, (a, subs))) =>
      loop main_stops (main_handle a) (loopCallback_ lp) waits
        (Alive n' (mkMain false (quit_ lp) (quit_ <$> subs) (new_Server size) ∅) 0)
  end.

End MainThread.

(** ** The start *)

(** The message of the first call that must not fail and does. *)
Definition first_failure (calls : list (sys_ret * string)) : option string :=
  head (omap (fun '(r, msg) => if succeeds r then None else Some msg) calls).

Section Start.
Context {K : Type} `{EpollKernel K}.

Lemma new_EventLoop_run {CB} (n : Net K) r rest :
  n_script n = r :: rest -> documented r ->
  exists n', new_EventLoop (CB := CB) n =
      (n', if succeeds r then PRet (mkLoop (value_of r) false None) else PExit) /\
    n_script n' = rest /\ n_kern n' = n_kern n /\ n_handed n' = n_handed n /\ n_socks n' = n_socks n /\
    n_perrors n' = n_perrors n ++ (if succeeds r then [] else ["epoll create error"%string]).
Proof.
  intros Sc D. unfold new_EventLoop, new_Epoll, pbind. rewrite (syscall_run _ n r rest Sc), value_ok by done.
  destruct r as [v|e]; simpl; eexists; (split; [reflexivity|]); simpl; rewrite ?app_nil_r; done.
Qed.

Lemma make_reactors_run {CB} rs : forall (n : Net K) rest,
  n_script n = rs ++ rest -> Forall documented rs ->
  exists n', make_reactors (CB := CB) (length rs) n =
      (n', if forallb succeeds rs then PRet ((fun r => mkLoop (value_of r) false None) <$> rs) else PExit) /\
    (forallb succeeds rs = true -> n_script n' = rest) /\ n_kern n' = n_kern n /\ n_handed n' = n_handed n /\
    n_socks n' = n_socks n /\
    n_perrors n' = n_perrors n ++ (if forallb succeeds rs then [] else ["epoll create error"%string]).
Proof.
  induction rs as [|r rs IH]; intros n rest Sc D.
  { eexists. split; [reflexivity|]. simpl. by rewrite app_nil_r. }
  apply Forall_cons in D as [Dr D]. cbn [make_reactors length].
  destruct (new_EventLoop_run (CB := CB) n r (rs ++ rest) Sc Dr) as (n1 & E1 & Sc1 & K1 & H1 & S1 & P1).
  cbn [forallb fmap list_fmap]. destruct (succeeds r); cbn [andb].
  2: { rewrite (pbind_exit_eq _ _ _ _ E1). by exists n1. }
  rewrite (pbind_ret_eq _ _ _ _ _ E1). destruct (IH n1 rest Sc1 D) as (n2 & E2 & Sc2 & K2 & H2 & S2 & P2).
  rewrite app_nil_r in P1. rewrite P1 in P2. exists n2. split; [|split_and!; first [done | congruence]].
  destruct (forallb succeeds rs); [by rewrite (pbind_ret_eq _ _ _ _ _ E2) | by rewrite (pbind_exit_eq _ _ _ _ E2)].
Qed.

Lemma first_failure_all rs msg :
  first_failure ((fun r => (r, msg)) <$> rs) = if forallb succeeds rs then None else Some msg.
Proof.
  unfold first_failure in *. induction rs as [|r rs IH]; [done|]. cbn. destruct (succeeds r); [exact IH | done].
Qed.

(** The constructor of the server, from the answers to its calls. *)
Lemma Server_ctor_run {CB} env inet_addr ptr size (n : Net K) r_sock r_reuse r_bind r_listen r_get r_set r_eps rest :
  n_script n = [r_sock; r_reuse; r_bind; r_listen; r_get; r_set] ++ r_eps ++ rest ->
  Forall documented ([r_sock; r_reuse; r_bind; r_listen; r_get; r_set] ++ r_eps) ->
  length r_eps = Z.to_nat size ->
  let '(n', res) := Server_ctor (CB := CB) env inet_addr ptr size n in
  match first_failure ([(r_sock, "socket create error"%string);
                        (r_bind, "socket bind error"%string); (r_listen, "socket listen error"%string)] ++
                       ((fun r => (r, "epoll create error"%string)) <$> r_eps)) with
  | Some msg => res = PExit /\ n_perrors n' = n_perrors n ++ [msg]
  | None => exists a so, res = PRet (a, (fun r => mkLoop (value_of r) false None) <$> r_eps) /\
      a_sock a = value_of r_sock /\ n_socks n' !! a_sock a = Some so /\
      so_bound so = Some (new_InetAddress (inet_addr (c_str (serverHost env))) (serverPort env)) /\
      so_backlog so = Some 65535 /\ so_reuseaddr so = succeeds r_reuse /\ nonblocking so = succeeds r_set /\
      ch_events (acceptChannel_ a) = accept_mask /\ ch_callback (acceptChannel_ a) = Some acceptConnection_cb /\
      ch_writeCallback (acceptChannel_ a) = None /\
      (snd (epoll_ctl (n_kern n) EPOLL_CTL_ADD (a_sock a) (ptr, accept_mask)) = 0 \/
       registered (n_kern n) (a_sock a) <> None -> mounted (n_kern n') (acceptChannel_ a)) /\
      n_perrors n' = n_perrors n /\ n_script n' = rest /\ n_handed n' = n_handed n
  end.
Proof.
  intros Sc D L. apply Forall_app in D as [D De]. unfold Server_ctor, pbind.
  pose proof (new_Acceptor_outcomes env inet_addr ptr n r_sock r_reuse r_bind r_listen r_get r_set _ Sc D) as A.
  destruct (new_Acceptor env inet_addr ptr n) as [n1 res].
  destruct r_sock as [fd|e1], r_bind as [b|e2], r_listen as [l|e3]; try (destruct A as [-> A]; done).
  destruct A as (a & so & -> & Fd & Sc1 & P1 & Hd & So & Bo & Ba & Re & Nb & Ev & Cb & Wc & Mo).
  destruct (make_reactors_run (CB := CB) r_eps n1 rest Sc1 De) as (n2 & E2 & Sc2 & K2 & H2 & S2 & P2).
  rewrite L in E2. rewrite E2.
  change (first_failure _) with (first_failure ((fun r => (r, "epoll create error"%string)) <$> r_eps)).
  rewrite first_failure_all. destruct (forallb succeeds r_eps); cbn [pret]; [|by rewrite P2, P1].
  exists a, so. rewrite Fd, P2, P1, K2, S2, app_nil_r. split_and!; auto. congruence.
Qed.

End Start.

(** ** The loop *)

(** Whether a mask makes the channel of the acceptor call its handler. *)
Definition wakes (revents : Z) : bool :=
  (Z.land revents EPOLLOUT =? 0) &&
  negb (Z.land revents (Z.lor EPOLLIN (Z.lor EPOLLPRI (Z.lor EPOLLRDHUP (Z.lor EPOLLHUP EPOLLERR)))) =? 0).

(** The descriptors accepted for an event, and in a turn. *)
Inductive event_accepts : list sys_ret * Z -> list Z -> Prop :=
| ea_wakes script revents l :
    wakes revents = true -> accept_script script l -> event_accepts (script, revents) l.*1.*1
| ea_ignored script revents : wakes revents = false -> event_accepts (script, revents) [].

Definition turn_accepts (r : wait_ret (list sys_ret)) (fds : list Z) : Prop :=
  exists fdss, Forall2 event_accepts (activeChannels r) fdss /\ fds = concat fdss.

(** The first of the next [count] turns, from turn [i] on, that a signal comes
    in: how many turns go before it. *)
Fixpoint first_signal (around : nat -> weather) (i count : nat) : option nat :=
  match count with
  | O => None
  | S count => if w_signal (around i) then Some 0%nat else S <$> first_signal around (S i) count
  end.

(** The steps of the other threads. *)
Definition of_others (l : server_label) : bool :=
  match l with SAccept _ _ | SInsert => false | _ => true end.

(** Between two accepts, after [k] of them. *)
Definition table_ok (size : Z) (k : nat) (s : Server) : Prop :=
  inserting s = None /\ subReactors_ s = size /\ next_id s = k.

Definition standing (size : Z) (k : nat) (m : Main) : Prop :=
  g_shutdown m = false /\ main_quit m = false /\ table_ok size k (serv m).

Lemma others_step size k l s s' :
  of_others l = true -> table_ok size k s -> server_step l s = Some s' -> table_ok size k s'.
Proof.
  intros O (I & Z & N) E. unfold table_ok. destruct l; try done; simpl in E.
  - destruct (live_on fd s); simplify_eq/=. unfold deleteConnection. destruct (fd =? -1); [done|].
    by destruct (connections_ s !! fd).
  - destruct (live_on fd s); simplify_eq/=. by rewrite I.
  - by destruct (live_on fd s); simplify_eq/=.
  - by destruct (db_queue s !! k0) as [[]|]; simplify_eq/=.
Qed.

Lemma others_run size k ls : forall s s',
  Forall (fun l => of_others l = true) ls -> table_ok size k s -> server_run ls s = Some s' -> table_ok size k s'.
Proof.
  induction ls as [|l ls IH]; simpl; intros s s' F T E; [by simplify_eq|].
  apply Forall_cons in F as [Fl F]. destruct (server_step l s) eqn:El; [|done].
  eapply IH; [done | | done]. by eapply others_step.
Qed.

Lemma newConnections_run size now fds : forall k s,
  0 < size -> Forall (Z.le 0) fds -> table_ok size k s ->
  exists s', newConnections now fds s = Some s' /\ table_ok size (k + length fds) s'.
Proof.
  induction fds as [|fd fds IH]; intros k s P F T; cbn [newConnections length].
  { exists s. by rewrite Nat.add_0_r. }
  apply Forall_cons in F as [Ff F]. destruct T as (I & Z & N). unfold newConnection.
  rewrite (proj2 (Z.eqb_neq fd (-1))) by lia. unfold reactor_index.
  rewrite Z, (proj2 (Z.eqb_neq size 0)) by lia. simpl. rewrite Nat.add_succ_r, <- Nat.add_succ_l.
  apply IH; [done..|]. unfold insert_connection, table_ok. simpl. destruct (connections_ s !! fd); simpl; by rewrite N.
Qed.

Lemma accept_script_nonneg s l : accept_script s l -> Forall (Z.le 0) l.*1.*1.
Proof. induction 1; try done. by constructor. Qed.

Section MainLoop.
Context {K : Type} `{EpollKernel K}.
Context (around : nat -> weather) (a : Acceptor) (size : Z).
Context (Hsize : 0 < size).
Context (Hcb : ch_callback (acceptChannel_ a) = Some acceptConnection_cb).
Context (Hwcb : ch_writeCallback (acceptChannel_ a) = None).
Context (Hothers : forall i, Forall (fun l => of_others l = true) (w_steps (around i))).

Lemma acceptor_event revents :
  handleEvent (setRevents revents (acceptChannel_ a)) = if wakes revents then Some acceptConnection_cb else None.
Proof using Hcb Hwcb.
  unfold handleEvent, wakes. simpl. rewrite Hcb, Hwcb.
  destruct (Z.land revents EPOLLOUT =? 0); [|done]. simpl. by destruct (Z.land _ _ =? 0).
Qed.

(** One event: what was accepted is handed over and has a connection. *)
Lemma main_handle_run ev fds (n : Net K) m i k :
  event_accepts ev fds -> standing size k m ->
  exists n' m', main_handle around a ev.1 ev.2 (Alive n m i) = Alive n' m' i /\
    n_handed n' = n_handed n ++ fds /\ standing size (k + length fds) m' /\ sub_quits m' = sub_quits m.
Proof using Hsize Hcb Hwcb.
  intros A (G & Q & T). destruct A as [script revents l W A|script revents W]; unfold main_handle;
    cbn [fst snd]; rewrite acceptor_event, W.
  2: { exists n, m. rewrite app_nil_r, Nat.add_0_r. done. }
  destruct (accept_loop_run _ _ A a (set_script script n) (S (length script))) as (n' & E & Hd & _); [done | lia|].
  unfold acceptConnection. change (n_script (set_script script n)) with script. rewrite E, Hd.
  change (n_handed (set_script script n)) with (n_handed n). rewrite drop_app_length.
  destruct (newConnections_run size (w_now (around i)) l.*1.*1 k (serv m)) as (s' & -> & T');
    [done | by eapply accept_script_nonneg | done|].
  by exists n', (set_serv s' m).
Qed.

Lemma main_events_run evs fdss : Forall2 event_accepts evs fdss -> forall (n : Net K) m i k,
  standing size k m ->
  exists n' m', foldl (fun s '(ch, revents) => main_handle around a ch revents s) (Alive n m i) evs = Alive n' m' i /\
    n_handed n' = n_handed n ++ concat fdss /\ standing size (k + length (concat fdss)) m' /\
    sub_quits m' = sub_quits m.
Proof using Hsize Hcb Hwcb.
  induction 1 as [|[script revents] fds evs fdss A F IH]; intros n m i k S; cbn [foldl concat].
  { exists n, m. rewrite app_nil_r, Nat.add_0_r. done. }
  destruct (main_handle_run _ _ n m i k A S) as (n1 & m1 & E & H1 & S1 & Q1). cbn [fst snd] in E. rewrite E.
  destruct (IH n1 m1 i _ S1) as (n2 & m2 & -> & H2 & S2 & Q2). exists n2, m2.
  rewrite H2, H1, Q2, Q1, length_app, Nat.add_assoc, <- app_assoc. done.
Qed.

(** One turn: without a signal the process goes on; with one, everybody is told
    to quit. *)
Lemma main_turn_run r fds (n : Net K) m i k :
  turn_accepts r fds -> standing size k m ->
  exists n' m', loop_turn (main_handle around a) (Some (main_housekeeping around)) r (Alive n m i) = Alive n' m' (S i) /\
    n_handed n' = n_handed n ++ fds /\ table_ok size (k + length fds) (serv m') /\
    if w_signal (around i) then main_quit m' = true /\ sub_quits m' = (fun _ => true) <$> sub_quits m
    else standing size (k + length fds) m' /\ sub_quits m' = sub_quits m.
Proof using Hsize Hcb Hwcb Hothers.
  intros (fdss & F & ->) S. unfold loop_turn.
  destruct (main_events_run _ _ F n m i k S) as (n1 & m1 & -> & H1 & (G & Q & T) & Q1).
  cbn [main_housekeeping].
  assert (exists m2, match server_run (w_steps (around i)) (serv m1) with Some s => set_serv s m1 | None => m1 end = m2 /\
            g_shutdown m2 = false /\ main_quit m2 = false /\ sub_quits m2 = sub_quits m /\
            table_ok size (k + length (concat fdss)) (serv m2)) as (m2 & -> & G2 & Q2 & B2 & T2).
  { destruct (server_run _ _) as [s|] eqn:E; eexists; (split; [reflexivity|]); simpl; split_and!; try done.
    eapply others_run; [apply (Hothers i) | exact T | exact E]. }
  eexists n1, _. split; [reflexivity|]. split; [done|].
  destruct (w_signal (around i)); unfold main_callback; simpl; rewrite ?G2; simpl; [by rewrite B2|].
  unfold standing. by rewrite B2.
Qed.

Lemma main_loop_run waits : forall fdss (n : Net K) m i k,
  Forall2 turn_accepts waits fdss -> standing size k m ->
  let turns := match first_signal around i (length waits) with Some j => S j | None => length waits end in
  let ended := match first_signal around i (length waits) with Some _ => true | None => false end in
  exists n' m',
    loop main_stops (main_handle around a) (Some (main_housekeeping around)) waits (Alive n m i) =
      (Alive n' m' (i + turns), drop turns waits, ended) /\
    n_handed n' = n_handed n ++ concat (take turns fdss) /\
    next_id (serv m') = (k + length (concat (take turns fdss)))%nat /\
    main_quit m' = ended /\ sub_quits m' = if ended then (fun _ => true) <$> sub_quits m else sub_quits m.
Proof using Hsize Hcb Hwcb Hothers.
  induction waits as [|r waits IH]; intros fdss n m i k F S; cbn [length first_signal loop main_stops].
  { destruct S as (G & Q & T). rewrite Q. exists n, m. inversion F. simpl.
    rewrite app_nil_r, !Nat.add_0_r. by destruct T as (_ & _ & ->). }
  apply Forall2_cons_inv_l in F as (fds & fdss' & A & F & ->).
  destruct (main_turn_run _ _ n m i k A S) as (n1 & m1 & E & H1 & T1 & R).
  destruct S as (G & Q & T). rewrite Q, E. destruct (w_signal (around i)).
  - destruct R as [Q1 B1]. exists n1, m1. split.
    { destruct waits; cbn [loop main_stops]; rewrite Q1; by rewrite Nat.add_1_r. }
    simpl. rewrite app_nil_r. destruct T1 as (_ & _ & ->). done.
  - destruct R as [S1 B1]. destruct (IH fdss' n1 m1 (S i) _ F S1) as (n2 & m2 & E2 & H2 & N2 & Q2 & B2).
    exists n2, m2. rewrite E2, N2, H2, H1, Q2, B2, B1.
    destruct (first_signal around (S i) (length waits)) as [j|]; cbn [fmap option_fmap option_map take drop concat];
      rewrite length_app, <- app_assoc; (split; [by rewrite Nat.add_succ_comm|]); split_and!; (done || lia).
Qed.

End MainLoop.

(** ** Properties *)

Section Runs.
Context {K : Type} `{EpollKernel K}.

(** C32: the start of the process. [main] asks for an epoll instance, for a socket,
    to bind it, to listen on it, and for one more epoll instance for each reactor,
    in this order. The first of these that fails ends the process with its
    message. If none fails, the main loop and [size] reactors stand, none of them
    told to quit; the listening socket is bound to the configured address,
    listens, may reuse the address and does not block as far as the other answers
    allow; and its channel calls [acceptConnection] and is registered with the
    main loop unless the kernel refused that. *)
Theorem main_starts around env inet_addr ptr size (n : Net K) r_ep r_sock r_reuse r_bind r_listen r_get r_set r_eps rest :
  n_script n = [r_ep; r_sock; r_reuse; r_bind; r_listen; r_get; r_set] ++ r_eps ++ rest ->
  Forall documented ([r_ep; r_sock; r_reuse; r_bind; r_listen; r_get; r_set] ++ r_eps) ->
  length r_eps = Z.to_nat size ->
  let '(n', res) := main_start around env inet_addr ptr size n in
  match first_failure ([(r_ep, "epoll create error"%string); (r_sock, "socket create error"%string);
                        (r_bind, "socket bind error"%string); (r_listen, "socket listen error"%string)] ++
                       ((fun r => (r, "epoll create error"%string)) <$> r_eps)) with
  | Some msg => res = PExit /\ n_perrors n' = n_perrors n ++ [msg]
  | None => exists a so, res = PRet (mkLoop (value_of r_ep) false (Some (main_housekeeping around)),
                                    (a, (fun r => mkLoop (value_of r) false None) <$> r_eps)) /\
      a_sock a = value_of r_sock /\ n_socks n' !! a_sock a = Some so /\
      so_bound so = Some (new_InetAddress (inet_addr (c_str (serverHost env))) (serverPort env)) /\
      so_backlog so = Some 65535 /\ so_reuseaddr so = succeeds r_reuse /\ nonblocking so = succeeds r_set /\
      ch_events (acceptChannel_ a) = accept_mask /\ ch_callback (acceptChannel_ a) = Some acceptConnection_cb /\
      ch_writeCallback (acceptChannel_ a) = None /\
      (snd (epoll_ctl (n_kern n) EPOLL_CTL_ADD (a_sock a) (ptr, accept_mask)) = 0 \/
       registered (n_kern n) (a_sock a) <> None -> mounted (n_kern n') (acceptChannel_ a)) /\
      n_perrors n' = n_perrors n /\ n_script n' = rest /\ n_handed n' = n_handed n
  end.
Proof.
  intros Sc D L. apply Forall_cons in D as [D0 D].
  destruct (new_EventLoop_run (CB := mstate K -> mstate K) n r_ep _ Sc D0) as (n1 & E1 & Sc1 & K1 & H1 & S1 & P1).
  unfold main_start. destruct r_ep as [ep|e].
  2: { by rewrite (pbind_exit_eq _ _ _ _ E1). }
  rewrite (pbind_ret_eq _ _ _ _ _ E1). unfold pbind.
  pose proof (Server_ctor_run (CB := unit) env inet_addr ptr size n1 r_sock r_reuse r_bind r_listen r_get r_set r_eps
                rest Sc1 D L) as A.
  destruct (Server_ctor env inet_addr ptr size n1) as [n2 res]. simpl in P1. rewrite app_nil_r in P1.
  rewrite P1, K1, H1 in A. cbn [first_failure omap list_omap app succeeds] in A |- *.
  change (first_failure ((SysOk ep, _) :: ?l)) with (first_failure l).
  destruct (first_failure _); [by destruct A as [-> A]|].
  destruct A as (a & so & -> & A). by exists a, so.
Qed.

(** C24: the life of the main thread. If the calls of the start succeed, then,
    whatever events the listening socket has, whatever the accepts answer and
    whatever the other threads do to the table meanwhile, the main loop never
    leaves the bounds of the program or exits; it goes on as long as no signal
    comes in, and leaves with the turn in which the first one is seen, without
    another wait, the main loop and all [size] reactors told to quit. Until then
    every accepted connection was handed over, in order, and made a connection of
    the server. *)
Theorem main_until_signal around env inet_addr ptr size (n : Net K) ep fd r_reuse b l r_get r_set eps rest waits fdss :
  0 < size ->
  n_script n = [SysOk ep; SysOk fd; r_reuse; SysOk b; SysOk l; r_get; r_set] ++ (SysOk <$> eps) ++ rest ->
  Forall documented ([SysOk ep; SysOk fd; r_reuse; SysOk b; SysOk l; r_get; r_set] ++ (SysOk <$> eps)) ->
  length eps = Z.to_nat size ->
  Forall2 turn_accepts waits fdss ->
  (forall i, Forall (fun l => of_others l = true) (w_steps (around i))) ->
  let turns := match first_signal around 0 (length waits) with Some j => S j | None => length waits end in
  let ended := match first_signal around 0 (length waits) with Some _ => true | None => false end in
  exists n' m',
    main around env inet_addr ptr size waits n = (Alive n' m' turns, drop turns waits, ended) /\
    n_handed n' = n_handed n ++ concat (take turns fdss) /\
    next_id (serv m') = length (concat (take turns fdss)) /\
    main_quit m' = ended /\ sub_quits m' = replicate (Z.to_nat size) ended.
Proof.
  intros P Sc D L F O turns ended. apply Forall_cons in D as [D0 D].
  destruct (new_EventLoop_run (CB := mstate K -> mstate K) n _ _ Sc D0) as (n1 & E1 & Sc1 & K1 & H1 & S1 & P1).
  pose proof (Server_ctor_run (CB := unit) env inet_addr ptr size n1 _ _ _ _ _ _ (SysOk <$> eps) rest Sc1 D) as A.
  unfold main, main_start. rewrite (pbind_ret_eq _ _ _ _ _ E1). unfold pbind.
  destruct (Server_ctor env inet_addr ptr size n1) as [n2 res].
  rewrite length_fmap in A. specialize (A L).
  change (first_failure _) with (first_failure ((fun r => (r, "epoll create error"%string)) <$> (SysOk <$> eps))) in A.
  rewrite first_failure_all in A. replace (forallb succeeds (SysOk <$> eps)) with true in A by (clear; symmetry; by induction eps).
  destruct A as (a & so & -> & _ & _ & _ & _ & _ & _ & _ & Cb & Wc & _ & _ & _ & H2). cbn [pret setLoopCallback loopCallback_ quit_].
  assert (quit_ <$> ((fun r => mkLoop (CB := unit) (value_of r) false None) <$> (SysOk <$> eps)) = replicate (Z.to_nat size) false) as ->.
  { rewrite <- L. clear. induction eps as [|e eps IH]; [done|]. cbn. by f_equal. }
  set (m := mkMain _ _ _ _ _).
  destruct (main_loop_run around a size P Cb Wc O waits fdss n2 m 0 0 F) as (n' & m' & E & Hd & N & Q & B); [done|].
  exists n', m'. rewrite H2, H1 in Hd. split; [exact E|]. split; [exact Hd|]. split; [exact N|]. split; [exact Q|].
  rewrite B. unfold m. cbn [sub_quits]. rewrite fmap_replicate. subst ended. by destruct (first_signal _ _ _).
Qed.

End Runs.

(** ** Witnesses *)

(** Two reactors, all calls answered. *)
Definition booted : list sys_ret :=
  [SysOk 3; SysOk 4; SysOk 0; SysOk 0; SysOk 0; SysOk 2; SysOk 0; SysOk 5; SysOk 6].

(** A second server on the same port. *)
Lemma main_starts_witness :
  let '(n', res) := main_start (fun _ => mkWeather [] false 0) any_env all_interfaces 1 2
                      (booting [SysOk 3; SysOk 4; SysOk 0; SysErr 98; SysOk 0; SysOk 2; SysOk 0; SysOk 5; SysOk 6]) in
  res = PExit /\ n_perrors n' = ["socket bind error"%string].
Proof.
  apply (main_starts (fun _ => mkWeather [] false 0) any_env all_interfaces 1 2
           (booting [SysOk 3; SysOk 4; SysOk 0; SysErr 98; SysOk 0; SysOk 2; SysOk 0; SysOk 5; SysOk 6])
           (SysOk 3) (SysOk 4) (SysOk 0) (SysErr 98) (SysOk 0) (SysOk 2) (SysOk 0) [SysOk 5; SysOk 6] []);
    [reflexivity | by_decide | reflexivity].
Defined.

(** Two clients come in the first turn, one of them leaves; the second wait is
    interrupted by a signal. *)
Definition an_evening (i : nat) : weather :=
  match i with
  | O => mkWeather [STouch 7 100; SDelete 8] false 100
  | 1%nat => mkWeather [] true 101
  | _ => mkWeather [] false 102
  end.

Definition evening_waits : list (wait_ret (list sys_ret)) :=
  [Events [(two_accepts, EPOLLIN)]; WaitErrno EINTR; Events [(two_accepts, EPOLLIN)]].

Lemma evening_accepts : Forall2 turn_accepts evening_waits [[7; 8]; []; [7; 8]].
Proof.
  assert (turn_accepts (Events [(two_accepts, EPOLLIN)]) [7; 8]) as T.
  { exists [[7; 8]]. split; [|done]. constructor; [|done]. by apply (ea_wakes two_accepts EPOLLIN _ eq_refl two_accepts_script). }
  constructor; [exact T|]. constructor; [by exists []|]. by constructor.
Qed.

Lemma main_until_signal_witness :
  exists n' m', main an_evening any_env all_interfaces 1 2 evening_waits (booting booted) =
      (Alive n' m' 2, [Events [(two_accepts, EPOLLIN)]], true) /\
    n_handed n' = [7; 8] /\ next_id (serv m') = 2%nat /\ main_quit m' = true /\ sub_quits m' = [true; true].
Proof.
  apply (main_until_signal an_evening any_env all_interfaces 1 2 (booting booted) 3 4 (SysOk 0) 0 0 (SysOk 2) (SysOk 0)
           [5; 6] [] evening_waits [[7; 8]; []; [7; 8]]);
    [reflexivity | reflexivity | by_decide | reflexivity | apply evening_accepts | ].
  intros [|[|i]]; by_decide.
Defined.

(** The same run, computed: the table at the end. *)
Example evening_table :
  match main an_evening any_env all_interfaces 1 2 evening_waits (booting booted) with
  | (Alive _ m _, _, _) => map_to_list (connections_ (serv m)) = [(7, mkObj 7 0 1 100)] /\ destroyed (serv m) = [1%nat]
  | _ => False
  end.
Proof. vm_compute. done. Qed.
