(* ===== verification/Process.v ===== *)
(** * The process: reactors, connections and database pool together
    (src/Server.cpp, Connection.cpp, ThreadPool.cpp)

    Several sub-reactors, each with its epoll instance and the connections whose
    descriptors fall to it, and the database pool of [Service]. A reactor runs the
    handler of one event at a time. What the handler does to the outside (bytes
    on a socket, epoll calls, tasks for the pool) comes about one effect after the
    other, and in between the other reactors, the main thread and the database
    threads do their steps; the rest of the handler's work is on its connection,
    which nobody else touches. The answer of a database task goes to the
    descriptor the task captured, straight from the thread that ran it.

    What each connection keeps to by itself ([ConnProtocol]) all connections keep
    to in every interleaving ([pstep_reactors]). Here this gives memory safety;
    [Answers] uses it for what clients get. The idle sweep, the moment between the
    registration of a new connection and its entry in the table, and the shutdown
    are in [Server] and [ServerLife]. *)

From S2P Require Import Prelude CppString Config Http Json Channel Framing Connection WritePath ReadPath Lifetime.
From S2P Require Import ThreadPool Interfaces Mysql Redis Handlers Accounts Interleaved Atomic Service Linear Progress.
From S2P Require Import Server.

(** ** Tagged lists *)

(** What carries the tag [x]. *)
Definition tagged {A B} `{EqDecision A} (x : A) (l : list (A * B)) : list B :=
  snd <$> filter (fun e => e.1 = x) l.

Section Tagged.
Context {A B : Type} `{EqDecision A}.
Implicit Types (l : list (A * B)) (x y : A).

Lemma tagged_app x l l' : tagged x (l ++ l') = tagged x l ++ tagged x l'.
Proof. unfold tagged. by rewrite filter_app, fmap_app. Qed.

Lemma tagged_cons x y (b : B) l : tagged x ((y, b) :: l) = (if decide (y = x) then [b] else []) ++ tagged x l.
Proof. unfold tagged. rewrite filter_cons. simpl. by case_decide. Qed.

Lemma tagged_fmap x y (bs : list B) :
  tagged x ((fun b => (y, b)) <$> bs) = if decide (y = x) then bs else [].
Proof.
  induction bs as [|b bs IH]; [by case_decide|]. rewrite fmap_cons, tagged_cons, IH. by case_decide.
Qed.

Lemma tagged_none x l : (forall b, (x, b) ∉ l) -> tagged x l = [].
Proof.
  intros N. induction l as [|[y b] l IH]; [done|]. rewrite tagged_cons, decide_False.
  - apply IH. intros b' I. apply (N b'). by right.
  - intros ->. apply (N b). left.
Qed.

End Tagged.

(** ** State *)

(** The static variables of Connection.cpp: the clock they are filled from, the
    counters of [allowRequest] and the file of [getStaticFd]. *)
Record statics : Type := mkStatics {
  st_clock : list Z;
  st_window : Z;
  st_count : Z;
  st_file : option (Z * Z)
}.

(** Whose doing an event is: the [n]-th connection, or the [n]-th task. *)
Inductive source : Type := ByConn (n : nat) | ByTask (n : nat).

#[export] Instance source_eq_dec : EqDecision source.
Proof. solve_decision. Defined.

Section Process.
Context {K S D G : Type} `{EpollKernel K} `{SessionStore S} `{MysqlServer D}.
Context (draw : G -> nat * G).
Context (env : environment) (fs_open : bytes -> Z) (fs_fstat : Z -> option (bool * Z)).
Notation service := (@service K S D G).

Record process : Type := mkProcess {
  pr_kerns : list K;                      (* the epoll instance of each sub-reactor *)
  pr_statics : statics;
  pr_conns : gmap Z (nat * Conn);         (* live connections, by descriptor *)
  pr_todo : list (list (nat * event));    (* per reactor: effects its handler has yet to make *)
  pr_service : service;
  pr_crashed : bool;                      (* a handler ran into undefined behaviour *)
  pr_fds : list Z;                        (* history: the descriptor of each connection *)
  pr_reads : list (nat * input);          (* history: what was read, from whom *)
  pr_trace : list (source * event)        (* history *)
}.

(** ** Steps *)

(** The sub-reactor of a descriptor. *)
Definition reactor_of (fd : Z) (p : process) : option nat :=
  Z.to_nat <$> reactor_index fd (Z.of_nat (length (pr_kerns p))).

(** The world a piece of code on a reactor runs in. *)
Definition enter (k : K) (st : statics) (c : option Conn) (ev : life_event) : World K :=
  mkWorld c k (ev_reads ev) (ev_writes ev) (ev_sends ev) (st_clock st) (st_window st) (st_count st) (st_file st) [].

Definition statics_of (w : World K) : statics := mkStatics (w_clock w) (w_window w) (w_count w) (w_static w).

(** A mask for which a channel calls its read handler. *)
Definition readable (m : Z) : bool :=
  (Z.land m EPOLLOUT =? 0) &&
  negb (Z.land m (Z.lor EPOLLIN (Z.lor EPOLLPRI (Z.lor EPOLLRDHUP (Z.lor EPOLLHUP EPOLLERR)))) =? 0).

(** What an event reads, if it reads. *)
Definition observed (ev : life_event) : option input :=
  if readable (ev_mask ev) then
    Some (match read_loop (ev_reads ev) [] with (_, b, Drained) => Arrived b | _ => HungUp end)
  else None.

Inductive plabel : Type :=
| PAccept (ptr : nat) (fd : Z)         (* the main thread: a connection is accepted *)
| PEvent (fd : Z) (ev : life_event)    (* a reactor: an event, and what its calls return *)
| PEffect (r : nat)                    (* a reactor: the next effect of its handler *)
| PDb (l : slabel (S := S)).           (* the database pool, but for submissions *)

(** [newConnection], for a descriptor that is not in use. *)
Definition accept_step (ptr : nat) (fd : Z) (p : process) : option process :=
  if fd =? -1 then Some p else
  r ← reactor_of fd p;
  k ← pr_kerns p !! r;
  todo ← pr_todo p !! r;
  match pr_conns p !! fd with
  | Some _ => None
  | None =>
      if existsb (fun '(_, e) => match e with Deleted d => d =? fd | _ => false end) todo then None
      else
        let '(w, _) := new_Connection ptr fd (enter k (pr_statics p) None (mkEvent 0 [] [] [])) in
        let n := length (pr_fds p) in
        Some (mkProcess (<[r := w_kern w]> (pr_kerns p)) (statics_of w)
                (match w_conn w with Some c => <[fd := (n, c)]> (pr_conns p) | None => pr_conns p end)
                (pr_todo p) (pr_service p) (pr_crashed p) (pr_fds p ++ [fd]) (pr_reads p)
                (pr_trace p ++ ((fun e => (ByConn n, e)) <$> w_trace w)))
  end.

(** An event on the connection of [fd], whose reactor is idle. *)
Definition event_step (fd : Z) (ev : life_event) (p : process) : option process :=
  r ← reactor_of fd p;
  k ← pr_kerns p !! r;
  '(n, c) ← pr_conns p !! fd;
  match pr_todo p !! r with
  | Some [] =>
      let '(w, res) := dispatch env fs_open fs_fstat (ev_mask ev) (enter k (pr_statics p) (Some c) ev) in
      Some (mkProcess (<[r := w_kern w]> (pr_kerns p)) (statics_of w)
              (match w_conn w with Some c' => <[fd := (n, c')]> (pr_conns p) | None => delete fd (pr_conns p) end)
              (<[r := (fun e => (n, e)) <$> w_trace w]> (pr_todo p)) (pr_service p)
              (match res with Ret _ => pr_crashed p | _ => true end) (pr_fds p)
              (pr_reads p ++ (pair n <$> option_list (observed ev))) (pr_trace p))
  | _ => None
  end.

Definition set_service (s : service) (todo : list (list (nat * event))) (es : list (source * event)) (p : process) :
    process :=
  mkProcess (pr_kerns p) (pr_statics p) (pr_conns p) todo s (pr_crashed p) (pr_fds p) (pr_reads p)
    (pr_trace p ++ es).

(** The next effect of the handler on reactor [r]; a submission is a call of
    [dbPool_->add]. *)
Definition effect_step (r : nat) (p : process) : option process :=
  match pr_todo p !! r with
  | Some ((n, e) :: rest) =>
      s ← match e with Submitted t => sstep draw (Submit t) (pr_service p) | _ => Some (pr_service p) end;
      Some (set_service s (<[r := rest]> (pr_todo p)) [(ByConn n, e)] p)
  | _ => None
  end.

(** The task a step of the pool belongs to. *)
Definition acting (l : slabel (S := S)) (s : service) : nat :=
  match l with
  | Exec i => match threads_ (sv_pool s) !! i with Some (Running (n, _)) => n | _ => 0 end
  | _ => 0
  end%nat.

Definition new_events (s s' : service) : list event :=
  drop (length (w_trace (b_world (sv_back s)))) (w_trace (b_world (sv_back s'))).

Definition db_step (l : slabel) (p : process) : option process :=
  match l with
  | Submit _ => None
  | _ =>
      s ← sstep draw l (pr_service p);
      Some (set_service s (pr_todo p)
              ((fun e => (ByTask (acting l (pr_service p)), e)) <$> new_events (pr_service p) s) p)
  end.

Definition pstep (l : plabel) (p : process) : option process :=
  match l with
  | PAccept ptr fd => accept_step ptr fd p
  | PEvent fd ev => event_step fd ev p
  | PEffect r => effect_step r p
  | PDb l => db_step l p
  end.

Fixpoint prun (ls : list plabel) (p : process) : option process :=
  match ls with
  | [] => Some p
  | l :: ls => match pstep l p with Some p' => prun ls p' | None => None end
  end.

(** [size] database threads on the back end [b], and a reactor per epoll
    instance of [ks]. *)
Definition new_process (ks : list K) (st : statics) (size : Z) (b : Backend K S D G) : process :=
  mkProcess ks st ∅ (replicate (length ks) []) (new_service size b) false [] [] [].

(** ** What is seen of a connection and of a task *)

(** What was read from connection [n], one entry for each event that reads. *)
Definition reads_of (n : nat) (p : process) : list input := tagged n (pr_reads p).

End Process.

(** ** The reactors *)

Lemma observed_reads ev i : readable (ev_mask ev) = true -> reads_as (ev_reads ev) i -> observed ev = Some i.
Proof.
  intros Rd Hr. unfold observed. rewrite Rd. destruct i as [b|].
  - destruct Hr as (cs & D & ->). by destruct (read_loop_delivers _ _ [] D) as [s' ->].
  - by destruct (read_loop_hangs _ [] Hr) as (s' & b & ->).
Qed.

Section Protocol.
Context {K : Type} `{EpollKernel K}.
Context (env : environment) (fs_open : bytes -> Z) (fs_fstat : Z -> option (bool * Z)).
Notation the_file := (the_file env fs_open fs_fstat).

(** The handler an event runs, on the connection with the new mask. *)
Lemma dispatch_handler (k : K) st c ev :
  conn_ok k c ->
  let c1 := upd_chan (setRevents (ev_mask ev) (c_chan c)) c in
  let w1 := set_conn (Some c1) (enter k st (Some c) ev) in
  conn_ok (w_kern w1) c1 /\
  dispatch env fs_open fs_fstat (ev_mask ev) (enter k st (Some c) ev) =
    if readable (ev_mask ev) then handleMessage env fs_open fs_fstat w1
    else if Z.land (ev_mask ev) EPOLLOUT =? 0 then (w1, Ret tt) else handleWrite w1.
Proof.
  intros Hok c1 w1. split; [destruct Hok; by constructor|]. unfold dispatch. do 2 mstep. fold c1. fold w1.
  unfold handleEvent, readable. simpl. rewrite (ok_read_cb _ _ Hok), (ok_write_cb _ _ Hok).
  destruct (Z.land (ev_mask ev) EPOLLOUT =? 0); [|done]. simpl. by destruct (Z.land _ _ =? 0).
Qed.

Lemma static_entered st (w : World K) :
  st_file st = None \/ st_file st = Some the_file -> w_static w = st_file st ->
  static_of env fs_open fs_fstat w = the_file.
Proof. intros Hst E. unfold static_of, Lifetime.the_file. rewrite E. by destruct Hst as [-> | ->]. Qed.

Lemma conn_ok_frame (k k' : K) c :
  registered k' (c_fd c) = registered k (c_fd c) -> conn_ok k c -> conn_ok k' c.
Proof.
  intros E [O1 O2 O3 O4 O5 O6]. split; try done. unfold mounted in *. by rewrite O2, E, <- O2.
Qed.

(** What one connection keeps to, as long as its events are [ok] for it: [J] relates its
    descriptor, what it has read, event by event, the connection (as long as it is
    there) and what it has done. It holds of a new connection, and the handler of
    an event keeps it, comes back, and leaves the connection as [conn_ok] says. *)
Class ConnProtocol (J : Z -> list input -> option Conn -> list event -> Prop) 
    (ok : Conn -> life_event -> Prop) : Prop := {
  cp_mask c ev : ok c ev -> u32 (ev_mask ev);
  cp_new fd c es : pending c = [] -> c_inputBuffer c = [] -> c_closeAfterWrite c = false -> wire es = [] -> tasks_of es = [] ->
    Forall (about fd) es -> sum_list_with is_deleted es = 0%nat -> J fd [] (Some c) es;
  cp_event (k : K) st c ev fd N xs es : ok c ev -> conn_ok k c -> conn_typed env fs_open fs_fstat fd N c ->
    (st_file st = None \/ st_file st = Some the_file) -> int32 (st_count st) ->
    Z.of_nat (N + read_bytes (ev_reads ev)) <= LONG_MAX -> J fd xs (Some c) es ->
    exists w, dispatch env fs_open fs_fstat (ev_mask ev) (enter k st (Some c) ev) = (w, Ret tt) /\ live_ok w /\
      J fd (xs ++ option_list (observed ev)) (w_conn w) (es ++ w_trace w)
}.

End Protocol.

Section Reactors.
Context {K S D G : Type} `{EpollKernel K} `{SessionStore S} `{MysqlServer D}.
Context (draw : G -> nat * G).
Context (env : environment) (fs_open : bytes -> Z) (fs_fstat : Z -> option (bool * Z)).
Context (sizes : forall fd reg size, fs_fstat fd = Some (reg, size) -> 0 <= size).
(** Registration does not fail for want of resources. *)
Context (ample : forall (k : K) fd ev, registered k fd = None -> snd (epoll_ctl k EPOLL_CTL_ADD fd ev) = 0).
Context (J : Z -> list input -> option Conn -> list event -> Prop) (ok : Conn -> life_event -> Prop).
Context `{!ConnProtocol (K := K) env fs_open fs_fstat J ok}.
Notation process := (@process K S D G).
Notation the_file := (the_file env fs_open fs_fstat).

(** Bytes that arrive. *)
Definition label_bytes (l : plabel (S := S)) : nat :=
  match l with PEvent _ ev => read_bytes (ev_reads ev) | _ => 0 end.

(** The step brings an event that is [ok] for its connection. *)
Definition label_events (l : plabel (S := S)) (p : process) : Prop :=
  match l with PEvent fd ev => forall n c, pr_conns p !! fd = Some (n, c) -> ok c ev | _ => True end.

(** What connection [n] did so far, with what its reactor has yet to bring about. *)
Definition out_of (n : nat) (l : list (nat * event)) (p : process) : list event :=
  tagged (ByConn n) (pr_trace p) ++ tagged n l.

(** Connection [n] on [fd], as long as it is there. *)
Definition current (n : nat) (fd : Z) (p : process) : option Conn :=
  match pr_conns p !! fd with Some (m, c) => if decide (m = n) then Some c else None | None => None end.

(** Connection [n] on [fd] is live as [c]. *)
Record live (N : nat) (p : process) (fd : Z) (n : nat) (c : Conn) : Prop := {
  lv_reactor : exists r k, reactor_of fd p = Some r /\ pr_kerns p !! r = Some k /\ conn_ok k c;
  lv_typed : conn_typed env fs_open fs_fstat fd N c;
  lv_fd : pr_fds p !! n = Some fd
}.

(** [N] bytes have arrived. *)
Record reactors_ok (N : nat) (p : process) : Prop := {
  ro_crash : pr_crashed p = false;
  ro_file : st_file (pr_statics p) = None \/ st_file (pr_statics p) = Some the_file;
  ro_count : int32 (st_count (pr_statics p));
  ro_len : length (pr_todo p) = length (pr_kerns p);
  ro_live fd n c : pr_conns p !! fd = Some (n, c) -> live N p fd n c;
  ro_todo r l n e : pr_todo p !! r = Some l -> (n, e) ∈ l ->
    exists fd, pr_fds p !! n = Some fd /\ reactor_of fd p = Some r;
  ro_reactor n fd : pr_fds p !! n = Some fd -> exists r, reactor_of fd p = Some r /\ (r < length (pr_todo p))%nat;
  ro_out n fd r l : pr_fds p !! n = Some fd -> reactor_of fd p = Some r -> pr_todo p !! r = Some l ->
    J fd (reads_of n p) (current n fd p) (out_of n l p);
  ro_reads n x : (n, x) ∈ pr_reads p -> (n < length (pr_fds p))%nat;
  ro_trace n e : (ByConn n, e) ∈ pr_trace p -> (n < length (pr_fds p))%nat
}.

(** *** Bookkeeping *)

(** A new connection writes nothing and submits nothing. *)
Lemma new_Connection_silent ptr fd (w0 w : World K) :
  w_trace w0 = [] -> new_Connection ptr fd w0 = (w, Ret tt) -> wire (w_trace w) = [] /\ tasks_of (w_trace w) = [].
Proof.
  intros T0. unfold new_Connection. unfold bind at 1. destruct (time w0) as [w2 [now| |]] eqn:Ti; try done.
  assert (w_trace w2 = []) as T2.
  { revert Ti. unfold time. destruct (w_clock w0) as [|t [|t' ts]]; by intros [= <- _]. }
  unfold bind at 1, modify, on_channel. do 2 mstep. destruct (enableReadingET _ _) as [[k' ch'] calls].
  do 2 mstep. erewrite put_conn_some by reflexivity. intros [= <-]. simpl. rewrite T2. simpl.
  clear. induction calls as [|[[o d] m] calls IH]; [done|]. exact IH.
Qed.

Lemma reactor_lt fd (p : process) r : reactor_of fd p = Some r -> (r < length (pr_kerns p))%nat.
Proof.
  unfold reactor_of, reactor_index. destruct (_ =? 0) eqn:E; [done|]. simpl. intros [= <-].
  pose proof (Z.mod_pos_bound (to_size_t fd) (Z.of_nat (length (pr_kerns p)))). bool_lia.
Qed.

(** Nothing about a connection that has not been accepted. *)
Lemma fresh_conn N p l r :
  reactors_ok N p -> pr_todo p !! r = Some l ->
  out_of (length (pr_fds p)) l p = [] /\ reads_of (length (pr_fds p)) p = [].
Proof.
  intros Ro L. split.
  - unfold out_of. rewrite !tagged_none; [done| |].
    + intros e I. destruct (ro_todo _ _ Ro _ _ _ _ L I) as (fd & Lf & _). apply lookup_lt_Some in Lf. lia.
    + intros e I. apply (ro_trace _ _ Ro) in I. lia.
  - apply tagged_none. intros x I. apply (ro_reads _ _ Ro) in I. lia.
Qed.

(** The kernel table of reactor [r] changes at [fd] only. *)
Lemma live_other N N' p p' r k k' fd fd' n c :
  live N p fd' n c -> (N <= N')%nat -> fd' <> fd -> pr_kerns p !! r = Some k ->
  pr_kerns p' = <[r:=k']> (pr_kerns p) -> (forall d, d <> fd -> registered k' d = registered k d) ->
  (forall n' d, pr_fds p !! n' = Some d -> pr_fds p' !! n' = Some d) ->
  live N' p' fd' n c.
Proof.
  intros [(r' & k1 & Rr & Kr & Ok) Ty Fd] Le Ne Ek Ek' Fr Hf.
  assert (reactor_of fd' p' = reactor_of fd' p) as Rp by (unfold reactor_of; by rewrite Ek', length_insert).
  split; [| | by apply Hf].
  - destruct (decide (r = r')) as [<-|Nr].
    + exists r, k'. rewrite Rp, Ek', list_lookup_insert_eq by (by eapply lookup_lt_Some).
      split; [done|]. split; [done|]. rewrite Ek in Kr. injection Kr as <-.
      eapply conn_ok_frame; [|done]. rewrite (ty_fd _ _ _ _ _ _ Ty). by apply Fr.
    + exists r', k1. by rewrite Rp, Ek', list_lookup_insert_ne.
  - destruct Ty. split; try done. lia.
Qed.

(** All connections stay live when one step changes the connection on [fd]. *)
Lemma live_step N N' p p' r k k' fd :
  reactors_ok N p -> (N <= N')%nat -> pr_kerns p !! r = Some k -> pr_kerns p' = <[r:=k']> (pr_kerns p) ->
  (forall d, d <> fd -> registered k' d = registered k d) ->
  (forall m d, pr_fds p !! m = Some d -> pr_fds p' !! m = Some d) ->
  (forall d, d <> fd -> pr_conns p' !! d = pr_conns p !! d) ->
  (forall m c, pr_conns p' !! fd = Some (m, c) -> live N' p' fd m c) ->
  forall d m c, pr_conns p' !! d = Some (m, c) -> live N' p' d m c.
Proof.
  intros Ro Le Ek Ek' Fr Hf Hc Hl d m c L. destruct (decide (d = fd)) as [->|Ne]; [by apply Hl|].
  rewrite Hc in L by done. pose proof (ro_live _ _ Ro _ _ _ L) as Lv.
  by eapply (live_other N N' p p' r k k' fd).
Qed.

(** Other connections are what they were. *)
Lemma current_other p p' fd n m d :
  (forall d, d <> fd -> pr_conns p' !! d = pr_conns p !! d) ->
  (forall m' c, pr_conns p !! fd = Some (m', c) -> m' = n) -> (forall m' c, pr_conns p' !! fd = Some (m', c) -> m' = n) ->
  m <> n -> current m d p' = current m d p.
Proof.
  intros Hc A1 A2 Nm. unfold current. destruct (decide (d = fd)) as [->|Ne]; [|by rewrite Hc].
  destruct (pr_conns p !! fd) as [[m1 c1]|] eqn:E1; [rewrite decide_False by (rewrite (A1 _ _ eq_refl); congruence)|];
    (destruct (pr_conns p' !! fd) as [[m2 c2]|] eqn:E2; [rewrite decide_False by (rewrite (A2 _ _ eq_refl); congruence)|]);
    done.
Qed.

Lemma event_step_inv fd ev (p p' : process) :
  event_step env fs_open fs_fstat fd ev p = Some p' -> exists r k n c w res,
    reactor_of fd p = Some r /\ pr_kerns p !! r = Some k /\ pr_conns p !! fd = Some (n, c) /\
    pr_todo p !! r = Some [] /\
    dispatch env fs_open fs_fstat (ev_mask ev) (enter k (pr_statics p) (Some c) ev) = (w, res) /\
    p' = mkProcess (<[r := w_kern w]> (pr_kerns p)) (statics_of w)
           (match w_conn w with Some c' => <[fd := (n, c')]> (pr_conns p) | None => delete fd (pr_conns p) end)
           (<[r := (fun e => (n, e)) <$> w_trace w]> (pr_todo p)) (pr_service p)
           (match res with Ret _ => pr_crashed p | _ => true end) (pr_fds p)
           (pr_reads p ++ (pair n <$> option_list (observed ev))) (pr_trace p).
Proof.
  unfold event_step. destruct (reactor_of fd p) as [r|] eqn:Rr; [|done]. simpl.
  destruct (pr_kerns p !! r) as [k|] eqn:Ek; [|done]. simpl.
  destruct (pr_conns p !! fd) as [[n c]|] eqn:Ec; [|done]. simpl.
  destruct (pr_todo p !! r) as [[|]|] eqn:Et; try done.
  destruct (dispatch _ _ _ _ _) as [w res] eqn:Ew. intros [= <-]. by exists r, k, n, c, w, res.
Qed.

Lemma accept_step_inv ptr fd (p p' : process) :
  accept_step ptr fd p = Some p' -> p' = p \/ exists r k todo w res,
    reactor_of fd p = Some r /\ pr_kerns p !! r = Some k /\ pr_conns p !! fd = None /\ pr_todo p !! r = Some todo /\
    new_Connection ptr fd (enter k (pr_statics p) None (mkEvent 0 [] [] [])) = (w, res) /\
    p' = mkProcess (<[r := w_kern w]> (pr_kerns p)) (statics_of w)
           (match w_conn w with Some c => <[fd := (length (pr_fds p), c)]> (pr_conns p) | None => pr_conns p end)
           (pr_todo p) (pr_service p) (pr_crashed p) (pr_fds p ++ [fd]) (pr_reads p)
           (pr_trace p ++ ((fun e => (ByConn (length (pr_fds p)), e)) <$> w_trace w)).
Proof.
  unfold accept_step. destruct (fd =? -1); [by intros [= <-]; left|].
  destruct (reactor_of fd p) as [r|] eqn:Rr; [|done]. simpl. destruct (pr_kerns p !! r) as [k|] eqn:Ek; [|done]. simpl.
  destruct (pr_todo p !! r) as [todo|] eqn:Et; [|done]. simpl.
  destruct (pr_conns p !! fd) eqn:Ec; [done|]. destruct (existsb _ _); [done|].
  destruct (new_Connection _ _ _) as [w res] eqn:Ew. intros [= <-]. right. by exists r, k, todo, w, res.
Qed.

(** What connections did after an event on connection [n]. *)
Lemma event_out N p p' fd n r es c' x :
  reactors_ok N p -> pr_fds p !! n = Some fd -> reactor_of fd p = Some r -> pr_todo p !! r = Some [] ->
  J fd (reads_of n p ++ x) c' (tagged (ByConn n) (pr_trace p) ++ es) ->
  pr_fds p' = pr_fds p -> (forall d, reactor_of d p' = reactor_of d p) -> pr_trace p' = pr_trace p ->
  pr_todo p' = <[r := (fun e => (n, e)) <$> es]> (pr_todo p) ->
  (forall m, reads_of m p' = reads_of m p ++ if decide (n = m) then x else []) ->
  (forall d, d <> fd -> pr_conns p' !! d = pr_conns p !! d) ->
  (exists c, pr_conns p !! fd = Some (n, c)) -> pr_conns p' !! fd = (fun c' => (n, c')) <$> c' ->
  forall m d r0 l, pr_fds p' !! m = Some d -> reactor_of d p' = Some r0 -> pr_todo p' !! r0 = Some l ->
    J d (reads_of m p') (current m d p') (out_of m l p').
Proof.
  intros Ro Fd Rr Et Jn Ef Er Etr Eto Rs Cd [c Ec] Cf m d r0 l Lm Rm L. rewrite Ef in Lm. rewrite Er in Rm.
  rewrite Eto in L. unfold out_of. rewrite Etr, Rs. assert (r < length (pr_todo p))%nat as Hr by (by eapply lookup_lt_Some).
  destruct (decide (n = m)) as [<-|Nm].
  - rewrite Fd in Lm. injection Lm as <-. rewrite Rr in Rm. injection Rm as <-.
    rewrite list_lookup_insert_eq in L by lia. injection L as <-. rewrite tagged_fmap, decide_True by done.
    unfold current. rewrite Cf. destruct c' as [c'|]; simpl; [by rewrite decide_True | exact Jn].
  - rewrite app_nil_r, (current_other p p' fd n); try done.
    + destruct (decide (r0 = r)) as [->|Nr].
      * rewrite list_lookup_insert_eq in L by lia. injection L as <-. rewrite tagged_fmap, decide_False by done.
        by apply (ro_out _ _ Ro m d r []).
      * rewrite list_lookup_insert_ne in L by done. by apply (ro_out _ _ Ro m d r0 l).
    + rewrite Ec. by intros m' c1 [= <- _].
    + rewrite Cf. intros m' c1 E. destruct c'; [by injection E as <- _ | done].
Qed.

Lemma event_ok N p p' fd ev :
  reactors_ok N p -> (forall n c, pr_conns p !! fd = Some (n, c) -> ok c ev) -> Z.of_nat (N + read_bytes (ev_reads ev)) <= LONG_MAX ->
  event_step env fs_open fs_fstat fd ev p = Some p' -> reactors_ok (N + read_bytes (ev_reads ev)) p'.
Proof.
  intros Ro Oe Hsz (r & k & n & c & w & res & Rr & Ek & Ec & Et & Ew0 & ->)%event_step_inv.
  pose proof Ro as [Cr Fl Ct Ln Lv Td Rc Ot Rd Tr]. specialize (Oe n c Ec).
  destruct (Lv _ _ _ Ec) as [(r' & k1 & Rr' & Kr & Ok) Ty Fd]. rewrite Rr in Rr'. injection Rr' as <-.
  rewrite Ek in Kr. injection Kr as <-.
  pose proof (Ot n fd r [] Fd Rr Et) as On. unfold out_of, current in On. rewrite Ec, decide_True, app_nil_r in On by done.
  destruct (cp_event env fs_open fs_fstat k (pr_statics p) c ev fd N _ _ Oe Ok Ty Fl Ct Hsz On) as (w1 & Ew & Lw & Jw).
  rewrite Ew in Ew0. injection Ew0 as -> <-.
  pose proof (dispatch_inv env fs_open fs_fstat (registered k) [] sizes fd N (ev_mask ev) (enter k (pr_statics p) (Some c) ev)
    (cp_mask env fs_open fs_fstat c ev Oe)) as Inv. rewrite Ew in Inv. cbn [fst] in Inv.
  destruct Inv as [_ Lc Fl' Ct' Fr _]; [split; try done; [by intros c' [= <-] | by exists []]|].
  set (p' := mkProcess _ _ _ _ _ _ _ _ _).
  assert (forall d, reactor_of d p' = reactor_of d p) as Rp by (intros d; unfold reactor_of; simpl; by rewrite length_insert).
  assert (forall m, reads_of m p' = reads_of m p ++ if decide (n = m) then option_list (observed ev) else []) as Rs.
  { intros m. unfold reads_of, p'. simpl. by rewrite tagged_app, tagged_fmap. }
  assert (r < length (pr_kerns p))%nat as Hr by (by eapply lookup_lt_Some).
  assert (forall d, d <> fd -> pr_conns p' !! d = pr_conns p !! d) as Cd.
  { intros d Nd. unfold p'. simpl. destruct (w_conn w); [by apply lookup_insert_ne | by apply lookup_delete_ne]. }
  assert (pr_conns p' !! fd = (fun c' => (n, c')) <$> w_conn w) as Cf.
  { unfold p'. simpl. destruct (w_conn w); [apply lookup_insert_eq | apply lookup_delete_eq]. }
  split; try done.
  - simpl. by rewrite !length_insert.
  - apply (live_step N _ p p' r k (w_kern w) fd); try done; [lia|]. rewrite Cf. unfold live_ok in Lw. simpl in Lc.
    destruct (w_conn w) as [c1|]; [|done]. intros m c' [= <- <-]. split; try done; [|by apply Lc].
    exists r, (w_kern w). rewrite Rp. simpl. by rewrite list_lookup_insert_eq.
  - intros r0 l m e L I. simpl in L. destruct (decide (r0 = r)) as [->|Nr].
    + rewrite list_lookup_insert_eq in L by lia. injection L as <-.
      apply list_elem_of_fmap in I as (e' & [= -> ->] & _). exists fd. by rewrite Rp.
    + rewrite list_lookup_insert_ne in L by done. destruct (Td _ _ _ _ L I) as (d & ? & ?). exists d. by rewrite Rp.
  - intros m d Lm. rewrite Rp. simpl. rewrite length_insert. by apply (Rc m).
  - apply (event_out N p p' fd n r (w_trace w) (w_conn w) (option_list (observed ev))); try done. by exists c.
  - intros m x. simpl. intros [I|I]%elem_of_app; [by apply (Rd m x)|].
    apply list_elem_of_fmap in I as (y & [= -> ->] & _). by eapply lookup_lt_Some.
Qed.

Lemma accept_ok N p p' ptr fd :
  reactors_ok N p -> accept_step ptr fd p = Some p' -> reactors_ok N p'.
Proof.
  intros Ro [->|(r & k & todo & w' & res & Rr & Ek & Ec & Et & Ew0 & ->)]%accept_step_inv; [done|].
  pose proof Ro as [Cr Fl Ct Ln Lv Td Rc Ot Rd Tr]. set (w0 := enter k (pr_statics p) None (mkEvent 0 [] [] [])) in *.
  destruct (new_Connection_inv env fs_open fs_fstat (registered k) [] ptr fd w0) as (w & Ew & Li & _); [done..|].
  rewrite Ew in Ew0. injection Ew0 as <- <-.
  destruct (new_Connection_spec w0 ptr fd) as (w1 & c & Ew1 & Ec1 & Ok & Cf & Pd & Bf & Cw).
  { change (w_kern w0) with k. destruct (registered k fd) eqn:Rk; [by right | left; by apply ample]. }
  rewrite Ew in Ew1. injection Ew1 as <-. destruct Li as [Lo Lc Ls Lt Lf (es & Tw & Ab)]. rewrite Ec1 in Lo |- *.
  set (p' := mkProcess _ _ _ _ _ _ _ _ _). set (n := length (pr_fds p)) in *.
  destruct (new_Connection_silent ptr fd w0 w eq_refl Ew) as [Wn Tn].
  assert (forall d, reactor_of d p' = reactor_of d p) as Rp by (intros d; unfold reactor_of; simpl; by rewrite length_insert).
  assert (forall m d, pr_fds p !! m = Some d -> pr_fds p' !! m = Some d) as Hf
    by (intros m d L; simpl; by apply lookup_app_l_Some).
  assert (pr_fds p' !! n = Some fd) as Fn by (simpl; by rewrite lookup_app_r, Nat.sub_diag).
  assert (forall m d, pr_fds p' !! m = Some d -> m = n /\ d = fd \/ m <> n /\ pr_fds p !! m = Some d) as Fc.
  { intros m d [L|[L1 L2]]%lookup_app_Some; [right; split; [apply lookup_lt_Some in L; lia | done]|].
    apply list_lookup_singleton_Some in L2 as [L2 ->]. left. split; [lia | done]. }
  assert (forall d, d <> fd -> pr_conns p' !! d = pr_conns p !! d) as Cd by (intros d Nd; by apply lookup_insert_ne).
  assert (pr_conns p' !! fd = Some (n, c)) as Cn by apply lookup_insert_eq.
  destruct (fresh_conn N p todo r Ro Et) as [Fo Fr]. split; try done.
  - simpl. by rewrite length_insert.
  - apply (live_step N N p p' r k (w_kern w) fd); try done. rewrite Cn. intros m c' [= <- <-]. split; try done.
    + exists r, (w_kern w). rewrite Rp. simpl. by rewrite list_lookup_insert_eq by (by eapply lookup_lt_Some).
    + destruct (Lc c Ec1). split; try done. lia.
  - intros r0 l m e L I. destruct (Td _ _ _ _ L I) as (d & Ld & Rd'). exists d. rewrite Rp. by split; [apply Hf|].
  - intros m d Lm. rewrite Rp. destruct (Fc m d Lm) as [[-> ->]|[_ L]]; [|by apply (Rc m)].
    exists r. split; [done|]. by eapply lookup_lt_Some.
  - intros m d r0 l Lm Rm L. rewrite Rp in Rm. change (reads_of m p') with (reads_of m p). unfold out_of. simpl.
    rewrite tagged_app, tagged_fmap. destruct (Fc m d Lm) as [[-> ->]|[Nm Lm']].
    + rewrite Rr in Rm. injection Rm as <-. simpl in L. rewrite Et in L. injection L as <-.
      unfold out_of in Fo. apply app_eq_nil in Fo as [Fo1 Fo2]. fold n in Fo1, Fo2, Fr. rewrite Fr, Fo1, Fo2.
      unfold current. rewrite Cn, !decide_True, app_nil_r by done. simpl in Tw |- *.
      apply (cp_new env fs_open fs_fstat); try done. by rewrite Tw.
    + rewrite decide_False by (by intros [= ->]). rewrite app_nil_r, (current_other p p' fd n); try done.
      * by apply (Ot m d r0 l).
      * by rewrite Ec.
      * rewrite Cn. by intros m' c' [= <- _].
  - intros m x I. simpl. rewrite length_app. apply Rd in I. lia.
  - intros m e. simpl. rewrite length_app. intros [I|I]%elem_of_app; [apply Tr in I; lia|].
    apply list_elem_of_fmap in I as (e' & [= -> ->] & _). simpl. lia.
Qed.

(** Steps that move effects from [pr_todo] to the trace, and steps of the pool. *)
Lemma reactors_moved N p todo es s :
  reactors_ok N p -> length todo = length (pr_todo p) ->
  (forall r l, todo !! r = Some l -> exists l0, pr_todo p !! r = Some l0 /\ (forall x, x ∈ l -> x ∈ l0) /\
     forall n fd, pr_fds p !! n = Some fd -> reactor_of fd p = Some r -> tagged n l0 = tagged (ByConn n) es ++ tagged n l) ->
  (forall n e, (ByConn n, e) ∈ es -> (n < length (pr_fds p))%nat) ->
  reactors_ok N (set_service s todo es p).
Proof.
  intros [Cr Fl Ct Ln Lv Td Rc Ot Rd Tr] El Ht He. split; simpl; try done.
  - congruence.
  - intros fd n c L. destruct (Lv _ _ _ L). by split.
  - intros r l n e L I. destruct (Ht r l L) as (l0 & L0 & Sub & _). by apply (Td r l0 n e), Sub.
  - intros n fd Ln'. rewrite El. by apply (Rc n).
  - intros n fd r l Lf Rr L. destruct (Ht r l L) as (l0 & L0 & _ & Eq). specialize (Ot n fd r l0 Lf Rr L0).
    unfold out_of in *. simpl. rewrite (Eq n fd Lf Rr) in Ot. by rewrite tagged_app, <- app_assoc.
  - intros n e [I|I]%elem_of_app; [by apply (Tr n e) | by apply (He n e)].
Qed.

Lemma effect_ok N p p' r : reactors_ok N p -> effect_step draw r p = Some p' -> reactors_ok N p'.
Proof.
  intros Ro E. unfold effect_step in E. destruct (pr_todo p !! r) as [[|[n e] rest]|] eqn:Et; try done.
  assert (exists s, p' = set_service s (<[r:=rest]> (pr_todo p)) [(ByConn n, e)] p) as [s ->].
  { destruct e as [| | | |t]; try (injection E as <-; by eexists). destruct (sstep _ _ _); [|done].
    injection E as <-. by eexists. }
  destruct (ro_todo _ _ Ro r _ n e Et) as (fd & Lf & Rr); [left|].
  apply reactors_moved; [done | by rewrite length_insert | |].
  - intros r0 l L. destruct (decide (r0 = r)) as [->|Nr].
    + rewrite list_lookup_insert_eq in L by (by eapply lookup_lt_Some). injection L as <-.
      eexists. split; [done|]. split; [intros x I; by right|]. intros m d Lm Rm. rewrite !tagged_cons. simpl.
      rewrite app_nil_r. f_equal. destruct (decide (n = m)) as [->|]; [by rewrite decide_True |
        rewrite decide_False; [done | by intros [= ->]]].
    + rewrite list_lookup_insert_ne in L by done. exists l. split; [done|]. split; [done|]. intros m d Lm Rm.
      rewrite tagged_cons. simpl. rewrite decide_False; [done|]. intros [= ->]. congruence.
  - intros m e' I. apply list_elem_of_singleton in I as [= -> ->]. by eapply lookup_lt_Some.
Qed.

Lemma db_ok N p p' l : reactors_ok N p -> db_step draw l p = Some p' -> reactors_ok N p'.
Proof.
  intros Ro E. unfold db_step in E.
  assert (exists s es, p' = set_service s (pr_todo p) ((fun e => (ByTask (acting l (pr_service p)), e)) <$> es) p)
    as (s & es & ->).
  { destruct l; try done; destruct (sstep _ _ _); try done; injection E as <-; by eexists _, _. }
  apply reactors_moved; try done.
  - intros r l0 L. exists l0. split; [done|]. split; [done|]. intros n fd _ _. by rewrite tagged_fmap.
  - intros n e I. apply list_elem_of_fmap in I as (e' & [=] & _).
Qed.

Lemma pstep_reactors l N p p' :
  label_events l p -> Z.of_nat (N + label_bytes l) <= LONG_MAX -> reactors_ok N p ->
  pstep draw env fs_open fs_fstat l p = Some p' -> reactors_ok (N + label_bytes l) p'.
Proof.
  intros Hl Hsz Ro E. destruct l as [ptr fd|fd ev|r|l]; simpl in *; rewrite ?Nat.add_0_r in *.
  - by eapply accept_ok.
  - by eapply event_ok.
  - by eapply effect_ok.
  - by eapply db_ok.
Qed.

(** Every event of a run is [ok] when it comes. *)
Fixpoint run_events (ls : list (plabel (S := S))) (p : process) : Prop :=
  match ls with
  | [] => True
  | l :: ls => label_events l p /\
      match pstep draw env fs_open fs_fstat l p with Some p' => run_events ls p' | None => True end
  end.

Lemma prun_reactors ls N (p p' : process) :
  run_events ls p -> Z.of_nat (N + sum_list_with label_bytes ls) <= LONG_MAX ->
  reactors_ok N p -> prun draw env fs_open fs_fstat ls p = Some p' ->
  reactors_ok (N + sum_list_with label_bytes ls) p'.
Proof.
  revert N p. induction ls as [|l ls IH]; intros N p F Hsz Ro; simpl.
  { intros [= <-]. by rewrite Nat.add_0_r. }
  simpl in F, Hsz. destruct F as [Hl F]. destruct (pstep _ _ _ _ _ _) as [p1|] eqn:E; [|done]. rewrite Nat.add_assoc.
  apply IH; [done | lia|]. eapply pstep_reactors; [done | lia | done | done].
Qed.

(** From the start. *)
Lemma new_process_reactors ks st size b :
  (st_file st = None \/ st_file st = Some the_file) -> int32 (st_count st) ->
  reactors_ok 0 (new_process ks st size b).
Proof.
  intros Hf Hc. split; simpl; try done.
  - apply length_replicate.
  - intros r l n e [-> _]%lookup_replicate I. by apply not_elem_of_nil in I.
  - by intros n x I%not_elem_of_nil.
  - by intros n e I%not_elem_of_nil.
Qed.

End Reactors.


(** Events that are in order whatever the connection. *)
Definition label_event {S} (ok : life_event -> Prop) (l : plabel (S := S)) : Prop :=
  match l with PEvent _ ev => ok ev | _ => True end.

(** ** Memory safety *)

Section Safe.
Context {K S D G : Type} `{EpollKernel K} `{SessionStore S} `{MysqlServer D}.
Context (draw : G -> nat * G).
Context (env : environment) (fs_open : bytes -> Z) (fs_fstat : Z -> option (bool * Z)).
Context (sizes : forall fd reg size, fs_fstat fd = Some (reg, size) -> 0 <= size).
Context (ample : forall (k : K) fd ev, registered k fd = None -> snd (epoll_ctl k EPOLL_CTL_ADD fd ev) = 0).
Notation process := (@process K S D G).
Notation the_file := (the_file env fs_open fs_fstat).

(** Any event without a hard write error. *)
Definition benign_event (ev : life_event) : Prop := u32 (ev_mask ev) /\ ev_benign ev.

(** A connection acts on its own descriptor, and is destroyed when it is gone. *)
Definition kept (fd : Z) (_ : list input) (oc : option Conn) (es : list event) : Prop :=
  Forall (about fd) es /\ sum_list_with is_deleted es = match oc with Some _ => 0%nat | None => 1%nat end.

#[export] Instance benign_protocol : ConnProtocol (K := K) env fs_open fs_fstat kept (fun _ => benign_event).
Proof.
  split.
  - by intros c ev [].
  - intros fd c es _ _ _ _ _ Ab Nd. by split.
  - intros k st c ev fd N xs es [Hu Hb] Ok Ty Hf Hc Hsz [Ab Nd].
    pose proof (dispatch_inv env fs_open fs_fstat (registered k) [] sizes fd N (ev_mask ev) (enter k st (Some c) ev) Hu) as Inv.
    destruct (dispatch_safe env fs_open fs_fstat (enter k st (Some c) ev) c (ev_mask ev)) as [Er Lo]; try done.
    { pose proof (ty_input _ _ _ _ _ _ Ty). simpl. lia. }
    destruct (dispatch _ _ _ _ _) as [w r]. simpl in Er, Lo, Inv. subst r.
    destruct Inv as [Li _ _ _ _ (es' & Te & Ab')]; [split; try done; [by intros c' [= <-] | by exists []]|].
    simpl in Te. subst es'. exists w. split; [done|]. split; [done|]. split; [by apply Forall_app|].
    rewrite sum_list_with_app, Nd. exact Li.
Qed.

Lemma run_events_all (ok : life_event -> Prop) ls (p : process) :
  Forall (label_event ok) ls -> run_events draw env fs_open fs_fstat (fun _ => ok) ls p.
Proof.
  intros F. revert p. induction F as [|l ls Hl F IH]; intros p; simpl; [done|].
  split; [destruct l; simpl; auto|]. destruct (pstep _ _ _ _ _ _); [apply IH | done].
Qed.

(** The static variables as a process starts with them, or finds them. *)
Definition statics_ok (st : statics) : Prop :=
  (st_file st = None \/ st_file st = Some the_file) /\ int32 (st_count st).

(** C9: memory safety of the process. In every interleaving of the main thread,
    the reactors and the database threads, with any events, any reads, partial
    writes and EAGAIN, on any back end, as long as registrations succeed and no
    write on a reactor fails hard: no handler uses a connection that was
    destroyed or loops without end; every live connection is on the reactor of
    its descriptor, whose epoll instance holds the registration its channel says;
    a connection acts on its own descriptor only, and is destroyed at most once. *)
Theorem process_safe ks st size b ls (p : process) :
  statics_ok st -> Forall (label_event benign_event) ls ->
  Z.of_nat (sum_list_with label_bytes ls) <= LONG_MAX ->
  prun draw env fs_open fs_fstat ls (new_process ks st size b) = Some p ->
  pr_crashed p = false /\
  (forall fd n c, pr_conns p !! fd = Some (n, c) -> pr_fds p !! n = Some fd /\ c_fd c = fd /\
     exists r k, reactor_of fd p = Some r /\ pr_kerns p !! r = Some k /\ conn_ok k c) /\
  (forall n fd, pr_fds p !! n = Some fd -> let es := tagged (ByConn n) (pr_trace p) in
     Forall (about fd) es /\ (sum_list_with is_deleted es <= 1)%nat).
Proof.
  intros [Hf Hc] F Hsz R.
  assert (reactors_ok env fs_open fs_fstat kept (sum_list_with label_bytes ls) p) as Ro.
  { eapply (prun_reactors draw env fs_open fs_fstat sizes ample kept (fun _ => benign_event) ls 0);
      [by apply run_events_all | done | by apply new_process_reactors | exact R]. }
  split; [apply Ro|]. split.
  - intros fd n c L. destruct (ro_live _ _ _ _ _ _ Ro _ _ _ L) as [Rk Ty Fd].
    split; [done|]. split; [by apply (ty_fd _ _ _ _ _ _ Ty) | done].
  - intros n fd L. destruct (ro_reactor _ _ _ _ _ _ Ro n fd L) as (r & Rr & Lr).
    apply lookup_lt_is_Some_2 in Lr as [l Lr]. destruct (ro_out _ _ _ _ _ _ Ro n fd r l L Rr Lr) as [Ab Nd].
    unfold out_of in *. apply Forall_app in Ab as [Ab _]. split; [done|].
    rewrite sum_list_with_app in Nd. destruct (current n fd p); lia.
Qed.

End Safe.

(** ** Witnesses *)

Lemma table_ample (k : gmap Z (nat * Z)) fd ev :
  registered k fd = None -> snd (epoll_ctl k EPOLL_CTL_ADD fd ev) = 0.
Proof. simpl. by intros ->. Qed.

(** Two reactors, one database thread. *)
Definition start_process : process :=
  new_process [∅; ∅] (mkStatics [100] 0 0 None) 1 (service_backend fresh_world).

(** A client that reads slowly: its answer goes out in two parts, between which
    another connection is accepted; it leaves, and its descriptor is given out
    again. *)
Definition slow_schedule : list (plabel (S := gmap bytes bytes * RedisPool)) :=
  [PAccept 1 7; PEvent 7 (mkEvent EPOLLIN [Data (bs "GET /hello HTTP/1.1")] [] []);
   PEvent 7 (mkEvent EPOLLIN [ReadErrno EINTR; Data (CRLF ++ CRLF)] [Accept 10; Errno EAGAIN] []);
   PEffect 1; PAccept 2 8; PEffect 1; PEvent 7 (mkEvent EPOLLOUT [] [] []); PEffect 1; PEffect 1;
   PEvent 7 (mkEvent EPOLLIN [Data []] [] []); PEffect 1; PAccept 3 7].

Definition slow_process : process :=
  default start_process (prun count_draw no_env no_file no_stat slow_schedule start_process).

Lemma slow_runs : prun count_draw no_env no_file no_stat slow_schedule start_process = Some slow_process.
Proof.
  unfold slow_process.
  assert (bool_decide (is_Some (prun count_draw no_env no_file no_stat slow_schedule start_process)) = true) as E
    by (vm_compute; reflexivity).
  by destruct (prun count_draw no_env no_file no_stat slow_schedule start_process).
Qed.

Lemma process_safe_witness :
  pr_crashed slow_process = false /\
  (forall fd n c, pr_conns slow_process !! fd = Some (n, c) -> pr_fds slow_process !! n = Some fd /\ c_fd c = fd /\
     exists r k, reactor_of fd slow_process = Some r /\ pr_kerns slow_process !! r = Some k /\ conn_ok k c) /\
  (forall n fd, pr_fds slow_process !! n = Some fd -> let es := tagged (ByConn n) (pr_trace slow_process) in
     Forall (about fd) es /\ (sum_list_with is_deleted es <= 1)%nat).
Proof.
  apply (process_safe count_draw no_env no_file no_stat) with (ks := [∅; ∅]) (st := mkStatics [100] 0 0 None) (size := 1)
    (b := service_backend fresh_world) (ls := slow_schedule);
    [done | apply table_ample | split; [by left | done] | | by vm_compute | apply slow_runs].
  unfold slow_schedule. repeat (apply Forall_cons_2; [first [exact I | by split; [|split; repeat constructor; by_decide]]|]).
  constructor.
Defined.

(** The run evaluated: the three connections, and what the first one was sent. *)
Example slow_run :
  pr_fds slow_process = [7; 8; 7] /\
  wire (tagged (ByConn 0) (pr_trace slow_process)) =
    OByte <$> buildHttpResponse 200 (bs "text/html") (getResponse (bs "/hello")) true /\
  sum_list_with is_deleted (tagged (ByConn 0) (pr_trace slow_process)) = 1%nat.
Proof. by vm_compute. Qed.
