(* ===== verification/Answers.v ===== *)
(** * Every request is answered (src/Server.cpp, Connection.cpp, ThreadPool.cpp)

    The process of [Process] on sockets that do not push back: in every
    interleaving, what each connection gets from its reactor is what the abstract
    server writes for what it read, each database task is answered once on its
    descriptor, and the answers are those of a linearizable account service. *)

From S2P Require Import Prelude CppString Config Http Json Channel Framing Connection WritePath ReadPath Lifetime.
From S2P Require Import ThreadPool Interfaces Mysql Redis Handlers Accounts Interleaved Atomic Service Linear Progress.
From S2P Require Import Server Process.

(** ** The abstract server over several events *)

(** One event: more bytes in the buffer, more output and tasks; or the end. *)
Definition serve_event (fs : Z * Z) (fd : Z) (st : list out_item * list db_task * bool * bytes) (x : input) :
    list out_item * list db_task * bool * bytes :=
  let '(out, ts, _, buf) := st in
  let '(out', ts', closed, rest) := serve_input fs fd buf x in (out ++ out', ts ++ ts', closed, rest).

Definition serve_reads (fs : Z * Z) (fd : Z) (xs : list input) : list out_item * list db_task * bool * bytes :=
  foldl (serve_event fs fd) ([], [], false, []) xs.

Lemma serve_reads_snoc fs fd xs x :
  serve_reads fs fd (xs ++ [x]) = serve_event fs fd (serve_reads fs fd xs) x.
Proof. unfold serve_reads. by rewrite foldl_app. Qed.

(** The tasks carry credentials that fit. *)
Lemma answer_limits fs fd request ka t : t ∈ (answer fs fd request ka).1.2 -> task_limits t.
Proof.
  unfold answer. destruct (dbHandler _ _) as [h|]; [|by intros I%not_elem_of_nil]. simpl.
  assert (forall mk, (forall u p, user_limits u -> password_limits p -> task_limits (mk u p)) ->
    t ∈ (credentials_answer mk request ka).2 -> task_limits t) as Cr.
  { intros mk Hm. unfold credentials_answer.
    destruct (bool_decide _ || bool_decide _); [by intros I%not_elem_of_nil|].
    destruct (_ || _) eqn:E; [by intros I%not_elem_of_nil|]. apply orb_false_iff in E as [E1 E2].
    intros ->%list_elem_of_singleton. apply Hm; unfold user_limits, password_limits; bool_lia. }
  assert (forall mk, (forall tk, task_limits (mk tk)) -> t ∈ (token_answer mk request ka).2 -> task_limits t) as Tk.
  { intros mk Hm. unfold token_answer. destruct (bool_decide _); [by intros I%not_elem_of_nil|].
    intros ->%list_elem_of_singleton. apply Hm. }
  destruct h; simpl; [by apply Cr | by apply Cr | by apply Tk | by apply Tk].
Qed.

Lemma serve_loop_limits fs fd fuel buf t : t ∈ (serve_loop fs fd fuel buf).1.1.2 -> task_limits t.
Proof.
  revert buf. induction fuel as [|f IH]; intros buf; simpl; [by intros I%not_elem_of_nil|].
  destruct (frame buf) as [| | |request headers rest]; try by intros I%not_elem_of_nil.
  pose proof (answer_limits fs fd request (wantKeepAlive request headers) t) as A.
  destruct (answer _ _ _ _) as [[out ts] closes]. simpl in A.
  destruct (wantKeepAlive _ _); [|done]. specialize (IH rest).
  destruct (serve_loop fs fd f rest) as [[[out' ts'] closed] b]. simpl in *.
  intros [I|I]%elem_of_app; auto.
Qed.

Lemma serve_reads_limits fs fd xs t : t ∈ (serve_reads fs fd xs).1.1.2 -> task_limits t.
Proof.
  induction xs as [|x xs IH] using rev_ind; [by intros I%not_elem_of_nil|]. rewrite serve_reads_snoc.
  destruct (serve_reads fs fd xs) as [[[out ts] c] buf]. simpl in IH |- *.
  destruct x as [x|]; simpl; [|rewrite app_nil_r; exact IH].
  pose proof (serve_loop_limits fs fd (Datatypes.S (length (buf ++ x))) (buf ++ x) t) as L. unfold serve.
  destruct (serve_loop _ _ _ _) as [[[out' ts'] c'] b']. simpl in *. intros [I|I]%elem_of_app; auto.
Qed.

(** ** One event *)

Lemma delivers_bytes rs cs : delivers rs cs -> (length (mjoin cs) <= read_bytes rs)%nat.
Proof.
  induction 1 as [| | |d s cs Hd Hl D IH]; simpl; unfold read_bytes in *; simpl; try lia. rewrite length_app. lia.
Qed.

Section Event.
Context {K : Type} `{EpollKernel K}.
Context (env : environment) (fs_open : bytes -> Z) (fs_fstat : Z -> option (bool * Z)).
Context (sizes : forall fd reg size, fs_fstat fd = Some (reg, size) -> 0 <= size).
Notation the_file := (the_file env fs_open fs_fstat).

(** Any event on a socket that takes what is written: readable or not, with
    reads that deliver, end or fail. *)
Record steady_event (ev : life_event) : Prop := {
  se_mask : u32 (ev_mask ev);
  se_reads : Forall read_fits (ev_reads ev);
  se_writes : Forall steady (ev_writes ev);
  se_sends : Forall steady (ev_sends ev)
}.

(** What is said of a connection: its output, its tasks, and what is buffered. *)
Definition served_as (fd : Z) (xs : list input) (oc : option Conn) (es : list event) : Prop :=
  let '(out, ts, closed, buf) := serve_reads the_file fd xs in
  wire es = out /\ tasks_of es = ts /\ Forall (about fd) es /\
  match oc with Some c => closed = false /\ pending c = [] /\ c_inputBuffer c = buf | None => closed = true end.

(** What an event on a live, drained connection comes to: what the service
    function says of what it reads, or nothing. *)
Lemma event_run (k : K) st c ev fd N :
  conn_ok k c -> conn_typed env fs_open fs_fstat fd N c -> pending c = [] ->
  (st_file st = None \/ st_file st = Some the_file) -> int32 (st_count st) -> steady_event ev ->
  Z.of_nat (N + read_bytes (ev_reads ev)) <= LONG_MAX ->
  let '(out, ts, closed, rest) :=
    match observed ev with
    | Some i => serve_input the_file fd (c_inputBuffer c) i
    | None => ([], [], false, c_inputBuffer c)
    end in
  exists w, dispatch env fs_open fs_fstat (ev_mask ev) (enter k st (Some c) ev) = (w, Ret tt) /\ live_ok w /\
    wire (w_trace w) = out /\ tasks_of (w_trace w) = ts /\
    match w_conn w with
    | Some c' => closed = false /\ pending c' = [] /\ c_inputBuffer c' = rest
    | None => closed = true
    end.
Proof.
  intros Hok Ty Hp Hst Hct [Hu Hr Sw Ss] Hsz. destruct (reads_cases _ Hr) as [i Hi].
  destruct (dispatch_handler env fs_open fs_fstat k st c ev Hok) as [Hok1 ->].
  set (c1 := upd_chan (setRevents (ev_mask ev) (c_chan c)) c) in *.
  set (w1 := set_conn (Some c1) (enter k st (Some c) ev)) in *.
  destruct (readable (ev_mask ev)) eqn:Rd.
  - rewrite (observed_reads ev i Rd Hi). destruct i as [x|].
    2: { destruct (handleMessage_hangs env fs_open fs_fstat w1 c1 eq_refl Hi) as (w & Em & Ec & T).
         exists w. rewrite T. simpl. unfold live_ok. by rewrite Ec. }
    destruct Hi as (cs & Dl & ->).
    destruct (handleMessage_run env fs_open fs_fstat w1 c1 cs eq_refl Hok1) as (w & es & Em & T & _ & Cn & P).
    { apply steady_scripts_benign. by split. }
    { exact Dl. }
    { pose proof (ty_input _ _ _ _ _ _ Ty). unfold str_size. simpl. rewrite length_app.
      pose proof (delivers_bytes _ _ Dl). lia. }
    assert (scripts_steady w1) as Sw1 by by split. specialize (P Sw1 Hp).
    rewrite (static_entered env fs_open fs_fstat st w1 Hst eq_refl) in P.
    change (c_fd c1) with (c_fd c) in P. rewrite (ty_fd _ _ _ _ _ _ Ty) in P.
    change (c_inputBuffer c1) with (c_inputBuffer c) in P. unfold serve_input.
    destruct (serve _ _ _) as [[[out ts] closed] rest]. destruct P as [(_ & Hw & Ht & Hpd) Hend].
    simpl in T. subst es. exists w. rewrite Em. split; [done|].
    split; [unfold live_ok; destruct (w_conn w); [apply Cn | done]|]. do 2 (split; [done|]).
    destruct (w_conn w) as [c'|] eqn:Ec; destruct closed; try done; destruct Hend as (c2 & [= <-] & Hb); done.
  - unfold observed. rewrite Rd. destruct (Z.land (ev_mask ev) EPOLLOUT =? 0).
    + exists w1. split; [done|]. split; [exact Hok1 | done].
    + unfold handleWrite. mstep. rewrite (pending_none c1 Hp). destruct (on_channel_disable w1 c1 eq_refl Hok1) as (k' & -> & M').
      eexists. split; [done|]. split; [|done].
      unfold live_ok. cbn [w_conn add_trace set_kern set_conn w_kern]. destruct Hok1. constructor; auto.
Qed.

#[export] Instance steady_protocol : ConnProtocol (K := K) env fs_open fs_fstat served_as (fun _ => steady_event).
Proof.
  split.
  - intros c ev [Hu _ _ _]. done.
  - intros fd c es Pd Bf _ Hw Ht Ab _. unfold served_as. simpl. by rewrite Bf.
  - intros k st c ev fd N xs es Se Ok Ty Hf Hc Hsz.
    pose proof (dispatch_inv env fs_open fs_fstat (registered k) [] sizes fd N (ev_mask ev) (enter k st (Some c) ev)
      (se_mask _ Se)) as Inv.
    unfold served_as. destruct (serve_reads the_file fd xs) as [[[out0 ts0] closed0] buf0] eqn:Sv.
    intros (Hw0 & Ht0 & Ab0 & Cl0 & Pd & Hb).
    pose proof (event_run k st c ev fd N Ok Ty Pd Hf Hc Se Hsz) as Run. rewrite Hb in Run.
    assert (serve_reads the_file fd (xs ++ option_list (observed ev)) =
      let '(out, ts, closed, rest) := match observed ev with
        | Some i => serve_input the_file fd buf0 i | None => ([], [], false, buf0) end in
      (out0 ++ out, ts0 ++ ts, closed, rest)) as ->.
    { destruct (observed ev); simpl; [by rewrite serve_reads_snoc, Sv | rewrite !app_nil_r, Sv; congruence]. }
    destruct (match observed ev with Some i => _ | None => _ end) as [[[out ts] closed] rest].
    destruct Run as (w & Ew & Lw & Hw & Ht & Cn). rewrite Ew in Inv.
    destruct Inv as [_ _ _ _ _ (es' & Te & Ab)]; [split; try done; [by intros c' [= <-] | by exists []]|].
    simpl in Te. rewrite <- Te in Ab.
    exists w. split; [done|]. split; [done|]. rewrite wire_app, tasks_app, Hw0, Ht0, Hw, Ht.
    do 2 (split; [done|]). split; [by apply Forall_app | exact Cn].
Qed.

End Event.

(** ** The database side *)

Section Database.
Context {K S D G : Type} `{EpollKernel K} `{SessionStore S} `{MysqlServer D}.
Context (draw : G -> nat * G).
Context (size : Z) (b0 : Backend K S D G).
Notation process := (@process K S D G).
Notation service := (@service K S D G).

(** The server is not shut down, and store entries only expire. *)
Definition in_service (l : slabel (S := S)) : Prop :=
  match l with Shut | ShutAll => False | Expire e => expiry e | _ => True end.

(** The responses to a task, as they go out. *)
Definition responses (t : db_task) (rs : list reply) : list out_item :=
  mjoin ((fun r => json_out r.1 r.2 (task_keepAlive t)) <$> rs).

Lemma responses_one t r : responses t [r] = json_out r.1 r.2 (task_keepAlive t).
Proof. apply app_nil_r. Qed.

(** The submissions among the steps of the pool. *)
Definition submitted (ls : list (slabel (S := S))) : list db_task :=
  omap (fun l => match l with Submit t => Some t | _ => None end) ls.

(** The pool got here by its own steps and the submissions of [pr_trace]; every
    answer it gave is on the wire, on the descriptor of its task. *)
Record db_side (p : process) : Prop := {
  ds_run : exists ls, srun draw ls (new_service size b0) = Some (pr_service p) /\ Forall label_limits ls /\
    Forall in_service ls /\
    tasks_of (snd <$> pr_trace p) = submitted ls;
  ds_open : stop_ (sv_pool (pr_service p)) = false;
  ds_tasks : snd <$> accepted (sv_pool (pr_service p)) = tasks_of (snd <$> pr_trace p);
  ds_steady : scripts_steady (b_world (sv_back (pr_service p)));
  ds_out n t : (n, t) ∈ accepted (sv_pool (pr_service p)) ->
    wire (tagged (ByTask n) (pr_trace p)) = responses t (replies n (sv_log (pr_service p))) /\
    Forall (about (task_fd t)) (tagged (ByTask n) (pr_trace p));
  ds_fresh n e : (ByTask n, e) ∈ pr_trace p -> n ∈ fst <$> accepted (sv_pool (pr_service p))
}.

Lemma srun_snoc ls l (s s1 s2 : service) :
  srun draw ls s = Some s1 -> sstep draw l s1 = Some s2 -> srun draw (ls ++ [l]) s = Some s2.
Proof.
  revert s. induction ls as [|l0 ls IH]; intros s; simpl; [by intros [= ->] ->|].
  destruct (sstep draw l0 s); [apply IH | done].
Qed.

Lemma pool_step_keeps l (s s' : service) :
  (match l with Add _ | Stop => False | _ => True end) -> pool_step l s = Some s' ->
  accepted (sv_pool s') = accepted (sv_pool s) /\ stop_ (sv_pool s') = stop_ (sv_pool s) /\
  sv_back s' = sv_back s /\ sv_log s' = sv_log s.
Proof.
  intros Hl E. unfold pool_step in E. destruct (step l (sv_pool s)) as [p'|] eqn:Es; [|done]. injection E as <-. simpl.
  split_and!; try done;
    destruct l as [t|[j|]|j|j|j| |]; simpl in Es; try done;
    repeat match goal with
    | H : context [decide ?P] |- _ => destruct (decide P); [|done]
    | H : context [if ?c then _ else _] |- _ => destruct c eqn:?; try done
    | H : context [match threads_ ?p !! ?j with _ => _ end] |- _ => destruct (threads_ p !! j) as [[]|] eqn:?; try done
    end; injection Es as <-; try done; unfold worker_section;
    (destruct (stop_ (sv_pool s) || _); [destruct (tasks_ (sv_pool s)); done | done]).
Qed.

(** Any step but a submission and the stop: nothing is accepted, and the back end
    answers at most the task that acts. *)
Lemma sstep_keeps l (s s' : service) :
  (match l with Submit _ | Shut | Exec _ => False | _ => True end) -> sstep draw l s = Some s' ->
  accepted (sv_pool s') = accepted (sv_pool s) /\ stop_ (sv_pool s') = stop_ (sv_pool s) /\
  b_world (sv_back s') = b_world (sv_back s) /\ forall n, replies n (sv_log s') = replies n (sv_log s).
Proof.
  intros Hl E. destruct l as [t|o|i|i|i|i| | |e]; try done; simpl in E.
  - destruct (pool_step_keeps (Notify o) s s' I E) as (-> & -> & -> & ->). done.
  - destruct (pool_step (Section_ i) s) as [s1|] eqn:E1; [|done]. simpl in E.
    destruct (pool_step_keeps (Section_ i) s s1 I E1) as (A & B & C & L).
    destruct (threads_ (sv_pool s1) !! i) as [[| |[n t]|]|]; injection E as <-; simpl; rewrite ?A, ?B, ?C, ?L; try done.
    split_and!; try done. intros m. by rewrite replies_began.
  - destruct (sv_progs s !! i) as [[]|]; try done.
    destruct (pool_step_keeps (Done i) s s' I E) as (-> & -> & -> & ->). done.
  - destruct (pool_step_keeps (Spurious i) s s' I E) as (-> & -> & -> & ->). done.
  - destruct (pool_step_keeps NotifyAll s s' I E) as (-> & -> & -> & ->). done.
  - injection E as <-. done.
Qed.

(** [sendJson] on a steady socket: the response, on the descriptor. *)
Lemma sent_about_steady fd code body ka (w : World K) :
  scripts_steady w -> exists es, w_trace (sent fd code body ka w) = w_trace w ++ es /\
    wire es = json_out code body ka /\ Forall (about fd) es /\ tasks_of es = [] /\
    scripts_steady (sent fd code body ka w).
Proof.
  intros Hs. destruct (sent_steady fd code body ka w Hs) as (es & T & Hw & Hs'). exists es. do 2 (split; [done|]).
  assert (Forall (about fd) es /\ tasks_of es = []) as [? ?]; [|done]. revert T. unfold sent, sendJson, sendHttpResponse, bind, gets, modify, emit.
  destruct (write_loop _ _ _) as [[s n] o]. simpl. intros T%app_inv_head. subst es.
  split; [apply sent_about|]. by destruct (take _ _).
Qed.

(** Effects of a reactor that are not submissions. *)
Lemma db_side_conn p p' es :
  db_side p -> pr_service p' = pr_service p -> pr_trace p' = pr_trace p ++ es ->
  (forall x, x ∈ es -> exists n, x.1 = ByConn n) -> tasks_of (snd <$> es) = [] -> db_side p'.
Proof.
  intros [(ls & Rn & Lm & Sv & Tk) Op Ts St Ou Fr] Es Et Hc Nt.
  assert (tasks_of (snd <$> pr_trace p') = tasks_of (snd <$> pr_trace p)) as Tt
    by (by rewrite Et, fmap_app, tasks_app, Nt, app_nil_r).
  assert (forall n, tagged (ByTask n) (pr_trace p') = tagged (ByTask n) (pr_trace p)) as Tg.
  { intros n. rewrite Et, tagged_app, (tagged_none _ es); [apply app_nil_r|].
    intros b I. by destruct (Hc _ I). }
  split; rewrite ?Es, ?Tt; try done; [by exists ls | intros n t; rewrite Tg; by apply Ou|].
  intros n e. rewrite Et. intros [I|I]%elem_of_app; [by apply (Fr n e) | by destruct (Hc _ I)].
Qed.

(** A submission. *)
Lemma db_side_submit p p' n t s :
  db_side p -> task_limits t -> sstep draw (Submit t) (pr_service p) = Some s -> pr_service p' = s ->
  pr_trace p' = pr_trace p ++ [(ByConn n, Submitted t)] -> db_side p'.
Proof.
  intros [(ls & Rn & Lm & Sv & Tk) Op Ts St Ou Fr] Lt E Es Et.
  assert (tasks_of (snd <$> pr_trace p') = tasks_of (snd <$> pr_trace p) ++ [t]) as Tt
    by (by rewrite Et, fmap_app, tasks_app).
  assert (forall m, tagged (ByTask m) (pr_trace p') = tagged (ByTask m) (pr_trace p)) as Tg
    by (intros m; rewrite Et, tagged_app; apply app_nil_r).
  assert (exists ls', srun draw ls' (new_service size b0) = Some s /\ Forall label_limits ls' /\
    Forall in_service ls' /\ tasks_of (snd <$> pr_trace p) ++ [t] = submitted ls') as Rn'.
  { exists (ls ++ [Submit t]). split; [by eapply srun_snoc|]. do 2 (split; [by apply Forall_app_2; [|repeat constructor]|]).
    unfold submitted. by rewrite omap_app, Tk. }
  destruct (srun_tidy draw (Z.to_nat size) (mpool_ (b_mysql b0)) ls size b0 (pr_service p)) as (held & Td); try done.
  simpl in E. unfold pool_step in E. simpl in E. unfold add in E. rewrite Op in E. injection E as <-.
  split; rewrite ?Es, ?Tt; try done; simpl.
  - by rewrite fmap_app, Ts.
  - intros m t'. rewrite Tg. intros [I|I]%elem_of_app; [by apply Ou|].
    apply list_elem_of_singleton in I as [= -> ->].
    assert (length (accepted (sv_pool (pr_service p))) ∉ fst <$> accepted (sv_pool (pr_service p))) as Nf
      by (rewrite (sf_ids _ _ _ _ _ _ _ _ Td), elem_of_seq; lia).
    rewrite tagged_none by (intros e I; by apply Nf, (Fr _ e)).
    rewrite (sf_fresh _ _ _ _ _ _ _ _ Td); [done|].
    revert Nf. generalize (length (accepted (sv_pool (pr_service p)))). intros k Nf I. apply Nf.
    rewrite (inv_fifo _ _ (sf_pool _ _ _ _ _ _ _ _ Td)), fmap_app. apply elem_of_app. by left.
  - intros m e. rewrite Et. intros [I|I]%elem_of_app; [|by apply list_elem_of_singleton in I].
    rewrite fmap_app. apply elem_of_app. left. by apply (Fr m e).
Qed.

(** A step of the pool that answers nothing. *)
Lemma db_side_silent p p' l s :
  db_side p -> (match l with Submit _ => False | _ => in_service l end) -> sstep draw l (pr_service p) = Some s ->
  pr_service p' = s -> pr_trace p' = pr_trace p ->
  accepted (sv_pool s) = accepted (sv_pool (pr_service p)) -> stop_ (sv_pool s) = stop_ (sv_pool (pr_service p)) ->
  b_world (sv_back s) = b_world (sv_back (pr_service p)) ->
  (forall n, replies n (sv_log s) = replies n (sv_log (pr_service p))) -> db_side p'.
Proof.
  intros [(ls & Rn & Lm & Sv & Tk) Op Ts St Ou Fr] Hl E Es Et Ea Ep Ew El.
  split; rewrite ?Es, ?Et, ?Ea, ?Ep, ?Ew; try done.
  - exists (ls ++ [l]). split; [by eapply srun_snoc|]. do 2 (split; [apply Forall_app_2; [done|]; repeat constructor; by destruct l|]).
    unfold submitted. rewrite omap_app. fold (submitted ls). rewrite <- Tk. destruct l; try done; by rewrite app_nil_r.
  - intros n t I. rewrite El. by apply Ou.
Qed.

(** Numbers tell tasks apart. *)
Lemma accepted_inj (l : list (nat * db_task)) n t t' :
  fst <$> l = seq 0 (length l) -> (n, t) ∈ l -> (n, t') ∈ l -> t = t'.
Proof.
  intros E. assert (forall t, (n, t) ∈ l -> l !! n = Some (n, t)) as L.
  { intros t1 [i I]%list_elem_of_lookup. assert ((fst <$> l) !! i = Some n) as F by (by rewrite list_lookup_fmap, I).
    rewrite E in F. apply lookup_seq in F as [-> _]. exact I. }
  intros I1%L I2%L. congruence.
Qed.

(** A task that was answered took effect with this answer. *)
Lemma marked_reply (s : service) tr n t r :
  marked s tr -> fst <$> accepted (sv_pool s) = seq 0 (length (accepted (sv_pool s))) ->
  (n, t) ∈ accepted (sv_pool s) -> replies n (sv_log s) = [r] -> MTakes n t r ∈ tr.
Proof.
  intros [El Hm] Id An Rp. rewrite <- El, replies_erase in Rp.
  destruct (Hm n) as [E|(t' & r' & An' & Pf)]; [by rewrite E in Rp|].
  rewrite (accepted_inj _ n t' t Id An' An) in Pf.
  assert (marks_of n tr = [MBegan n t; MTakes n t r; MReplied n r]) as E.
  { destruct Pf as [q Eq]. destruct (marks_of n tr) as [|m1 [|m2 [|m3 q']]]; simplify_eq/=; try done.
    match goal with Q : [] = _ |- _ => symmetry in Q; apply app_eq_nil in Q as [-> _] end.
    case_decide; by simplify_eq/=. }
  assert (MTakes n t r ∈ marks_of n tr) as I by (rewrite E; by right; left).
  by apply list_elem_of_filter in I as [_ I].
Qed.

(** The answer of task [n]. *)
Lemma db_side_answer p p' i n t s code body es :
  db_side p -> sstep draw (Exec i) (pr_service p) = Some s -> pr_service p' = s ->
  (n, t) ∈ accepted (sv_pool (pr_service p)) -> sv_pool s = sv_pool (pr_service p) ->
  sv_log s = sv_log (pr_service p) ++ [LReplied n (code, body)] -> scripts_steady (b_world (sv_back s)) ->
  pr_trace p' = pr_trace p ++ ((fun e => (ByTask n, e)) <$> es) -> wire es = json_out code body (task_keepAlive t) ->
  Forall (about (task_fd t)) es -> tasks_of es = [] -> db_side p'.
Proof.
  intros [(ls & Rn & Lm & Sv & Tk) Op Ts St Ou Fr] E Es An Ep El St' Et Hw Ha Nt.
  destruct (srun_tidy draw (Z.to_nat size) (mpool_ (b_mysql b0)) ls size b0 (pr_service p)) as (held & Td); try done.
  assert (tasks_of (snd <$> pr_trace p') = tasks_of (snd <$> pr_trace p)) as Tt.
  { rewrite Et, fmap_app, tasks_app, <- list_fmap_compose. change (snd ∘ _) with (@id event).
    by rewrite list_fmap_id, Nt, app_nil_r. }
  split; rewrite ?Es, ?Tt, ?Ep; try done.
  - exists (ls ++ [Exec i]). split; [by eapply srun_snoc|]. do 2 (split; [apply Forall_app_2; [done|]; by repeat constructor|]).
    unfold submitted. rewrite omap_app. fold (submitted ls). by rewrite <- Tk, app_nil_r.
  - intros m t' I. destruct (Ou m t' I) as [Wm Am]. rewrite Et, tagged_app, tagged_fmap, El. case_decide as C.
    + injection C as <-. rewrite replies_own, wire_app, Wm, Hw.
      rewrite (accepted_inj _ n t t' (sf_ids _ _ _ _ _ _ _ _ Td) An I) in *.
      split; [|by apply Forall_app]. unfold responses. rewrite fmap_app, join_app. simpl. by rewrite app_nil_r.
    + rewrite app_nil_r, replies_other by (by intros ->). done.
  - intros m e. rewrite Et. intros [I|I]%elem_of_app; [by apply (Fr m e)|].
    apply list_elem_of_fmap in I as (e' & [= -> _] & _). by apply (list_elem_of_fmap_2 fst _ (n, t)).
Qed.

(** The next call of a task, or its answer. *)
Lemma db_side_exec p i s :
  db_side p -> sstep draw (Exec i) (pr_service p) = Some s ->
  db_side (set_service s (pr_todo p)
    ((fun e => (ByTask (acting (Exec i) (pr_service p)), e)) <$> new_events (pr_service p) s) p).
Proof.
  intros Ds E. pose proof Ds as [(ls & Rn & Lm & _) _ _ St _ _].
  destruct (srun_tidy draw (Z.to_nat size) (mpool_ (b_mysql b0)) ls size b0 (pr_service p)) as (held & Td); try done.
  pose proof E as Ex. simpl in Ex. unfold acting.
  destruct (threads_ (sv_pool (pr_service p)) !! i) as [[| |[n t]|]|] eqn:T; try done.
  destruct (sv_progs (pr_service p) !! i) as [m|] eqn:Pm; [|done]. destruct (sv_rngs (pr_service p) !! i) as [g|]; [|done].
  destruct (sf_worker _ _ _ _ _ _ _ _ Td i _ T) as (m1 & o & Pm1 & _ & _ & Ad & _). rewrite Pm in Pm1. injection Pm1 as <-.
  unfold exec_step in Ex. destruct m as [r|X f k|fd code body ka k]; [done| |].
  - destruct Ad as [Hw _]. specialize (Hw (set_rng g (sv_back (pr_service p)))). destruct (f _) as [b' x]. simpl in Hw.
    injection Ex as <-. eapply (db_side_silent p _ (Exec i)); [done | exact I | done | done | | done..]. simpl. unfold new_events. simpl.
    by rewrite Hw, drop_all, app_nil_r.
  - destruct Ad as (-> & -> & _). injection Ex as <-.
    destruct (sent_about_steady (task_fd t) code body (task_keepAlive t) (b_world (sv_back (pr_service p))) St)
      as (es & Tr & Hw & Ha & Nt & St').
    eapply (db_side_answer p _ i n t _ code body es); try done; simpl.
    + rewrite (inv_fifo _ _ (sf_pool _ _ _ _ _ _ _ _ Td)), (inv_once _ _ (sf_pool _ _ _ _ _ _ _ _ Td)).
      do 2 (apply elem_of_app; first [by right; eapply running_elem | left]).
    + unfold new_events. simpl. rewrite Tr. by rewrite drop_app_length.
Qed.

Lemma db_side_db p p' l :
  db_side p -> in_service l -> db_step draw l p = Some p' -> db_side p'.
Proof.
  intros Ds Hl E. unfold db_step in E.
  assert (exists s, sstep draw l (pr_service p) = Some s /\ p' = set_service s (pr_todo p)
    ((fun e => (ByTask (acting l (pr_service p)), e)) <$> new_events (pr_service p) s) p) as (s & Es & ->).
  { destruct l; try done; (destruct (sstep draw _ _) as [s|]; [|done]); injection E as <-; by exists s. }
  assert ((exists i, l = Exec i) \/ match l with Submit _ | Shut | Exec _ => False | _ => True end) as [[i ->]|Q]
    by (destruct l; first [done | by left; eexists | by right]).
  { by apply db_side_exec. }
  destruct (sstep_keeps l _ _ Q Es) as (Ka & Ks & Kw & Kl).
  eapply (db_side_silent p _ l); [done | by destruct l | exact Es | done | | done..].
  simpl. unfold new_events. by rewrite Kw, drop_all, app_nil_r.
Qed.

Lemma new_db_side ks st : scripts_steady (b_world b0) -> db_side (new_process ks st size b0).
Proof.
  intros Sc. split; simpl; try done; [by exists []|..]; by intros n x I%not_elem_of_nil.
Qed.

End Database.

(** ** The whole process *)

Section Whole.
Context {K S D G : Type} `{EpollKernel K} `{SessionStore S} `{MysqlServer D}.
Context (draw : G -> nat * G).
Context (env : environment) (fs_open : bytes -> Z) (fs_fstat : Z -> option (bool * Z)).
Context (sizes : forall fd reg size, fs_fstat fd = Some (reg, size) -> 0 <= size).
Context (ample : forall (k : K) fd ev, registered k fd = None -> snd (epoll_ctl k EPOLL_CTL_ADD fd ev) = 0).
Context (size : Z) (b : Backend K S D G).
Notation process := (@process K S D G).
Notation the_file := (the_file env fs_open fs_fstat).

Notation reactors_ok := (reactors_ok env fs_open fs_fstat (served_as env fs_open fs_fstat)).

Definition steady_label (l : plabel (S := S)) : Prop :=
  label_event steady_event l /\ match l with PDb l => in_service l | _ => True end.

Definition process_inv (N : nat) (p : process) : Prop := reactors_ok N p /\ db_side draw size b p.

(** What a handler is about to submit was checked. *)
Lemma todo_limits N (p : process) r n t rest :
  reactors_ok N p -> pr_todo p !! r = Some ((n, Submitted t) :: rest) -> task_limits t.
Proof.
  intros Ro L. destruct (ro_todo _ _ _ _ _ _ Ro r _ n (Submitted t) L) as (fd & Lf & Rr); [left|].
  pose proof (ro_out _ _ _ _ _ _ Ro n fd r _ Lf Rr L) as Ot.
  pose proof (serve_reads_limits the_file fd (reads_of n p) t) as Lm. unfold served_as in Ot.
  destruct (serve_reads _ _ _) as [[[out ts] c] buf]. destruct Ot as (_ & <- & _). apply Lm.
  unfold out_of. rewrite tagged_cons, decide_True, tasks_app by done. simpl. set_solver.
Qed.

Lemma pstep_inv l N (p p' : process) :
  steady_label l -> Z.of_nat (N + label_bytes l) <= LONG_MAX -> process_inv N p ->
  pstep draw env fs_open fs_fstat l p = Some p' -> process_inv (N + label_bytes l) p'.
Proof.
  intros [Hl Hs] Hsz [Ro Ds] E. split;
    [eapply (pstep_reactors draw env fs_open fs_fstat sizes ample); [by apply steady_protocol | by destruct l; simpl; auto | done..| exact E]|]. destruct l as [ptr fd|fd ev|r|l]; simpl in E.
  - apply accept_step_inv in E as [->|(r & k & todo & w' & res & _ & _ & _ & _ & Ew0 & ->)]; [done|].
    set (w0 := enter k (pr_statics p) None (mkEvent 0 [] [] [])) in *.
    destruct (new_Connection_inv env fs_open fs_fstat (registered k) [] ptr fd w0) as (w & Ew & _);
      [done | apply Ro | apply Ro | done..|].
    rewrite Ew in Ew0. injection Ew0 as <- <-. destruct (new_Connection_silent ptr fd w0 w eq_refl Ew) as [_ Tn].
    eapply (db_side_conn _ _ _ p _ _ Ds); simpl; [done | done | |].
    + intros x I. apply list_elem_of_fmap in I as (e & -> & _). by eexists.
    + rewrite <- list_fmap_compose. change (snd ∘ _) with (@id event). by rewrite list_fmap_id.
  - apply event_step_inv in E as (r & k & n & c & w & res & _ & _ & _ & _ & _ & ->).
    eapply (db_side_conn _ _ _ p _ [] Ds); simpl; [done | by rewrite app_nil_r | by intros x I%not_elem_of_nil | done].
  - unfold effect_step in E. destruct (pr_todo p !! r) as [[|[n e] rest]|] eqn:L; try done.
    assert ((exists t, e = Submitted t) \/ tasks_of [e] = []) as [[t ->]|Nt] by (destruct e; eauto).
    + pose proof (todo_limits _ _ _ _ _ _ Ro L) as Lm. destruct (sstep _ _ _) as [s|] eqn:Es; [|done].
      injection E as <-. by eapply db_side_submit.
    + assert (p' = set_service (pr_service p) (<[r:=rest]> (pr_todo p)) [(ByConn n, e)] p) as -> by (destruct e; try done; by injection E as <-).
      eapply (db_side_conn _ _ _ p _ _ Ds); simpl; [done..| | done].
      intros x I. apply list_elem_of_singleton in I as ->. by eexists.
  - by eapply db_side_db.
Qed.

Lemma prun_inv ls N (p p' : process) :
  Forall steady_label ls -> Z.of_nat (N + sum_list_with label_bytes ls) <= LONG_MAX -> process_inv N p ->
  prun draw env fs_open fs_fstat ls p = Some p' -> process_inv (N + sum_list_with label_bytes ls) p'.
Proof.
  intros F. revert N p. induction F as [|l ls Hl F IH]; intros N p Hsz Inv; simpl.
  { intros [= <-]. by rewrite Nat.add_0_r. }
  destruct (pstep _ _ _ _ _ _) as [p1|] eqn:E; [|done]. rewrite Nat.add_assoc. simpl in Hsz.
  apply IH; [lia|]. eapply pstep_inv; [done | lia | done | done].
Qed.

Lemma new_process_inv ks st :
  statics_ok env fs_open fs_fstat st -> scripts_steady (b_world b) -> process_inv 0 (new_process ks st size b).
Proof.
  intros [Hf Hc] Sc. split; [by apply new_process_reactors | by apply new_db_side].
Qed.

Lemma process_run_inv ks st ls p :
  statics_ok env fs_open fs_fstat st -> scripts_steady (b_world b) -> Forall steady_label ls ->
  Z.of_nat (sum_list_with label_bytes ls) <= LONG_MAX ->
  prun draw env fs_open fs_fstat ls (new_process ks st size b) = Some p ->
  process_inv (sum_list_with label_bytes ls) p.
Proof. intros So Sc F Hsz R. apply (prun_inv ls 0 (new_process ks st size b)); try done. by apply new_process_inv. Qed.

(** The pool of the process is a pool of [Service]. *)
Lemma process_answers N (p : process) i t :
  0 < size -> process_inv N p -> at_rest draw (pr_service p) -> tasks_of (snd <$> pr_trace p) !! i = Some t ->
  (i, t) ∈ accepted (sv_pool (pr_service p)) /\ exists r, replies i (sv_log (pr_service p)) = [r].
Proof.
  intros Ps [_ Ds] Rt Li. pose proof Ds as [(ls & Rn & Lm & _) _ Ts _ _ _].
  destruct (srun_tidy draw (Z.to_nat size) (mpool_ (b_mysql b)) ls size b (pr_service p)) as (held & Td); try done.
  destruct (srun_spends draw ls _ _ _ Lm (new_timed size b) Rn) as (ks & Tm & _).
  rewrite <- Ts, list_lookup_fmap in Li. apply fmap_Some in Li as ([n t'] & Li & ->).
  assert (n = i) as ->.
  { pose proof (f_equal (fun l => l !! i) (sf_ids _ _ _ _ _ _ _ _ Td)) as E. cbv beta in E.
    rewrite list_lookup_fmap, Li, lookup_seq_lt in E by (by eapply lookup_lt_Some). by injection E. }
  apply list_elem_of_lookup_2 in Li. split; [done|]. simpl.
  rewrite <- (rest_finished draw (Z.to_nat size) (pr_service p) ks) in Li; [|lia | done | apply Td | done].
  by apply (sf_done _ _ _ _ _ _ _ _ Td i t').
Qed.


(** *** Theorems *)

Section Run.
Context (ks : list K) (st : statics) (ls : list (plabel (S := S))) (p : process).
Context (threads : 0 < size) (fresh : statics_ok env fs_open fs_fstat st) (calm : scripts_steady (b_world b)).
Context (steadily : Forall steady_label ls) (bounded : Z.of_nat (sum_list_with label_bytes ls) <= LONG_MAX).
Context (runs : prun draw env fs_open fs_fstat ls (new_process ks st size b) = Some p).


(** C3: clients see a linearizable account service. Conditions: those of the
    theorem before; MySQL and the store work, and table and store hold the state
    [a] of the account service, the generator can be seeded and draws within its alphabet; and the submitted
    tasks are plain: no NUL
    byte in a name, in the password of a registration or in a token, no empty
    name, and registered text that the columns accept. (For names with NUL bytes
    it is false, by [nul_name_takes_over].)
    Then, in every interleaving, every database request takes effect at one moment
    between its start and its answer; in the order of these moments requests and
    replies are a run of the account service; and at rest the bytes on the wire
    for each task are the response for its reply in this run. *)
Theorem process_linearizable a :
  (forall g, (fst (draw g) < length charset)%nat) -> backs b a ->
  Forall (task_plain (D := D)) (tasks_of (snd <$> pr_trace p)) ->
  exists tr a', marked (pr_service p) tr /\
    service_run mysql_same (scarce (Z.to_nat size) (mpool_ (b_mysql b))) a (takes tr) a' /\
    backs (sv_back (pr_service p)) a' /\
    (at_rest draw (pr_service p) -> forall i t, tasks_of (snd <$> pr_trace p) !! i = Some t ->
     exists r, MTakes i t r ∈ tr /\ wire (tagged (ByTask i) (pr_trace p)) = json_out r.1 r.2 (task_keepAlive t)).
Proof.
  intros Dr Bk Pl.
  pose proof (process_run_inv ks st ls p fresh calm steadily bounded runs) as Inv.
  pose proof (ds_run _ _ _ _ (proj2 Inv)) as (sl & Rn & _ & Sv & Tk).
  assert (Forall (label_ok (D := D)) sl) as Ok.
  { rewrite Tk in Pl. clear -Sv Pl. induction Sv as [|l sl Hl Sv IH]; [done|].
    destruct l; try (constructor; [done | by apply IH]). apply Forall_cons in Pl as [? ?].
    constructor; [done | by apply IH]. }
  destruct (srun_linear draw Dr (Z.to_nat size) a (mpool_ (b_mysql b)) sl size b (pr_service p))
    as (tr & a' & held & Ln); try done.
  pose proof (linear_marked _ _ _ _ _ _ _ Ln) as Mk.
  exists tr, a'. split; [done|]. split; [apply Ln|]. split; [apply Ln|]. intros Rt i t L.
  destruct (process_answers _ p i t threads Inv Rt L) as [An [r Rp]].
  destruct (ds_out _ _ _ _ (proj2 Inv) i t An) as [Hw _]. exists r. split.
  - by apply (marked_reply (pr_service p)); [|apply Ln|..].
  - by rewrite Hw, Rp, responses_one.
Qed.

End Run.

End Whole.

(** ** Witnesses *)

(** A page of five bytes. *)
Definition page_open (_ : bytes) : Z := 9.
Definition page_stat (_ : Z) : option (bool * Z) := Some (true, 5).

Lemma page_sizes fd reg size : page_stat fd = Some (reg, size) -> 0 <= size.
Proof. by intros [= <- <-]. Qed.

(** One write of a client: it logs in, and asks for the page. *)
Definition login_then_page : bytes :=
  message [bs "POST /login HTTP/1.1"; bs "Content-Length: 34"] (credentials_body (bs "bob") (bs "pw")) ++
  message [bs "GET / HTTP/1.1"] [].

(** The client on 7 logs in and asks for the page, the client on 8 asks for the
    profile of a session that is not there; later it asks for the page and hangs
    up at once, and gets nothing. The thread runs the login while the handler is
    between the header and the body of the page. *)
Definition busy_schedule : list (plabel (S := gmap bytes bytes * RedisPool)) :=
  [PAccept 1 7; PAccept 2 8; PEvent 7 (mkEvent EPOLLIN [Data login_then_page] [] []);
   PEvent 8 (mkEvent EPOLLIN [Data (message [bs "GET /profile HTTP/1.1"; bs "Authorization: Bearer x"] [])] [] []);
   PEffect 1; PEffect 1; PDb (Wake None); PDb (Begin 0)] ++ replicate 8 (PDb (Exec 0)) ++
  [PEffect 1; PDb (Finish 0); PEffect 0; PDb (Wake None); PDb (Begin 0)] ++ replicate 2 (PDb (Exec 0)) ++
  [PDb (Finish 0); PDb (Begin 0); PEffect 1;
   PEvent 8 (mkEvent EPOLLIN [Data (message [bs "GET / HTTP/1.1"] []); Data []] [] []); PEffect 0].

Definition busy_process : process :=
  default start_process (prun count_draw no_env page_open page_stat busy_schedule start_process).

Lemma busy_runs : prun count_draw no_env page_open page_stat busy_schedule start_process = Some busy_process.
Proof.
  unfold busy_process.
  assert (bool_decide (is_Some (prun count_draw no_env page_open page_stat busy_schedule start_process)) = true) as E
    by (vm_compute; reflexivity).
  by destruct (prun count_draw no_env page_open page_stat busy_schedule start_process).
Qed.

Lemma busy_steady : Forall steady_label busy_schedule.
Proof.
  assert (forall rs, Forall read_fits rs -> steady_event (mkEvent EPOLLIN rs [] [])) as Ev.
  { intros rs Hr. by split; [by vm_compute | | |]. }
  unfold busy_schedule. simpl.
  repeat (apply Forall_cons_2; [first [done | split; [apply Ev; by_decide | done]]|]). constructor.
Qed.

Lemma busy_calm : scripts_steady (b_world (service_backend fresh_world)).
Proof. by split; vm_compute; constructor. Qed.

Lemma busy_bytes : Z.of_nat (sum_list_with label_bytes busy_schedule) <= LONG_MAX.
Proof. by vm_compute. Qed.

Lemma busy_statics : statics_ok no_env page_open page_stat (mkStatics [100] 0 0 None).
Proof. split; [by left | done]. Qed.


Lemma process_linearizable_witness :
  exists tr a', marked (pr_service busy_process) tr /\ service_run mysql_same false bob_only (takes tr) a' /\
    exists r, MTakes 0 (TaskLogin 7 true (bs "bob") (bs "pw")) r ∈ tr /\
      wire (tagged (ByTask 0) (pr_trace busy_process)) = json_out r.1 r.2 true.
Proof.
  destruct (process_linearizable count_draw no_env page_open page_stat page_sizes table_ample 1
    (service_backend fresh_world) [∅; ∅] (mkStatics [100] 0 0 None) busy_schedule busy_process)
    with (a := bob_only) as (tr & a' & Mk & Rn & _ & Rest);
    [done | apply busy_statics | apply busy_calm | apply busy_steady | apply busy_bytes | apply busy_runs
    | apply count_draw_range | apply demo_backs | |].
  { assert (tasks_of (snd <$> pr_trace busy_process) =
      [TaskLogin 7 true (bs "bob") (bs "pw"); TaskProfile 8 true (bs "x")]) as -> by (vm_compute; reflexivity).
    repeat constructor; try by_decide; by vm_compute. }
  exists tr, a'. split; [exact Mk|]. split; [exact Rn|]. apply Rest; [|reflexivity].
  apply resting_rest. by vm_compute.
Defined.

(** The event writes to [fd]. *)
Definition writes_to (fd : Z) (e : event) : bool :=
  match e with Sent f _ | SentFile f _ _ _ => f =? fd | _ => false end.

(** A database answer can land inside a page. The handlers of one connection
    and the database threads write to its socket without a lock: when a client
    sends a login and the request for the page in one go, the schedule above puts
    the login response between the header of the page and its body, and the
    client reads the response's first bytes as the page. *)
Theorem db_answer_splits_page :
  exists ls p, prun count_draw no_env page_open page_stat ls start_process = Some p /\
    pr_crashed p = false /\ reads_of 0 p = [Arrived login_then_page] /\
    wire (List.filter (writes_to 7) (snd <$> pr_trace p)) =
      (OByte <$> fileHeader 200 (bs "text/html") 5 true) ++ json_out 200 (login_json first_token) true ++ file_items 9 0 5.
Proof. exists busy_schedule, busy_process. split; [apply busy_runs|]. by vm_compute. Qed.
