(* ===== verification/SlowAnswers.v ===== *)
(** * Answers on slow sockets (src/Server.cpp, Connection.cpp)

    The process of [Process] with clients that wait for an answer before they ask
    again ([Waiting]), on sockets that take as much as they like. In every
    interleaving, what a connection was sent and what it still has to send are
    together what the abstract server writes for what was read, up to the moment
    the client hangs up. *)

From S2P Require Import Prelude CppString Config Http Json Channel Framing Connection WritePath ReadPath Lifetime Waiting.
From S2P Require Import ThreadPool Interfaces Mysql Redis Handlers Accounts Interleaved Service Server Process Answers.

Section Slow.
Context {K : Type} `{EpollKernel K}.
Context (env : environment) (fs_open : bytes -> Z) (fs_fstat : Z -> option (bool * Z)).
Context (sizes : forall fd reg size, fs_fstat fd = Some (reg, size) -> 0 <= size).
Notation the_file := (the_file env fs_open fs_fstat).

(** The writes of the event all succeed at once. *)
Definition quick (ev : life_event) : Prop := Forall steady (ev_writes ev) /\ Forall steady (ev_sends ev).

(** Any event without a hard write error, which delivers bytes only to a
    connection that has nothing to send, and then no more than one request. *)
Definition patient (c : Conn) (ev : life_event) : Prop :=
  u32 (ev_mask ev) /\ ev_benign ev /\ Forall read_fits (ev_reads ev) /\
  forall b, observed ev = Some (Arrived b) ->
    pending c = [] /\ one_request (quick ev) (c_fd c) (c_inputBuffer c ++ b).

Definition owed (fd : Z) (xs : list input) (oc : option Conn) (es : list event) : Prop :=
  let '(out, ts, closed, buf) := serve_reads the_file fd xs in
  tasks_of es = ts /\ Forall (about fd) es /\
  match oc with
  | Some c => out = wire es ++ pending c /\ c_inputBuffer c = buf /\ c_closeAfterWrite c = closed /\
              (pending c = [] -> closed = false)
  | None => closed = true /\ wire es `prefix_of` out /\ (HungUp ∉ xs -> out = wire es)
  end.

(** An event that reads nothing. *)
Lemma patient_writes (k : K) st c ev :
  conn_ok k c -> patient c ev -> (pending c = [] -> c_closeAfterWrite c = false) -> readable (ev_mask ev) = false ->
  waits (dispatch env fs_open fs_fstat (ev_mask ev) (enter k st (Some c) ev)) (enter k st (Some c) ev) c
    (pending c, [], c_closeAfterWrite c, c_inputBuffer c).
Proof.
  intros Hok (_ & Hb & _) Hc Rd. destruct (dispatch_handler env fs_open fs_fstat k st c ev Hok) as [Hok1 ->].
  rewrite Rd. set (c1 := upd_chan _ c) in *. set (w1 := set_conn (Some c1) _) in *. destruct (Z.land _ _ =? 0).
  - exists w1, []. do 3 (split; [done|]). unfold owes. simpl. split; [exact Hok1|]. by repeat split.
  - by apply (handleWrite_waits w1 c1).
Qed.

(** An event that delivers bytes. *)
Lemma patient_reads (k : K) st c ev cs :
  conn_ok k c -> (st_file st = None \/ st_file st = Some the_file) -> ev_benign ev ->
  readable (ev_mask ev) = true -> delivers (ev_reads ev) cs ->
  pending c = [] -> c_closeAfterWrite c = false -> one_request (quick ev) (c_fd c) (c_inputBuffer c ++ mjoin cs) ->
  Z.of_nat (length (c_inputBuffer c) + read_bytes (ev_reads ev)) <= LONG_MAX ->
  waits (dispatch env fs_open fs_fstat (ev_mask ev) (enter k st (Some c) ev)) (enter k st (Some c) ev) c
    (serve the_file (c_fd c) (c_inputBuffer c ++ mjoin cs)).
Proof.
  intros Hok Hst Hb Rd Dl Hp Hc One Hsz. destruct (dispatch_handler env fs_open fs_fstat k st c ev Hok) as [Hok1 ->].
  rewrite Rd. set (c1 := upd_chan _ c) in *. set (w1 := set_conn (Some c1) _) in *.
  pose proof (handleMessage_waits env fs_open fs_fstat w1 c1 cs eq_refl Hok1 Hb Dl Hp Hc) as Wt.
  rewrite (static_entered env fs_open fs_fstat st w1 Hst eq_refl) in Wt. apply Wt; [|done].
  unfold str_size. simpl. rewrite length_app. pose proof (delivers_bytes _ _ Dl). lia.
Qed.

(** What the handler of an event adds to what was said before. *)
Lemma owed_more fd xs xs' (c : Conn) es spec (w' : World K) :
  owed fd xs (Some c) es -> Forall (about fd) (w_trace w') ->
  (let '(out, ts, closed, b) := spec in
   (exists out0, out0 ++ pending c = (serve_reads the_file fd xs).1.1.1 /\
    serve_reads the_file fd xs' = (out0 ++ out, (serve_reads the_file fd xs).1.1.2 ++ ts, closed, b)) /\
   tasks_of (w_trace w') = ts /\ owes out closed b c w' (w_trace w')) ->
  live_ok w' /\ owed fd xs' (w_conn w') (es ++ w_trace w').
Proof.
  unfold owed. destruct (serve_reads the_file fd xs) as [[[out1 ts1] closed1] buf1]. simpl.
  destruct spec as [[[out ts] closed] b]. intros (Ht & Ab0 & Ho & _) Ab ((out0 & Eo & ->) & Tk & Ow).
  rewrite Ho in Eo. apply app_inv_tail in Eo as ->. unfold owes, live_ok in *. rewrite tasks_app, wire_app, Ht, Tk.
  split; [destruct (w_conn w'); [apply Ow | done]|]. split; [done|]. split; [by apply Forall_app|].
  destruct (w_conn w') as [c'|].
  - destruct Ow as (_ & -> & Ei & _ & Ec & Ep). by rewrite <- app_assoc.
  - destruct Ow as [-> Ec]. by repeat split.
Qed.

#[export] Instance patient_protocol : ConnProtocol (K := K) env fs_open fs_fstat owed patient.
Proof.
  split.
  - by intros c ev [].
  - intros fd c es Pd Bf Cw Hw Ht Ab _. unfold owed. simpl. by rewrite Hw, Pd, Bf, Cw.
  - intros k st c ev fd N xs es Pa Ok Ty Hf Hc Hsz Ow.
    pose proof (ty_fd _ _ _ _ _ _ Ty) as Fd. pose proof (ty_input _ _ _ _ _ _ Ty) as Ti.
    pose proof (dispatch_inv env fs_open fs_fstat (registered k) [] sizes fd N (ev_mask ev) (enter k st (Some c) ev)
      (proj1 Pa)) as Inv.
    assert (forall w, dispatch env fs_open fs_fstat (ev_mask ev) (enter k st (Some c) ev) = (w, Ret tt) ->
              Forall (about fd) (w_trace w)) as Abt.
    { intros w Ew. rewrite Ew in Inv.
      destruct Inv as [_ _ _ _ _ (es' & Te & Ab)]; [split; try done; [by intros c' [= <-] | by exists []]|].
      simpl in Te. by rewrite Te. }
    clear Inv. pose proof Ow as Ow0. unfold owed in Ow0.
    destruct (serve_reads the_file fd xs) as [[[out0 ts0] closed0] buf0] eqn:Sv.
    destruct Ow0 as (Ht0 & Ab0 & Ho & Hb & Hcl & Hpc). subst closed0.
    pose proof Pa as (Hu & Hbn & Hr & Arr). destruct (readable (ev_mask ev)) eqn:Rd.
    + destruct (reads_cases _ Hr) as [[b|] Hi]; rewrite (observed_reads ev _ Rd Hi) in *; change (option_list (Some ?x)) with [x].
      * destruct (Arr b eq_refl) as [Hp One]. destruct Hi as (cs & Dl & ->).
        pose proof (patient_reads k st c ev cs Ok Hf Hbn Rd Dl Hp (Hpc Hp) One) as Wt. rewrite Fd in Wt.
        unfold waits in Wt. destruct (serve _ _ _) as [[[out ts] closed] b] eqn:Es.
        destruct Wt as (w & es' & Ew & Tr & Tk & Od); [lia|]. simpl in Tr. subst es'. exists w. split; [done|].
        apply (owed_more fd xs _ c es (out, ts, closed, b)); [done | by apply Abt|]. split; [|done].
        exists out0. rewrite serve_reads_snoc, Sv, Hp. simpl. by rewrite app_nil_r, <- Hb, Es.
      * destruct (dispatch_handler env fs_open fs_fstat k st c ev Ok) as [Ok1 Ed]. rewrite Rd in Ed.
        set (c1 := upd_chan _ c) in *. set (w1 := set_conn (Some c1) _) in *.
        destruct (handleMessage_hangs env fs_open fs_fstat w1 c1 eq_refl Hi) as (w & Em & Ec & T). simpl in T.
        rewrite Em in Ed. exists w. split; [done|]. unfold live_ok. rewrite Ec. split; [done|].
        unfold owed. rewrite serve_reads_snoc, Sv. simpl. rewrite !app_nil_r. split; [|split; [|split; [done|split]]].
        -- by rewrite tasks_app, T, app_nil_r.
        -- apply Forall_app. split; [done | by apply Abt].
        -- rewrite wire_app, T, app_nil_r, Ho. by apply prefix_app_r.
        -- intros Nh. exfalso. apply Nh. set_solver.
    + assert (observed ev = None) as -> by (unfold observed; by rewrite Rd). change (option_list None) with (@nil input). rewrite app_nil_r.
      destruct (patient_writes k st c ev Ok) as (w & es' & Ew & Tr & Tk & Od); [done..|].
      simpl in Tr. subst es'. exists w. split; [done|].
      apply (owed_more fd xs xs c es (pending c, [], c_closeAfterWrite c, c_inputBuffer c)); [done | by apply Abt|].
      split; [|done]. exists (wire es). rewrite Sv. simpl. by rewrite Ho, Hb, app_nil_r.
Qed.

End Slow.

(** ** The process *)

Section Process.
Context {K S D G : Type} `{EpollKernel K} `{SessionStore S} `{MysqlServer D}.
Context (draw : G -> nat * G).
Context (env : environment) (fs_open : bytes -> Z) (fs_fstat : Z -> option (bool * Z)).
Context (sizes : forall fd reg size, fs_fstat fd = Some (reg, size) -> 0 <= size).
Context (ample : forall (k : K) fd ev, registered k fd = None -> snd (epoll_ctl k EPOLL_CTL_ADD fd ev) = 0).
Notation process := (@process K S D G).
Notation the_file := (the_file env fs_open fs_fstat).

(** C4: slow clients that wait get everything. Conditions: no write fails hard,
    registrations with epoll succeed, fewer than 2^63 bytes arrive in all, and every client waits: bytes arrive only
    at a connection that has nothing left to send, no more than one request at a
    time, and, if it is a database request that the handler turns down itself,
    with a socket that takes the answer at once (see [direct_answer_cut]).
    Otherwise sockets accept what they like, events have any masks, and clients
    hang up at any moment. In every interleaving of the threads: what a
    connection has been sent is at any time a prefix of what the abstract server
    writes for what was read; whenever the handlers are through, it is that up to
    what the connection still has to send; the connection is gone only when the
    abstract server closed it, or the client hung up, and all of the output was
    sent unless the client hung up; and its database requests were submitted in
    order. *)
Theorem slow_clients_lose_nothing ks st size b ls (p : process) :
  statics_ok env fs_open fs_fstat st ->
  run_events draw env fs_open fs_fstat patient ls (new_process ks st size b) ->
  Z.of_nat (sum_list_with label_bytes ls) <= LONG_MAX ->
  prun draw env fs_open fs_fstat ls (new_process ks st size b) = Some p ->
  pr_crashed p = false /\
  forall n fd, pr_fds p !! n = Some fd ->
    let '(out, ts, closed, _) := serve_reads the_file fd (reads_of n p) in
    let es := tagged (ByConn n) (pr_trace p) in
    wire es `prefix_of` out /\
    (Forall (fun l => l = []) (pr_todo p) ->
     tasks_of es = ts /\ Forall (about fd) es /\
     match current n fd p with
     | Some c => out = wire es ++ pending c
     | None => closed = true /\ (HungUp ∉ reads_of n p -> out = wire es)
     end).
Proof.
  intros [Hf Hc] Ev Hsz R.
  pose proof (patient_protocol env fs_open fs_fstat sizes) as Pp.
  assert (reactors_ok env fs_open fs_fstat (owed env fs_open fs_fstat) (sum_list_with label_bytes ls) p) as Ro.
  { eapply (prun_reactors draw env fs_open fs_fstat sizes ample _ patient ls 0);
      [exact Ev | exact Hsz | by apply new_process_reactors | exact R]. }
  split; [apply Ro|]. intros n fd L. destruct (ro_reactor _ _ _ _ _ _ Ro n fd L) as (r & Rr & Lr).
  apply lookup_lt_is_Some_2 in Lr as [l Lr]. pose proof (ro_out _ _ _ _ _ _ Ro n fd r l L Rr Lr) as Ot.
  unfold owed, out_of in Ot. destruct (serve_reads _ _ _) as [[[out ts] closed] buf]. destruct Ot as (Ht & Ab & Oc). split.
  - rewrite wire_app in Oc. destruct (current n fd p) as [c|].
    + destruct Oc as [-> _]. rewrite <- app_assoc. by apply prefix_app_r.
    + destruct Oc as (_ & Pf & _). by eapply prefix_app_l.
  - intros Td. rewrite Forall_lookup in Td. rewrite (Td r l Lr) in Ht, Ab, Oc. rewrite app_nil_r in Ht, Ab, Oc.
    split; [done|]. split; [done|]. destruct (current n fd p); [by destruct Oc | by destruct Oc as (? & _ & ?)].
Qed.

End Process.

(** ** Witnesses *)

(** The conditions, as checks. *)
Definition quickb (ev : life_event) : bool :=
  forallb (fun r => bool_decide (steady r)) (ev_writes ev) && forallb (fun r => bool_decide (steady r)) (ev_sends ev).

Definition one_requestb (q : bool) (fd : Z) (b : bytes) : bool :=
  match frame b with
  | Framed request headers rest =>
      match frame rest with NeedMore => true | _ => false end &&
      match dbHandler (parseMethod request) (parseUrl request) with
      | Some h => q || match (db_answer fd h request (wantKeepAlive request headers)).1 with [] => true | _ => false end
      | None => true
      end
  | _ => true
  end.

Lemma one_requestb_ok (q : bool) (Q : Prop) fd b : (q = true -> Q) -> one_requestb q fd b = true -> one_request Q fd b.
Proof.
  intros Hq. unfold one_requestb, one_request. destruct (frame b) as [| | |request headers rest]; try done.
  destruct (frame rest); try done. intros Hd. split; [done|]. intros h Eh. rewrite Eh in Hd.
  destruct q; [by left; apply Hq|]. right. by destruct (db_answer fd h request _).1.
Qed.

Definition patientb (c : Conn) (ev : life_event) : bool :=
  (0 <=? ev_mask ev) && (ev_mask ev <? 2 ^ 32) &&
  forallb (fun r => bool_decide (benign r)) (ev_writes ev) && forallb (fun r => bool_decide (benign r)) (ev_sends ev) &&
  forallb (fun r => bool_decide (read_fits r)) (ev_reads ev) &&
  match observed ev with
  | Some (Arrived b) =>
      match pending c with [] => true | _ => false end && one_requestb (quickb ev) (c_fd c) (c_inputBuffer c ++ b)
  | _ => true
  end.

Lemma all_decided {A} (P : A -> Prop) `{!forall x, Decision (P x)} l :
  forallb (fun x => bool_decide (P x)) l = true -> Forall P l.
Proof.
  intros F. apply Forall_forall. intros x I. rewrite forallb_forall in F.
  apply list_elem_of_In, F in I. by apply bool_decide_eq_true in I.
Qed.

Lemma patientb_ok c ev : patientb c ev = true -> patient c ev.
Proof.
  unfold patientb, patient. rewrite !andb_true_iff. intros [[[[[M1 M2] Bw] Bs] Br] Hev].
  split; [split; [by apply Z.leb_le | by apply Z.ltb_lt]|]. split; [by split; apply (all_decided benign)|].
  split; [by apply (all_decided read_fits)|]. intros b Eb. rewrite Eb in Hev. apply andb_true_iff in Hev as [Hp One].
  split; [by destruct (pending c)|]. eapply one_requestb_ok; [|exact One].
  unfold quickb. intros [Q1 Q2]%andb_true_iff. split; by apply (all_decided steady).
Qed.

Section Checked.
Context {K S D G : Type} `{EpollKernel K} `{SessionStore S} `{MysqlServer D}.
Context (draw : G -> nat * G) (env : environment) (fs_open : bytes -> Z) (fs_fstat : Z -> option (bool * Z)).

Fixpoint run_patient (ls : list (plabel (S := S))) (p : @process K S D G) : bool :=
  match ls with
  | [] => true
  | l :: ls =>
      match l with
      | PEvent fd ev => match pr_conns p !! fd with Some (_, c) => patientb c ev | None => true end
      | _ => true
      end &&
      match pstep draw env fs_open fs_fstat l p with Some p' => run_patient ls p' | None => true end
  end.

Lemma run_patient_ok ls p : run_patient ls p = true -> run_events draw env fs_open fs_fstat patient ls p.
Proof.
  revert p. induction ls as [|l ls IH]; intros p; simpl; [done|]. intros [Hl Hr]%andb_true_iff. split.
  - destruct l as [|fd ev| |]; simpl; try done. intros n c L. rewrite L in Hl. by apply patientb_ok.
  - destruct (pstep _ _ _ _ _ _); [by apply IH | done].
Qed.

End Checked.

(** The slow client of [Process] up to the end of its answer; then it asks for
    the page, of which the socket takes two bytes of the body at first, and to
    close. The other client logs in without credentials, is turned down, and hangs
    up. *)
Definition patient_schedule : list (plabel (S := gmap bytes bytes * RedisPool)) :=
  take 9 slow_schedule ++
  [PEvent 7 (mkEvent EPOLLIN [Data (message [bs "GET / HTTP/1.1"; bs "Connection: close"] [])] [] [Accept 2; Errno EAGAIN]);
   PEffect 1; PEffect 1; PEffect 1;
   PEvent 8 (mkEvent EPOLLIN [Data (message [bs "POST /login HTTP/1.1"] [])] [] []); PEffect 0;
   PEvent 8 (mkEvent (Z.lor EPOLLIN EPOLLRDHUP) [Data []] [] []); PEffect 0].

Definition patient_process : process :=
  default start_process (prun count_draw no_env page_open page_stat patient_schedule start_process).

Lemma patient_runs : prun count_draw no_env page_open page_stat patient_schedule start_process = Some patient_process.
Proof. vm_compute. reflexivity. Qed.

Lemma patient_events : run_events count_draw no_env page_open page_stat patient patient_schedule start_process.
Proof. apply run_patient_ok. vm_compute. reflexivity. Qed.

Lemma patient_bytes : Z.of_nat (sum_list_with label_bytes patient_schedule) <= LONG_MAX.
Proof. by vm_compute. Qed.

Lemma slow_clients_lose_nothing_witness :
  pr_crashed patient_process = false /\
  exists c, current 0 7 patient_process = Some c /\ c_closeAfterWrite c = true /\ pending c = file_items 9 2 3 /\
    (OByte <$> buildHttpResponse 200 (bs "text/html") (getResponse (bs "/hello")) true) ++ page_answer (9, 5) (bs "/") false =
      wire (tagged (ByConn 0) (pr_trace patient_process)) ++ pending c.
Proof.
  destruct (slow_clients_lose_nothing count_draw no_env page_open page_stat page_sizes table_ample [∅; ∅]
    (mkStatics [100] 0 0 None) 1 (service_backend fresh_world) patient_schedule patient_process) as [Cr Lose];
    [apply busy_statics | apply patient_events | apply patient_bytes | apply patient_runs |].
  split; [exact Cr|]. specialize (Lose 0%nat 7 ltac:(vm_compute; reflexivity)).
  destruct (serve_reads _ _ _) as [[[out ts] closed] buf] eqn:Sv. destruct Lose as [_ Lose].
  destruct Lose as (_ & _ & Oc); [vm_compute; by repeat constructor|].
  destruct (current 0 7 patient_process) as [c|] eqn:Ec; [|exfalso; revert Ec; vm_compute; done].
  exists c. split; [done|]. revert Ec Sv Oc. vm_compute. intros [= <-] [= <- <- <- <-] Oc. split; [done|]. split; [done|]. exact Oc.
Defined.
