(* ===== verification/Buffer.v ===== *)
(** * The client's buffer (src/Buffer.cpp)

    [Buffer], used by the demo client, is a vector of characters that [c_str]
    terminates in place. *)

From S2P Require Import Prelude CppString Config.

(** ** Buffer *)

Definition buf_append (str : option bytes) (size : Z) (buf_ : bytes) : bytes :=
  match str with
  | None => buf_
  | Some str => if size <=? 0 then buf_ else buf_ ++ take (Z.to_nat size) str
  end.

Definition buf_size (buf_ : bytes) : Z :=
  if bool_decide (last buf_ = Some NUL) then str_size buf_ - 1 else str_size buf_.

(** The C string returned, and the buffer it now points into. *)
Definition buf_c_str (buf_ : bytes) : bytes * bytes :=
  match buf_ with
  | [] => ([], [])
  | _ => let buf_ := if bool_decide (last buf_ = Some NUL) then buf_ else buf_ ++ [NUL] in (c_str buf_, buf_)
  end.

Definition buf_clear (_ : bytes) : bytes := [].

(** [std::getline] read this line. *)
Definition buf_getline (line : bytes) (_ : bytes) : bytes := line.

Definition buf_setBuf (str : option bytes) (_ : bytes) : bytes :=
  match str with None => [] | Some str => c_str str end.

(** Terminating the buffer shows its text and does not change its size, and a
    second call changes nothing. *)
Lemma buf_c_str_text s : NUL ∉ s ->
  (buf_c_str s).1 = s /\ buf_size (buf_c_str s).2 = buf_size s /\ buf_c_str (buf_c_str s).2 = buf_c_str s.
Proof.
  intros N. destruct s as [|c s]; [done|].
  assert (last (c :: s) <> Some NUL) as L.
  { intros L. apply last_Some in L as [l L]. rewrite L in N. set_solver. }
  assert (buf_c_str (c :: s) = (c :: s, (c :: s) ++ [NUL])) as E.
  { unfold buf_c_str. by rewrite bool_decide_false, c_str_app_nul. }
  rewrite E. cbn [fst snd]. split; [done|]. split.
  - unfold buf_size. rewrite bool_decide_true by apply last_snoc. rewrite bool_decide_false by done.
    unfold str_size. rewrite length_app. simpl. lia.
  - unfold buf_c_str. change ((c :: s) ++ [NUL]) with (c :: (s ++ [NUL])). cbv beta iota.
    rewrite bool_decide_true by apply (last_snoc NUL (c :: s)).
    change (c :: (s ++ [NUL])) with ((c :: s) ++ [NUL]). by rewrite c_str_app_nul.
Qed.

(** Text appended to a buffer that [c_str] has terminated is behind the NUL: it
    counts for the size and does not show. *)
Example append_after_c_str :
  let b := buf_append (Some (bs "two")) 3 (buf_c_str (bs "one")).2 in
  (buf_c_str b).1 = bs "one" /\ buf_size b = 7.
Proof. by split; vm_compute. Qed.
