(* ===== verification/Client.v ===== *)
(** * The demo client (test/client.cpp)

    It connects, sends the lines of its input one at a time and, for each, reads
    until it has at least as many bytes as it sent, which it prints. The calls
    are answered by scripts, as for the server. *)

From S2P Require Import Prelude CppString Config Channel Socket Connection Buffer.

(** ** The loop over one answer *)

(** How the inner loop is left: with a message to print, by [exit], or not at
    all while [read] blocks. *)
Inductive client_end : Type :=
| Printed (text : bytes)
| Disconnected          (* exit(EXIT_SUCCESS) *)
| Blocked.

(** [size] is [sendBuffer.size()]; [read] fills an array of 1024 bytes. *)
Fixpoint read_answer (script : list read_ret) (size : Z) (readBuffer : bytes) (already_read : Z) :
    list read_ret * client_end :=
  match script with
  | [] => ([], Blocked)
  | r :: script =>
      match r with
      | Data d =>
          let d := take 1024 d in
          let read_bytes := str_size d in
          if 0 <? read_bytes then
            let readBuffer := buf_append (Some d) read_bytes readBuffer in
            let already_read := to_int (already_read + read_bytes) in
            if size <=? already_read then (script, Printed (buf_c_str readBuffer).1)
            else read_answer script size readBuffer already_read
          else (script, Disconnected)
      | ReadErrno _ =>
          if size <=? already_read then (script, Printed (buf_c_str readBuffer).1)
          else read_answer script size readBuffer already_read
      end
  end.

(** ** The program *)

(** One line of input, the answer to its [write], and those to the [read]s. *)
Record client_turn : Type := mkTurn { t_line : bytes; t_write : io_ret; t_reads : list read_ret }.

Inductive client_exit : Type := ExitSuccess | ExitFailure | Running_.

(** What was sent and printed, and how the program ended; [readBuffer] is empty
    at the start of every turn. *)
Fixpoint client_loop (turns : list client_turn) : list bytes * list bytes * client_exit :=
  match turns with
  | [] => ([], [], Running_)
  | t :: turns =>
      let sendBuffer := buf_getline (t_line t) [] in
      let '(text, sendBuffer) := buf_c_str sendBuffer in
      match t_write t with
      | Errno _ => ([], [], ExitFailure)
      | Accept n =>
          let sent := take n (take (Z.to_nat (buf_size sendBuffer)) text) in
          match read_answer (t_reads t) (buf_size sendBuffer) (buf_clear []) 0 with
          | (_, Printed m) =>
              let '(s, p, e) := client_loop turns in (sent :: s, m :: p, e)
          | (_, Disconnected) => ([sent], [], ExitSuccess)
          | (_, Blocked) => ([sent], [], Running_)
          end
      end
  end.

(** ** Lemmas *)

Lemma read_answer_chunks cs d rest size buf n :
  Forall (fun c => c <> [] /\ (length c <= 1024)%nat) (cs ++ [d]) ->
  0 <= n -> n + str_size (mjoin cs) < size -> size <= n + str_size (mjoin cs) + str_size d < 2 ^ 31 ->
  read_answer ((Data <$> cs) ++ Data d :: rest) size buf n =
    (rest, Printed (buf_c_str (buf ++ mjoin cs ++ d)).1).
Proof.
  revert buf n. induction cs as [|c cs IH]; intros buf n F Hn Hlt Hle.
  - apply Forall_cons in F as [[Nd Ld] _]. cbn [fmap list_fmap app read_answer mjoin list_join].
    rewrite (take_ge d) by lia. unfold str_size in *. simpl in *.
    destruct (0 <? Z.of_nat (length d)) eqn:P; [|destruct d; [done | simpl in *; bool_lia]].
    unfold to_int. rewrite wrap_s_small by lia.
    destruct (size <=? n + Z.of_nat (length d)) eqn:Q; [|bool_lia].
    unfold buf_append. destruct (_ <=? 0) eqn:Z; [bool_lia|]. by rewrite Nat2Z.id, take_ge.
  - apply Forall_cons in F as [[Nc Lc] F]. rewrite fmap_cons. cbn [app read_answer].
    rewrite (take_ge c) by lia. unfold str_size in *.
    change (mjoin (c :: cs)) with (c ++ mjoin cs) in *. rewrite length_app in *.
    destruct (0 <? Z.of_nat (length c)) eqn:P; [|destruct c; [done | simpl in *; bool_lia]].
    unfold to_int. rewrite wrap_s_small by lia.
    destruct (size <=? n + Z.of_nat (length c)) eqn:Q; [bool_lia|].
    unfold buf_append. destruct (_ <=? 0) eqn:Z; [bool_lia|]. rewrite Nat2Z.id, take_ge by lia.
    rewrite IH; [by rewrite <- !app_assoc | done | lia | lia | lia].
Qed.

(** A line that is answered by at least as many bytes, in however many pieces,
    is sent, and the answer is printed. *)
Lemma client_line_answered line cs d n turns :
  NUL ∉ line -> NUL ∉ mjoin cs ++ d -> Forall (fun c => c <> [] /\ (length c <= 1024)%nat) (cs ++ [d]) ->
  (length line <= n)%nat ->
  str_size (mjoin cs) < str_size line -> str_size line <= str_size (mjoin cs) + str_size d < 2 ^ 31 ->
  client_loop (mkTurn line (Accept n) ((Data <$> cs) ++ [Data d]) :: turns) =
    let '(s, p, e) := client_loop turns in (line :: s, (mjoin cs ++ d) :: p, e).
Proof.
  intros Nl Na F Hn Hlt Hle. cbn [client_loop t_line t_write t_reads]. unfold buf_getline.
  destruct (buf_c_str_text line Nl) as (E1 & E2 & _). destruct (buf_c_str line) as [text sb]. simpl in E1, E2.
  assert (buf_size sb = str_size line) as ->.
  { rewrite E2. unfold buf_size. rewrite bool_decide_false; [done|]. intros L.
    apply last_Some in L as [l L]. rewrite L in Nl. set_solver. }
  rewrite (read_answer_chunks cs d [] _ _ 0) by (done || lia). subst text.
  destruct (client_loop turns) as [[s p] e]. unfold str_size. rewrite Nat2Z.id, (take_ge line (length line)) by lia.
  rewrite take_ge by lia. cbn [app buf_clear]. destruct (buf_c_str_text _ Na) as (-> & _). done.
Qed.

(** A failing [read] is ignored: the loop asks again, and as long as the calls
    fail, whatever the error, it does nothing else. *)
Lemma read_error_spins size buf n es :
  n < size -> read_answer (ReadErrno <$> es) size buf n = ([], Blocked).
Proof.
  intros L. induction es as [|e es IH]; [done|]. rewrite fmap_cons. cbn [read_answer].
  destruct (size <=? n) eqn:B; [bool_lia | done].
Qed.

Example client_session :
  client_loop [mkTurn (bs "hello") (Accept 5) [Data (bs "he"); ReadErrno EINTR; Data (bs "llo!")];
               mkTurn (bs "bye") (Accept 3) [Data []]] =
  ([bs "hello"; bs "bye"], [bs "hello!"], ExitSuccess).
Proof. reflexivity. Qed.
