(* ===== verification/Log.v ===== *)
(** * Logging (src/Log.cpp, include/Log.h)

    The adapter over spdlog: [logf] formats into a fixed buffer and hands one line
    to the process-wide logger, which is made on first use. spdlog and its
    formatting are third-party code: the logger is its configuration and the lines
    it was given, and formatting is a function of the format string and its
    arguments. *)

From S2P Require Import Prelude CppString Config.

(** ** File names *)

(** [strrchr(path, '/')] and what follows, or the whole path. *)
Fixpoint baseName (path : bytes) : bytes :=
  match path with
  | [] => []
  | c :: rest => if bool_decide ("/"%char ∈ rest) then baseName rest
                 else if decide (c = "/"%char) then rest else path
  end.

(** The directory is dropped and the name kept. *)
Lemma baseName_app dir name : "/"%char ∉ name -> baseName (dir ++ "/"%char :: name) = name.
Proof.
  intros N. induction dir as [|c dir IH]; cbn [app baseName].
  - rewrite bool_decide_false by done. by rewrite decide_True.
  - rewrite bool_decide_true by set_solver. done.
Qed.

Lemma baseName_plain name : "/"%char ∉ name -> baseName name = name.
Proof.
  destruct name as [|c name]; intros N; [done|]. cbn [baseName].
  rewrite bool_decide_false by set_solver. by rewrite decide_False by set_solver.
Qed.

(** ** The logger *)

Inductive Level : Type := Info | Warn | Error_.

Definition level_rank (l : Level) : nat := match l with Info => 0 | Warn => 1 | Error_ => 2 end.

Inductive sink : Type :=
| rotating_file_sink (file : bytes) (max_size max_files : Z)
| stderr_color_sink.

Inductive overflow_policy : Type := overflow_block | overflow_overrun_oldest.

Record logger : Type := mkLogger {
  lg_queue : Z;
  lg_threads : Z;
  lg_sinks : list sink;
  lg_overflow : overflow_policy;
  lg_pattern : bytes;
  lg_level : Level;
  lg_flush_on : Level;
  lg_flush_every : Z
}.

Definition makeLogger (env : environment) : logger :=
  let file := envOr env "MYSERVER_LOG_FILE" [] in
  let sinks := if negb (bool_decide (file = []))
               then [rotating_file_sink file (10 * 1024 * 1024) 5]
               else [stderr_color_sink] in
  mkLogger 8192 1 sinks overflow_block (bs "%H:%M:%S.%f [%^%L%$] %t %v") Info Warn 1.

(** The static logger once it is made, and the lines it was given: where they
    go, their level, and whether they are flushed at once. *)
Record log_state : Type := mkLog {
  log_static : option logger;
  log_lines : list (list sink * Level * bytes * bool)
}.

Definition get (env : environment) (s : log_state) : logger * log_state :=
  match log_static s with
  | Some l => (l, s)
  | None => let l := makeLogger env in (l, mkLog (Some l) (log_lines s))
  end.

Section Logf.
Context (env : environment).

(** fmt's formatting of a runtime format string, as spdlog calls it. *)
Context (fmt_format : bytes -> list bytes -> bytes).

(** [get().info(fmt, args...)] and the like: filtered by level, flushed from the
    flush level on. *)
Definition log_call (level : Level) (fmt : bytes) (args : list bytes) (s : log_state) : log_state :=
  let '(l, s) := get env s in
  if (level_rank (lg_level l) <=? level_rank level)%nat
  then mkLog (log_static s) (log_lines s ++
         [(lg_sinks l, level, fmt_format fmt args, (level_rank (lg_flush_on l) <=? level_rank level)%nat)])
  else s.

(** [vsnprintf] into [msg], 1024 bytes: the text cut to what fits before the
    NUL. [None] is a negative result. *)
Definition msg_capacity : nat := 1024.

Definition vsnprintf (text : option bytes) : option bytes :=
  match text with None => None | Some t => Some (take (msg_capacity - 1) t) end.

(** [logf], for the text its format and arguments come to. *)
Definition logf (level : Level) (file : bytes) (line : Z) (text : option bytes) (s : log_state) : log_state :=
  match vsnprintf text with
  | None => s
  | Some msg => log_call level (bs "{}:{}: {}") [baseName file; to_string line; c_str msg] s
  end.

(** fmt replaces each "{}" by the next argument and does not look into the
    arguments. *)
Context (fmt_braces : forall a b c, fmt_format (bs "{}:{}: {}") [a; b; c] = a ++ bs ":" ++ b ++ bs ": " ++ c).

(** The sinks the process logs to. *)
Definition process_sinks : list sink := lg_sinks (makeLogger env).

(** The logger, once made, is the one of the environment. *)
Definition log_ok (s : log_state) : Prop := log_static s = None \/ log_static s = Some (makeLogger env).

(** One call, one line. A message that formats is logged once, whatever
    percent signs or braces it holds, as "file:line: " with the base name of the
    file and at most the first 1023 bytes of the text (up to a NUL), to the file
    named in the environment or to stderr, flushed at once from warnings on; a
    message that does not format leaves everything as it was, and the logger is
    made at most once. *)
Theorem logf_one_line level dir name line text s :
  log_ok s -> "/"%char ∉ name ->
  let s' := logf level (dir ++ "/"%char :: name) line text s in
  log_ok s' /\
  match text with
  | None => s' = s
  | Some t => log_lines s' = log_lines s ++
      [(process_sinks, level, name ++ bs ":" ++ to_string line ++ bs ": " ++ c_str (take 1023 t),
        match level with Info => false | _ => true end)]
  end.
Proof.
  intros Ok N s'. subst s'. unfold logf, vsnprintf. destruct text as [t|]; [|done].
  unfold log_call, get. rewrite baseName_app by done.
  destruct Ok as [E|E]; rewrite E; rewrite fmt_braces; simpl; (split; [by right | by destruct level]).
Qed.

End Logf.

(** ** Witnesses *)

(** A formatter that puts the arguments into the places of this format. *)
Definition join_format (_ : bytes) (args : list bytes) : bytes :=
  match args with
  | [a; b; c] => a ++ bs ":" ++ b ++ bs ": " ++ c
  | _ => []
  end.

Definition file_env : environment :=
  fun name => if bool_decide (name = "MYSERVER_LOG_FILE"%string) then Some (bs "/tmp/log") else None.

Lemma logf_one_line_witness :
  let s' := logf file_env join_format Warn (bs "src/Epoll.cpp") 34 (Some (bs "100% {}")) (mkLog None []) in
  log_ok file_env s' /\
  log_lines s' = [([rotating_file_sink (bs "/tmp/log") 10485760 5], Warn, bs "Epoll.cpp:34: 100% {}", true)].
Proof.
  apply (logf_one_line file_env join_format (fun a b c => eq_refl) Warn (bs "src") (bs "Epoll.cpp") 34
           (Some (bs "100% {}")) (mkLog None [])); [by left | by_decide].
Defined.
